(* ===== verification/_CoqProject ===== *)
-Q . S2P
Prelude.v
Bytes.v
Text.v
Common.v
Metrics.v
Messages.v
Codec.v
Compression.v
DiskRecord.v
Instances.v
FileSystem.v
OffsetIndex.v
Retention.v
Segment.v
Partition.v
Recovery.v
Topic.v
OffsetManager.v
Cluster.v
Replication.v
Coordinator.v
Server.v
ServerRuns.v
Process.v
Crashes.v
ServerGroups.v
Tasks.v
Linear.v
Races.v
Partitioner.v
Client.v
Producer.v
Consumer.v
ClientRuns.v
GroupRuns.v
StorageWitnesses.v
ProtocolWitnesses.v
BrokerWitnesses.v
ServerWitnesses.v
ClientWitnesses.v
GroupWitnesses.v
CrashWitnesses.v
