(* ===== verification/Prelude.v ===== *)
(** * Gaffa: a verification development

    Gaffa is a message broker in the style of Kafka, in Rust: clients create topics,
    produce messages to their partitions, fetch them back by offset, join consumer groups
    and commit offsets.  This development models the broker, its storage and its client
    library as executable definitions, and proves what a client may rely on.

    ** The parts of the program and their files

    - [Prelude] (this file): outcomes of Rust calls, a state and outcome monad, machine
      integers, lists, and the interface of hash collections.
    - [Bytes], [Text]: what the code uses of the standard library: big-endian integers and
      exact reads, decimal printing and parsing, splitting, lines, UTF-8 validity.
    - [Common], [Messages]: [src/common] and [src/protocol/src/messages.rs], errors with
      their texts, configuration, the data of the wire protocol.
    - [Codec]: [src/protocol/src/codec.rs], length-prefixed frames in both directions.
    - [Compression], [DiskRecord], [OffsetIndex], [Retention], [Segment], [Partition],
      [Topic]: the files of [src/storage/src] of the same names.  A record is framed with
      its length and checksum; a segment is a log file with a sparse index; a partition is
      a sequence of segments; a topic a list of partitions; the manager a map of topics.
    - [Recovery]: what opening a partition gives after the process stopped inside an append,
      after any byte of it, or a rotation.  [Crashes]: what the next broker then serves.
    - [FileSystem]: a disk as a map of files and a set of directories, open files with a
      cursor, memory mappings as snapshots.
    - [OffsetManager]: [src/broker/src/offset_manager.rs], committed offsets in memory and
      in one text file per group.
    - [Cluster], [Replication]: [cluster.rs] and [replication.rs] of the broker, replicas,
      in-sync sets, high watermarks, elections, health checks.
    - [Coordinator]: [coordinator.rs], consumer groups and round-robin rebalancing.
    - [Server], [ServerRuns]: [server.rs], the dispatch of requests over all of these,
      connections, background ticks, starts and restarts.  [Process]: [main.rs] and the
      start of [run], a process from its start to its stop, and processes one after the
      other on one disk.  [ServerGroups]: the group requests against the topics of the
      broker.
    - [Metrics]: [metrics.rs], the metrics, their registration on first use, their export.
    - [Tasks], [Linear]: every request again, as the steps in which the tasks of the
      connections interleave ([server.rs], [create_topic] of [topic.rs], [commit_offset] of
      [offset_manager.rs], [handle_replication_fetch] of [replication.rs]), and the atomic
      broker they refine.  [Races]: interleavings that no atomic broker shows.
    - [Partitioner], [Producer], [Consumer]: the files of [src/client/src] of the same
      names.  [Client] is what they share: a connection that carries requests, a class,
      and the contract of a broker behind it, a class that the server of [Server]
      implements.  [ClientRuns] composes a producer, a broker and a consumer, [GroupRuns] a
      broker and the members of a consumer group.
    - [Instances]: concrete third-party functions; [StorageWitnesses], [ProtocolWitnesses],
      [BrokerWitnesses], [ServerWitnesses], [ClientWitnesses], [GroupWitnesses],
      [CrashWitnesses]: theorems with hypotheses applied to concrete data.

    ** How the code is modelled

    Structs are records and enums inductive types, with the names of the source; a method
    [T::m] is [T_m], or [m] where that is unambiguous.  A method that changes its receiver
    or the disk is a function of type [Method S A]: it takes the state and returns the new
    one with an outcome [Ok], [Err] or [Panic], also when it returns early, so that what
    an error leaves behind is visible.  Panics (slices and indices out of range, divisions
    by zero) are outcomes; theorems that a call returns [Ok] exclude them.  Unsigned
    integers are integers in their range; arithmetic wraps ([w32], [w64]) as in the release
    profile.  Loops over data are structural recursions.  The loops over the bytes of a log are
    a turn ([scan_turn], [read_turn], [batch_turn]) that [run_loop] repeats, with as much
    fuel as there are bytes; [loop_ends] is the same loop without fuel, and
    [segment_scans_end] shows that it always ends within that fuel, in the same result.
    The fuel of the binary search is the number of entries, and its specification shows
    that it suffices.

    Third-party code is a class of operations with a class of laws: the CRC ([Crc32]), the
    compressors ([CompressionLib]), the serializer ([Bincode]), the metrics registry
    ([Prometheus]).  The order in which hash
    maps and sets are visited is the class [HashIter], whose law is only that every element
    is visited once; all theorems hold for every order.  Clocks and random identifiers are
    arguments.

    ** What is proved

    - Storage, bottom up: records decode to what was encoded, and every truncation and
      checksum mismatch is an error ([DiskRecord]); the index finds the floor of an offset
      ([OffsetIndex]); a segment is a log of records that appends extend and reads return,
      and that a scan recovers from any torn tail ([Segment]); a partition refines a list
      of messages, through rotation and reopening ([Partition]); a crash inside an append,
      after any byte of a record or of an index entry, loses nothing of what was there and
      leaves a prefix of the batch ([Partition_crash_recovers]); the manager refines a map
      of lists, and restarts ([Topic]).
    - Protocol: a stream of frames cut into any chunks decodes to the messages sent.
    - Offsets: any sequence of commits, deletions and restarts refines a finite map; the
      writes of concurrent commits of one group, interleaved in any way, agree.
    - Groups: rebalancing partitions the subscribed partitions among the members, evenly;
      no operation assigns a partition twice or leaves an empty group.
    - Cluster: in every state that the operations reach, each partition has a leader among
      its in-sync replicas ([leader_in_sync_invariant]); elections and health checks
      replace failed leaders; replicas are assigned round-robin to distinct alive brokers;
      the loop of a follower keeps to the end of its own log until its broker leads
      ([follower_step_settles], [follower_loop_follows]).
    - Server: [Server_holds s b room] relates a broker to an abstract one ([broker_spec]:
      messages per partition, committed offsets).  [process_request_refines] shows that
      every request is answered as the abstract broker allows ([response_ok] says what
      that is for each of the fourteen requests), [broker_run] that this
      holds from an empty disk for any interleaving of requests and background ticks, and
      [broker_restart] that it holds again after a stop.  [processes_refine] carries it
      over any number of processes on one disk, and [produce_crash_recovers] over a process
      that dies in the middle of a produce: the requests that read ([reads]) are answered as
      after the messages that were complete; when it died between two messages, the broker
      resumes as if it had been given the first ones only ([produce_crash_resumes]).
      [join_covers]: a join leaves every partition of its topics to exactly one member of
      the group.
    - Tasks: a task that runs alone does what [process_request] does, for every request
      (the lemma [task_alone] ties the two models of [server.rs] together).  Tasks that interleave in any way answer as an atomic broker
      does, one request at a time, in an order that respects the order of the answers
      ([tasks_linearizable]), when each has one effect ([one_effect]: all requests but the
      metadata of several topics and replication fetches).  The exceptions: two creations
      of one topic lose acknowledged messages ([concurrent_creates_lose_messages]), two
      produces may report their offsets in the wrong order ([produce_reports_race]), and
      metadata may mix several states ([metadata_not_atomic]).
    - Clients, against the contract of [Client]: a producer appends to every partition the
      messages that its partitioner sends there ([send_batch_auto_spec]); a consumer that
      polls while others append reads every log from where it started, each message once
      and in order ([polls_exactly_once]), and reaches its end ([polls_drain]); the
      members of a group, which join, poll with automatic commits and go away, together read
      every partition once, as long as no partition is held by two of them at a time
      ([group_exactly_once]); what is sent is read ([send_then_poll]).
    - Retention: what is deleted is the longest prefix of segments that the limits of the
      policy, stated apart from the code's test, and the minimum of segments allow
      ([segments_to_delete_spec]).
    - Metrics: all of them can be registered, in any order ([metrics_register]).

    The storage theorems carry a number [room] of messages that can still be appended: an
    index that was opened again overwrites its first entry at its next write
    ([OffsetIndex_reopen_append_panics]), so that only one index interval of messages is
    safe after a restart; for new partitions [room] is any number.

    Theorems on faults state what the code does where it does not do what it is meant to:
    [DiskRecord_decode_panics], [LogSegment_append_error], [colon_topic_lost],
    [commit_stop_loses_offsets], [high_watermark_regresses],
    [failed_broker_reelects_itself], [stale_broker_bumps_epochs],
    [restart_forgets_leaders], [zero_factor_create_panics], [sticky_out_of_range],
    [poll_error_skips_records], [rejoin_leaks_heartbeat], [rebalance_not_announced],
    [shared_partition_read_twice], [stale_commit_rewinds], [replication_never_confirms],
    [rotation_crash_loses_topic], [torn_tail_swallows_appends], [export_unused] and others.

    ** What is not modelled

    - I/O errors other than missing files; directory entries with separators in their
      names.  The code joins the names of topics and groups to a directory without looking
      at them; a name is one path component of the model whatever it holds.  So the theorems
      are about names without separators, and other than [.] and [..]: such names reach
      other directories, or none.
    - The space that the decoder of frames reserves, which changes no result.
    - In [Server] a request is one step and reads the clock once, and the order of
      concurrent requests is arbitrary; [Tasks] splits the requests at the locks they take.
      An append to a partition is one step of a task, since it holds the lock of the
      partition, and so are every operation of the group coordinator and the assignment of
      the replicas of one partition, which no other step reads.  The writes of one offsets
      file have their own interleaving in [OffsetManager].
    - A crash leaves what was written before it, in order; the loss of writes that the
      system had not flushed is not modelled.
    - The sockets, the accept loop, task spawning and timers of [server.rs], of the
      replication loop and of the clients: a transport error of a client is an outcome of
      its connection, and a round of its heartbeat task is a step.
    - The set-up of the logging in [main.rs]; the values of the metrics, which nothing
      updates. *)
From stdpp Require Export base tactics option list list_numbers numbers gmap
  strings fin_maps fin_sets sorting.
From Stdlib Require Export ZArith Lia.

Open Scope Z_scope.

(** ** Outcomes

    A Rust call returns [Ok], returns [Err e], or panics (an out-of-range slice,
    an index past the end, a division by zero, an impossible allocation).  A panic
    unwinds the task that runs it, so it stops the computation like an error does,
    but no code of the program can observe it. *)
Inductive outcome (E A : Type) : Type :=
  | Ok (a : A)
  | Err (e : E)
  | Panic.
Arguments Ok {E A} a.
Arguments Err {E A} e.
Arguments Panic {E A}.

#[export] Instance outcome_ret {E} : MRet (outcome E) := @Ok E.
#[export] Instance outcome_bind {E} : MBind (outcome E) := λ A B f m,
  match m with Ok a => f a | Err e => Err e | Panic => Panic end.
#[export] Instance outcome_fmap {E} : FMap (outcome E) := λ A B f m,
  match m with Ok a => Ok (f a) | Err e => Err e | Panic => Panic end.

(** Result of [Option::ok_or]. *)
Definition ok_or {E A} (e : E) (o : option A) : outcome E A :=
  match o with Some a => Ok a | None => Err e end.

Lemma outcome_bind_Ok {E A B} (a : A) (f : A → outcome E B) : (Ok a ≫= f) = f a.
Proof. done. Qed.
Lemma outcome_bind_Err {E A B} (e : E) (f : A → outcome E B) : (Err e ≫= f) = Err e.
Proof. done. Qed.
Lemma outcome_bind_Ok_inv {E A B} (m : outcome E A) (f : A → outcome E B) b :
  (m ≫= f) = Ok b → ∃ a, m = Ok a ∧ f a = Ok b.
Proof. destruct m as [a|e|]; simpl; [eauto|done|done]. Qed.

(** ** Computations with state and outcomes

    A method that mutates its receiver keeps the mutations it made before an early
    return: the state is returned beside the outcome whatever the outcome is. *)
Definition eff (S E A : Type) : Type := S → S * outcome E A.

#[export] Instance eff_ret {S E} : MRet (eff S E) := λ A a s, (s, Ok a).
#[export] Instance eff_bind {S E} : MBind (eff S E) := λ A B f m s,
  match m s with
  | (s', Ok a) => f a s'
  | (s', Err e) => (s', Err e)
  | (s', Panic) => (s', Panic)
  end.

Definition eff_get {S E} : eff S E S := λ s, (s, Ok s).
Definition eff_put {S E} (s : S) : eff S E unit := λ _, (s, Ok tt).
Definition eff_modify {S E} (f : S → S) : eff S E unit := λ s, (f s, Ok tt).
Definition eff_lift {S E A} (m : outcome E A) : eff S E A := λ s, (s, m).

Lemma eff_bind_eq {S E A B} (m : eff S E A) (f : A → eff S E B) s s' a :
  m s = (s', Ok a) → (m ≫= f) s = f a s'.
Proof. intros H. unfold mbind, eff_bind. by rewrite H. Qed.

(** ** Machine integers

    Unsigned integers are values of [Z] in their range; arithmetic wraps, as it does
    in the release profile of the workspace ([Cargo.toml] leaves overflow checks
    off there). *)
Definition w32 (x : Z) : Z := x mod 2 ^ 32.
Definition w64 (x : Z) : Z := x mod 2 ^ 64.
Definition is_u16 (x : Z) : Prop := 0 ≤ x < 2 ^ 16.
Definition is_u32 (x : Z) : Prop := 0 ≤ x < 2 ^ 32.
Definition is_u64 (x : Z) : Prop := 0 ≤ x < 2 ^ 64.
(** The cast [x as i32] of a wider integer. *)
Definition as_i32 (x : Z) : Z :=
  let y := w32 x in if y <? 2 ^ 31 then y else y - 2 ^ 32.
(** [usize] arithmetic and lengths: 64-bit targets. *)
Definition is_usize (x : Z) : Prop := 0 ≤ x < 2 ^ 64.

Lemma w64_small x : is_u64 x → w64 x = x.
Proof. apply Z.mod_small. Qed.
Lemma w32_small x : is_u32 x → w32 x = x.
Proof. apply Z.mod_small. Qed.
Lemma w64_range x : is_u64 (w64 x).
Proof. by apply Z.mod_pos_bound. Qed.
Lemma w32_range x : is_u32 (w32 x).
Proof. by apply Z.mod_pos_bound. Qed.
Lemma as_i32_small x : 0 ≤ x < 2 ^ 31 → as_i32 x = x.
Proof.
  intros Hx. unfold as_i32. rewrite w32_small by (unfold is_u32; lia).
  destruct (Z.ltb_spec x (2 ^ 31)); lia.
Qed.

Create HintDb gaffa discriminated.
#[export] Hint Resolve w64_range w32_range : gaffa.

(** ** Loops

    A turn of a loop leaves it with a result ([inl]) or goes on from a new state ([inr]).
    [run_loop] makes at most [fuel] turns, and returns [out] when they do not suffice. *)
Fixpoint run_loop {S R} (turn : S → R + S) (out : R) (fuel : nat) (s : S) : R :=
  match fuel with
  | O => out
  | Datatypes.S fuel => match turn s with inl r => r | inr s => run_loop turn out fuel s end
  end.

(** The loop without fuel, as a natural semantics: it ends in [r] after [n] turns.  A loop
    that goes on for ever has no derivation. *)
Inductive loop_ends {S R} (turn : S → R + S) : nat → S → R → Prop :=
  | loop_leave s r : turn s = inl r → loop_ends turn 1 s r
  | loop_turn n s s' r : turn s = inr s' → loop_ends turn n s' r → loop_ends turn (Datatypes.S n) s r.

(** A loop whose turns make the state smaller ends, and then fuel is only a device. *)
Lemma run_loop_ends {S R} (turn : S → R + S) (size : S → nat) out fuel s :
  (∀ s s', turn s = inr s' → (size s' < size s)%nat) → (size s < fuel)%nat →
  ∃ n, (n ≤ Datatypes.S (size s))%nat ∧ loop_ends turn n s (run_loop turn out fuel s).
Proof.
  intros Hturn. revert s. induction fuel as [|fuel IH]; intros s Hfuel; [lia|].
  cbn [run_loop]. destruct (turn s) as [r|s'] eqn:Ht.
  - exists 1%nat. split; [lia|]. by apply loop_leave.
  - specialize (Hturn _ _ Ht). destruct (IH s') as (n & Hn & He); [lia|].
    exists (Datatypes.S n). split; [lia|]. by eapply loop_turn.
Qed.

(** ** Lists *)
Section lists.
Context {A : Type}.
Implicit Types l k : list A.

Lemma list_filter_all (P : A → Prop) `{∀ x, Decision (P x)} l : Forall P l → filter P l = l.
Proof.
  induction 1 as [|x l Hx Hl IH]; [done|]. by rewrite filter_cons_True, IH.
Qed.

Lemma list_filter_none (P : A → Prop) `{∀ x, Decision (P x)} l :
  Forall (λ x, ¬ P x) l → filter P l = [].
Proof.
  induction 1 as [|x l Hx Hl IH]; [done|]. by rewrite filter_cons_False, IH.
Qed.

Lemma list_alter_None (f : A → A) l (i : nat) : l !! i = None → alter f i l = l.
Proof.
  intros Hi. apply list_eq. intros j. destruct (decide (j = i)) as [->|Hne].
  - by rewrite list_lookup_alter_eq, Hi.
  - by rewrite list_lookup_alter_ne.
Qed.
Lemma list_alter_Some (f : A → A) l (i : nat) x : l !! i = Some x → alter f i l = <[i := f x]> l.
Proof.
  intros Hi. apply list_eq. intros j. destruct (decide (j = i)) as [->|Hne].
  - rewrite list_lookup_alter_eq, Hi, list_lookup_insert_eq; [done|]. by eapply lookup_lt_Some.
  - by rewrite list_lookup_alter_ne, list_lookup_insert_ne.
Qed.

Lemma take_app_sum l k (n : nat) : (length l ≤ n)%nat → take n (l ++ k) = l ++ take (n - length l) k.
Proof. intros Hn. by rewrite take_app, take_ge. Qed.
End lists.

(** ** Hash maps and sets

    A [HashMap], [DashMap] or [HashSet] is a finite map or set; the order in which its
    elements are visited is a parameter, of which the code may only rely on each element
    being visited once.  Two collections with the same content are visited in the same
    order. *)
Class HashIter : Type := {
  map_iter : ∀ {K A : Type} `{Countable K}, gmap K A → list (K * A);
  set_iter : ∀ {K : Type} `{Countable K}, gset K → list K;
}.
Class HashIterLaws `{HashIter} : Prop := {
  map_iter_perm : ∀ {K A : Type} `{Countable K} (m : gmap K A), map_iter m ≡ₚ map_to_list m;
  set_iter_perm : ∀ {K : Type} `{Countable K} (X : gset K), set_iter X ≡ₚ elements X;
}.

Section hash.
Context `{HashIterLaws} {K A : Type} `{Countable K}.
Implicit Types (m : gmap K A) (X : gset K).

Lemma elem_of_map_iter m k x : (k, x) ∈ map_iter m ↔ m !! k = Some x.
Proof. by rewrite map_iter_perm, elem_of_map_to_list. Qed.
Lemma elem_of_set_iter X k : k ∈ set_iter X ↔ k ∈ X.
Proof. by rewrite set_iter_perm, elem_of_elements. Qed.
Lemma NoDup_map_iter m : NoDup (map_iter m).*1.
Proof. rewrite map_iter_perm. apply NoDup_fst_map_to_list. Qed.
Lemma NoDup_set_iter X : NoDup (set_iter X).
Proof. rewrite set_iter_perm. apply NoDup_elements. Qed.
Lemma elem_of_map_iter_keys m k : k ∈ (map_iter m).*1 ↔ is_Some (m !! k).
Proof.
  rewrite list_elem_of_fmap. split.
  - intros ([k' x] & -> & Hin). apply elem_of_map_iter in Hin. by eexists.
  - intros [x Hx]. exists (k, x). split; [done|]. by apply elem_of_map_iter.
Qed.
Lemma length_map_iter m : length (map_iter m) = size m.
Proof. by rewrite map_iter_perm, length_map_to_list. Qed.
End hash.

(** The least of a list of integers, [Iterator::min]. *)
Definition list_min (l : list Z) : option Z :=
  match l with [] => None | x :: l => Some (foldl Z.min x l) end.

Lemma list_min_spec l x : list_min l = Some x → x ∈ l ∧ ∀ y, y ∈ l → x ≤ y.
Proof.
  destruct l as [|z l]; [done|]. intros [= <-]. revert z.
  induction l as [|y l IH]; intros z; simpl.
  - split; [by left|]. intros y ->%list_elem_of_singleton. done.
  - destruct (IH (Z.min z y)) as [Hin Hle]. split.
    + apply elem_of_cons in Hin as [->|Hin]; [|by right; right].
      destruct (Z.min_spec z y) as [[_ ->]|[_ ->]]; [by left|by right; left].
    + assert (foldl Z.min (Z.min z y) l ≤ Z.min z y) by (apply Hle; by left).
      intros w [->|[->|Hw]%elem_of_cons]%elem_of_cons; [lia|lia|]. apply Hle. by right.
Qed.
Lemma list_min_None l : list_min l = None ↔ l = [].
Proof. by destruct l. Qed.
