(* ===== verification/Bytes.v ===== *)
(** * Bytes: byte strings, big-endian integers and exact reads

    What the storage and the wire code use of Rust's integers and of [std::io::Read]:
    [to_be_bytes] and [from_be_bytes] of a [w]-bit integer, and [read_exact] on a
    reader over a byte slice. *)
From Stdlib Require Import Strings.Byte.
From S2P Require Import Prelude.

Abbreviation bytes := (list byte).

#[export] Instance byte_eq_dec : EqDecision byte := Byte.byte_eq_dec.

Definition Z_of_byte (b : byte) : Z := Z.of_N (Byte.to_N b).
(** The cast [z as u8]. *)
Definition byte_of_Z (z : Z) : byte :=
  match Byte.of_N (Z.to_N (z mod 256)) with Some b => b | None => x00 end.

(** [to_be n z]: the [n] low-order bytes of [z], most significant first. *)
Fixpoint to_be (n : nat) (z : Z) : bytes :=
  match n with
  | O => []
  | S n' => to_be n' (z / 256) ++ [byte_of_Z z]
  end.
(** The integer whose big-endian bytes are [bs]. *)
Definition from_be (bs : bytes) : Z := foldl (λ acc b, acc * 256 + Z_of_byte b) 0 bs.

(** [read_exact n r]: the first [n] bytes of the reader and what follows them, [None]
    when the reader ends before. *)
Definition read_exact (n : Z) (r : bytes) : option (bytes * bytes) :=
  if Z.of_nat (length r) <? n then None
  else Some (take (Z.to_nat n) r, drop (Z.to_nat n) r).

(** ** Single bytes *)
Lemma Z_of_byte_range b : 0 ≤ Z_of_byte b < 256.
Proof. unfold Z_of_byte. pose proof (Byte.to_N_bounded b). lia. Qed.

Lemma Z_of_byte_of_Z z : Z_of_byte (byte_of_Z z) = z mod 256.
Proof.
  unfold Z_of_byte, byte_of_Z. pose proof (Z.mod_pos_bound z 256 eq_refl).
  destruct (Byte.of_N _) as [b|] eqn:E.
  - apply Byte.to_of_N in E. rewrite E. lia.
  - apply Byte.of_N_None_iff in E. lia.
Qed.

Lemma byte_of_Z_of_byte b : byte_of_Z (Z_of_byte b) = b.
Proof.
  unfold byte_of_Z. rewrite Z.mod_small by apply Z_of_byte_range.
  unfold Z_of_byte. by rewrite N2Z.id, Byte.of_to_N.
Qed.

(** ** Big-endian integers *)
Lemma length_to_be n z : length (to_be n z) = n.
Proof.
  revert z. induction n as [|n IH]; intros z; simpl; [done|].
  rewrite length_app, IH. simpl. lia.
Qed.

Lemma from_be_snoc bs b : from_be (bs ++ [b]) = from_be bs * 256 + Z_of_byte b.
Proof. unfold from_be. by rewrite foldl_app. Qed.

Lemma from_be_to_be n z : from_be (to_be n z) = z mod 256 ^ Z.of_nat n.
Proof.
  revert z. induction n as [|n IH]; intros z; cbn [to_be].
  - by rewrite Z.mod_1_r.
  - rewrite from_be_snoc, IH, Z_of_byte_of_Z, Nat2Z.inj_succ, Z.pow_succ_r by lia.
    rewrite (Z.mul_comm 256), (Z.mul_comm (256 ^ _)), Z.rem_mul_r; lia.
Qed.

Lemma from_be_range bs : 0 ≤ from_be bs < 256 ^ Z.of_nat (length bs).
Proof.
  induction bs as [|b bs IH] using rev_ind; [done|].
  rewrite from_be_snoc, length_app, Nat2Z.inj_add, Z.pow_add_r by lia.
  pose proof (Z_of_byte_range b). cbn [length]. change (256 ^ Z.of_nat 1) with 256. nia.
Qed.

Lemma to_be_from_be bs : to_be (length bs) (from_be bs) = bs.
Proof.
  induction bs as [|b bs IH] using rev_ind; [done|].
  rewrite length_app, Nat.add_comm. cbn [length Nat.add to_be].
  rewrite from_be_snoc. pose proof (Z_of_byte_range b).
  rewrite Z.div_add_l, (Z.div_small (Z_of_byte b)), Z.add_0_r, IH by lia.
  do 2 f_equal. rewrite <-(byte_of_Z_of_byte b) at 2. unfold byte_of_Z.
  by rewrite Z.add_comm, Z.mod_add by lia.
Qed.

Lemma to_be_inj n z z' :
  0 ≤ z < 256 ^ Z.of_nat n → 0 ≤ z' < 256 ^ Z.of_nat n → to_be n z = to_be n z' → z = z'.
Proof.
  intros Hz Hz' H. apply (f_equal from_be) in H.
  by rewrite !from_be_to_be, !Z.mod_small in H.
Qed.

(** The widths in use. *)
Lemma from_be_to_be_u64 z : is_u64 z → from_be (to_be 8 z) = z.
Proof. intros H. rewrite from_be_to_be. by apply Z.mod_small. Qed.
Lemma from_be_to_be_u32 z : is_u32 z → from_be (to_be 4 z) = z.
Proof. intros H. rewrite from_be_to_be. by apply Z.mod_small. Qed.
Lemma from_be_to_be_w32 z : from_be (to_be 4 z) = w32 z.
Proof. apply from_be_to_be. Qed.

(** ** Reads *)
Lemma read_exact_app (bs rest : bytes) n :
  n = Z.of_nat (length bs) → read_exact n (bs ++ rest) = Some (bs, rest).
Proof.
  intros ->. unfold read_exact. rewrite length_app.
  destruct (Z.ltb_spec (Z.of_nat (length bs + length rest)) (Z.of_nat (length bs))); [lia|].
  by rewrite Nat2Z.id, take_app_length, drop_app_length.
Qed.

Lemma read_exact_to_be n z rest m :
  m = Z.of_nat n → read_exact m (to_be n z ++ rest) = Some (to_be n z, rest).
Proof. intros ->. apply read_exact_app. by rewrite length_to_be. Qed.

Lemma read_exact_short n r : Z.of_nat (length r) < n → read_exact n r = None.
Proof. intros H. unfold read_exact. by rewrite (proj2 (Z.ltb_lt _ _) H). Qed.

Lemma read_exact_Some n r bs rest :
  0 ≤ n → read_exact n r = Some (bs, rest) → r = bs ++ rest ∧ Z.of_nat (length bs) = n.
Proof.
  intros Hn H. unfold read_exact in H.
  destruct (Z.ltb_spec (Z.of_nat (length r)) n); [done|]. simplify_eq.
  rewrite take_drop, length_take. split; [done|lia].
Qed.

Create Rewrite HintDb gaffa_bytes.
#[export] Hint Rewrite length_to_be from_be_to_be_w32 : gaffa_bytes.

#[global] Arguments to_be : simpl never.
#[global] Arguments from_be : simpl never.
#[global] Arguments read_exact : simpl never.
#[global] Opaque to_be from_be read_exact.
