(* ===== verification/Text.v ===== *)
(** * Text: decimal numbers and line splitting

    What the program uses of Rust's [format!], [str::parse], [str::split_once] and
    [str::lines]: decimal integers, zero-padded decimals, and splitting at a
    separator.  A string is its list of bytes ([String.string]). *)
From Stdlib Require Import Ascii.
From S2P Require Import Prelude Bytes.

#[local] Arguments String.append !_ _ / : simpl nomatch.

Definition newline : ascii := "010"%char.
Definition carriage : ascii := "013"%char.

(** ** Printing *)
Definition digit (z : Z) : ascii := ascii_of_N (Z.to_N (48 + z)).

Fixpoint digits (fuel : nat) (z : Z) (acc : string) : string :=
  match fuel with
  | O => acc
  | S fuel' =>
      let acc' := String (digit (z mod 10)) acc in
      if z <? 10 then acc' else digits fuel' (z / 10) acc'
  end.
(** [{}] of an unsigned integer: an integer below [2^64] has at most 20 digits. *)
Definition fmt_dec (z : Z) : string := digits 20 z EmptyString.

Fixpoint zeros (n : nat) : string :=
  match n with O => EmptyString | S n' => String "0" (zeros n') end.
(** [{:020}]: padded on the left with zeros to at least 20 characters. *)
Definition fmt_dec20 (z : Z) : string :=
  let s := fmt_dec z in zeros (20 - String.length s) +:+ s.

(** ** Parsing *)
Definition digit_val (c : ascii) : option Z :=
  let n := Z.of_N (N_of_ascii c) in
  if (48 <=? n) && (n <=? 57) then Some (n - 48) else None.

Fixpoint parse_digits (bound acc : Z) (s : string) : option Z :=
  match s with
  | EmptyString => Some acc
  | String c s' =>
      match digit_val c with
      | Some d =>
          let acc' := acc * 10 + d in
          if acc' <? bound then parse_digits bound acc' s' else None
      | None => None
      end
  end.
(** [str::parse] of an unsigned integer type with values below [bound]: an optional
    [+], then at least one digit, each step checked for overflow. *)
Definition parse_dec (bound : Z) (s : string) : option Z :=
  match s with
  | EmptyString => None
  | String c s' =>
      if Ascii.eqb c "+" then
        match s' with EmptyString => None | _ => parse_digits bound 0 s' end
      else parse_digits bound 0 s
  end.
Definition parse_u64 : string → option Z := parse_dec (2 ^ 64).
Definition parse_u32 : string → option Z := parse_dec (2 ^ 32).

(** ** Splitting *)
(** [s.split_once(c)]: around the first occurrence of [c]. *)
Fixpoint split_once (c : ascii) (s : string) : option (string * string) :=
  match s with
  | EmptyString => None
  | String x s' =>
      if Ascii.eqb x c then Some (EmptyString, s')
      else match split_once c s' with
           | Some (a, b) => Some (String x a, b)
           | None => None
           end
  end.

(** [s.rsplit_once(c)]: around the last occurrence of [c]. *)
Fixpoint rsplit_once (c : ascii) (s : string) : option (string * string) :=
  match s with
  | EmptyString => None
  | String x s' =>
      match rsplit_once c s' with
      | Some (a, b) => Some (String x a, b)
      | None => if Ascii.eqb x c then Some (EmptyString, s') else None
      end
  end.

(** [s.strip_prefix(p)]. *)
Fixpoint strip_prefix (p s : string) : option string :=
  match p, s with
  | EmptyString, _ => Some s
  | String x p', String y s' => if Ascii.eqb x y then strip_prefix p' s' else None
  | String _ _, EmptyString => None
  end.

(** ** Strings as bytes *)
Definition bytes_of_string : string → bytes := String.list_byte_of_string.
Definition string_of_bytes : bytes → string := String.string_of_list_byte.

(** [str::from_utf8] accepts the well-formed sequences of the Unicode standard. *)
Definition byte_in (lo hi : Z) (c : ascii) : bool :=
  let n := Z.of_N (N_of_ascii c) in (lo <=? n) && (n <=? hi).
Fixpoint utf8_valid (s : string) : bool :=
  match s with
  | EmptyString => true
  | String a s1 =>
      if byte_in 0 127 a then utf8_valid s1
      else
        match s1 with
        | EmptyString => false
        | String b s2 =>
            if byte_in 194 223 a then byte_in 128 191 b && utf8_valid s2
            else
              match s2 with
              | EmptyString => false
              | String c s3 =>
                  if byte_in 224 239 a then
                    byte_in (if byte_in 224 224 a then 160 else 128)
                            (if byte_in 237 237 a then 159 else 191) b &&
                    byte_in 128 191 c && utf8_valid s3
                  else
                    match s3 with
                    | EmptyString => false
                    | String d s4 =>
                        byte_in 240 244 a &&
                        byte_in (if byte_in 240 240 a then 144 else 128)
                                (if byte_in 244 244 a then 143 else 191) b &&
                        byte_in 128 191 c && byte_in 128 191 d && utf8_valid s4
                    end
              end
        end
  end.

Definition starts_with (c : ascii) (s : string) : bool :=
  match s with String x _ => Ascii.eqb x c | EmptyString => false end.
(** [s.lines()]: the pieces that a newline ends (with a carriage return before it
    dropped), and what follows the last newline when it is not empty. *)
Fixpoint lines (s : string) : list string :=
  match s with
  | EmptyString => []
  | String c s' =>
      if Ascii.eqb c newline then EmptyString :: lines s'
      else match lines s' with
           | l :: ls =>
               if Ascii.eqb c carriage && starts_with newline s'
               then EmptyString :: ls else String c l :: ls
           | [] => [String c EmptyString]
           end
  end.

Fixpoint string_in (c : ascii) (s : string) : bool :=
  match s with
  | EmptyString => false
  | String x s' => Ascii.eqb x c || string_in c s'
  end.

(** ** Round trips *)
Lemma digit_val_digit d : 0 ≤ d < 10 → digit_val (digit d) = Some d.
Proof.
  intros Hd. unfold digit_val, digit. rewrite N_ascii_embedding by lia.
  rewrite Z2N.id by lia. destruct (Z.leb_spec 48 (48 + d)), (Z.leb_spec (48 + d) 57); simpl; try lia.
  f_equal. lia.
Qed.

Lemma digit_not d c : 0 ≤ d < 10 → digit_val c = None → Ascii.eqb (digit d) c = false.
Proof.
  intros Hd Hc. apply Ascii.eqb_neq. intros <-. by rewrite digit_val_digit in Hc.
Qed.

(** The value of a digit string with [acc] read before it. *)
Fixpoint digits_value (acc : Z) (s : string) : Z :=
  match s with
  | EmptyString => acc
  | String c s' => digits_value (acc * 10 + default 0 (digit_val c)) s'
  end.
Fixpoint all_digits (s : string) : bool :=
  match s with
  | EmptyString => true
  | String c s' => bool_decide (is_Some (digit_val c)) && all_digits s'
  end.

Lemma digits_value_ge s acc : 0 ≤ acc → acc ≤ digits_value acc s.
Proof.
  revert acc. induction s as [|c s IH]; intros acc Hacc; simpl; [lia|].
  assert (0 ≤ default 0 (digit_val c)).
  { unfold digit_val. destruct (_ && _) eqn:E; simpl; lia. }
  etrans; [|apply IH]; lia.
Qed.

Lemma parse_digits_value bound s acc :
  all_digits s = true → 0 ≤ acc → digits_value acc s < bound →
  parse_digits bound acc s = Some (digits_value acc s).
Proof.
  revert acc. induction s as [|c s IH]; intros acc Hs Hacc Hb; simpl in *; [done|].
  apply andb_prop in Hs as [Hc Hs]. apply bool_decide_eq_true in Hc as [d Hd].
  rewrite Hd in *. simpl in *.
  assert (0 ≤ d). { unfold digit_val in Hd. destruct (_ && _) eqn:E; simplify_eq. lia. }
  pose proof (digits_value_ge s (acc * 10 + d)).
  rewrite (proj2 (Z.ltb_lt _ _)) by lia. apply IH; [done|lia..].
Qed.

(** A number has a digit string that starts as [digits] says. *)
Lemma digits_spec fuel z acc :
  0 ≤ z < 10 ^ Z.of_nat fuel → (0 < fuel)%nat → all_digits acc = true →
  all_digits (digits fuel z acc) = true ∧
  digits fuel z acc ≠ EmptyString ∧
  ∀ a, 0 ≤ a → ∃ k, 0 ≤ k ∧
    digits_value a (digits fuel z acc) = digits_value (a * 10 ^ k + z) acc.
Proof.
  revert z acc. induction fuel as [|fuel IH]; intros z acc Hz Hf Hacc; [lia|].
  assert (Hm : 0 ≤ z mod 10 < 10) by (apply Z.mod_pos_bound; lia).
  cbn [digits].
  set (acc' := String (digit (z mod 10)) acc).
  assert (Hacc' : all_digits acc' = true).
  { unfold acc'. cbn [all_digits]. rewrite digit_val_digit by done. simpl. done. }
  destruct (Z.ltb_spec z 10) as [Hlt|Hge].
  - split_and!; [done|done|]. intros a Ha. exists 1. split; [lia|].
    unfold acc'. cbn [digits_value]. rewrite digit_val_digit by done. simpl.
    f_equal. rewrite Z.mod_small by lia. lia.
  - assert (Hfuel : (0 < fuel)%nat).
    { destruct fuel; [|lia]. change (10 ^ Z.of_nat 1) with 10 in Hz. lia. }
    rewrite Nat2Z.inj_succ, Z.pow_succ_r in Hz by lia.
    destruct (IH (z / 10) acc') as (Ha & Hne & Hv); [|done|done|].
    { split; [apply Z.div_pos; lia|apply Z.div_lt_upper_bound; lia]. }
    split_and!; [done|done|]. intros a Hpos.
    destruct (Hv a Hpos) as (k & Hk & Heq). exists (k + 1). split; [lia|].
    rewrite Heq. unfold acc'. cbn [digits_value]. rewrite digit_val_digit by done. simpl.
    f_equal. rewrite Z.pow_add_r by lia. pose proof (Z.div_mod z 10). lia.
Qed.

Lemma fmt_dec_digits z :
  is_u64 z → all_digits (fmt_dec z) = true ∧ fmt_dec z ≠ EmptyString ∧ digits_value 0 (fmt_dec z) = z.
Proof.
  intros Hz. destruct (digits_spec 20 z EmptyString) as (Ha & Hne & Hv);
    [unfold is_u64 in Hz; split; [lia|change (10 ^ Z.of_nat 20) with 100000000000000000000; lia]|lia|done|].
  split_and!; [done|done|]. destruct (Hv 0) as (k & _ & Hk); [lia|].
  unfold fmt_dec. rewrite Hk. simpl. lia.
Qed.

Lemma all_digits_head c s : all_digits (String c s) = true → Ascii.eqb c "+" = false.
Proof.
  simpl. intros [Hc _]%andb_prop. apply Ascii.eqb_neq. intros ->. by apply bool_decide_eq_true in Hc as [? ?].
Qed.

Lemma parse_dec_digits bound s :
  all_digits s = true → s ≠ EmptyString → digits_value 0 s < bound →
  parse_dec bound s = Some (digits_value 0 s).
Proof.
  intros Hs Hne Hb. destruct s as [|c s]; [done|]. unfold parse_dec.
  rewrite (all_digits_head _ _ Hs). by apply parse_digits_value.
Qed.

Lemma parse_fmt_dec bound z : is_u64 z → z < bound → parse_dec bound (fmt_dec z) = Some z.
Proof.
  intros Hz Hb. destruct (fmt_dec_digits z Hz) as (Ha & Hne & Hv).
  rewrite parse_dec_digits, Hv by (done || lia). done.
Qed.

Lemma parse_u64_fmt z : is_u64 z → parse_u64 (fmt_dec z) = Some z.
Proof. intros Hz. apply parse_fmt_dec; [done|apply Hz]. Qed.
Lemma parse_u32_fmt z : is_u32 z → parse_u32 (fmt_dec z) = Some z.
Proof. unfold is_u32. intros Hz. apply parse_fmt_dec; unfold is_u64; lia. Qed.

Lemma all_digits_app s t : all_digits (s +:+ t) = all_digits s && all_digits t.
Proof. induction s as [|c s IH]; simpl; [done|]. by rewrite IH, andb_assoc. Qed.
Lemma all_digits_zeros n : all_digits (zeros n) = true.
Proof. by induction n. Qed.
Lemma digits_value_zeros n s : digits_value 0 (zeros n +:+ s) = digits_value 0 s.
Proof. by induction n. Qed.

Lemma fmt_dec20_digits z :
  is_u64 z → all_digits (fmt_dec20 z) = true ∧ fmt_dec20 z ≠ EmptyString ∧ digits_value 0 (fmt_dec20 z) = z.
Proof.
  intros Hz. destruct (fmt_dec_digits z Hz) as (Ha & Hne & Hv). unfold fmt_dec20.
  rewrite all_digits_app, all_digits_zeros, digits_value_zeros.
  split_and!; [done| |done].
  destruct (20 - String.length (fmt_dec z))%nat; [exact Hne|done].
Qed.

Lemma parse_u64_fmt20 z : is_u64 z → parse_u64 (fmt_dec20 z) = Some z.
Proof.
  intros Hz. destruct (fmt_dec20_digits z Hz) as (Ha & Hne & Hv).
  unfold parse_u64. rewrite parse_dec_digits, Hv; [done..|]. rewrite Hv. apply Hz.
Qed.

Lemma fmt_dec_inj z z' : is_u64 z → is_u64 z' → fmt_dec z = fmt_dec z' → z = z'.
Proof.
  intros Hz Hz' H. apply (f_equal parse_u64) in H. rewrite !parse_u64_fmt in H by done. congruence.
Qed.
Lemma fmt_dec20_inj z z' : is_u64 z → is_u64 z' → fmt_dec20 z = fmt_dec20 z' → z = z'.
Proof.
  intros Hz Hz' H. apply (f_equal parse_u64) in H. rewrite !parse_u64_fmt20 in H by done. congruence.
Qed.

Lemma all_digits_string_in c s :
  all_digits s = true → digit_val c = None → string_in c s = false.
Proof.
  intros Hs Hc. induction s as [|x s IH]; simpl in *; [done|].
  apply andb_prop in Hs as [Hx Hs]. rewrite IH by done.
  destruct (Ascii.eqb_spec x c) as [->|]; [|done].
  rewrite Hc in Hx. by apply bool_decide_eq_true in Hx as [? ?].
Qed.

Lemma fmt_dec_no_char c z : is_u64 z → digit_val c = None → string_in c (fmt_dec z) = false.
Proof. intros Hz. apply all_digits_string_in, fmt_dec_digits, Hz. Qed.
Lemma fmt_dec20_no_char c z : is_u64 z → digit_val c = None → string_in c (fmt_dec20 z) = false.
Proof. intros Hz. apply all_digits_string_in, fmt_dec20_digits, Hz. Qed.

(** ** Splitting what was joined *)
Lemma string_app_assoc (a b c : string) : a +:+ b +:+ c = (a +:+ b) +:+ c.
Proof. induction a as [|x a IH]; cbn [String.append]; [done|]. by rewrite IH. Qed.
Lemma string_app_nil_r (a : string) : a +:+ EmptyString = a.
Proof. induction a as [|x a IH]; cbn [String.append]; [done|]. by rewrite IH. Qed.

Lemma string_length_app (a b : string) :
  String.length (a +:+ b) = (String.length a + String.length b)%nat.
Proof.
  induction a as [|x a IH]; [done|]. cbn [String.append String.length]. by rewrite IH.
Qed.

Lemma string_in_app c s t : string_in c (s +:+ t) = string_in c s || string_in c t.
Proof. induction s as [|x s IH]; cbn [String.append string_in orb]; [done|]. by rewrite IH, orb_assoc. Qed.

Lemma split_once_app c s t :
  string_in c s = false → split_once c (s +:+ String c t) = Some (s, t).
Proof.
  induction s as [|x s IH]; cbn [String.append split_once string_in]; [by rewrite Ascii.eqb_refl|].
  intros [-> Hs]%orb_false_iff. by rewrite IH.
Qed.

Lemma rsplit_once_None c s : string_in c s = false → rsplit_once c s = None.
Proof. induction s as [|x s IH]; simpl; [done|]. intros [-> Hs]%orb_false_iff. by rewrite IH. Qed.

Lemma rsplit_once_app c s t :
  string_in c t = false → rsplit_once c (s +:+ String c t) = Some (s, t).
Proof.
  intros Ht. induction s as [|x s IH]; cbn [String.append rsplit_once].
  - by rewrite rsplit_once_None, Ascii.eqb_refl.
  - by rewrite IH.
Qed.

Lemma strip_prefix_app p s : strip_prefix p (p +:+ s) = Some s.
Proof. induction p as [|x p IH]; cbn [String.append strip_prefix]; [done|]. by rewrite Ascii.eqb_refl. Qed.

Fixpoint ends_with (c : ascii) (s : string) : bool :=
  match s with
  | EmptyString => false
  | String x EmptyString => Ascii.eqb x c
  | String _ s' => ends_with c s'
  end.

Lemma lines_cons l s :
  string_in newline l = false → ends_with carriage l = false →
  lines (l +:+ String newline s) = l :: lines s.
Proof.
  induction l as [|x l IH]; [done|]. cbn [string_in String.append].
  intros [Hx Hl]%orb_false_iff Hcr. cbn [lines]. rewrite Hx.
  destruct l as [|y l].
  - cbn in Hcr |- *. by rewrite Hcr.
  - rewrite IH; [|done|by cbn in Hcr |- *]. cbn [starts_with String.append].
    cbn [string_in] in Hl. apply orb_false_iff in Hl as [-> _].
    by rewrite andb_false_r.
Qed.

(** ** Splitting and parsing anything *)
Lemma split_once_in c s : string_in c s = true → ∃ a b, split_once c s = Some (a, b).
Proof.
  induction s as [|x s IH]; [done|]. cbn [string_in split_once]. destruct (Ascii.eqb x c); [by eauto|].
  intros Hs. destruct (IH Hs) as (a & b & ->). eauto.
Qed.
Lemma split_once_app_l c s t a b : split_once c s = Some (a, b) → split_once c (s +:+ t) = Some (a, b +:+ t).
Proof.
  revert a. induction s as [|x s IH]; intros a; [done|]. cbn [String.append split_once].
  destruct (Ascii.eqb x c); [by intros [= <- <-]|].
  destruct (split_once c s) as [[a' b']|]; [|done]. intros [= <- <-]. by rewrite (IH a').
Qed.
Lemma parse_digits_not bound acc c s :
  string_in c s = true → digit_val c = None → parse_digits bound acc s = None.
Proof.
  intros Hs Hc. revert acc. induction s as [|x s IH]; intros acc; [done|].
  cbn [string_in parse_digits] in *. destruct (Ascii.eqb_spec x c) as [->|]; [by rewrite Hc|].
  destruct (digit_val x); [|done]. case_match; [by apply IH|done].
Qed.
Lemma parse_dec_not bound c s :
  string_in c s = true → digit_val c = None → c ≠ "+"%char → parse_dec bound s = None.
Proof.
  intros Hs Hc Hp. destruct s as [|x s]; [done|]. unfold parse_dec.
  destruct (Ascii.eqb_spec x "+") as [->|].
  - cbn [string_in] in Hs. apply not_eq_sym, Ascii.eqb_neq in Hp. rewrite Hp in Hs.
    destruct s; [done|]. by eapply parse_digits_not.
  - by eapply parse_digits_not.
Qed.
Lemma ends_with_app c s x t : ends_with c (s +:+ String x t) = ends_with c (String x t).
Proof.
  induction s as [|y s IH]; [done|]. cbn [String.append]. destruct s; [done|].
  rewrite <-IH. done.
Qed.
Lemma ends_with_not_in c s : string_in c s = false → ends_with c s = false.
Proof.
  induction s as [|x s IH]; [done|]. cbn [string_in]. intros [Hx Hs]%orb_false_iff.
  destruct s; [done|]. by apply IH.
Qed.
Lemma rsplit_once_Some c s a b : rsplit_once c s = Some (a, b) → s = a +:+ String c b.
Proof.
  revert a. induction s as [|x s IH]; intros a; [done|]. cbn [rsplit_once].
  destruct (rsplit_once c s) as [[a' b']|].
  - intros [= <- <-]. by rewrite (IH a' eq_refl).
  - destruct (Ascii.eqb_spec x c) as [->|]; [|done]. by intros [= <- <-].
Qed.

(** ** Strings as bytes *)
Lemma string_of_bytes_of_string s : string_of_bytes (bytes_of_string s) = s.
Proof. apply String.string_of_list_byte_of_string. Qed.
Lemma bytes_of_string_app s t : bytes_of_string (s +:+ t) = bytes_of_string s ++ bytes_of_string t.
Proof.
  induction s as [|c s IH]; [done|].
  change (Ascii.byte_of_ascii c :: bytes_of_string (s +:+ t) =
    Ascii.byte_of_ascii c :: (bytes_of_string s ++ bytes_of_string t)). by rewrite IH.
Qed.
Lemma length_bytes_of_string s : length (bytes_of_string s) = String.length s.
Proof.
  induction s as [|c s IH]; [done|].
  change (S (length (bytes_of_string s)) = S (String.length s)). by rewrite IH.
Qed.

Lemma utf8_valid_app s t : utf8_valid s = true → utf8_valid (s +:+ t) = utf8_valid t.
Proof.
  remember (String.length s) as n eqn:Hn. revert s Hn.
  induction (lt_wf n) as [n _ IH]. intros s ->.
  destruct s as [|a s1]; [done|]. cbn [utf8_valid String.append]. case_match.
  { apply (IH (String.length s1)); [simpl; lia|done]. }
  destruct s1 as [|b s2]; [done|]. cbn [String.append]. case_match.
  { intros [Hb Hs]%andb_prop. rewrite Hb. apply (IH (String.length s2)); [simpl; lia|done|done]. }
  destruct s2 as [|c s3]; [done|]. cbn [String.append]. case_match.
  { intros [Hb Hs]%andb_prop. rewrite Hb. apply (IH (String.length s3)); [simpl; lia|done|done]. }
  destruct s3 as [|d s4]; [done|]. cbn [String.append].
  intros [Hb Hs]%andb_prop. rewrite Hb. apply (IH (String.length s4)); [simpl; lia|done|done].
Qed.

Lemma all_digits_utf8 s : all_digits s = true → utf8_valid s = true.
Proof.
  induction s as [|c s IH]; [done|]. cbn [all_digits]. intros [Hc Hs]%andb_prop.
  cbn [utf8_valid]. replace (byte_in 0 127 c) with true; [by apply IH|].
  apply bool_decide_eq_true in Hc as [v Hv]. unfold digit_val in Hv. unfold byte_in.
  case_match eqn:Hr; [|done]. apply andb_prop in Hr as [? ?].
  symmetry. apply andb_true_intro. split; lia.
Qed.
