(* ===== verification/Common.v ===== *)
(** * Common: errors and configuration

    [common/src/error.rs] and [common/src/config.rs]. *)
From S2P Require Import Prelude Text.

(** [GaffaError]: the payload of [Io] is the operating system's error as it is
    displayed. *)
Inductive GaffaError : Type :=
  | Io (e : string)
  | Serialization (e : string)
  | TopicNotFound (topic : string)
  | PartitionNotFound (topic : string) (partition : Z)
  | InvalidOffset (offset : Z)
  | Protocol (e : string)
  | Connection (e : string)
  | InvalidMessage (e : string)
  | Storage (e : string)
  | Corruption (e : string)
  | SegmentNotFound (e : string)
  | GroupNotFound (group : string)
  | ConsumerNotFound (member : string)
  | Compression (e : string).

#[export] Instance GaffaError_eq_dec : EqDecision GaffaError.
Proof. solve_decision. Defined.

(** The [Display] implementation that the [#[error(...)]] attributes give. *)
Definition GaffaError_to_string (e : GaffaError) : string :=
  match e with
  | Io e => "IO error: " +:+ e
  | Serialization e => "Serialization error: " +:+ e
  | TopicNotFound t => "Topic not found: " +:+ t
  | PartitionNotFound t p =>
      "Partition not found: topic=" +:+ t +:+ ", partition=" +:+ fmt_dec p
  | InvalidOffset o => "Invalid offset: " +:+ fmt_dec o
  | Protocol e => "Protocol error: " +:+ e
  | Connection e => "Connection error: " +:+ e
  | InvalidMessage e => "Invalid message: " +:+ e
  | Storage e => "Storage error: " +:+ e
  | Corruption e => "Data corruption detected: " +:+ e
  | SegmentNotFound e => "Segment not found: " +:+ e
  | GroupNotFound g => "Consumer group not found: " +:+ g
  | ConsumerNotFound m => "Consumer not found: " +:+ m
  | Compression e => "Compression error: " +:+ e
  end.

(** [Result<T>] of the crates, with panics beside it. *)
Abbreviation Result := (outcome GaffaError).
(** A method on a receiver of type [S]. *)
Abbreviation Method S := (eff S GaffaError).

Record BrokerConfig : Type := {
  cfg_host : string;
  cfg_port : Z;
  cfg_data_dir : string;
  cfg_broker_id : Z;
  cfg_replication_factor : Z;
  cfg_max_isr_lag : Z;
}.

Definition BrokerConfig_default : BrokerConfig := {|
  cfg_host := "127.0.0.1";
  cfg_port := 9092;
  cfg_data_dir := "/tmp/gaffa";
  cfg_broker_id := 0;
  cfg_replication_factor := 1;
  cfg_max_isr_lag := 1000;
|}.
