(* ===== verification/Metrics.v ===== *)
(** * Metrics: the metrics of a broker

    [broker/src/metrics.rs].  Each metric is a static that registers itself with the default
    registry of the [prometheus] crate when it is first used, and panics if the registry
    refuses it.  The crate is a parameter: [Prometheus] is what the source uses of it, and
    [PrometheusLaws] what its documentation says: it takes a metric whose names are valid
    and new and whose help text is not empty, and a registry without metrics gathers nothing. *)
From Stdlib Require Import Ascii.
From S2P Require Import Prelude Bytes Text Common.

(** The buckets are in thousandths. *)
Inductive MetricKind : Type :=
  | CounterVec
  | GaugeVec
  | HistogramVec (buckets : list Z).

Record Metric : Type := {
  mt_kind : MetricKind;
  mt_name : string;
  mt_help : string;
  mt_labels : list string;
}.
#[export] Instance MetricKind_eq_dec : EqDecision MetricKind.
Proof. solve_decision. Defined.
#[export] Instance Metric_eq_dec : EqDecision Metric.
Proof. solve_decision. Defined.

Definition MESSAGES_PRODUCED : Metric :=
  {| mt_kind := CounterVec;
     mt_name := "gaffa_messages_produced_total";
     mt_help := "Total number of messages produced";
     mt_labels := ["topic"; "partition"] |}.
Definition MESSAGES_CONSUMED : Metric :=
  {| mt_kind := CounterVec;
     mt_name := "gaffa_messages_consumed_total";
     mt_help := "Total number of messages consumed";
     mt_labels := ["topic"; "partition"; "consumer_group"] |}.
Definition MESSAGES_FAILED : Metric :=
  {| mt_kind := CounterVec;
     mt_name := "gaffa_messages_failed_total";
     mt_help := "Total number of failed message operations";
     mt_labels := ["operation"; "topic"] |}.
Definition BYTES_PRODUCED : Metric :=
  {| mt_kind := CounterVec;
     mt_name := "gaffa_bytes_produced_total";
     mt_help := "Total bytes produced";
     mt_labels := ["topic"; "partition"] |}.
Definition BYTES_CONSUMED : Metric :=
  {| mt_kind := CounterVec;
     mt_name := "gaffa_bytes_consumed_total";
     mt_help := "Total bytes consumed";
     mt_labels := ["topic"; "partition"] |}.
Definition COMPRESSION_RATIO : Metric :=
  {| mt_kind := HistogramVec [100; 200; 300; 400; 500; 600; 700; 800; 900; 1000];
     mt_name := "gaffa_compression_ratio";
     mt_help := "Compression ratio (compressed_size / original_size)";
     mt_labels := ["compression_type"] |}.
Definition BYTES_SAVED_BY_COMPRESSION : Metric :=
  {| mt_kind := CounterVec;
     mt_name := "gaffa_bytes_saved_by_compression_total";
     mt_help := "Total bytes saved through compression";
     mt_labels := ["compression_type"] |}.
Definition PRODUCE_LATENCY : Metric :=
  {| mt_kind := HistogramVec [1; 5; 10; 25; 50; 100; 250; 500; 1000];
     mt_name := "gaffa_produce_latency_seconds";
     mt_help := "Produce request latency in seconds";
     mt_labels := ["topic"] |}.
Definition FETCH_LATENCY : Metric :=
  {| mt_kind := HistogramVec [1; 5; 10; 25; 50; 100; 250; 500; 1000];
     mt_name := "gaffa_fetch_latency_seconds";
     mt_help := "Fetch request latency in seconds";
     mt_labels := ["topic"] |}.
Definition TOPIC_COUNT : Metric :=
  {| mt_kind := GaugeVec;
     mt_name := "gaffa_topics_total";
     mt_help := "Total number of topics";
     mt_labels := ["broker_id"] |}.
Definition PARTITION_COUNT : Metric :=
  {| mt_kind := GaugeVec;
     mt_name := "gaffa_partitions_total";
     mt_help := "Total number of partitions";
     mt_labels := ["topic"] |}.
Definition PARTITION_SIZE : Metric :=
  {| mt_kind := GaugeVec;
     mt_name := "gaffa_partition_size_bytes";
     mt_help := "Size of partition in bytes";
     mt_labels := ["topic"; "partition"] |}.
Definition PARTITION_OFFSET : Metric :=
  {| mt_kind := GaugeVec;
     mt_name := "gaffa_partition_offset";
     mt_help := "Current offset of partition";
     mt_labels := ["topic"; "partition"] |}.
Definition CONSUMER_GROUP_MEMBERS : Metric :=
  {| mt_kind := GaugeVec;
     mt_name := "gaffa_consumer_group_members";
     mt_help := "Number of members in consumer group";
     mt_labels := ["group_id"] |}.
Definition CONSUMER_LAG : Metric :=
  {| mt_kind := GaugeVec;
     mt_name := "gaffa_consumer_lag";
     mt_help := "Consumer lag (partition offset - committed offset)";
     mt_labels := ["group_id"; "topic"; "partition"] |}.
Definition REPLICATION_LAG : Metric :=
  {| mt_kind := GaugeVec;
     mt_name := "gaffa_replication_lag";
     mt_help := "Replication lag in messages";
     mt_labels := ["topic"; "partition"; "follower_broker"] |}.
Definition ISR_SIZE : Metric :=
  {| mt_kind := GaugeVec;
     mt_name := "gaffa_isr_size";
     mt_help := "Number of in-sync replicas";
     mt_labels := ["topic"; "partition"] |}.
Definition UNDER_REPLICATED_PARTITIONS : Metric :=
  {| mt_kind := GaugeVec;
     mt_name := "gaffa_under_replicated_partitions";
     mt_help := "Number of under-replicated partitions";
     mt_labels := ["broker_id"] |}.
Definition SEGMENT_COUNT : Metric :=
  {| mt_kind := GaugeVec;
     mt_name := "gaffa_segments_total";
     mt_help := "Total number of segments";
     mt_labels := ["topic"; "partition"] |}.
Definition SEGMENTS_DELETED : Metric :=
  {| mt_kind := CounterVec;
     mt_name := "gaffa_segments_deleted_total";
     mt_help := "Total number of segments deleted by retention";
     mt_labels := ["topic"; "partition"; "reason"] |}.
Definition ACTIVE_CONNECTIONS : Metric :=
  {| mt_kind := GaugeVec;
     mt_name := "gaffa_active_connections";
     mt_help := "Number of active client connections";
     mt_labels := ["connection_type"] |}.
Definition REQUEST_RATE : Metric :=
  {| mt_kind := CounterVec;
     mt_name := "gaffa_requests_total";
     mt_help := "Total number of requests";
     mt_labels := ["request_type"] |}.
Definition REQUEST_ERRORS : Metric :=
  {| mt_kind := CounterVec;
     mt_name := "gaffa_request_errors_total";
     mt_help := "Total number of request errors";
     mt_labels := ["request_type"; "error_type"] |}.

Definition METRICS : list Metric :=
  [MESSAGES_PRODUCED; MESSAGES_CONSUMED; MESSAGES_FAILED; BYTES_PRODUCED;
   BYTES_CONSUMED; COMPRESSION_RATIO; BYTES_SAVED_BY_COMPRESSION; PRODUCE_LATENCY;
   FETCH_LATENCY; TOPIC_COUNT; PARTITION_COUNT; PARTITION_SIZE;
   PARTITION_OFFSET; CONSUMER_GROUP_MEMBERS; CONSUMER_LAG; REPLICATION_LAG;
   ISR_SIZE; UNDER_REPLICATED_PARTITIONS; SEGMENT_COUNT; SEGMENTS_DELETED;
   ACTIVE_CONNECTIONS; REQUEST_RATE; REQUEST_ERRORS].

(** ** What a registry accepts *)
Definition is_letter (c : ascii) : bool := byte_in 65 90 c || byte_in 97 122 c || Ascii.eqb c "_".
Definition is_word (c : ascii) : bool := is_letter c || byte_in 48 57 c.
Fixpoint all_chars (f : ascii → bool) (s : string) : bool :=
  match s with EmptyString => true | String c s => f c && all_chars f s end.
Definition valid_label (s : string) : bool :=
  match s with EmptyString => false | String c s => is_letter c && all_chars is_word s end.
Fixpoint increasing (l : list Z) : bool :=
  match l with
  | x :: (y :: _) as l' => (x <? y) && increasing l'
  | _ => true
  end.
(** The name and the help text must not be empty; the label [le] is kept for the buckets of
    a histogram. *)
Definition valid_metric (m : Metric) : bool :=
  valid_label (mt_name m) && negb (bool_decide (mt_help m = EmptyString)) && forallb valid_label (mt_labels m) && bool_decide (NoDup (mt_labels m)) &&
  match mt_kind m with
  | HistogramVec buckets => increasing buckets && negb (bool_decide ("le" ∈ mt_labels m))
  | _ => true
  end.

Class Prometheus (R F : Type) : Type := {
  register : Metric → R → R * outcome string unit;
  gather : R → list F;
  encode_families : list F → outcome string bytes;
}.

Class PrometheusLaws (R F : Type) `{Prometheus R F} : Type := {
  registered : R → list Metric;
  register_fresh r m :
    valid_metric m = true → (∀ m', m' ∈ registered r → mt_name m' ≠ mt_name m) →
    ∃ r', register m r = (r', Ok tt) ∧ registered r' = m :: registered r;
  gather_nothing r : registered r = [] → gather r = [];
  encode_nothing : encode_families [] = Ok [];
}.

(** ** The statics *)
Record Globals (R : Type) : Type := {
  gl_registry : R;
  gl_ready : list Metric;
}.
Arguments gl_registry {R} g : rename.
Arguments gl_ready {R} g : rename.

Section metrics.
Context `{Prometheus R F}.

(** A use of a static: the first one runs its initialiser. *)
Definition deref (m : Metric) : Method (Globals R) unit := λ g,
  if decide (m ∈ gl_ready g) then (g, Ok tt)
  else
    match register m (gl_registry g) with
    | (r, Ok _) => ({| gl_registry := r; gl_ready := m :: gl_ready g |}, Ok tt)
    | (r, _) => ({| gl_registry := r; gl_ready := gl_ready g |}, Panic)
    end.
Fixpoint deref_all (ms : list Metric) : Method (Globals R) unit :=
  match ms with
  | [] => mret tt
  | m :: ms => _ ← deref m; deref_all ms
  end.

Definition export_metrics (g : Globals R) : Result string :=
  match encode_families (gather (gl_registry g)) with
  | Ok buffer =>
      let s := string_of_bytes buffer in if utf8_valid s then Ok s else Panic
  | _ => Panic
  end.
End metrics.

Lemma METRICS_valid m : m ∈ METRICS → valid_metric m = true.
Proof.
  assert (Forall (λ m, valid_metric m = true) METRICS) as Hall.
  { apply (bool_decide_unpack _). vm_compute. exact I. }
  by apply (proj1 (Forall_forall _ _) Hall m).
Qed.
Lemma METRICS_names : NoDup (mt_name <$> METRICS).
Proof. apply (bool_decide_unpack _). vm_compute. exact I. Qed.

(** The names of the metrics tell them apart. *)
Lemma METRICS_inj m m' : m ∈ METRICS → m' ∈ METRICS → mt_name m = mt_name m' → m = m'.
Proof.
  intros [i Hi]%list_elem_of_lookup [j Hj]%list_elem_of_lookup Heq.
  assert (i = j) as <-; [|congruence].
  apply (NoDup_lookup _ i j (mt_name m) METRICS_names); rewrite list_lookup_fmap; [by rewrite Hi|by rewrite Hj, Heq].
Qed.

Section metrics_facts.
Context `{PrometheusLaws R F}.
Implicit Types (g : Globals R).

(** The registry holds the statics that were used. *)
Record globals_ok g : Prop := {
  gk_registered : registered (gl_registry g) = gl_ready g;
  gk_metrics : ∀ m, m ∈ gl_ready g → m ∈ METRICS;
}.

Lemma deref_ok m g :
  globals_ok g → m ∈ METRICS →
  ∃ g', deref m g = (g', Ok tt) ∧ globals_ok g' ∧ ∀ m', m' ∈ gl_ready g' ↔ m' = m ∨ m' ∈ gl_ready g.
Proof.
  intros [Hr Hin] Hm. unfold deref. destruct (decide (m ∈ gl_ready g)) as [Hd|Hd].
  { exists g. split_and!; [done|done|]. intros m'. split; [by right|]. by intros [->|?]. }
  destruct (register_fresh (gl_registry g) m) as (r & -> & Hreg); [by apply METRICS_valid| |].
  { rewrite Hr. intros m' Hm' Hname. apply Hd. rewrite <-(METRICS_inj m' m); auto. }
  eexists. split; [done|]. split.
  - split; cbn [gl_registry gl_ready]; [by rewrite Hreg, Hr|]. intros m' [->|?]%elem_of_cons; auto.
  - intros m'. cbn [gl_ready]. apply elem_of_cons.
Qed.

(** Metrics can be used in any order and any number of times: the names of all of them are
    valid and distinct, so that no registration is refused and no use panics, and the
    registry then holds those that were used. *)
Theorem metrics_register ms g :
  globals_ok g → (∀ m, m ∈ ms → m ∈ METRICS) →
  ∃ g', deref_all ms g = (g', Ok tt) ∧ globals_ok g' ∧
    ∀ m, m ∈ registered (gl_registry g') ↔ m ∈ ms ∨ m ∈ registered (gl_registry g).
Proof.
  revert g. induction ms as [|m ms IH]; intros g Hg Hms.
  { exists g. split_and!; [done|done|]. intros m. split; [by right|]. by intros [?%elem_of_nil|?]. }
  destruct (deref_ok m g Hg) as (g1 & Hd & Hg1 & Hin1); [apply Hms; by left|].
  destruct (IH g1 Hg1) as (g2 & Hall & Hg2 & Hin2); [intros m' Hm'; apply Hms; by right|].
  exists g2. cbn [deref_all]. unfold mbind, eff_bind. rewrite Hd, Hall. split_and!; [done|done|].
  intros m'. rewrite Hin2, elem_of_cons, (gk_registered _ Hg1), Hin1, (gk_registered _ Hg). tauto.
Qed.

(** Fault: nothing of the broker or of the clients uses a metric, so that the export of a
    broker is empty whatever it has done. *)
Theorem export_unused g : globals_ok g → gl_ready g = [] → export_metrics g = Ok EmptyString.
Proof.
  intros [Hr _] Hn. unfold export_metrics. rewrite gather_nothing by (by rewrite Hr).
  by rewrite encode_nothing.
Qed.
End metrics_facts.
