(* ===== verification/Messages.v ===== *)
(** * Messages: the data of the wire protocol

    [protocol/src/messages.rs]: messages, records, metadata, requests and responses. *)
From S2P Require Import Prelude Bytes.

Record Message : Type := {
  msg_key : option bytes;
  msg_value : bytes;
  msg_timestamp : Z;
}.
#[export] Instance Message_eq_dec : EqDecision Message.
Proof. solve_decision. Defined.

(** [Message::new]: [now_ms] is the clock in milliseconds since the epoch. *)
Definition Message_new (now_ms : Z) (value : bytes) : Message :=
  {| msg_key := None; msg_value := value; msg_timestamp := w64 now_ms |}.
Definition Message_with_key (m : Message) (key : bytes) : Message :=
  {| msg_key := Some key; msg_value := msg_value m; msg_timestamp := msg_timestamp m |}.
Definition Message_with_timestamp (m : Message) (timestamp : Z) : Message :=
  {| msg_key := msg_key m; msg_value := msg_value m; msg_timestamp := timestamp |}.

(** [Record] of the protocol; the name is taken by the vernacular. *)
Record Record_ : Type := {
  rec_topic : string;
  rec_partition : Z;
  rec_offset : Z;
  rec_message : Message;
}.
#[export] Instance Record_eq_dec : EqDecision Record_.
Proof. solve_decision. Defined.

Record PartitionMetadata : Type := {
  pm_id : Z;
  pm_leader : Z;
  pm_replicas : list Z;
  pm_isr : list Z;
  pm_high_watermark : Z;
}.
#[export] Instance PartitionMetadata_eq_dec : EqDecision PartitionMetadata.
Proof. solve_decision. Defined.

Definition PartitionMetadata_new (id : Z) : PartitionMetadata :=
  {| pm_id := id; pm_leader := 0; pm_replicas := [0]; pm_isr := [0]; pm_high_watermark := 0 |}.
Definition PartitionMetadata_with_replication
    (id leader : Z) (replicas isr : list Z) : PartitionMetadata :=
  {| pm_id := id; pm_leader := leader; pm_replicas := replicas; pm_isr := isr;
     pm_high_watermark := 0 |}.

Record TopicMetadata : Type := {
  tm_name : string;
  tm_partitions : list PartitionMetadata;
}.
#[export] Instance TopicMetadata_eq_dec : EqDecision TopicMetadata.
Proof. solve_decision. Defined.

Definition TopicMetadata_new (name : string) (partition_count : Z) : TopicMetadata :=
  {| tm_name := name;
     tm_partitions := PartitionMetadata_new <$> seqZ 0 partition_count |}.

Record PartitionAssignment : Type := {
  pa_topic : string;
  pa_partition : Z;
}.
#[export] Instance PartitionAssignment_eq_dec : EqDecision PartitionAssignment.
Proof. solve_decision. Defined.

Definition PartitionAssignment_new (topic : string) (partition : Z) : PartitionAssignment :=
  {| pa_topic := topic; pa_partition := partition |}.

Record BrokerMetadata : Type := {
  bm_id : Z;
  bm_host : string;
  bm_port : Z;
}.
#[export] Instance BrokerMetadata_eq_dec : EqDecision BrokerMetadata.
Proof. solve_decision. Defined.

Record TopicPartitionMetadata : Type := {
  tpm_topic : string;
  tpm_partition : Z;
  tpm_leader : Z;
  tpm_replicas : list Z;
  tpm_isr : list Z;
}.
#[export] Instance TopicPartitionMetadata_eq_dec : EqDecision TopicPartitionMetadata.
Proof. solve_decision. Defined.

Inductive Request : Type :=
  | CreateTopic (name : string) (partitions : Z)
  | Produce (topic : string) (partition : Z) (messages : list Message)
  | Fetch (topic : string) (partition offset max_messages : Z)
  | GetMetadata (topics : list string)
  | GetPartitions (topic : string)
  | ListTopics
  | JoinGroup (group_id : string) (member_id : option string) (topics : list string)
  | LeaveGroup (group_id member_id : string)
  | Heartbeat (group_id member_id : string)
  | CommitOffset (group_id topic : string) (partition offset : Z)
  | FetchOffset (group_id topic : string) (partition : Z)
  | RegisterBroker (broker_id : Z) (host : string) (port : Z)
  | GetClusterMetadata
  | ReplicationFetch (broker_id : Z) (topic : string) (partition offset : Z).

#[export] Instance Request_eq_dec : EqDecision Request.
Proof. solve_decision. Defined.

Inductive Response : Type :=
  | CreateTopicSuccess (name : string) (partitions : Z)
  | CreateTopicError (error : string)
  | ProduceSuccess (topic : string) (partition base_offset count : Z)
  | ProduceError (error : string)
  | FetchSuccess (topic : string) (partition : Z) (records : list Record_)
  | FetchError (error : string)
  | Metadata (topics : list TopicMetadata)
  | MetadataError (error : string)
  | Partitions (topic : string) (count : Z)
  | PartitionsError (error : string)
  | Topics (topics : list string)
  | TopicsError (error : string)
  | JoinGroupSuccess (group_id member_id : string) (assignments : list PartitionAssignment)
  | JoinGroupError (error : string)
  | LeaveGroupSuccess (group_id : string)
  | LeaveGroupError (error : string)
  | HeartbeatSuccess
  | HeartbeatError (error : string) (needs_rejoin : bool)
  | CommitOffsetSuccess (group_id topic : string) (partition offset : Z)
  | CommitOffsetError (error : string)
  | FetchOffsetSuccess (group_id topic : string) (partition offset : Z)
  | FetchOffsetError (error : string)
  | RegisterBrokerSuccess (broker_id : Z)
  | RegisterBrokerError (error : string)
  | ClusterMetadataResponse
      (brokers : list BrokerMetadata) (topic_partitions : list TopicPartitionMetadata)
  | ClusterMetadataError (error : string)
  | ReplicationFetchSuccess (records : list Record_) (high_watermark leader_epoch : Z)
  | ReplicationFetchError (error : string).

#[export] Instance Response_eq_dec : EqDecision Response.
Proof. solve_decision. Defined.
