(* ===== verification/Codec.v ===== *)
(** * Codec: length-prefixed frames

    [protocol/src/codec.rs].  A message is four bytes of length, big-endian, and its
    serialisation.  The serializer ([bincode]) is a parameter.  A decoder works on a
    buffer that it consumes: it asks for more bytes until a whole frame is there. *)
From S2P Require Import Prelude Bytes Text Common Messages.

(** [bincode::serialize] and [bincode::deserialize] at a type; errors are their texts. *)
Class Bincode (A : Type) : Type := {
  bincode_serialize : A → string + bytes;
  bincode_deserialize : bytes → string + A;
}.
Class BincodeLaws A `{Bincode A} : Prop :=
  bincode_round_trip (a : A) bs : bincode_serialize a = inr bs → bincode_deserialize bs = inr a.

Definition MAX_MESSAGE_SIZE : Z := 10 * 1024 * 1024.

Definition message_too_large (length : Z) : GaffaError :=
  Protocol ("Message too large: " +:+ fmt_dec length +:+ " bytes (max: " +:+
            fmt_dec MAX_MESSAGE_SIZE +:+ " bytes)").

Definition serialization {A} (x : string + A) : Result A :=
  match x with inr a => Ok a | inl e => Err (Serialization e) end.

Section frame.
Context {A : Type} `{Bincode A}.

(** The decoders; [None] asks for more bytes, and leaves the buffer.  (The code also reserves
    space for a frame that is not complete, which changes its capacity and not its bytes.) *)
Definition frame_decode : Method bytes (option A) := λ src,
  if (length src <? 4)%nat then (src, Ok None)
  else
    let len := from_be (take 4 src) in
    if MAX_MESSAGE_SIZE <? len then (src, Err (message_too_large len))
    else if Z.of_nat (length src) <? 4 + len then (src, Ok None)
    else
      let src := drop 4 src in
      let data := take (Z.to_nat len) src in
      let src := drop (Z.to_nat len) src in
      (src, Some <$> serialization (bincode_deserialize data)).

(** The encoders: they extend the buffer [dst]. *)
Definition frame_encode (item : A) : Method bytes unit := λ dst,
  match serialization (bincode_serialize item) with
  | Ok data =>
      if MAX_MESSAGE_SIZE <? Z.of_nat (length data)
      then (dst, Err (message_too_large (Z.of_nat (length data))))
      else (dst ++ to_be 4 (w32 (Z.of_nat (length data))) ++ data, Ok tt)
  | Err e => (dst, Err e)
  | Panic => (dst, Panic)
  end.

(** What the owner of a connection does when bytes arrive: decode all the frames that are
    there.  Every frame takes at least four bytes. *)
Fixpoint decode_available (fuel : nat) : Method bytes (list A) := λ src,
  match fuel with
  | O => (src, Panic)
  | S fuel =>
      match frame_decode src with
      | (src, Ok None) => (src, Ok [])
      | (src, Ok (Some item)) =>
          let '(src, r) := decode_available fuel src in
          (src, cons item <$> r)
      | (src, Err e) => (src, Err e)
      | (src, Panic) => (src, Panic)
      end
  end.
Fixpoint decode_stream (chunks : list bytes) : Method bytes (list A) := λ src,
  match chunks with
  | [] => (src, Ok [])
  | chunk :: chunks =>
      let src := src ++ chunk in
      match decode_available (S (length src)) src with
      | (src, Ok items) =>
          let '(src, r) := decode_stream chunks src in
          (src, app items <$> r)
      | (src, Err e) => (src, Err e)
      | (src, Panic) => (src, Panic)
      end
  end.
Fixpoint encode_all (items : list A) : Method bytes unit :=
  match items with
  | [] => mret tt
  | item :: items => _ ← frame_encode item; encode_all items
  end.
End frame.

(** The server decodes requests and encodes responses, the client the other way round;
    the four bodies of the source are the same. *)
Definition GaffaCodec_decode `{Bincode Request} : Method bytes (option Request) := frame_decode.
Definition GaffaCodec_encode `{Bincode Response} : Response → Method bytes unit := frame_encode.
Definition ClientCodec_encode `{Bincode Request} : Request → Method bytes unit := frame_encode.
Definition ClientCodec_decode `{Bincode Response} : Method bytes (option Response) := frame_decode.

(** ** Frames *)
Section frame_facts.
Context {A : Type} `{BincodeLaws A}.
Implicit Types (item : A) (src dst : bytes).

(** The frame of an item that can be sent. *)
Definition frame_of item (frame : bytes) : Prop :=
  ∃ data, bincode_serialize item = inr data ∧ Z.of_nat (length data) ≤ MAX_MESSAGE_SIZE ∧
    frame = to_be 4 (Z.of_nat (length data)) ++ data.

Lemma frame_encode_aux item dst :
  (∃ frame, frame_of item frame ∧ frame_encode item dst = (dst ++ frame, Ok tt)) ∨
  (∃ e, frame_encode item dst = (dst, Err e)).
Proof.
  unfold frame_encode, frame_of, serialization.
  destruct (bincode_serialize item) as [e|data]; [right; by eexists|].
  destruct (Z.ltb_spec MAX_MESSAGE_SIZE (Z.of_nat (length data))); [right; by eexists|left].
  eexists. split; [by exists data|].
  rewrite w32_small; [done|]. unfold is_u32, MAX_MESSAGE_SIZE in *. lia.
Qed.

Lemma frame_encode_Ok item dst dst' :
  frame_encode item dst = (dst', Ok tt) → ∃ frame, frame_of item frame ∧ dst' = dst ++ frame.
Proof.
  destruct (frame_encode_aux item dst) as [(f & Hf & ->)|(e & ->)]; [|done].
  intros [= <-]. by exists f.
Qed.

Lemma frame_decode_whole item frame rest :
  frame_of item frame → frame_decode (frame ++ rest) = (rest, Ok (Some item)).
Proof.
  intros (data & Hs & Hl & ->). unfold frame_decode, MAX_MESSAGE_SIZE in *.
  rewrite !length_app, length_to_be.
  rewrite (proj2 (Nat.ltb_ge _ _)) by lia.
  rewrite <-app_assoc, take_app_length', drop_app_length' by (by rewrite length_to_be).
  rewrite from_be_to_be_u32 by (unfold is_u32; lia).
  rewrite (proj2 (Z.ltb_ge _ _)), (proj2 (Z.ltb_ge _ _)) by lia.
  rewrite Nat2Z.id, take_app_length, drop_app_length, (bincode_round_trip _ _ Hs). done.
Qed.

Lemma frame_decode_partial item frame n :
  frame_of item frame → (n < length frame)%nat →
  frame_decode (A:=A) (take n frame) = (take n frame, Ok None).
Proof.
  intros (data & Hs & Hl & ->) Hn. unfold frame_decode, MAX_MESSAGE_SIZE in *.
  rewrite length_take. rewrite !length_app, length_to_be in *.
  destruct (Nat.ltb_spec (n `min` (4 + length data)) 4); [done|].
  rewrite take_take, Nat.min_l by lia.
  rewrite take_app_length' by (by rewrite length_to_be).
  rewrite from_be_to_be_u32 by (unfold is_u32; lia).
  rewrite (proj2 (Z.ltb_ge _ _)) by lia. rewrite (proj2 (Z.ltb_lt _ _)) by lia. done.
Qed.

Lemma frame_length item frame : frame_of item frame → (4 ≤ length frame)%nat.
Proof. intros (data & _ & _ & ->). rewrite length_app, length_to_be. lia. Qed.

(** ** Streams of frames *)
Lemma encode_all_frames items dst dst' :
  encode_all items dst = (dst', Ok tt) →
  ∃ frames, Forall2 frame_of items frames ∧ dst' = dst ++ concat frames.
Proof.
  revert dst. induction items as [|item items IH]; intros dst; cbn [encode_all].
  { intros [= <-]. exists []. split; [done|]. by rewrite app_nil_r. }
  unfold mbind, eff_bind. destruct (frame_encode item dst) as [d1 [[]|e|]] eqn:E; [|done|done].
  apply frame_encode_Ok in E as (f & Hf & ->). intros (fs & Hfs & ->)%IH.
  exists (f :: fs). split; [by constructor|]. cbn [concat]. by rewrite app_assoc.
Qed.

(** [n] bytes of the stream of [frames]: the whole frames in it are decoded, and less
    than a frame is left. *)
Definition stream_rest (frames : list bytes) (k : nat) : Prop :=
  (k ≤ length (concat frames))%nat ∧ ∀ f, head frames = Some f → (k < length f)%nat.

Lemma decode_available_prefix items frames n fuel :
  Forall2 frame_of items frames → (n ≤ length (concat frames))%nat → (n < fuel)%nat →
  ∃ items1 items2 frames2 k, items = items1 ++ items2 ∧
    decode_available fuel (take n (concat frames)) = (take k (concat frames2), Ok items1) ∧
    Forall2 frame_of items2 frames2 ∧ stream_rest frames2 k ∧
    drop n (concat frames) = drop k (concat frames2).
Proof.
  intros Hall. revert n fuel. induction Hall as [|item frame items frames Hf Hall IH]; intros n fuel Hn Hfuel.
  { exists [], [], [], 0%nat. destruct fuel as [|fuel]; [lia|]. split; [done|]. cbn [concat].
    rewrite !take_nil, !drop_nil. split; [done|]. split; [constructor|]. split; [by split|done]. }
  destruct fuel as [|fuel]; [lia|]. pose proof (frame_length _ _ Hf). cbn [concat] in *.
  destruct (decide (length frame ≤ n)%nat) as [Hle|Hgt].
  - rewrite length_app in Hn.
    destruct (IH (n - length frame)%nat fuel) as (i1 & i2 & f2 & k & -> & Hd & Hf2 & Hk & Hdrop); [lia|lia|].
    exists (item :: i1), i2, f2, k. split; [done|]. split; [|split; [done|split; [done|]]].
    + cbn [decode_available]. rewrite take_app_ge by lia.
      rewrite (frame_decode_whole item) by done. by rewrite Hd.
    + by rewrite drop_app_ge by lia.
  - exists [], (item :: items), (frame :: frames), n. split; [done|].
    split; [|split; [by constructor|split; [split; [done|]|done]]].
    + cbn [decode_available concat]. rewrite take_app_le by lia.
      rewrite (frame_decode_partial item) by (done || lia). done.
    + intros f [= <-]. lia.
Qed.

Lemma decode_stream_aux chunks items frames n :
  Forall2 frame_of items frames → stream_rest frames n → concat chunks = drop n (concat frames) →
  decode_stream chunks (take n (concat frames)) = ([], Ok items).
Proof.
  revert items frames n. induction chunks as [|chunk chunks IH]; intros items frames n Hall [Hn Hpart] Hc.
  { destruct Hall as [|item frame items frames Hf Hall]; [cbn; by rewrite take_nil|].
    specialize (Hpart frame eq_refl). apply (f_equal length) in Hc.
    cbn [concat] in *. rewrite length_drop, length_app in *. simpl in Hc. lia. }
  cbn [concat decode_stream] in *.
  assert (chunk = take (length chunk) (drop n (concat frames))) as Hchunk
    by (by rewrite <-Hc, take_app_length).
  assert (concat chunks = drop (n + length chunk) (concat frames)) as Hc'
    by (by rewrite <-drop_drop, <-Hc, drop_app_length).
  assert (n + length chunk ≤ length (concat frames))%nat as Hle.
  { apply (f_equal length) in Hc. rewrite length_app, length_drop in Hc. lia. }
  assert (take n (concat frames) ++ chunk = take (n + length chunk) (concat frames)) as ->.
  { rewrite Hchunk at 1. by rewrite take_take_drop. }
  destruct (decode_available_prefix items frames (n + length chunk)
    (S (length (take (n + length chunk) (concat frames)))) Hall Hle)
    as (i1 & i2 & f2 & k & -> & -> & Hf2 & Hk & Hdrop); [rewrite length_take; lia|].
  rewrite Hdrop in Hc'. by rewrite (IH i2 f2 k Hf2 Hk Hc').
Qed.

End frame_facts.

(** ** Properties *)
Section codec_properties.
Context `{BincodeLaws Request} `{BincodeLaws Response}.

(** What the client encodes the server decodes, whatever follows in the buffer, which
    keeps exactly that; and the same for responses. *)
Theorem codec_round_trip (req : Request) (resp : Response) dst1 dst1' dst2 dst2' rest :
  ClientCodec_encode req dst1 = (dst1', Ok tt) → GaffaCodec_encode resp dst2 = (dst2', Ok tt) →
  GaffaCodec_decode (drop (length dst1) dst1' ++ rest) = (rest, Ok (Some req)) ∧
  ClientCodec_decode (drop (length dst2) dst2' ++ rest) = (rest, Ok (Some resp)).
Proof.
  intros (f1 & Hf1 & ->)%frame_encode_Ok (f2 & Hf2 & ->)%frame_encode_Ok.
  rewrite !drop_app_length. split; by apply frame_decode_whole.
Qed.

(** An incomplete frame is not decoded and not consumed: the decoder asks for more
    bytes. *)
Theorem codec_partial (req : Request) dst n :
  ClientCodec_encode req [] = (dst, Ok tt) → (n < length dst)%nat →
  GaffaCodec_decode (take n dst) = (take n dst, Ok None).
Proof. intros (f & Hf & ->)%frame_encode_Ok Hn. by apply (frame_decode_partial req). Qed.

(** C29: however the bytes of a sequence of requests are cut into chunks, the server
    decodes exactly these requests, in order, and has nothing left. *)
Theorem codec_stream (reqs : list Request) dst chunks :
  encode_all reqs [] = (dst, Ok tt) → concat chunks = dst →
  decode_stream chunks [] = ([], Ok reqs).
Proof.
  intros (fs & Hfs & ->)%encode_all_frames Hc.
  rewrite <-(take_0 (concat fs)). apply (decode_stream_aux chunks reqs fs 0 Hfs).
  - split; [lia|]. intros f Hf. destruct Hfs as [|r f' ?? Hr]; [done|]. injection Hf as <-.
    pose proof (frame_length _ _ Hr). lia.
  - done.
Qed.

(** An announced length above 10 MiB is refused before anything is read or reserved,
    and a message whose serialisation is larger is not sent: the output is unchanged. *)
Theorem codec_oversize (resp : Response) data dst src :
  (MAX_MESSAGE_SIZE < from_be (take 4 src) → (4 ≤ length src)%nat →
    GaffaCodec_decode src = (src, Err (message_too_large (from_be (take 4 src))))) ∧
  (bincode_serialize resp = inr data → MAX_MESSAGE_SIZE < Z.of_nat (length data) →
    GaffaCodec_encode resp dst = (dst, Err (message_too_large (Z.of_nat (length data))))).
Proof.
  split.
  - intros Hl Hs. unfold GaffaCodec_decode, frame_decode.
    by rewrite (proj2 (Nat.ltb_ge _ _)), (proj2 (Z.ltb_lt _ _)) by done.
  - intros Hs Hl. unfold GaffaCodec_encode, frame_encode, serialization.
    by rewrite Hs, (proj2 (Z.ltb_lt _ _)) by done.
Qed.
End codec_properties.
