(* ===== verification/Compression.v ===== *)
(** * Compression: the choice of an algorithm

    [storage/src/compression.rs].  The algorithms are those of the crates [flate2],
    [snap] and [lz4_flex]: [CompressionLib] lists what the file calls of them, and
    [CompressionLaws] that each decompressor inverts its compressor, which is what
    those crates document. *)
From S2P Require Import Prelude Bytes Text Common.

Inductive CompressionType : Type := CNone | Gzip | Snappy | Lz4.
#[export] Instance CompressionType_eq_dec : EqDecision CompressionType.
Proof. solve_decision. Defined.

(** [inl] carries the library's error as it is displayed. *)
Class CompressionLib : Type := {
  gz_encode : bytes → string + bytes;
  gz_decode : bytes → string + bytes;
  snap_encoder : Type;
  snap_write : bytes → string + snap_encoder;
  snap_into_inner : snap_encoder → string + bytes;
  snap_decode : bytes → string + bytes;
  lz4_compress_prepend_size : bytes → bytes;
  lz4_decompress_size_prepended : bytes → string + bytes;
}.

Definition map_err {A} (context : string) (r : string + A) : Result A :=
  match r with
  | inl e => Err (Compression (context +:+ e))
  | inr a => Ok a
  end.

Definition CompressionType_from_u8 (value : Z) : Result CompressionType :=
  if value =? 0 then Ok CNone
  else if value =? 1 then Ok Gzip
  else if value =? 2 then Ok Snappy
  else if value =? 3 then Ok Lz4
  else Err (InvalidMessage ("Unknown compression type: " +:+ fmt_dec value)).

Definition CompressionType_to_u8 (c : CompressionType) : Z :=
  match c with CNone => 0 | Gzip => 1 | Snappy => 2 | Lz4 => 3 end.

Section compression.
Context `{CompressionLib}.

Definition compress_gzip (data : bytes) : Result bytes :=
  map_err "Gzip compression failed: " (gz_encode data).
Definition decompress_gzip (data : bytes) : Result bytes :=
  map_err "Gzip decompression failed: " (gz_decode data).
(** The bytes written to the frame encoder, then its buffer taken out. *)
Definition compress_snappy (data : bytes) : Result bytes :=
  encoder ← map_err "Snappy compression failed: " (snap_write data);
  map_err "Snappy compression failed: " (snap_into_inner encoder).
Definition decompress_snappy (data : bytes) : Result bytes :=
  map_err "Snappy decompression failed: " (snap_decode data).
Definition compress_lz4 (data : bytes) : Result bytes :=
  Ok (lz4_compress_prepend_size data).
Definition decompress_lz4 (data : bytes) : Result bytes :=
  map_err "LZ4 decompression failed: " (lz4_decompress_size_prepended data).

Definition compress (data : bytes) (compression : CompressionType) : Result bytes :=
  match compression with
  | CNone => Ok data
  | Gzip => compress_gzip data
  | Snappy => compress_snappy data
  | Lz4 => compress_lz4 data
  end.

Definition decompress (data : bytes) (compression : CompressionType) : Result bytes :=
  match compression with
  | CNone => Ok data
  | Gzip => decompress_gzip data
  | Snappy => decompress_snappy data
  | Lz4 => decompress_lz4 data
  end.

End compression.

(** What the crates document: decoding what was encoded gives the data back. *)
Class CompressionLaws `{CompressionLib} : Prop := {
  gz_round_trip d e : gz_encode d = inr e → gz_decode e = inr d;
  snap_round_trip d w e :
    snap_write d = inr w → snap_into_inner w = inr e → snap_decode e = inr d;
  lz4_round_trip d : lz4_decompress_size_prepended (lz4_compress_prepend_size d) = inr d;
}.

Lemma from_u8_to_u8 c : CompressionType_from_u8 (CompressionType_to_u8 c) = Ok c.
Proof. by destruct c. Qed.

Lemma map_err_Ok {A} ctx (r : string + A) a : map_err ctx r = Ok a → r = inr a.
Proof. destruct r; simpl; congruence. Qed.

Lemma decompress_compress `{CompressionLaws} d c e :
  compress d c = Ok e → decompress e c = Ok d.
Proof.
  destruct c; simpl.
  - congruence.
  - intros Hc%map_err_Ok. unfold decompress_gzip. by rewrite (gz_round_trip d e).
  - unfold compress_snappy. intros (w & Hw%map_err_Ok & Hi%map_err_Ok)%outcome_bind_Ok_inv.
    unfold decompress_snappy. by rewrite (snap_round_trip d w e).
  - intros [= <-]. unfold decompress_lz4. by rewrite lz4_round_trip.
Qed.
