(* ===== verification/DiskRecord.v ===== *)
(** * DiskRecord: the on-disk record format

    [storage/src/record.rs].  A record is encoded as its offset (8 bytes), the length
    of the body (4), the CRC32 of the data (4), and the data: compression type (1),
    timestamp (8), key length (4, -1 when absent), key, value length (4) and the value,
    compressed.  [crc32fast] and the compression crates are parameters. *)
From S2P Require Import Prelude Bytes Text Common Messages Compression.

(** [crc32fast::hash]: a 32-bit checksum. *)
Class Crc32 : Type := crc32_hash : bytes → Z.
Class Crc32Laws `{Crc32} : Prop := crc32_range d : is_u32 (crc32_hash d).

Record DiskRecord : Type := {
  dr_offset : Z;
  dr_timestamp : Z;
  dr_key : option bytes;
  dr_value : bytes;
  dr_compression : CompressionType;
}.
#[export] Instance DiskRecord_eq_dec : EqDecision DiskRecord.
Proof. solve_decision. Defined.

Definition DiskRecord_new (offset : Z) (m : Message) : DiskRecord :=
  {| dr_offset := offset; dr_timestamp := msg_timestamp m; dr_key := msg_key m;
     dr_value := msg_value m; dr_compression := CNone |}.
Definition DiskRecord_new_with_compression
    (offset : Z) (m : Message) (c : CompressionType) : DiskRecord :=
  {| dr_offset := offset; dr_timestamp := msg_timestamp m; dr_key := msg_key m;
     dr_value := msg_value m; dr_compression := c |}.

Definition DiskRecord_to_message (r : DiskRecord) : Message :=
  {| msg_key := dr_key r; msg_value := dr_value r; msg_timestamp := dr_timestamp r |}.

Definition key_len (key : option bytes) : Z :=
  match key with Some k => Z.of_nat (length k) | None => 0 end.

Definition DiskRecord_serialized_size (r : DiskRecord) : Z :=
  let size := 8 + 4 + 4 + 1 + 8 + 4 in
  let size := match dr_key r with Some k => size + Z.of_nat (length k) | None => size end in
  let size := size + 4 in
  size + Z.of_nat (length (dr_value r)).

Section record.
Context `{Crc32} `{CompressionLib}.

(** The part of the record that the checksum covers. *)
Definition DiskRecord_checked_data (r : DiskRecord) (value_data : bytes) : bytes :=
  to_be 1 (CompressionType_to_u8 (dr_compression r)) ++
  to_be 8 (dr_timestamp r) ++
  match dr_key r with
  | Some key => to_be 4 (as_i32 (Z.of_nat (length key))) ++ key
  | None => to_be 4 (-1)
  end ++
  to_be 4 (w32 (Z.of_nat (length value_data))) ++
  value_data.

Definition DiskRecord_encode (r : DiskRecord) : Result bytes :=
  value_data ← compress (dr_value r) (dr_compression r);
  let body_size := 4 + 1 + 8 + 4 in
  let body_size :=
    match dr_key r with Some k => body_size + Z.of_nat (length k) | None => body_size end in
  let body_size := body_size + 4 in
  let body_size := body_size + Z.of_nat (length value_data) in
  let buffer := to_be 8 (dr_offset r) in
  let buffer := buffer ++ to_be 4 (w32 body_size) in
  let data_to_checksum := DiskRecord_checked_data r value_data in
  let crc := crc32_hash data_to_checksum in
  let buffer := buffer ++ to_be 4 crc in
  Ok (buffer ++ data_to_checksum).

(** [read_exact] on a reader, with the error the code wraps it in. *)
Definition read_field (what : string) (n : Z) (reader : bytes) : Result (bytes * bytes) :=
  ok_or (Storage ("Failed to read " +:+ what +:+ ": failed to fill whole buffer"))
    (read_exact n reader).

(** [vec![0u8; n]]: a capacity above [isize::MAX] panics. *)
Definition vec_zeroed (n : Z) : Result unit :=
  if 2 ^ 63 <=? n then Panic else Ok tt.

(** The fields of the checksummed data, read with a cursor. *)
Definition DiskRecord_parse (offset : Z) (data : bytes) : Result DiskRecord :=
  '(compression_buf, cursor) ← read_field "compression type" 1 data;
  compression ← CompressionType_from_u8 (from_be compression_buf);
  '(timestamp_buf, cursor) ← read_field "timestamp" 8 cursor;
  let timestamp := from_be timestamp_buf in
  '(key_len_buf, cursor) ← read_field "key length" 4 cursor;
  let key_len := as_i32 (from_be key_len_buf) in
  '(key, cursor) ←
    (if 0 <=? key_len then
       '(key_data, cursor) ← read_field "key" key_len cursor;
       Ok (Some key_data, cursor)
     else Ok (None, cursor));
  '(value_len_buf, cursor) ← read_field "value length" 4 cursor;
  let value_len := from_be value_len_buf in
  '(value_data, _) ← read_field "value" value_len cursor;
  value ← decompress value_data compression;
  Ok {| dr_offset := offset; dr_timestamp := timestamp; dr_key := key; dr_value := value;
        dr_compression := compression |}.

(** The record at the front of the reader, and the rest of the reader. *)
Definition DiskRecord_decode (reader : bytes) : Result (DiskRecord * bytes) :=
  '(offset_buf, reader) ← read_field "offset" 8 reader;
  let offset := from_be offset_buf in
  '(length_buf, reader) ← read_field "length" 4 reader;
  let length := from_be length_buf in
  '(crc_buf, reader) ← read_field "CRC" 4 reader;
  let expected_crc := from_be crc_buf in
  let data_length := w64 (length - 4) in
  _ ← vec_zeroed data_length;
  '(data, reader) ← read_field "record data" data_length reader;
  let actual_crc := crc32_hash data in
  if negb (actual_crc =? expected_crc) then
    Err (Corruption
      ("CRC mismatch at offset " +:+ fmt_dec offset +:+ ": expected " +:+
       fmt_dec expected_crc +:+ ", got " +:+ fmt_dec actual_crc))
  else
    record ← DiskRecord_parse offset data;
    Ok (record, reader).

End record.

(** ** Lemmas *)
Lemma read_field_app what n (bs rest : bytes) :
  n = Z.of_nat (length bs) → read_field what n (bs ++ rest) = Ok (bs, rest).
Proof. intros Hn. unfold read_field. by rewrite read_exact_app. Qed.

Lemma read_field_exact what n (bs : bytes) :
  n = Z.of_nat (length bs) → read_field what n bs = Ok (bs, []).
Proof. intros Hn. rewrite <-(app_nil_r bs) at 1. by apply read_field_app. Qed.

Lemma read_field_short what n (r : bytes) :
  Z.of_nat (length r) < n →
  read_field what n r = Err (Storage ("Failed to read " +:+ what +:+ ": failed to fill whole buffer")).
Proof. intros Hn. unfold read_field. by rewrite read_exact_short. Qed.

Lemma read_field_Ok what n r bs rest :
  0 ≤ n → read_field what n r = Ok (bs, rest) → r = bs ++ rest ∧ Z.of_nat (length bs) = n.
Proof.
  unfold read_field. intros Hn. destruct (read_exact n r) as [[? ?]|] eqn:E; [|done].
  intros [= -> ->]. by apply read_exact_Some.
Qed.

Lemma read_field_not_panic what n r : read_field what n r ≠ Panic.
Proof. unfold read_field. by destruct (read_exact n r). Qed.

(** Reads a fixed-width field off the front of the reader. *)
Ltac read_front :=
  rewrite read_field_app by (rewrite ?length_to_be; simpl; lia);
  rewrite ?outcome_bind_Ok; cbv beta iota.

Section record_facts.
Context `{Crc32Laws} `{CompressionLaws}.

(** The header and a body of the length it announces. *)
Lemma decode_framed offset crc data rest :
  is_u64 offset → is_u32 crc → Z.of_nat (length data) + 4 < 2 ^ 32 →
  DiskRecord_decode
    (to_be 8 offset ++ to_be 4 (Z.of_nat (length data) + 4) ++ to_be 4 crc ++ data ++ rest) =
  if negb (crc32_hash data =? crc) then
    Err (Corruption
      ("CRC mismatch at offset " +:+ fmt_dec offset +:+ ": expected " +:+
       fmt_dec crc +:+ ", got " +:+ fmt_dec (crc32_hash data)))
  else record ← DiskRecord_parse offset data; Ok (record, rest).
Proof.
  intros Ho Hc Hl. unfold DiskRecord_decode. do 3 read_front.
  rewrite from_be_to_be_u64, !from_be_to_be_u32 by (unfold is_u32; lia || done).
  rewrite Z.add_simpl_r, w64_small by (unfold is_u64; lia).
  unfold vec_zeroed. rewrite (proj2 (Z.leb_gt _ _)) by lia.
  rewrite outcome_bind_Ok. by read_front.
Qed.

(** The parser reads back what the encoder laid out. *)
Lemma parse_checked_data r value_data :
  is_u64 (dr_timestamp r) → key_len (dr_key r) < 2 ^ 31 →
  Z.of_nat (length value_data) < 2 ^ 32 →
  compress (dr_value r) (dr_compression r) = Ok value_data →
  DiskRecord_parse (dr_offset r) (DiskRecord_checked_data r value_data) = Ok r.
Proof.
  intros Ht Hk Hv Hc. unfold DiskRecord_parse, DiskRecord_checked_data.
  read_front. rewrite from_be_to_be, Z.mod_small by (by destruct (dr_compression r)).
  rewrite from_u8_to_u8, outcome_bind_Ok. read_front. rewrite from_be_to_be_u64 by done.
  destruct r as [off ts [k|] v c];
    cbn [dr_offset dr_timestamp dr_key dr_value dr_compression key_len] in *.
  - rewrite <-!app_assoc. read_front.
    rewrite from_be_to_be_w32, (as_i32_small (Z.of_nat (length k))) by lia.
    rewrite w32_small, as_i32_small by (unfold is_u32; lia).
    rewrite (proj2 (Z.leb_le _ _)) by lia. read_front. read_front.
    rewrite from_be_to_be_w32, !w32_small by (rewrite ?w32_small; unfold is_u32; lia).
    rewrite read_field_exact by done. rewrite outcome_bind_Ok; cbv beta iota.
    by rewrite (decompress_compress _ _ _ Hc).
  - read_front. change (as_i32 (from_be (to_be 4 (-1)))) with (-1).
    rewrite (proj2 (Z.leb_gt _ _)) by lia. rewrite outcome_bind_Ok; cbv beta iota.
    read_front.
    rewrite from_be_to_be_w32, !w32_small by (rewrite ?w32_small; unfold is_u32; lia).
    rewrite read_field_exact by done. rewrite outcome_bind_Ok; cbv beta iota.
    by rewrite (decompress_compress _ _ _ Hc).
Qed.

(** What an encoded record looks like. *)
Lemma encode_inv r bs :
  DiskRecord_encode r = Ok bs →
  ∃ v, compress (dr_value r) (dr_compression r) = Ok v ∧
    let data := DiskRecord_checked_data r v in
    Z.of_nat (length data) = 17 + key_len (dr_key r) + Z.of_nat (length v) ∧
    bs = to_be 8 (dr_offset r) ++ to_be 4 (w32 (Z.of_nat (length data) + 4)) ++
         to_be 4 (crc32_hash data) ++ data.
Proof.
  unfold DiskRecord_encode. intros (v & Hv & Hbs)%outcome_bind_Ok_inv.
  exists v. split; [done|]. cbv zeta. injection Hbs as <-.
  assert (Z.of_nat (length (DiskRecord_checked_data r v)) =
    17 + key_len (dr_key r) + Z.of_nat (length v)) as Hlen.
  { unfold DiskRecord_checked_data. rewrite !length_app, !length_to_be.
    destruct (dr_key r); cbn [key_len]; rewrite ?length_app, length_to_be; lia. }
  split; [done|]. rewrite Hlen, <-!app_assoc. do 4 f_equal.
  destruct (dr_key r); cbn [key_len]; lia.
Qed.

Lemma encode_length r bs :
  DiskRecord_encode r = Ok bs →
  ∃ v, compress (dr_value r) (dr_compression r) = Ok v ∧
    Z.of_nat (length bs) = 33 + key_len (dr_key r) + Z.of_nat (length v).
Proof.
  intros (v & Hv & Hl & ->)%encode_inv. exists v. split; [done|].
  rewrite !length_app, !length_to_be. lia.
Qed.

Lemma key_len_nonneg k : 0 ≤ key_len k.
Proof. destruct k; simpl; lia. Qed.

(** A record whose fields fit their widths. *)
Definition DiskRecord_wf (r : DiskRecord) : Prop :=
  is_u64 (dr_offset r) ∧ is_u64 (dr_timestamp r) ∧ key_len (dr_key r) < 2 ^ 31.
(** Encoded bytes whose body length fits its field. *)
Definition encoding_fits (bs : bytes) : Prop := Z.of_nat (length bs) < 2 ^ 32 + 12.

Lemma decode_encode_aux r bs rest :
  DiskRecord_wf r → DiskRecord_encode r = Ok bs → encoding_fits bs →
  DiskRecord_decode (bs ++ rest) = Ok (r, rest).
Proof.
  intros (Ho & Ht & Hk) (v & Hv & Hl & ->)%encode_inv Hfit.
  unfold encoding_fits in Hfit. rewrite !length_app, !length_to_be in Hfit.
  pose proof (key_len_nonneg (dr_key r)).
  rewrite w32_small by (unfold is_u32; lia).
  rewrite <-!app_assoc, decode_framed by (done || apply crc32_range || lia).
  rewrite Z.eqb_refl. cbn [negb].
  rewrite parse_checked_data by (done || lia). done.
Qed.

(** Readers that end too early. *)
Lemma decode_header_short r :
  (length r < 16)%nat → ∃ e, DiskRecord_decode r = Err (Storage e).
Proof.
  intros Hr. unfold DiskRecord_decode.
  destruct (read_field "offset" 8 r) as [[o r1]|e|] eqn:E1; cycle 1.
  { unfold read_field, ok_or in E1. destruct (read_exact 8 r); simplify_eq. by eexists. }
  { by apply read_field_not_panic in E1. }
  apply read_field_Ok in E1 as [-> Ho]; [|done]. rewrite outcome_bind_Ok; cbv beta iota.
  destruct (read_field "length" 4 r1) as [[l r2]|e|] eqn:E2; cycle 1.
  { unfold read_field, ok_or in E2. destruct (read_exact 4 r1); simplify_eq. by eexists. }
  { by apply read_field_not_panic in E2. }
  apply read_field_Ok in E2 as [-> Hl]; [|done]. rewrite outcome_bind_Ok; cbv beta iota.
  rewrite !length_app in Hr. rewrite read_field_short by lia. by eexists.
Qed.

Lemma decode_data_short offset len crc data :
  is_u32 len → Z.of_nat (length data) + 4 < len →
  ∃ e, DiskRecord_decode (to_be 8 offset ++ to_be 4 len ++ to_be 4 crc ++ data) =
    Err (Storage e).
Proof.
  unfold is_u32. intros Hlen Hd. unfold DiskRecord_decode. do 3 read_front.
  rewrite (from_be_to_be_u32 len), w64_small by (unfold is_u32, is_u64; lia).
  unfold vec_zeroed. rewrite (proj2 (Z.leb_gt _ _)), outcome_bind_Ok by lia.
  rewrite read_field_short by lia. by eexists.
Qed.

Lemma decode_truncated_aux r bs n :
  DiskRecord_encode r = Ok bs → encoding_fits bs → (n < length bs)%nat →
  ∃ e, DiskRecord_decode (take n bs) = Err (Storage e).
Proof.
  intros (v & Hv & Hl & ->)%encode_inv Hfit Hn. unfold encoding_fits in Hfit.
  destruct (decide (n < 16)%nat) as [Hs|Hs].
  { apply decode_header_short. rewrite length_take. lia. }
  rewrite !length_app, !length_to_be in Hn, Hfit. pose proof (key_len_nonneg (dr_key r)).
  rewrite !take_app_sum by (rewrite ?length_to_be; lia). rewrite !length_to_be.
  rewrite w32_small by (unfold is_u32; lia).
  apply decode_data_short; [unfold is_u32; lia|]. rewrite length_take. lia.
Qed.

(** What a successful decoding consumed. *)
Lemma decode_consumes bs r rest :
  DiskRecord_decode bs = Ok (r, rest) → (length rest + 16 ≤ length bs)%nat.
Proof.
  unfold DiskRecord_decode.
  intros ([o r1] & [-> Ho]%read_field_Ok & H3)%outcome_bind_Ok_inv; [|done].
  apply outcome_bind_Ok_inv in H3 as ([l r2] & [-> Hl]%read_field_Ok & H3); [|done].
  apply outcome_bind_Ok_inv in H3 as ([c r3] & [-> Hc]%read_field_Ok & H3); [|done].
  apply outcome_bind_Ok_inv in H3 as ([] & _ & H3).
  apply outcome_bind_Ok_inv in H3 as ([d r4] & [-> Hd]%read_field_Ok & H3);
    [|apply w64_range].
  destruct (negb _); [done|].
  apply outcome_bind_Ok_inv in H3 as (r' & _ & [= -> ->]).
  rewrite !length_app. lia.
Qed.

(** The parser fails only with errors. *)
Lemma map_err_not_panic {A} ctx (x : string + A) : map_err ctx x ≠ Panic.
Proof. by destruct x. Qed.

Lemma decompress_not_panic d c : decompress d c ≠ Panic.
Proof.
  destruct c; cbn [decompress]; [done| | |]; apply map_err_not_panic.
Qed.

Lemma from_u8_not_panic z : CompressionType_from_u8 z ≠ Panic.
Proof. unfold CompressionType_from_u8. by repeat case_match. Qed.

Lemma bind_not_panic {A B} (m : Result A) (f : A → Result B) :
  m ≠ Panic → (∀ a, m = Ok a → f a ≠ Panic) → (m ≫= f) ≠ Panic.
Proof. destruct m; simpl; auto. Qed.

Lemma parse_not_panic offset data : DiskRecord_parse offset data ≠ Panic.
Proof.
  unfold DiskRecord_parse.
  repeat first
    [ apply bind_not_panic; [|intros [] ?]
    | apply read_field_not_panic | apply from_u8_not_panic | apply decompress_not_panic
    | case_match | done ].
Qed.

Lemma read_field_long what n r :
  0 ≤ n ≤ Z.of_nat (length r) →
  read_field what n r = Ok (take (Z.to_nat n) r, drop (Z.to_nat n) r).
Proof.
  intros Hn. rewrite <-(take_drop (Z.to_nat n) r) at 1.
  apply read_field_app. rewrite length_take. lia.
Qed.

Lemma decode_panics_aux bs :
  DiskRecord_decode bs = Panic ↔ (16 ≤ length bs)%nat ∧ from_be (take 4 (drop 8 bs)) < 4.
Proof.
  destruct (decide (length bs < 16)%nat) as [Hs|Hs].
  { destruct (decode_header_short bs Hs) as [e ->]. split; [done|]. intros [? _]. lia. }
  unfold DiskRecord_decode. rewrite read_field_long, outcome_bind_Ok by lia. cbv beta iota.
  rewrite read_field_long, outcome_bind_Ok by (rewrite length_drop; lia). cbv beta iota.
  rewrite read_field_long, outcome_bind_Ok by (rewrite !length_drop; lia). cbv beta iota.
  change (Z.to_nat 4) with 4%nat. change (Z.to_nat 8) with 8%nat.
  set (len := from_be (take 4 (drop 8 bs))).
  assert (0 ≤ len < 2 ^ 32) as Hlen.
  { pose proof (from_be_range (take 4 (drop 8 bs))) as Hr.
    rewrite length_take, length_drop in Hr.
    replace (4 `min` (length bs - 8))%nat with 4%nat in Hr by lia. exact Hr. }
  unfold vec_zeroed. destruct (decide (len < 4)) as [Hp|Hp].
  - assert (w64 (len - 4) = len - 4 + 2 ^ 64) as ->.
    { unfold w64. symmetry. apply (Z.mod_unique _ _ (-1)); lia. }
    rewrite (proj2 (Z.leb_le _ _)) by lia. split; [|done]. intros _. split; lia.
  - rewrite w64_small by (unfold is_u64; lia).
    rewrite (proj2 (Z.leb_gt _ _)), outcome_bind_Ok by lia.
    split; [|lia]. intros Hpanic. exfalso. revert Hpanic.
    apply bind_not_panic; [apply read_field_not_panic|]. intros [d r4] _.
    destruct (negb _); [done|]. apply bind_not_panic; [apply parse_not_panic|done].
Qed.

(** ** Properties *)

(** C26: decoding an encoded record gives the record back and leaves the reader right
    after it, for every compression type, whatever follows in the reader. *)
Theorem DiskRecord_decode_encode r bs rest :
  DiskRecord_wf r → DiskRecord_encode r = Ok bs → encoding_fits bs →
  DiskRecord_decode (bs ++ rest) = Ok (r, rest).
Proof. apply decode_encode_aux. Qed.

(** Every strict prefix of an encoded record (a torn write) is refused with a
    storage error: it is neither accepted nor a panic. *)
Theorem DiskRecord_decode_truncated r bs n :
  DiskRecord_encode r = Ok bs → encoding_fits bs → (n < length bs)%nat →
  ∃ e, DiskRecord_decode (take n bs) = Err (Storage e).
Proof. apply decode_truncated_aux. Qed.

(** A body whose checksum does not match the stored one is reported as corruption,
    before any of its fields is looked at. *)
Theorem DiskRecord_decode_corrupted offset crc data rest :
  is_u64 offset → is_u32 crc → Z.of_nat (length data) + 4 < 2 ^ 32 →
  crc32_hash data ≠ crc →
  ∃ e, DiskRecord_decode
    (to_be 8 offset ++ to_be 4 (Z.of_nat (length data) + 4) ++ to_be 4 crc ++ data ++ rest)
    = Err (Corruption e).
Proof.
  intros Ho Hc Hl Hne. rewrite decode_framed by done.
  rewrite (proj2 (Z.eqb_neq _ _) Hne). by eexists.
Qed.

(** Decoding panics exactly on a complete header whose length field is below 4, the
    size of the checksum that is subtracted from it: a corrupted length of that kind is
    not reported as an error. *)
Theorem DiskRecord_decode_panics bs :
  DiskRecord_decode bs = Panic ↔ (16 ≤ length bs)%nat ∧ from_be (take 4 (drop 8 bs)) < 4.
Proof. apply decode_panics_aux. Qed.

(** [serialized_size] is the length of the encoding exactly when compression does
    not change the length of the value (so always without compression). *)
Theorem DiskRecord_serialized_size_spec r bs :
  DiskRecord_encode r = Ok bs →
  Z.of_nat (length bs) = DiskRecord_serialized_size r ↔
  ∃ v, compress (dr_value r) (dr_compression r) = Ok v ∧ length v = length (dr_value r).
Proof.
  intros (v & Hv & Hl)%encode_length. rewrite Hl. rewrite Hv.
  unfold DiskRecord_serialized_size, key_len. split.
  - intros Heq. exists v. split; [done|]. destruct (dr_key r); lia.
  - intros (v' & [= <-] & Hlen). rewrite Hlen. destruct (dr_key r); lia.
Qed.

End record_facts.
