(* ===== verification/Instances.v ===== *)
(** * Instances: concrete third-party functions

    The CRC-32 of IEEE 802.3, and a compression library that stores its input with a
    marker byte.  The witnesses run the models on them; no theorem depends on them. *)
From S2P Require Import Prelude Bytes Common Compression DiskRecord.

Fixpoint crc32_bits (n : nat) (c : Z) : Z :=
  match n with
  | O => c
  | S n' =>
      let c' := Z.shiftr c 1 in
      crc32_bits n' (if Z.odd c then Z.lxor c' 3988292384 else c')
  end.
Definition crc32_ieee : Crc32 := λ data,
  w32 (Z.lxor (foldl (λ c b, crc32_bits 8 (Z.lxor c (Z_of_byte b))) 4294967295 data) 4294967295).

Lemma crc32_ieee_laws : @Crc32Laws crc32_ieee.
Proof. intros d. apply w32_range. Qed.

(** The check value of the CRC catalogue: the checksum of [123456789]. *)
Example crc32_ieee_check : crc32_ieee (to_be 9 907507751940624169017) = 3421780262.
Proof. vm_compute. reflexivity. Qed.

Definition store_encode (marker : Z) (d : bytes) : bytes := byte_of_Z marker :: d.
Definition store_decode (marker : Z) (d : bytes) : string + bytes :=
  match d with
  | b :: d' => if Z_of_byte b =? marker then inr d' else inl "bad header"%string
  | [] => inl "unexpected end"%string
  end.

Definition store_lib : CompressionLib := {|
  gz_encode d := inr (store_encode 1 d);
  gz_decode := store_decode 1;
  snap_encoder := bytes;
  snap_write d := inr d;
  snap_into_inner d := inr (store_encode 2 d);
  snap_decode := store_decode 2;
  lz4_compress_prepend_size := store_encode 3;
  lz4_decompress_size_prepended := store_decode 3;
|}.

Lemma store_lib_laws : @CompressionLaws store_lib.
Proof.
  split.
  - intros d e [= <-]. done.
  - intros d w e [= <-] [= <-]. done.
  - done.
Qed.

(** Collections visited in the order of their representation. *)
Definition plain_iter : HashIter := {|
  map_iter K A _ _ m := map_to_list m;
  set_iter K _ _ X := elements X;
|}.
Lemma plain_iter_laws : @HashIterLaws plain_iter.
Proof. by split. Qed.
