(* ===== verification/FileSystem.v ===== *)
(** * FileSystem: what the storage code uses of [std::fs], [std::path] and [memmap2]

    A disk is its regular files and its directories, by path; a path is its list of
    components, so [join] appends one (names are single components: they hold no
    separator and are not [..]).  An open [File] is a path and a cursor.  A mapping is
    the content of the file when it was mapped: the program only appends to the files it
    maps, or maps them again after it wrote them.  Operations on open files do not fail,
    and no file that is open is removed. *)
From Stdlib Require Import Ascii.
From S2P Require Import Prelude Bytes Text Common.

Abbreviation path := (list string).

Record disk : Type := {
  files : gmap path bytes;
  dirs : gset path;
}.

Definition empty_disk : disk := {| files := ∅; dirs := ∅ |}.

(** [Path::join]. *)
Definition path_join (p : path) (name : string) : path := p ++ [name].

Definition io_not_found : GaffaError := Io "No such file or directory (os error 2)".

Record File : Type := { f_path : path; f_pos : nat }.

Definition file_content (d : disk) (p : path) : bytes := default [] (files d !! p).
Definition set_content (d : disk) (p : path) (c : bytes) : disk :=
  {| files := <[p := c]> (files d); dirs := dirs d |}.

Definition parent (p : path) : path := take (length p - 1) p.

(** [OpenOptions::new().read(true).write(true).create(true).open(p)]: an existing file
    is kept as it is, with the cursor at its start. *)
Definition open_create (p : path) : Method disk File := λ d,
  match files d !! p with
  | Some _ => (d, Ok {| f_path := p; f_pos := 0 |})
  | None =>
      if decide (parent p ∈ dirs d)
      then (set_content d p [], Ok {| f_path := p; f_pos := 0 |})
      else (d, Err io_not_found)
  end.

(** [OpenOptions::new().read(true).write(true).open(p)]. *)
Definition open_existing (p : path) : Method disk File := λ d,
  match files d !! p with
  | Some _ => (d, Ok {| f_path := p; f_pos := 0 |})
  | None => (d, Err io_not_found)
  end.

(** [file.metadata()?.len()]. *)
Definition file_len (d : disk) (f : File) : Z := Z.of_nat (length (file_content d (f_path f))).

(** [Mmap::map(&file)]. *)
Definition mmap_map (d : disk) (f : File) : bytes := file_content d (f_path f).

(** [file.seek(SeekFrom::End(0))]. *)
Definition seek_end (d : disk) (f : File) : File :=
  {| f_path := f_path f; f_pos := length (file_content d (f_path f)) |}.

(** The content [c] with [bs] written at [pos]; a gap before [pos] reads as zeros. *)
Definition write_at (c : bytes) (pos : nat) (bs : bytes) : bytes :=
  take pos c ++ replicate (pos - length c) Byte.x00 ++ bs ++ drop (pos + length bs) c.

(** [file.write_all(bs)]. *)
Definition write_all (d : disk) (f : File) (bs : bytes) : disk * File :=
  (set_content d (f_path f) (write_at (file_content d (f_path f)) (f_pos f) bs),
   {| f_path := f_path f; f_pos := f_pos f + length bs |}).

(** [fs::create_dir_all(p)]: the directory and its ancestors. *)
Definition create_dir_all (d : disk) (p : path) : disk :=
  {| files := files d;
     dirs := list_to_set ((λ n, take n p) <$> seq 0 (S (length p))) ∪ dirs d |}.

(** The name of [q] in the directory [p]. *)
Definition child_of (p q : path) : option string :=
  match drop (length p) q with
  | [name] => if decide (take (length p) q = p) then Some name else None
  | _ => None
  end.

(** [fs::read_dir(p)]: the names in the directory.  The callers sort what they read or
    put it into a map, so that the order does not matter. *)
Definition read_dir (d : disk) (p : path) : Result (list string) :=
  if decide (p ∈ dirs d) then
    Ok (remove_dups (omap (child_of p) ((map_to_list (files d)).*1 ++ elements (dirs d))))
  else Err io_not_found.

Definition is_dir (d : disk) (p : path) : bool := bool_decide (p ∈ dirs d).

(** [path.is_file()] and [path.exists()]. *)
Definition is_file (d : disk) (p : path) : bool := bool_decide (is_Some (files d !! p)).
Definition path_exists (d : disk) (p : path) : bool := is_file d p || is_dir d p.

(** [File::create(p)]: an existing file is emptied. *)
Definition file_create (p : path) : Method disk File := λ d,
  if is_file d p || bool_decide (parent p ∈ dirs d)
  then (set_content d p [], Ok {| f_path := p; f_pos := 0 |})
  else (d, Err io_not_found).

Definition remove_content (d : disk) (p : path) : disk :=
  {| files := delete p (files d); dirs := dirs d |}.

(** [fs::remove_file(p)]. *)
Definition remove_file (p : path) : Method disk unit := λ d,
  if is_file d p then (remove_content d p, Ok tt)
  else if is_dir d p then (d, Err (Io "Is a directory (os error 21)"))
  else (d, Err io_not_found).

(** [file.read_to_string(&mut contents)] of a file opened for reading. *)
Definition read_file_to_string (d : disk) (p : path) : Result string :=
  match files d !! p with
  | Some c =>
      let s := string_of_bytes c in
      if utf8_valid s then Ok s else Err (Io "stream did not contain valid UTF-8")
  | None => Err io_not_found
  end.

(** [path.file_stem()] and [path.extension()] of a path that ends with [name]. *)
Definition stem_extension (name : string) : string * option string :=
  match rsplit_once "."%char name with
  | Some (EmptyString, _) | None => (name, None)
  | Some (stem, extension) =>
      if decide (name = "..") then (name, None) else (stem, Some extension)
  end.

(** ** Lemmas *)
Lemma write_at_end c bs : write_at c (length c) bs = c ++ bs.
Proof.
  unfold write_at. rewrite take_ge, drop_ge, Nat.sub_diag by lia. simpl. by rewrite app_nil_r.
Qed.

Lemma file_content_set d p c : file_content (set_content d p c) p = c.
Proof. unfold file_content, set_content. simpl. by rewrite lookup_insert_eq. Qed.
Lemma file_content_set_ne d p q c : p ≠ q → file_content (set_content d p c) q = file_content d q.
Proof. intros Hne. unfold file_content, set_content. simpl. by rewrite lookup_insert_ne. Qed.
Lemma files_set_ne d p q c : p ≠ q → files (set_content d p c) !! q = files d !! q.
Proof. intros Hne. simpl. by apply lookup_insert_ne. Qed.
Lemma files_set d p c : files (set_content d p c) !! p = Some c.
Proof. apply lookup_insert_eq. Qed.

Lemma child_of_join p name : child_of p (path_join p name) = Some name.
Proof.
  unfold child_of, path_join. rewrite drop_app_length, take_app_length. by rewrite decide_True.
Qed.
Lemma child_of_Some p q name : child_of p q = Some name → q = path_join p name.
Proof.
  unfold child_of, path_join. destruct (drop (length p) q) as [|x [|? ?]] eqn:E; try done.
  case_decide as Hp; [|done]. intros [= ->].
  rewrite <-(take_drop (length p) q). congruence.
Qed.

Lemma path_join_inj p name name' : path_join p name = path_join p name' → name = name'.
Proof. unfold path_join. intros H. apply app_inv_head in H. congruence. Qed.

(** What a directory listing holds. *)
Lemma elem_of_read_dir d p names name :
  read_dir d p = Ok names →
  name ∈ names ↔ is_Some (files d !! path_join p name) ∨ path_join p name ∈ dirs d.
Proof.
  unfold read_dir. case_decide; [|done]. intros [= <-].
  rewrite elem_of_remove_dups, list_elem_of_omap. split.
  - intros (q & Hq & ->%child_of_Some).
    apply elem_of_app in Hq as [Hq|Hq]; [left|right].
    + apply list_elem_of_fmap in Hq as ([q' c] & Heq & Hq). simpl in Heq. subst q'.
      apply elem_of_map_to_list in Hq. by eexists.
    + by apply elem_of_elements.
  - intros Hin. exists (path_join p name). rewrite child_of_join. split; [|done].
    apply elem_of_app. destruct Hin as [[c Hc]|Hin]; [left|right].
    + apply list_elem_of_fmap. exists (path_join p name, c). split; [done|].
      by apply elem_of_map_to_list.
    + by apply elem_of_elements.
Qed.

Lemma read_dir_NoDup d p names : read_dir d p = Ok names → NoDup names.
Proof. unfold read_dir. case_decide; [|done]. intros [= <-]. apply NoDup_remove_dups. Qed.

(** ** What an operation may have changed

    [disk_frame ps d d']: only files of [ps] differ, and the directories are the same. *)
Definition disk_frame (ps : list path) (d d' : disk) : Prop :=
  dirs d' = dirs d ∧ ∀ q, q ∉ ps → files d' !! q = files d !! q.

#[export] Instance disk_frame_preorder ps : PreOrder (disk_frame ps).
Proof.
  split; [done|]. intros d1 d2 d3 [Hd Hf] [Hd' Hf']. split; [congruence|].
  intros q Hq. by rewrite Hf', Hf.
Qed.
Lemma disk_frame_weaken ps ps' d d' : ps ⊆ ps' → disk_frame ps d d' → disk_frame ps' d d'.
Proof. intros Hs [Hd Hf]. split; [done|]. intros q Hq. apply Hf. by intros ?%Hs. Qed.
Lemma disk_frame_set ps d p c : p ∈ ps → disk_frame ps d (set_content d p c).
Proof. intros Hp. split; [done|]. intros q Hq. apply files_set_ne. set_solver. Qed.
#[export] Hint Resolve disk_frame_set : gaffa.

(** [dir_frame p d d']: only files of the directory [p] differ. *)
Definition dir_frame (p : path) (d d' : disk) : Prop :=
  dirs d' = dirs d ∧ ∀ q, parent q ≠ p → files d' !! q = files d !! q.

#[export] Instance dir_frame_preorder p : PreOrder (dir_frame p).
Proof.
  split; [done|]. intros d1 d2 d3 [Hd Hf] [Hd' Hf']. split; [congruence|].
  intros q Hq. by rewrite Hf', Hf.
Qed.
Lemma disk_dir_frame ps p d d' :
  Forall (λ q, parent q = p) ps → disk_frame ps d d' → dir_frame p d d'.
Proof.
  intros Hps [Hd Hf]. split; [done|]. intros q Hq. apply Hf. intros Hin.
  rewrite Forall_forall in Hps. by apply Hq, Hps.
Qed.
Lemma parent_join p name : parent (path_join p name) = p.
Proof.
  unfold parent, path_join. rewrite length_app. simpl. rewrite Nat.add_sub. by apply take_app_length.
Qed.

Lemma create_dir_all_self d p : p ∈ dirs (create_dir_all d p).
Proof.
  unfold create_dir_all. cbn [dirs]. apply elem_of_union_l, elem_of_list_to_set, list_elem_of_fmap.
  exists (length p). split; [by rewrite take_ge|]. apply elem_of_seq. lia.
Qed.
Lemma create_dir_all_below d p q :
  (length p < length q)%nat → q ∈ dirs (create_dir_all d p) ↔ q ∈ dirs d.
Proof.
  intros Hlen. unfold create_dir_all. cbn [dirs]. rewrite elem_of_union, elem_of_list_to_set, list_elem_of_fmap. split; [|by right].
  intros [(n & -> & _)|?]; [|done]. rewrite length_take in Hlen. lia.
Qed.
Lemma length_path_join p name : length (path_join p name) = S (length p).
Proof. unfold path_join. rewrite length_app. simpl. lia. Qed.

(** [dir_same p d d']: the directory [p] lists the same files and directories, with the
    same contents. *)
Definition dir_same (p : path) (d d' : disk) : Prop :=
  (p ∈ dirs d → p ∈ dirs d') ∧
  ∀ name, files d' !! path_join p name = files d !! path_join p name ∧
    (path_join p name ∈ dirs d' ↔ path_join p name ∈ dirs d).

#[export] Instance dir_same_preorder p : PreOrder (dir_same p).
Proof.
  split; [by split|]. intros d1 d2 d3 [Hd Hf] [Hd' Hf']. split; [auto|].
  intros name. destruct (Hf name) as [H1 H2], (Hf' name) as [H3 H4].
  split; [congruence|by rewrite H4].
Qed.

Lemma path_join_inj_2 p q a b : path_join p a = path_join q b → p = q ∧ a = b.
Proof. unfold path_join. apply app_inj_tail. Qed.

(** Writing in one directory leaves the others alone. *)
Lemma dir_frame_same p q d d' : q ≠ p → dir_frame p d d' → dir_same q d d'.
Proof.
  intros Hne [Hd Hf]. unfold dir_same. rewrite Hd. split; [done|]. intros name.
  rewrite Hf by (by rewrite parent_join). done.
Qed.
(** So does creating a directory that is not deeper. *)
Lemma create_dir_all_same p q d : (length p ≤ length q)%nat → dir_same q d (create_dir_all d p).
Proof.
  intros Hlen. split; [intros Hq; unfold create_dir_all; cbn [dirs]; by apply elem_of_union_r|].
  intros name. split; [done|]. apply create_dir_all_below. rewrite length_path_join. lia.
Qed.
Lemma elem_of_create_dir_all p q d :
  q ∈ dirs (create_dir_all d p) ↔ (∃ n, q = take n p) ∨ q ∈ dirs d.
Proof.
  unfold create_dir_all. cbn [dirs]. rewrite elem_of_union, elem_of_list_to_set, list_elem_of_fmap.
  split; intros [(n & Hq)|?]; [left|by right|left|by right].
  - destruct Hq as [Hq _]. by exists n.
  - exists (n `min` length p)%nat. rewrite elem_of_seq. split; [|lia].
    destruct (decide (n ≤ length p)%nat).
    + by rewrite Nat.min_l by lia.
    + rewrite Hq, Nat.min_r, !take_ge by lia. done.
Qed.
Lemma take_path_join p name n : n = length p → take n (path_join p name) = p.
Proof. intros ->. unfold path_join. by apply take_app_length. Qed.
