(* ===== verification/OffsetIndex.v ===== *)
(** * OffsetIndex: the sparse index of a segment

    [storage/src/index.rs].  The index file is a sequence of 16-byte entries, an offset
    and the position of its record in the log file, both big-endian.  The entries are
    looked up by binary search in a mapping of the file. *)
From S2P Require Import Prelude Bytes Common FileSystem.

Definition INDEX_ENTRY_SIZE : nat := 16.

Record OffsetIndex : Type := {
  ix_file : File;
  ix_mmap : option bytes;
  ix_size : nat;
}.

(** [&bs[from..to]]: a slice out of range panics. *)
Definition slice (bs : bytes) (from to : nat) : Result bytes :=
  if decide (from ≤ to ∧ to ≤ length bs)%nat then Ok (take (to - from) (drop from bs)) else Panic.

Definition OffsetIndex_create (p : path) : Method disk OffsetIndex :=
  file ← open_create p;
  mret {| ix_file := file; ix_mmap := None; ix_size := 0 |}.

Definition OffsetIndex_open (p : path) : Method disk OffsetIndex :=
  file ← open_existing p;
  d ← eff_get;
  let file_size := Z.to_nat (file_len d file) in
  let size := (file_size / INDEX_ENTRY_SIZE)%nat in
  let mmap := if (0 <? file_size)%nat then Some (mmap_map d file) else None in
  mret {| ix_file := file; ix_mmap := mmap; ix_size := size |}.

(** Maps the file again after an append. *)
Definition OffsetIndex_remap (d : disk) (ix : OffsetIndex) : OffsetIndex :=
  if 0 <? file_len d (ix_file ix) then
    {| ix_file := ix_file ix; ix_mmap := Some (mmap_map d (ix_file ix)); ix_size := ix_size ix |}
  else ix.

(** The entry is written at the cursor of the file. *)
Definition OffsetIndex_append (d : disk) (ix : OffsetIndex) (offset position : Z)
    : disk * OffsetIndex :=
  let entry := to_be 8 offset ++ to_be 8 position in
  let '(d, file) := write_all d (ix_file ix) entry in
  let ix := {| ix_file := file; ix_mmap := ix_mmap ix; ix_size := S (ix_size ix) |} in
  (d, OffsetIndex_remap d ix).

Definition OffsetIndex_read_offset_at (mmap : bytes) (index : nat) : Result Z :=
  let pos := (index * INDEX_ENTRY_SIZE)%nat in
  b ← slice mmap pos (pos + 8);
  Ok (from_be b).

Definition OffsetIndex_read_position_at (mmap : bytes) (index : nat) : Result Z :=
  let pos := (index * INDEX_ENTRY_SIZE + 8)%nat in
  b ← slice mmap pos (pos + 8);
  Ok (from_be b).

(** The loop of the binary search.  The interval shrinks at each turn, so that its
    length bounds the number of turns; running out of fuel is a panic, which
    [lookup_floor] rules out. *)
Fixpoint lookup_loop (fuel : nat) (mmap : bytes) (target_offset : Z)
    (left right : nat) (result_position : option Z) : Result (option Z) :=
  match fuel with
  | O => Panic
  | S fuel =>
      if (left <? right)%nat then
        let mid := ((left + right) / 2)%nat in
        entry_offset ← OffsetIndex_read_offset_at mmap mid;
        if entry_offset <=? target_offset then
          position ← OffsetIndex_read_position_at mmap mid;
          lookup_loop fuel mmap target_offset (mid + 1) right (Some position)
        else lookup_loop fuel mmap target_offset left mid result_position
      else Ok result_position
  end.

Definition OffsetIndex_lookup (ix : OffsetIndex) (target_offset : Z) : Result (option Z) :=
  if (ix_size ix =? 0)%nat then Ok None
  else match ix_mmap ix with
       | None => Ok None
       | Some mmap => lookup_loop (S (ix_size ix)) mmap target_offset 0 (ix_size ix) None
       end.

(** [entries], used by the tests of the program. *)
Definition OffsetIndex_entries (ix : OffsetIndex) : Result (list (Z * Z)) :=
  match ix_mmap ix with
  | Some mmap =>
      foldr (λ i acc,
        offset ← OffsetIndex_read_offset_at mmap i;
        position ← OffsetIndex_read_position_at mmap i;
        es ← acc; Ok ((offset, position) :: es)) (Ok []) (seq 0 (ix_size ix))
  | None => Ok []
  end.

(** ** The abstract index: a list of entries *)
Definition encode_entry (e : Z * Z) : bytes := to_be 8 e.1 ++ to_be 8 e.2.
Definition encode_entries (es : list (Z * Z)) : bytes := es ≫= encode_entry.

Definition entry_wf (e : Z * Z) : Prop := is_u64 e.1 ∧ is_u64 e.2.
Definition entry_lt (e e' : Z * Z) : Prop := e.1 < e'.1.

(** The position of the last entry whose offset is at most [t]. *)
Definition index_floor (es : list (Z * Z)) (t : Z) : option Z :=
  snd <$> last (filter (λ e, e.1 ≤ t) es).

Record OffsetIndex_inv (d : disk) (ix : OffsetIndex) (es : list (Z * Z)) : Prop := {
  inv_ix_content : files d !! f_path (ix_file ix) = Some (encode_entries es);
  inv_ix_mmap : ix_mmap ix = if decide (es = []) then None else Some (encode_entries es);
  inv_ix_size : ix_size ix = length es;
  inv_ix_wf : Forall entry_wf es;
  inv_ix_sorted : StronglySorted entry_lt es;
}.
(** The cursor is at the end of the file, as it is when the file was created by this
    process. *)
Definition cursor_at_end (ix : OffsetIndex) (es : list (Z * Z)) : Prop :=
  f_pos (ix_file ix) = (length es * INDEX_ENTRY_SIZE)%nat.

(** ** Entries in the file *)
Lemma length_encode_entry e : length (encode_entry e) = 16%nat.
Proof. unfold encode_entry. by rewrite length_app, !length_to_be. Qed.

Lemma length_encode_entries es : length (encode_entries es) = (length es * 16)%nat.
Proof.
  induction es as [|e es IH]; [done|]. unfold encode_entries in *.
  rewrite bind_cons, length_app, length_encode_entry, IH. simpl. lia.
Qed.

Lemma encode_entries_app es es' :
  encode_entries (es ++ es') = encode_entries es ++ encode_entries es'.
Proof. unfold encode_entries. by rewrite bind_app. Qed.

Lemma encode_entries_nil_iff es : encode_entries es = [] ↔ es = [].
Proof.
  split; [|by intros ->]. intros H. apply (f_equal length) in H.
  rewrite length_encode_entries in H. by destruct es.
Qed.

Lemma drop_encode_entries i es : drop (i * 16) (encode_entries es) = encode_entries (drop i es).
Proof.
  revert i. induction es as [|e es IH]; intros i; [by destruct i|].
  destruct i as [|i]; [done|]. change (encode_entries (e :: es)) with (encode_entry e ++ encode_entries es).
  rewrite drop_app_ge by (rewrite length_encode_entry; lia).
  rewrite length_encode_entry. replace (S i * 16 - 16)%nat with (i * 16)%nat by lia. apply IH.
Qed.

Lemma slice_Ok bs from to :
  (from ≤ to ≤ length bs)%nat → slice bs from to = Ok (take (to - from) (drop from bs)).
Proof. intros H. unfold slice. by rewrite decide_True by lia. Qed.
Lemma slice_Panic bs from to : (length bs < to)%nat → slice bs from to = Panic.
Proof. intros H. unfold slice. by rewrite decide_False by lia. Qed.

Lemma read_offset_at_entry es tail i e :
  es !! i = Some e → entry_wf e →
  OffsetIndex_read_offset_at (encode_entries es ++ tail) i = Ok e.1.
Proof.
  intros Hi [Hwf _]. pose proof (lookup_lt_Some _ _ _ Hi).
  unfold OffsetIndex_read_offset_at, INDEX_ENTRY_SIZE.
  rewrite slice_Ok by (rewrite length_app, length_encode_entries; lia).
  rewrite outcome_bind_Ok, drop_app_le, drop_encode_entries, (drop_S _ _ _ Hi)
    by (rewrite length_encode_entries; lia).
  replace (i * 16 + 8 - i * 16)%nat with 8%nat by lia.
  change (encode_entries (e :: drop (S i) es)) with (encode_entry e ++ encode_entries (drop (S i) es)).
  unfold encode_entry. rewrite <-!app_assoc, take_app_length' by (by rewrite length_to_be).
  by rewrite from_be_to_be_u64.
Qed.

Lemma read_position_at_entry es tail i e :
  es !! i = Some e → entry_wf e →
  OffsetIndex_read_position_at (encode_entries es ++ tail) i = Ok e.2.
Proof.
  intros Hi [_ Hwf]. pose proof (lookup_lt_Some _ _ _ Hi).
  unfold OffsetIndex_read_position_at, INDEX_ENTRY_SIZE.
  rewrite slice_Ok by (rewrite length_app, length_encode_entries; lia).
  rewrite outcome_bind_Ok, <-drop_drop, drop_app_le, drop_encode_entries, (drop_S _ _ _ Hi)
    by (rewrite length_encode_entries; lia).
  replace (i * 16 + 8 + 8 - (i * 16 + 8))%nat with 8%nat by lia.
  change (encode_entries (e :: drop (S i) es)) with (encode_entry e ++ encode_entries (drop (S i) es)).
  unfold encode_entry. rewrite <-!app_assoc, drop_app_length' by (by rewrite length_to_be).
  rewrite take_app_length' by (by rewrite length_to_be). by rewrite from_be_to_be_u64.
Qed.

Lemma read_offset_at_past es i :
  (length es ≤ i)%nat → OffsetIndex_read_offset_at (encode_entries es) i = Panic.
Proof.
  intros Hi. unfold OffsetIndex_read_offset_at, INDEX_ENTRY_SIZE.
  rewrite slice_Panic; [done|]. rewrite length_encode_entries. lia.
Qed.

(** ** The binary search *)
Lemma index_floor_split es t n :
  (∀ i e, es !! i = Some e → (i < n)%nat → e.1 ≤ t) →
  (∀ i e, es !! i = Some e → (n ≤ i)%nat → t < e.1) →
  index_floor es t = snd <$> last (take n es).
Proof.
  intros Hlo Hhi. unfold index_floor. rewrite <-(take_drop n es) at 1.
  rewrite filter_app.
  rewrite (list_filter_all _ (take n es)), (list_filter_none _ (drop n es)), app_nil_r; [done|..].
  - apply Forall_lookup. intros i e He. rewrite lookup_drop in He. apply Z.lt_nge, (Hhi _ _ He). lia.
  - apply Forall_lookup. intros i e He. apply lookup_take_Some in He as [He ?]. by eapply Hlo.
Qed.

Lemma sorted_entries_le es i j e e' :
  StronglySorted entry_lt es → es !! i = Some e → es !! j = Some e' → (i ≤ j)%nat → e.1 ≤ e'.1.
Proof.
  intros Hs Hi Hj Hij. destruct (decide (i = j)) as [->|Hne]; [simplify_eq; lia|].
  assert (i < j)%nat as Hlt by lia. clear Hij Hne. revert i j Hi Hj Hlt.
  induction Hs as [|x es Hs IH Hx]; [done|]. intros i j Hi Hj Hlt.
  destruct j as [|j]; [lia|]. simpl in Hj. destruct i as [|i]; simpl in Hi.
  - simplify_eq. rewrite Forall_lookup in Hx. specialize (Hx _ _ Hj). unfold entry_lt in Hx. lia.
  - eapply IH; [done..|lia].
Qed.

Section search.
Context (es : list (Z * Z)) (tail : bytes) (t : Z).
Context (Hwf : Forall entry_wf es) (Hsorted : StronglySorted entry_lt es).

Lemma lookup_loop_floor fuel left right res :
  (right - left < fuel)%nat → (left ≤ right ≤ length es)%nat →
  (∀ i e, es !! i = Some e → (i < left)%nat → e.1 ≤ t) →
  (∀ i e, es !! i = Some e → (right ≤ i)%nat → t < e.1) →
  res = snd <$> last (take left es) →
  lookup_loop fuel (encode_entries es ++ tail) t left right res = Ok (index_floor es t).
Proof.
  revert left right res.
  induction fuel as [|fuel IH]; intros left right res Hfuel Hlr Hlo Hhi Hres; [lia|].
  cbn [lookup_loop]. destruct (Nat.ltb_spec left right) as [Hlt|Hge]; cycle 1.
  { assert (left = right) as -> by lia. by rewrite Hres, (index_floor_split es t right). }
  set (mid := ((left + right) / 2)%nat).
  assert (left ≤ mid < right)%nat as Hmid.
  { unfold mid. split; [apply Nat.div_le_lower_bound; lia|apply Nat.Div0.div_lt_upper_bound; lia]. }
  destruct (lookup_lt_is_Some_2 es mid) as [e He]; [lia|].
  pose proof (Forall_lookup_1 _ _ _ _ Hwf He) as Hewf.
  rewrite (read_offset_at_entry _ _ _ _ He Hewf), outcome_bind_Ok.
  destruct (Z.leb_spec e.1 t) as [Hle|Hgt].
  - rewrite (read_position_at_entry _ _ _ _ He Hewf), outcome_bind_Ok. apply IH; [lia|lia| |done|].
    + intros i e' Hi ?. etrans; [|exact Hle]. eapply sorted_entries_le; [done..|]. lia.
    + rewrite Nat.add_1_r, (take_S_r _ _ _ He), last_snoc. done.
  - apply IH; [lia|lia|done| |done].
    intros i e' Hi ?. eapply Z.lt_le_trans; [exact Hgt|]. by eapply sorted_entries_le.
Qed.

(** With one entry more counted than the file holds, the search for an offset beyond
    every entry walks off the end of the mapping. *)
Lemma lookup_loop_past_end fuel left res :
  (S (length es) - left < fuel)%nat → (left ≤ length es)%nat →
  (∀ e, e ∈ es → e.1 ≤ t) →
  lookup_loop fuel (encode_entries es) t left (S (length es)) res = Panic.
Proof.
  revert left res. induction fuel as [|fuel IH]; intros left res Hfuel Hl Hall; [done|].
  cbn [lookup_loop]. rewrite (proj2 (Nat.ltb_lt _ _)) by lia.
  set (mid := ((left + S (length es)) / 2)%nat).
  assert (left ≤ mid < S (length es))%nat as Hmid.
  { unfold mid. split; [apply Nat.div_le_lower_bound; lia|apply Nat.Div0.div_lt_upper_bound; lia]. }
  destruct (decide (mid = length es)) as [->|Hne].
  { by rewrite read_offset_at_past. }
  destruct (lookup_lt_is_Some_2 es mid) as [e He]; [lia|].
  pose proof (Forall_lookup_1 _ _ _ _ Hwf He) as Hewf.
  rewrite <-(app_nil_r (encode_entries es)), (read_offset_at_entry _ _ _ _ He Hewf), outcome_bind_Ok.
  rewrite (proj2 (Z.leb_le _ _)) by (eapply Hall, list_elem_of_lookup_2, He).
  rewrite (read_position_at_entry _ _ _ _ He Hewf), outcome_bind_Ok, app_nil_r. apply IH; [lia|lia|done].
Qed.
End search.

(** ** Operations *)
(** What lookups need of an index: the entries it counts are at the beginning of the
    mapping, whatever comes after them. *)
Record index_view (ix : OffsetIndex) (es : list (Z * Z)) : Prop := {
  iv_mmap : es ≠ [] → ∃ tail, ix_mmap ix = Some (encode_entries es ++ tail);
  iv_size : ix_size ix = length es;
  iv_wf : Forall entry_wf es;
  iv_sorted : StronglySorted entry_lt es;
}.

Lemma OffsetIndex_inv_view d ix es : OffsetIndex_inv d ix es → index_view ix es.
Proof.
  intros [_ Hm Hsz Hwf Hs]. split; [|done..]. intros Hne. exists []. by rewrite Hm, decide_False, app_nil_r.
Qed.

Lemma lookup_view ix es t : index_view ix es → OffsetIndex_lookup ix t = Ok (index_floor es t).
Proof.
  intros [Hmmap Hsize Hwf Hs]. unfold OffsetIndex_lookup. rewrite Hsize.
  destruct es as [|e es]; [done|]. destruct Hmmap as [tail ->]; [done|]. cbn [length Nat.eqb].
  apply lookup_loop_floor; [done|done|cbn [length]; lia..| |done].
  intros i e' Hi ?. apply lookup_lt_Some in Hi. cbn [length] in *. lia.
Qed.
Lemma lookup_floor d ix es t :
  OffsetIndex_inv d ix es → OffsetIndex_lookup ix t = Ok (index_floor es t).
Proof. intros Hinv. by eapply lookup_view, OffsetIndex_inv_view. Qed.

Lemma sorted_snoc es e :
  StronglySorted entry_lt es → (∀ e', last es = Some e' → entry_lt e' e) →
  StronglySorted entry_lt (es ++ [e]).
Proof.
  induction 1 as [|x es Hs IH Hx]; intros Hlast; simpl; [repeat constructor|].
  assert (StronglySorted entry_lt (es ++ [e])) as Hs'.
  { apply IH. intros e' He'. apply Hlast. destruct es; [done|]. by rewrite last_cons_cons. }
  constructor; [done|]. apply Forall_app. split; [done|]. apply Forall_singleton.
  destruct (last es) as [y|] eqn:Ey.
  - assert (entry_lt y e) by (apply Hlast; destruct es; [done|]; by rewrite last_cons_cons).
    apply last_Some_elem_of in Ey. rewrite Forall_forall in Hx. specialize (Hx y Ey).
    unfold entry_lt in *. lia.
  - apply last_None in Ey as ->. by apply Hlast.
Qed.

Lemma OffsetIndex_create_fresh d p :
  files d !! p = None → parent p ∈ dirs d →
  ∃ d' ix, OffsetIndex_create p d = (d', Ok ix) ∧ d' = set_content d p [] ∧
    f_path (ix_file ix) = p ∧ OffsetIndex_inv d' ix [] ∧ cursor_at_end ix [].
Proof.
  intros Hp Hdir. unfold OffsetIndex_create, open_create, mbind, eff_bind.
  rewrite Hp, decide_True by done. eexists _, _. split; [done|]. split; [done|]. split; [done|].
  split; [|done]. split; simpl; [by rewrite lookup_insert_eq|done|done|constructor..].
Qed.

(** Appending an entry beyond the last one, with the cursor at the end. *)
Lemma OffsetIndex_append_inv d ix es offset position :
  OffsetIndex_inv d ix es → cursor_at_end ix es →
  entry_wf (offset, position) →
  (∀ e, last es = Some e → e.1 < offset) →
  let '(d', ix') := OffsetIndex_append d ix offset position in
  d' = set_content d (f_path (ix_file ix)) (encode_entries (es ++ [(offset, position)])) ∧
  f_path (ix_file ix') = f_path (ix_file ix) ∧
  OffsetIndex_inv d' ix' (es ++ [(offset, position)]) ∧
  cursor_at_end ix' (es ++ [(offset, position)]).
Proof.
  intros [Hc Hm Hsz Hwf Hs] Hpos Hewf Hlast.
  unfold OffsetIndex_append, write_all.
  assert (file_content d (f_path (ix_file ix)) = encode_entries es) as ->
    by (unfold file_content; by rewrite Hc).
  assert (write_at (encode_entries es) (f_pos (ix_file ix)) (to_be 8 offset ++ to_be 8 position)
    = encode_entries (es ++ [(offset, position)])) as ->.
  { rewrite Hpos. change INDEX_ENTRY_SIZE with 16%nat. rewrite <-length_encode_entries.
    rewrite write_at_end, encode_entries_app. by f_equal. }
  set (es' := es ++ [(offset, position)]).
  assert (es' ≠ []) as Hne by (unfold es'; by destruct es).
  set (d' := set_content _ _ _).
  assert (file_content d' (f_path (ix_file ix)) = encode_entries es') as Hfc
    by apply file_content_set.
  unfold OffsetIndex_remap, file_len, mmap_map. cbn [ix_file f_path]. rewrite Hfc.
  rewrite (proj2 (Z.ltb_lt _ _)).
  2: { rewrite length_encode_entries. unfold es'. rewrite length_app. simpl. lia. }
  split_and!; [done|done| |].
  - split; cbn [ix_file f_path ix_mmap ix_size].
    + apply files_set.
    + by rewrite decide_False.
    + rewrite Hsz. unfold es'. rewrite length_app. simpl. lia.
    + unfold es'. apply Forall_app. split; [done|by apply Forall_singleton].
    + apply sorted_snoc; [done|]. intros e' He'. by apply Hlast.
  - unfold cursor_at_end in *. cbn [ix_file f_pos]. rewrite length_app, !length_to_be, Hpos.
    unfold es', INDEX_ENTRY_SIZE. rewrite length_app. simpl. lia.
Qed.

(** Opening an index file that ends in a part of an entry: that part is not counted. *)
Lemma OffsetIndex_open_view d p es tail :
  files d !! p = Some (encode_entries es ++ tail) → (length tail < INDEX_ENTRY_SIZE)%nat →
  Forall entry_wf es → StronglySorted entry_lt es →
  ∃ ix, OffsetIndex_open p d = (d, Ok ix) ∧ index_view ix es.
Proof.
  intros Hf Ht Hwf Hs. unfold OffsetIndex_open, open_existing, mbind, eff_bind.
  rewrite Hf. cbn [eff_get mret eff_ret]. unfold INDEX_ENTRY_SIZE in *.
  assert (file_len d {| f_path := p; f_pos := 0 |} = Z.of_nat (length es * 16 + length tail)) as Hlen.
  { unfold file_len, file_content. cbn [f_path]. rewrite Hf. simpl. by rewrite length_app, length_encode_entries. }
  rewrite Hlen, Nat2Z.id. eexists. split; [done|]. split; cbn [ix_mmap ix_size]; [|  |done..].
  - intros Hne. exists tail. destruct es as [|e es]; [done|]. rewrite (proj2 (Nat.ltb_lt _ _)) by (simpl; lia).
    unfold mmap_map, file_content. cbn [f_path]. by rewrite Hf.
  - rewrite Nat.div_add_l, (Nat.div_small (length tail)) by lia. lia.
Qed.

(** Opening an index file. *)
Lemma OffsetIndex_open_inv d p es :
  files d !! p = Some (encode_entries es) →
  Forall entry_wf es → StronglySorted entry_lt es →
  ∃ ix, OffsetIndex_open p d = (d, Ok ix) ∧ f_path (ix_file ix) = p ∧
    f_pos (ix_file ix) = 0%nat ∧ OffsetIndex_inv d ix es.
Proof.
  intros Hf Hwf Hs. unfold OffsetIndex_open, open_existing, mbind, eff_bind.
  rewrite Hf. cbn [eff_get mret eff_ret].
  assert (file_len d {| f_path := p; f_pos := 0 |} = Z.of_nat (length es * 16)) as Hlen.
  { unfold file_len, file_content. cbn [f_path]. rewrite Hf. simpl. by rewrite length_encode_entries. }
  rewrite Hlen, Nat2Z.id. eexists. split; [done|]. split; [done|]. split; [done|].
  split; cbn [ix_file f_path ix_mmap ix_size]; [done| | |done..].
  - unfold mmap_map, file_content. cbn [f_path]. rewrite Hf. simpl.
    destruct es as [|e es]; [done|]. by rewrite decide_False.
  - unfold INDEX_ENTRY_SIZE. by rewrite Nat.div_mul.
Qed.

(** The first append after opening a non-empty index. *)
Lemma OffsetIndex_append_reopened d ix e es offset position :
  OffsetIndex_inv d ix (e :: es) → f_pos (ix_file ix) = 0%nat →
  let '(d', ix') := OffsetIndex_append d ix offset position in
  files d' !! f_path (ix_file ix) = Some (encode_entries ((offset, position) :: es)) ∧
  ix_mmap ix' = Some (encode_entries ((offset, position) :: es)) ∧
  ix_size ix' = S (S (length es)).
Proof.
  intros [Hc Hm Hsz Hwf Hs] Hpos. unfold OffsetIndex_append, write_all.
  assert (file_content d (f_path (ix_file ix)) = encode_entries (e :: es)) as ->
    by (unfold file_content; by rewrite Hc).
  rewrite Hpos.
  assert (write_at (encode_entries (e :: es)) 0 (to_be 8 offset ++ to_be 8 position)
    = encode_entries ((offset, position) :: es)) as ->.
  { unfold write_at. rewrite length_app, !length_to_be. simpl take. simpl replicate. simpl app at 1.
    change (encode_entries (e :: es)) with (encode_entry e ++ encode_entries es).
    rewrite drop_app_length'; [done|by rewrite length_encode_entry]. }
  unfold OffsetIndex_remap, file_len, mmap_map. cbn [ix_file f_path].
  rewrite file_content_set. rewrite (proj2 (Z.ltb_lt _ _)).
  2: { rewrite length_encode_entries. simpl. lia. }
  cbn [ix_mmap ix_size]. split_and!; [apply files_set|done|by rewrite Hsz].
Qed.

(** ** Properties *)

(** C27: on a well-formed index the binary search returns the position of the last entry
    whose offset is at most the target, and always ends. *)
Theorem OffsetIndex_lookup_floor d ix es t :
  OffsetIndex_inv d ix es → OffsetIndex_lookup ix t = Ok (index_floor es t).
Proof. apply lookup_floor. Qed.

(** An append at the end of the file adds the entry and keeps the index well formed,
    and every later lookup sees it. *)
Theorem OffsetIndex_append_spec d ix es offset position t :
  OffsetIndex_inv d ix es → cursor_at_end ix es →
  entry_wf (offset, position) →
  (∀ e, last es = Some e → e.1 < offset) →
  let '(d', ix') := OffsetIndex_append d ix offset position in
  OffsetIndex_inv d' ix' (es ++ [(offset, position)]) ∧
  cursor_at_end ix' (es ++ [(offset, position)]) ∧
  OffsetIndex_lookup ix' t =
    Ok (if decide (offset ≤ t) then Some position else index_floor es t).
Proof.
  intros Hinv Hcur Hwf Hlast.
  pose proof (OffsetIndex_append_inv _ _ _ _ _ Hinv Hcur Hwf Hlast) as Happ.
  destruct (OffsetIndex_append d ix offset position) as [d' ix'].
  destruct Happ as (_ & _ & Hinv' & Hcur'). split_and!; [done|done|].
  rewrite (lookup_floor _ _ _ _ Hinv'). f_equal. unfold index_floor. rewrite filter_app.
  case_decide.
  - rewrite filter_singleton_True by done. by rewrite last_snoc.
  - rewrite filter_singleton_False by done. by rewrite app_nil_r.
Qed.

(** C28: an index that is opened again is not extended but overwritten: the cursor of the
    file is at its start, so the first append replaces the first entry while the count
    of entries grows, and a lookup beyond every entry then reads past the end of the
    mapping and panics. *)
Theorem OffsetIndex_reopen_append_panics d p e es offset position t :
  files d !! p = Some (encode_entries (e :: es)) →
  Forall entry_wf (e :: es) → StronglySorted entry_lt (e :: es) →
  entry_wf (offset, position) →
  (∀ e', e' ∈ e :: es → e'.1 < offset) → offset ≤ t →
  ∃ ix, OffsetIndex_open p d = (d, Ok ix) ∧
    let '(d', ix') := OffsetIndex_append d ix offset position in
    files d' !! p = Some (encode_entries ((offset, position) :: es)) ∧
    OffsetIndex_lookup ix' t = Panic.
Proof.
  intros Hf Hwf Hs Hewf Hlt Ht.
  destruct (OffsetIndex_open_inv d p (e :: es) Hf Hwf Hs) as (ix & Ho & Hp & Hpos & Hinv).
  exists ix. split; [done|].
  pose proof (OffsetIndex_append_reopened d ix e es offset position Hinv Hpos) as Happ.
  destruct (OffsetIndex_append d ix offset position) as [d' ix'].
  destruct Happ as (Hf' & Hm' & Hsz'). rewrite Hp in Hf'. split; [done|].
  unfold OffsetIndex_lookup. rewrite Hsz', Hm'. cbn [Nat.eqb].
  change (S (S (length es))) with (S (length ((offset, position) :: es))).
  apply lookup_loop_past_end; [|lia|lia|].
  - constructor; [done|]. by inversion Hwf.
  - intros e' [->|He']%elem_of_cons; [done|].
    transitivity offset; [|done]. apply Z.lt_le_incl, Hlt. by right.
Qed.
