(* ===== verification/Retention.v ===== *)
(** * Retention: which segments a policy deletes

    [storage/src/retention.rs].  A [Duration] is its number of nanoseconds; the clock is
    a parameter, since each call of [age] reads it again. *)
From S2P Require Import Prelude.

Definition Duration_from_secs (s : Z) : Z := s * 1000000000.

Inductive RetentionPolicy : Type :=
  | Time_ (max_age : Z)
  | Size_ (max_size : Z)
  | Both (max_age max_size : Z)
  | Unlimited.

Record RetentionConfig : Type := {
  rc_policy : RetentionPolicy;
  rc_min_segments : nat;
}.

Definition RetentionConfig_default : RetentionConfig :=
  {| rc_policy := Time_ (Duration_from_secs (7 * 24 * 60 * 60)); rc_min_segments := 1 |}.
Definition RetentionConfig_time (max_age : Z) : RetentionConfig :=
  {| rc_policy := Time_ max_age; rc_min_segments := 1 |}.
Definition RetentionConfig_size (max_size : Z) : RetentionConfig :=
  {| rc_policy := Size_ max_size; rc_min_segments := 1 |}.
Definition RetentionConfig_both (max_age max_size : Z) : RetentionConfig :=
  {| rc_policy := Both max_age max_size; rc_min_segments := 1 |}.
Definition RetentionConfig_unlimited : RetentionConfig :=
  {| rc_policy := Unlimited; rc_min_segments := 1 |}.
Definition RetentionConfig_with_min_segments (c : RetentionConfig) (min : nat) : RetentionConfig :=
  {| rc_policy := rc_policy c; rc_min_segments := min |}.

Definition should_delete_segment
    (c : RetentionConfig) (segment_age total_size : Z) (segment_count : nat) : bool :=
  if (segment_count <=? rc_min_segments c)%nat then false
  else match rc_policy c with
       | Unlimited => false
       | Time_ max_age => segment_age >? max_age
       | Size_ max_size => total_size >? max_size
       | Both max_age max_size => (segment_age >? max_age) || (total_size >? max_size)
       end.

Record SegmentMetadata : Type := {
  sm_base_offset : Z;
  sm_size : Z;
  sm_created_at : Z;
}.

(** [now] is the clock in seconds since the epoch; the subtraction saturates. *)
Definition SegmentMetadata_age (now : Z) (s : SegmentMetadata) : Z :=
  Duration_from_secs (Z.max 0 (now - sm_created_at s)).

(** [RetentionManager] holds its configuration and nothing else. *)
Record RetentionManager : Type := { rm_config : RetentionConfig }.
Definition RetentionManager_new (c : RetentionConfig) : RetentionManager := {| rm_config := c |}.
Definition RetentionManager_update_config (m : RetentionManager) (c : RetentionConfig)
  : RetentionManager := {| rm_config := c |}.

(** [segments.iter().map(|s| s.size).sum()]. *)
Definition sum_sizes (segments : list SegmentMetadata) : Z :=
  foldl (λ acc s, w64 (acc + sm_size s)) 0 segments.

(** The loop over the segments, oldest first; [clock idx] is the reading of the clock
    for the segment at [idx]. *)
Fixpoint segments_loop (c : RetentionConfig) (clock : nat → Z) (segment_count idx : nat)
    (cumulative_size : Z) (segments : list SegmentMetadata) : list Z :=
  match segments with
  | [] => []
  | segment :: segments' =>
      let remaining_count := (segment_count - idx)%nat in
      if should_delete_segment c (SegmentMetadata_age (clock idx) segment)
           cumulative_size remaining_count
      then sm_base_offset segment ::
           segments_loop c clock segment_count (S idx)
             (w64 (cumulative_size - sm_size segment)) segments'
      else []
  end.

Definition segments_to_delete (m : RetentionManager) (clock : nat → Z)
    (segments : list SegmentMetadata) : list Z :=
  match segments with
  | [] => []
  | _ =>
      let total_size := sum_sizes segments in
      let segment_count := length segments in
      segments_loop (rm_config m) clock segment_count 0 total_size segments
  end.

(** ** Specification *)
(** The size of the segments from [idx] on. *)
Fixpoint total_size (segments : list SegmentMetadata) : Z :=
  match segments with [] => 0 | s :: ss => sm_size s + total_size ss end.
Definition sizes_wf (segments : list SegmentMetadata) : Prop :=
  Forall (λ s, 0 ≤ sm_size s) segments ∧ total_size segments < 2 ^ 64.

(** The segment at [idx] should go, when all the older ones went. *)
Definition expired (c : RetentionConfig) (clock : nat → Z)
    (segments : list SegmentMetadata) (idx : nat) : bool :=
  match segments !! idx with
  | Some s =>
      should_delete_segment c (SegmentMetadata_age (clock idx) s)
        (total_size (drop idx segments)) (length segments - idx)
  | None => false
  end.

Lemma total_size_nonneg ss : Forall (λ s, 0 ≤ sm_size s) ss → 0 ≤ total_size ss.
Proof. induction 1; simpl; lia. Qed.

Lemma sum_sizes_acc ss acc :
  Forall (λ s, 0 ≤ sm_size s) ss → 0 ≤ acc → acc + total_size ss < 2 ^ 64 →
  foldl (λ acc s, w64 (acc + sm_size s)) acc ss = acc + total_size ss.
Proof.
  intros Hss. revert acc. induction Hss as [|s ss Hs Hss IH]; intros acc Hacc Hb; simpl in *; [lia|].
  pose proof (total_size_nonneg ss Hss).
  rewrite w64_small by (unfold is_u64; lia). rewrite IH; lia.
Qed.

Lemma sum_sizes_total ss : sizes_wf ss → sum_sizes ss = total_size ss.
Proof. intros [Hp Hb]. unfold sum_sizes. rewrite sum_sizes_acc; [done|done|lia|lia]. Qed.

Lemma segments_loop_spec c clock done_ rest :
  sizes_wf (done_ ++ rest) →
  let segs := done_ ++ rest in
  ∃ n, (n ≤ length rest)%nat ∧
    segments_loop c clock (length segs) (length done_) (total_size rest) rest =
      sm_base_offset <$> take n rest ∧
    (∀ i, (length done_ ≤ i < length done_ + n)%nat → expired c clock segs i = true) ∧
    ((n < length rest)%nat → expired c clock segs (length done_ + n) = false).
Proof.
  revert done_. induction rest as [|s rest IH]; intros done_ Hwf; cbv zeta.
  { exists 0%nat. simpl. split_and!; [lia|done|lia|lia]. }
  assert (expired c clock (done_ ++ s :: rest) (length done_) =
    should_delete_segment c (SegmentMetadata_age (clock (length done_)) s)
      (total_size (s :: rest)) (length (done_ ++ s :: rest) - length done_)) as Hexp.
  { unfold expired. rewrite list_lookup_middle by done. by rewrite drop_app_length. }
  cbn [segments_loop]. rewrite <-Hexp.
  destruct (expired c clock (done_ ++ s :: rest) (length done_)) eqn:E; cycle 1.
  { exists 0%nat. rewrite Nat.add_0_r. split_and!; [lia|done|lia|done]. }
  destruct Hwf as [Hpos Hb].
  assert (total_size rest = w64 (total_size (s :: rest) - sm_size s)) as <-.
  { simpl. rewrite Z.add_simpl_l. symmetry. apply w64_small.
    apply Forall_app in Hpos as [Hd Hr]. apply Forall_cons in Hr as [Hs Hr].
    pose proof (total_size_nonneg _ Hr).
    assert (total_size rest ≤ total_size (done_ ++ s :: rest)); [|unfold is_u64; lia].
    clear -Hd Hs. induction Hd; simpl in *; lia. }
  specialize (IH (done_ ++ [s])). rewrite <-app_assoc in IH. simpl in IH.
  destruct IH as (n & Hn & Heq & Hall & Hstop); [done|].
  replace (length (done_ ++ [s])) with (S (length done_)) in * by (rewrite length_app; simpl; lia).
  exists (S n). rewrite Heq. split_and!; [simpl; lia|done| |].
  - intros i Hi. destruct (decide (i = length done_)) as [->|]; [done|]. apply Hall. lia.
  - simpl. intros Hlt. rewrite Nat.add_succ_r. apply Hstop. lia.
Qed.

Lemma segments_to_delete_prefix m clock segs :
  sizes_wf segs →
  ∃ n, (n ≤ length segs)%nat ∧
    segments_to_delete m clock segs = sm_base_offset <$> take n segs ∧
    (∀ i, (i < n)%nat → expired (rm_config m) clock segs i = true) ∧
    ((n < length segs)%nat → expired (rm_config m) clock segs n = false).
Proof.
  intros Hwf. destruct segs as [|s segs].
  { exists 0%nat. split_and!; [done|done|lia|simpl; lia]. }
  destruct (segments_loop_spec (rm_config m) clock [] (s :: segs) Hwf) as (n & Hn & Heq & Ha & Hs).
  exists n. split; [done|]. unfold segments_to_delete. rewrite sum_sizes_total by done.
  split; [exact Heq|]. split; [|exact Hs]. intros i Hi. apply Ha. simpl. lia.
Qed.

(** ** The policies, in the words of their documentation

    A policy may limit the age of a segment and the size of all of them together.  These
    definitions do not use the code's test. *)
Definition age_limit (p : RetentionPolicy) : option Z :=
  match p with Time_ a | Both a _ => Some a | Size_ _ | Unlimited => None end.
Definition size_limit (p : RetentionPolicy) : option Z :=
  match p with Size_ m | Both _ m => Some m | Time_ _ | Unlimited => None end.

(** A segment is too old when more nanoseconds passed since its creation than the limit;
    segments are too big when their sizes add up to more than the limit. *)
Definition too_old (p : RetentionPolicy) (now : Z) (s : SegmentMetadata) : Prop :=
  ∃ a, age_limit p = Some a ∧ a < 10 ^ 9 * Z.max 0 (now - sm_created_at s).
Definition too_big (p : RetentionPolicy) (segs : list SegmentMetadata) : Prop :=
  ∃ m, size_limit p = Some m ∧ m < total_size segs.

(** The test of the code decides: enough segments are left, and one limit is exceeded. *)
Lemma should_delete_segment_spec c now s segs n :
  should_delete_segment c (SegmentMetadata_age now s) (total_size segs) n = true ↔
  (rc_min_segments c < n)%nat ∧ (too_old (rc_policy c) now s ∨ too_big (rc_policy c) segs).
Proof.
  unfold should_delete_segment, SegmentMetadata_age, Duration_from_secs, too_old, too_big.
  rewrite (Z.mul_comm _ 1000000000). change 1000000000 with (10 ^ 9).
  destruct (Nat.leb_spec n (rc_min_segments c)); [split; [done|lia]|].
  destruct (rc_policy c) as [a|m|a m|]; cbn [age_limit size_limit];
    rewrite ?orb_true_iff, ?Z.gtb_lt; naive_solver.
Qed.

Lemma expired_spec c clock segs i s :
  segs !! i = Some s →
  (expired c clock segs i = true ↔
   (rc_min_segments c < length segs - i)%nat ∧
   (too_old (rc_policy c) (clock i) s ∨ too_big (rc_policy c) (drop i segs))).
Proof. intros Hs. unfold expired. rewrite Hs. apply should_delete_segment_spec. Qed.

(** ** Properties *)

(** C37: the segments that a policy deletes are a prefix of the segments, oldest first.
    At least the configured minimum is kept; each deleted segment was older than the
    policy's age limit, or the segments from it on were together bigger than its size
    limit; and the first kept segment is either among the last ones, which the minimum
    protects, or neither older nor, with those after it, bigger than the limits.  The
    limits are stated apart from the test of the code; the sizes add up to less than
    [2 ^ 64]. *)
Theorem segments_to_delete_spec m clock segs :
  sizes_wf segs →
  let policy := rc_policy (rm_config m) in
  let min_segments := rc_min_segments (rm_config m) in
  ∃ n, (n ≤ length segs)%nat ∧
    segments_to_delete m clock segs = sm_base_offset <$> take n segs ∧
    (length segs `min` min_segments ≤ length segs - n)%nat ∧
    (∀ i s, (i < n)%nat → segs !! i = Some s →
      too_old policy (clock i) s ∨ too_big policy (drop i segs)) ∧
    (∀ s, segs !! n = Some s →
      (length segs - n ≤ min_segments)%nat ∨
      ¬ too_old policy (clock n) s ∧ ¬ too_big policy (drop n segs)).
Proof.
  intros Hwf policy min_segments.
  destruct (segments_to_delete_prefix m clock segs Hwf) as (n & Hn & Heq & Hall & Hstop).
  exists n. split; [done|]. split; [done|]. split; [|split].
  - destruct n as [|n]; [lia|]. destruct (lookup_lt_is_Some_2 segs n) as [s Hs]; [lia|].
    destruct (proj1 (expired_spec _ _ _ _ _ Hs) (Hall n ltac:(lia))) as [? _].
    unfold min_segments. lia.
  - intros i s Hi Hs. by apply (expired_spec _ _ _ _ _ Hs), Hall.
  - intros s Hs. pose proof (lookup_lt_Some _ _ _ Hs) as Hlt.
    destruct (decide (length segs - n ≤ min_segments)%nat) as [|Hgt]; [by left|right].
    specialize (Hstop Hlt). apply not_true_iff_false in Hstop.
    rewrite (expired_spec _ _ _ _ _ Hs) in Hstop. unfold policy, min_segments in *.
    split; intros ?; apply Hstop; (split; [lia|tauto]).
Qed.

(** Retention keeps the configured minimum of segments: it deletes none when there are
    no more than that, and never goes below it. *)
Theorem segments_to_delete_min m clock segs :
  sizes_wf segs →
  (length segs `min` rc_min_segments (rm_config m) ≤
    length segs - length (segments_to_delete m clock segs))%nat.
Proof.
  intros Hwf. destruct (segments_to_delete_prefix m clock segs Hwf) as (n & Hn & -> & Hall & _).
  rewrite length_fmap, length_take, (Nat.min_l n) by lia.
  destruct n as [|n]; [lia|].
  specialize (Hall n ltac:(lia)). unfold expired in Hall.
  destruct (segs !! n); [|done]. unfold should_delete_segment in Hall.
  destruct (Nat.leb_spec (length segs - n) (rc_min_segments (rm_config m))); [done|].
  destruct (Nat.min_spec (length segs) (rc_min_segments (rm_config m))); lia.
Qed.

(** After a size policy ran, what is left fits the limit, unless only the minimum of
    segments is left; and one segment fewer deleted would not fit. *)
Theorem segments_to_delete_size c max clock segs :
  rc_policy c = Size_ max → sizes_wf segs →
  let kept := drop (length (segments_to_delete (RetentionManager_new c) clock segs)) segs in
  (total_size kept ≤ max ∨ (length kept ≤ rc_min_segments c)%nat) ∧
  (segments_to_delete (RetentionManager_new c) clock segs ≠ [] →
    max < total_size
      (drop (length (segments_to_delete (RetentionManager_new c) clock segs) - 1) segs)).
Proof.
  intros Hpol Hwf.
  destruct (segments_to_delete_prefix (RetentionManager_new c) clock segs Hwf)
    as (n & Hn & -> & Hall & Hstop).
  cbv zeta. rewrite length_fmap, length_take, (Nat.min_l n) by lia. split.
  - destruct (decide (n < length segs)%nat) as [Hlt|Hge].
    + specialize (Hstop Hlt). unfold expired in Hstop.
      destruct (lookup_lt_is_Some_2 segs n Hlt) as [s Hs]. rewrite Hs in Hstop.
      unfold should_delete_segment in Hstop. cbn [rm_config RetentionManager_new] in Hstop.
      rewrite Hpol, length_drop in *.
      destruct (Nat.leb_spec (length segs - n) (rc_min_segments c)); [by right|left].
      rewrite Z.gtb_ltb, Z.ltb_ge in Hstop. done.
    + right. rewrite length_drop. lia.
  - intros Hne. destruct n as [|n]; [by rewrite take_0 in Hne|].
    rewrite Nat.sub_1_r. cbn [Nat.pred]. specialize (Hall n ltac:(lia)). unfold expired in Hall.
    destruct (segs !! n); [|done]. unfold should_delete_segment in Hall.
    cbn [rm_config RetentionManager_new] in Hall. rewrite Hpol in Hall.
    destruct (_ <=? _)%nat; [done|]. by rewrite Z.gtb_ltb, Z.ltb_lt in Hall.
Qed.
