(* ===== verification/Segment.v ===== *)
(** * LogSegment: one log file with its index

    [storage/src/segment.rs].  A segment appends records to its log file, remembers the
    position of every N-th record in its index, and reads records by scanning a mapping
    of the file from an indexed position.  The locks of the segment are held for the
    whole of an append, so that its operations are atomic with respect to each other. *)
From Stdlib Require Import Ascii.
From S2P Require Import Prelude Bytes Text Common Messages Compression DiskRecord FileSystem.
From S2P Require Import OffsetIndex Retention.

Definition DEFAULT_MAX_SEGMENT_SIZE : Z := 1024 * 1024 * 1024.

Record SegmentConfig : Type := {
  sc_max_size : Z;
  sc_index_interval : Z;
  sc_compression : CompressionType;
  sc_retention : RetentionConfig;
}.

Definition SegmentConfig_default : SegmentConfig :=
  {| sc_max_size := DEFAULT_MAX_SEGMENT_SIZE; sc_index_interval := 10;
     sc_compression := CNone; sc_retention := RetentionConfig_default |}.
Definition SegmentConfig_with_compression (c : SegmentConfig) (x : CompressionType) : SegmentConfig :=
  {| sc_max_size := sc_max_size c; sc_index_interval := sc_index_interval c;
     sc_compression := x; sc_retention := sc_retention c |}.
Definition SegmentConfig_with_retention (c : SegmentConfig) (r : RetentionConfig) : SegmentConfig :=
  {| sc_max_size := sc_max_size c; sc_index_interval := sc_index_interval c;
     sc_compression := sc_compression c; sc_retention := r |}.

Record LogSegment : Type := {
  seg_base_offset : Z;
  seg_log_path : path;
  seg_index_path : path;
  seg_log_file : File;
  seg_mmap : option bytes;
  seg_index : OffsetIndex;
  seg_size : Z;
  seg_next_offset : Z;
  seg_config : SegmentConfig;
  seg_records_since_index : Z;
}.

Definition LogSegment_log_path (dir : path) (base_offset : Z) : path :=
  path_join dir (fmt_dec20 base_offset +:+ ".log").
Definition LogSegment_index_path (dir : path) (base_offset : Z) : path :=
  path_join dir (fmt_dec20 base_offset +:+ ".index").

(** The updates an append makes. *)
Definition seg_set_log_file (f : File) (s : LogSegment) : LogSegment :=
  {| seg_base_offset := seg_base_offset s; seg_log_path := seg_log_path s;
     seg_index_path := seg_index_path s; seg_log_file := f; seg_mmap := seg_mmap s;
     seg_index := seg_index s; seg_size := seg_size s; seg_next_offset := seg_next_offset s;
     seg_config := seg_config s; seg_records_since_index := seg_records_since_index s |}.
Definition seg_set_index (ix : OffsetIndex) (n : Z) (s : LogSegment) : LogSegment :=
  {| seg_base_offset := seg_base_offset s; seg_log_path := seg_log_path s;
     seg_index_path := seg_index_path s; seg_log_file := seg_log_file s; seg_mmap := seg_mmap s;
     seg_index := ix; seg_size := seg_size s; seg_next_offset := seg_next_offset s;
     seg_config := seg_config s; seg_records_since_index := n |}.
Definition seg_set_next (next n : Z) (s : LogSegment) : LogSegment :=
  {| seg_base_offset := seg_base_offset s; seg_log_path := seg_log_path s;
     seg_index_path := seg_index_path s; seg_log_file := seg_log_file s; seg_mmap := seg_mmap s;
     seg_index := seg_index s; seg_size := seg_size s; seg_next_offset := next;
     seg_config := seg_config s; seg_records_since_index := n |}.
Definition seg_set_size (z : Z) (s : LogSegment) : LogSegment :=
  {| seg_base_offset := seg_base_offset s; seg_log_path := seg_log_path s;
     seg_index_path := seg_index_path s; seg_log_file := seg_log_file s; seg_mmap := seg_mmap s;
     seg_index := seg_index s; seg_size := z; seg_next_offset := seg_next_offset s;
     seg_config := seg_config s; seg_records_since_index := seg_records_since_index s |}.
Definition seg_set_mmap (m : option bytes) (s : LogSegment) : LogSegment :=
  {| seg_base_offset := seg_base_offset s; seg_log_path := seg_log_path s;
     seg_index_path := seg_index_path s; seg_log_file := seg_log_file s; seg_mmap := m;
     seg_index := seg_index s; seg_size := seg_size s; seg_next_offset := seg_next_offset s;
     seg_config := seg_config s; seg_records_since_index := seg_records_since_index s |}.

(** [LogSegment::create]: the size is 0 even when the log file exists already. *)
Definition LogSegment_create (base_offset : Z) (dir : path) (config : SegmentConfig)
    : Method disk LogSegment :=
  let log_path := LogSegment_log_path dir base_offset in
  let index_path := LogSegment_index_path dir base_offset in
  log_file ← open_create log_path;
  index ← OffsetIndex_create index_path;
  mret {| seg_base_offset := base_offset; seg_log_path := log_path;
          seg_index_path := index_path; seg_log_file := log_file; seg_mmap := None;
          seg_index := index; seg_size := 0; seg_next_offset := base_offset;
          seg_config := config; seg_records_since_index := 0 |}.

Definition LogSegment_should_rotate (seg : LogSegment) : bool :=
  sc_max_size (seg_config seg) <=? seg_size seg.

(** Maps the log file again after a write. *)
Definition LogSegment_remap (d : disk) (seg : LogSegment) : LogSegment :=
  if 0 <? file_len d (seg_log_file seg)
  then seg_set_mmap (Some (mmap_map d (seg_log_file seg))) seg
  else seg.

Section segment.
Context `{Crc32} `{CompressionLib}.

(** The scan of the log for the next offset: a turn decodes one record.  A turn that goes
    on consumes bytes, so that the length of the log bounds the number of turns. *)
Definition scan_turn (state : bytes * Z) : Result Z + bytes * Z :=
  let '(cursor, last_offset) := state in
  match DiskRecord_decode cursor with
  | Ok (record, cursor) => inr (cursor, dr_offset record)
  | Err _ => inl (Ok last_offset)
  | Panic => inl Panic
  end.
Definition scan_loop (fuel : nat) (cursor : bytes) (last_offset : Z) : Result Z :=
  run_loop scan_turn Panic fuel (cursor, last_offset).

Definition LogSegment_scan_for_next_offset (d : disk) (log_file : File) (base_offset : Z)
    : Result Z :=
  if file_len d log_file =? 0 then Ok base_offset
  else
    let mmap := mmap_map d log_file in
    last_offset ← scan_loop (S (length mmap)) mmap base_offset;
    Ok (w64 (last_offset + 1)).

Definition LogSegment_open (base_offset : Z) (dir : path) (config : SegmentConfig)
    : Method disk LogSegment :=
  let log_path := LogSegment_log_path dir base_offset in
  let index_path := LogSegment_index_path dir base_offset in
  log_file ← open_existing log_path;
  d ← eff_get;
  let size := file_len d log_file in
  index ← OffsetIndex_open index_path;
  let mmap := if 0 <? size then Some (mmap_map d log_file) else None in
  next_offset ← eff_lift (LogSegment_scan_for_next_offset d log_file base_offset);
  mret {| seg_base_offset := base_offset; seg_log_path := log_path;
          seg_index_path := index_path; seg_log_file := log_file; seg_mmap := mmap;
          seg_index := index; seg_size := size; seg_next_offset := next_offset;
          seg_config := config; seg_records_since_index := 0 |}.

(** The record written for a message. *)
Definition make_record (config : SegmentConfig) (offset : Z) (m : Message) : DiskRecord :=
  if decide (sc_compression config = CNone) then DiskRecord_new offset m
  else DiskRecord_new_with_compression offset m (sc_compression config).

(** The body of the loop of [append]; the result is the position after the record. *)
Definition append_message (message : Message) (current_position : Z)
    : Method (disk * LogSegment) Z :=
  '(d, seg) ← eff_get;
  let record := make_record (seg_config seg) (seg_next_offset seg) message in
  encoded ← eff_lift (DiskRecord_encode record);
  let '(d, log_file) := write_all d (seg_log_file seg) encoded in
  let seg := seg_set_log_file log_file seg in
  let '(d, seg) :=
    if sc_index_interval (seg_config seg) <=? seg_records_since_index seg then
      let '(d, index) :=
        OffsetIndex_append d (seg_index seg) (seg_next_offset seg) current_position in
      (d, seg_set_index index 0 seg)
    else (d, seg) in
  let current_position := w64 (current_position + Z.of_nat (length encoded)) in
  let seg := seg_set_next (w64 (seg_next_offset seg + 1))
                          (w32 (seg_records_since_index seg + 1)) seg in
  _ ← eff_put (d, seg);
  mret current_position.

Fixpoint append_loop (messages : list Message) (current_position : Z)
    : Method (disk * LogSegment) Z :=
  match messages with
  | [] => mret current_position
  | message :: messages =>
      current_position ← append_message message current_position;
      append_loop messages current_position
  end.

Definition LogSegment_append (messages : list Message) : Method (disk * LogSegment) Z :=
  if decide (messages = []) then eff_lift (Err (InvalidMessage "No messages to append"))
  else
    '(d, seg) ← eff_get;
    let base_offset := seg_next_offset seg in
    _ ← eff_put (d, seg_set_log_file (seek_end d (seg_log_file seg)) seg);
    current_position ← append_loop messages (seg_size seg);
    _ ← eff_modify (λ '(d, seg), (d, LogSegment_remap d (seg_set_size current_position seg)));
    mret base_offset.

(** [&mmap_ref[position as usize..]]. *)
Definition slice_from (bs : bytes) (position : Z) : Result bytes :=
  if Z.of_nat (length bs) <? position then Panic else Ok (drop (Z.to_nat position) bs).

(** The reader the scans of [read] and [read_batch] start from. *)
Definition LogSegment_cursor (seg : LogSegment) (offset : Z) : Result bytes :=
  mmap ← ok_or (Storage "Segment not memory-mapped") (seg_mmap seg);
  found ← OffsetIndex_lookup (seg_index seg) offset;
  slice_from mmap (default 0 found).

(** A turn of the loop of [read]. *)
Definition read_turn (offset : Z) (cursor : bytes) : Result DiskRecord + bytes :=
  match DiskRecord_decode cursor with
  | Ok (record, cursor) =>
      if dr_offset record =? offset then inl (Ok record)
      else if offset <? dr_offset record then inl (Err (InvalidOffset offset))
      else inr cursor
  | Err e => inl (Err e)
  | Panic => inl Panic
  end.
Definition read_loop (fuel : nat) (cursor : bytes) (offset : Z) : Result DiskRecord :=
  run_loop (read_turn offset) Panic fuel cursor.

Definition LogSegment_read (seg : LogSegment) (offset : Z) : Result DiskRecord :=
  if offset <? seg_base_offset seg then Err (InvalidOffset offset)
  else if seg_next_offset seg <=? offset then Err (InvalidOffset offset)
  else
    cursor ← LogSegment_cursor seg offset;
    read_loop (S (length cursor)) cursor offset.

(** A turn of the loop of [read_batch]; a record below the start after the start was found
    is skipped like one before it. *)
Definition batch_turn (start_offset max_count : Z) (state : bytes * list DiskRecord)
    : Result (list DiskRecord) + bytes * list DiskRecord :=
  let '(cursor, records) := state in
  if Z.of_nat (length records) <? max_count then
    match DiskRecord_decode cursor with
    | Ok (record, cursor) =>
        if start_offset <=? dr_offset record
        then inr (cursor, records ++ [record])
        else inr (cursor, records)
    | Err _ => inl (Ok records)
    | Panic => inl Panic
    end
  else inl (Ok records).
Definition batch_loop (fuel : nat) (cursor : bytes) (start_offset max_count : Z)
    (records : list DiskRecord) : Result (list DiskRecord) :=
  run_loop (batch_turn start_offset max_count) Panic fuel (cursor, records).

Definition LogSegment_read_batch (seg : LogSegment) (start_offset max_count : Z)
    : Result (list DiskRecord) :=
  if start_offset <? seg_base_offset seg then Err (InvalidOffset start_offset)
  else if seg_next_offset seg <=? start_offset then Ok []
  else
    cursor ← LogSegment_cursor seg start_offset;
    batch_loop (S (length cursor)) cursor start_offset max_count [].

End segment.

(** ** The abstract log: a list of records *)
Fixpoint new_records (config : SegmentConfig) (next : Z) (ms : list Message) : list DiskRecord :=
  match ms with
  | [] => []
  | m :: ms => make_record config next m :: new_records config (next + 1) ms
  end.

Section segment_spec.
Context `{Crc32} `{CompressionLib}.

Definition encoded (r : DiskRecord) : bytes :=
  match DiskRecord_encode r with Ok b => b | _ => [] end.
Definition encode_log (rs : list DiskRecord) : bytes := rs ≫= encoded.

Definition record_ok (r : DiskRecord) : Prop :=
  DiskRecord_wf r ∧ ∃ b, DiskRecord_encode r = Ok b ∧ encoding_fits b.
(** Records that can be written, with consecutive offsets. *)
Definition log_ok (base : Z) (rs : list DiskRecord) : Prop :=
  Forall record_ok rs ∧ ∀ i r, rs !! i = Some r → dr_offset r = base + Z.of_nat i.
Definition log_fits (base : Z) (rs : list DiskRecord) : Prop :=
  0 ≤ base ∧ base + Z.of_nat (length rs) < 2 ^ 64 ∧ Z.of_nat (length (encode_log rs)) < 2 ^ 64.

(** The position of the [i]-th record. *)
Definition pos_of (rs : list DiskRecord) (i : nat) : Z :=
  Z.of_nat (length (encode_log (take i rs))).
Definition index_ok (base : Z) (rs : list DiskRecord) (es : list (Z * Z)) : Prop :=
  Forall (λ e, ∃ i, (i < length rs)%nat ∧ e = (base + Z.of_nat i, pos_of rs i)) es.

(** The part of the invariant that holds between two messages of an append too. *)
Record segment_mid (d : disk) (seg : LogSegment) (rs : list DiskRecord) (es : list (Z * Z))
    : Prop := {
  sm_log_path : f_path (seg_log_file seg) = seg_log_path seg;
  sm_index_path : f_path (ix_file (seg_index seg)) = seg_index_path seg;
  sm_paths : seg_log_path seg ≠ seg_index_path seg;
  sm_content : files d !! seg_log_path seg = Some (encode_log rs);
  sm_next : seg_next_offset seg = seg_base_offset seg + Z.of_nat (length rs);
  sm_log : log_ok (seg_base_offset seg) rs;
  sm_fits : log_fits (seg_base_offset seg) rs;
  sm_index : OffsetIndex_inv d (seg_index seg) es;
  sm_index_ok : index_ok (seg_base_offset seg) rs es;
  sm_interval : is_u32 (sc_index_interval (seg_config seg));
  sm_since : 0 ≤ seg_records_since_index seg ≤ Z.max 1 (sc_index_interval (seg_config seg));
}.

Record LogSegment_inv (d : disk) (seg : LogSegment) (rs : list DiskRecord) (es : list (Z * Z))
    : Prop := {
  si_mid : segment_mid d seg rs es;
  si_mmap : seg_mmap seg = if decide (rs = []) then None else Some (encode_log rs);
  si_size : seg_size seg = Z.of_nat (length (encode_log rs));
}.

(** [n] more records can be indexed: the index was not opened again since it was
    created, or it will not be written. *)
Definition index_room (seg : LogSegment) (es : list (Z * Z)) (n : nat) : Prop :=
  cursor_at_end (seg_index seg) es ∨
  seg_records_since_index seg + Z.of_nat n ≤ sc_index_interval (seg_config seg).

End segment_spec.

Section segment_facts.
Context `{Crc32Laws} `{CompressionLaws}.

Lemma encode_log_cons r rs : encode_log (r :: rs) = encoded r ++ encode_log rs.
Proof. done. Qed.
Lemma encode_log_app rs rs' : encode_log (rs ++ rs') = encode_log rs ++ encode_log rs'.
Proof. unfold encode_log. by rewrite bind_app. Qed.
Lemma encode_log_snoc rs r : encode_log (rs ++ [r]) = encode_log rs ++ encoded r.
Proof. rewrite encode_log_app. unfold encode_log at 2. simpl. by rewrite app_nil_r. Qed.

Lemma encoded_Ok r : record_ok r → DiskRecord_encode r = Ok (encoded r).
Proof. intros [_ (b & Hb & _)]. unfold encoded. by rewrite Hb. Qed.

Lemma length_encoded r : record_ok r → (16 ≤ length (encoded r))%nat.
Proof.
  intros Hok. pose proof (encoded_Ok r Hok) as He.
  apply encode_length in He as (v & _ & Hl). pose proof (key_len_nonneg (dr_key r)). lia.
Qed.

Lemma encode_log_nil_iff rs : Forall record_ok rs → encode_log rs = [] ↔ rs = [].
Proof.
  intros Hok. split; [|by intros ->]. destruct Hok as [|r rs Hr Hok]; [done|].
  intros Hnil. apply (f_equal length) in Hnil. rewrite encode_log_cons, length_app in Hnil.
  pose proof (length_encoded r Hr). simpl in Hnil. lia.
Qed.

Lemma decode_encoded r rest :
  record_ok r → DiskRecord_decode (encoded r ++ rest) = Ok (r, rest).
Proof.
  intros Hok. pose proof (encoded_Ok r Hok) as He. destruct Hok as (Hwf & b & Hb & Hfit).
  assert (b = encoded r) as -> by congruence. by apply decode_encode_aux.
Qed.

Lemma decode_nil : ∃ e, DiskRecord_decode [] = Err (Storage e).
Proof. apply decode_header_short. simpl. lia. Qed.

Lemma drop_encode_log rs i : drop (length (encode_log (take i rs))) (encode_log rs) = encode_log (drop i rs).
Proof. rewrite <-(take_drop i rs) at 2. by rewrite encode_log_app, drop_app_length. Qed.

Lemma log_ok_nil base : log_ok base [].
Proof. split; [constructor|done]. Qed.
Lemma log_ok_snoc base rs r :
  log_ok base rs → record_ok r → dr_offset r = base + Z.of_nat (length rs) →
  log_ok base (rs ++ [r]).
Proof.
  intros [Hok Hoff] Hr Ho. split; [apply Forall_app; split; [done|by apply Forall_singleton]|].
  intros i r' [Hi|[Hi Hr']]%lookup_app_Some; [by apply Hoff|].
  apply list_lookup_singleton_Some in Hr' as [Hi' <-]. rewrite Ho. lia.
Qed.
Lemma log_ok_lookup_drop base rs i r rs' :
  log_ok base rs → drop i rs = r :: rs' →
  dr_offset r = base + Z.of_nat i ∧ record_ok r ∧ drop (S i) rs = rs'.
Proof.
  intros [Hok Hoff] Hd.
  assert (rs !! i = Some r) as Hi by (rewrite <-(Nat.add_0_r i), <-lookup_drop, Hd; done).
  rewrite Forall_lookup in Hok. split_and!; [by apply Hoff|by eapply Hok|].
  rewrite <-Nat.add_1_r, <-drop_drop, Hd. done.
Qed.

Lemma dr_offset_make config n m : dr_offset (make_record config n m) = n.
Proof. unfold make_record. by case_decide. Qed.
Lemma length_new_records config n ms : length (new_records config n ms) = length ms.
Proof. revert n. induction ms; intros n; simpl; congruence. Qed.
Lemma message_make config n m : DiskRecord_to_message (make_record config n m) = m.
Proof. unfold make_record. by case_decide; destruct m. Qed.
Lemma messages_new_records config n ms : DiskRecord_to_message <$> new_records config n ms = ms.
Proof. revert n. induction ms; intros n; simpl; [done|]. by rewrite message_make, IHms. Qed.

Lemma pos_of_app rs rs' i : (i ≤ length rs)%nat → pos_of (rs ++ rs') i = pos_of rs i.
Proof. intros Hi. unfold pos_of. by rewrite take_app_le. Qed.
Lemma pos_of_length rs : pos_of rs (length rs) = Z.of_nat (length (encode_log rs)).
Proof. unfold pos_of. by rewrite take_ge. Qed.
Lemma index_ok_app base rs rs' es : index_ok base rs es → index_ok base (rs ++ rs') es.
Proof.
  intros Hok. eapply Forall_impl; [exact Hok|]. intros e (i & Hi & ->). exists i.
  rewrite length_app, pos_of_app by lia. split; [lia|done].
Qed.

(** ** Append *)
Ltac cbn_seg :=
  cbn [seg_set_log_file seg_set_index seg_set_next seg_set_size seg_set_mmap
       seg_base_offset seg_log_path seg_index_path seg_log_file seg_mmap seg_index seg_size
       seg_next_offset seg_config seg_records_since_index f_path f_pos].

(** What an append leaves alone. *)
Definition same_segment (seg seg' : LogSegment) : Prop :=
  seg_base_offset seg' = seg_base_offset seg ∧ seg_log_path seg' = seg_log_path seg ∧
  seg_index_path seg' = seg_index_path seg ∧ seg_config seg' = seg_config seg.
Definition segment_files (seg : LogSegment) : list path :=
  [seg_log_path seg; seg_index_path seg].

Lemma same_segment_files seg seg' : same_segment seg seg' → segment_files seg' = segment_files seg.
Proof. intros (_ & Hl & Hi & _). unfold segment_files. by rewrite Hl, Hi. Qed.
#[local] Instance same_segment_preorder : PreOrder same_segment.
Proof.
  split; [done|]. intros s1 s2 s3 (?&?&?&?) (?&?&?&?). unfold same_segment. split_and!; congruence.
Qed.

Lemma index_inv_frame d d' ix es :
  files d' !! f_path (ix_file ix) = files d !! f_path (ix_file ix) →
  OffsetIndex_inv d ix es → OffsetIndex_inv d' ix es.
Proof. intros Hf [Hc Hm Hs Hw Ho]. split; [congruence|done..]. Qed.

Lemma index_last_lt base rs es e :
  index_ok base rs es → last es = Some e → e.1 < base + Z.of_nat (length rs).
Proof.
  intros Hok Hl. apply last_Some_elem_of in Hl.
  unfold index_ok in Hok. rewrite Forall_forall in Hok.
  destruct (Hok _ Hl) as (i & Hi & ->). simpl. lia.
Qed.

(** The entry of the index, when one is due. *)
Lemma append_index d seg rs es r :
  f_path (ix_file (seg_index seg)) = seg_index_path seg →
  OffsetIndex_inv d (seg_index seg) es → index_ok (seg_base_offset seg) rs es →
  seg_next_offset seg = seg_base_offset seg + Z.of_nat (length rs) →
  is_u64 (seg_next_offset seg) → Z.of_nat (length (encode_log rs)) < 2 ^ 64 →
  0 ≤ seg_records_since_index seg ≤ Z.max 1 (sc_index_interval (seg_config seg)) →
  index_room seg es 1 →
  ∃ d' ix n es',
    (if sc_index_interval (seg_config seg) <=? seg_records_since_index seg then
       let '(d, index) :=
         OffsetIndex_append d (seg_index seg) (seg_next_offset seg) (Z.of_nat (length (encode_log rs))) in
       (d, seg_set_index index 0 seg)
     else (d, seg)) = (d', seg_set_index ix n seg) ∧
    f_path (ix_file ix) = seg_index_path seg ∧ OffsetIndex_inv d' ix es' ∧
    index_ok (seg_base_offset seg) (rs ++ [r]) es' ∧
    0 ≤ n ∧ n + 1 ≤ Z.max 1 (sc_index_interval (seg_config seg)) ∧
    (d' = d ∨ ∃ c, d' = set_content d (seg_index_path seg) c) ∧
    (∀ k, index_room seg es (S k) →
      cursor_at_end ix es' ∨ n + 1 + Z.of_nat k ≤ sc_index_interval (seg_config seg)).
Proof.
  intros Hip Hix Hiok Hn Hu Hsize Hsince Hroom.
  pose proof (index_ok_app _ _ [r] _ Hiok) as Hiok1.
  destruct (Z.leb_spec (sc_index_interval (seg_config seg)) (seg_records_since_index seg)) as [Hle|Hlt].
  - destruct Hroom as [Hcur|Hroom]; [|lia].
    assert (entry_wf (seg_next_offset seg, Z.of_nat (length (encode_log rs)))) as Hewf
      by (split; unfold is_u64 in *; cbn [fst snd]; lia).
    pose proof (OffsetIndex_append_inv d (seg_index seg) es _ _ Hix Hcur Hewf) as Happ.
    destruct (OffsetIndex_append d _ _ _) as [d2 ix2].
    destruct Happ as (Hd2 & Hip2 & Hix2 & Hcur2).
    { intros e He. cbn [fst]. rewrite Hn. by eapply index_last_lt. }
    eexists d2, ix2, 0, _. split; [reflexivity|]. split; [congruence|]. split; [exact Hix2|].
    split; [|split; [lia|split; [lia|split; [right; rewrite Hd2, Hip; by eexists|by left]]]].
    apply Forall_app. split; [done|]. apply Forall_singleton. exists (length rs).
    rewrite length_app, pos_of_app, pos_of_length, Hn by lia. cbn [length]. split; [lia|done].
  - exists d, (seg_index seg), (seg_records_since_index seg), es. split; [by destruct seg|].
    do 3 (split; [done|]). split; [lia|]. split; [lia|]. split; [by left|].
    intros k [Hcur|Hr']; [by left|right; lia].
Qed.

Lemma append_message_spec d seg rs es m :
  let r := make_record (seg_config seg) (seg_next_offset seg) m in
  segment_mid d seg rs es →
  f_pos (seg_log_file seg) = length (encode_log rs) →
  record_ok r → log_fits (seg_base_offset seg) (rs ++ [r]) → index_room seg es 1 →
  ∃ d' seg' es',
    append_message m (Z.of_nat (length (encode_log rs))) (d, seg) =
      ((d', seg'), Ok (Z.of_nat (length (encode_log (rs ++ [r]))))) ∧
    segment_mid d' seg' (rs ++ [r]) es' ∧
    f_pos (seg_log_file seg') = length (encode_log (rs ++ [r])) ∧
    same_segment seg seg' ∧ disk_frame (segment_files seg) d d' ∧
    (∀ n, index_room seg es (S n) → index_room seg' es' n).
Proof.
  intros r [Hlp Hip Hpp Hc Hn Hlog Hfits Hix Hiok Hint Hsince] Hpos Hr Hfit Hroom.
  assert (file_content d (seg_log_path seg) = encode_log rs) as Hfc
    by (unfold file_content; by rewrite Hc).
  assert (Z.of_nat (length (encode_log (rs ++ [r]))) =
    Z.of_nat (length (encode_log rs)) + Z.of_nat (length (encoded r))) as Hlen
    by (rewrite encode_log_snoc, length_app; lia).
  assert (log_ok (seg_base_offset seg) (rs ++ [r])) as Hlog'.
  { apply log_ok_snoc; [done|done|]. unfold r. by rewrite dr_offset_make, Hn. }
  pose proof Hfit as (Hb0 & Hfit1 & Hfit2). rewrite length_app in Hfit1. cbn [length] in Hfit1.
  set (d1 := set_content d (seg_log_path seg) (encode_log (rs ++ [r]))).
  set (seg1 := seg_set_log_file {| f_path := seg_log_path seg;
    f_pos := length (encode_log rs) + length (encoded r) |} seg).
  destruct (append_index d1 seg1 rs es r) as (d2 & ix & n & es2 & Happ & Hip2 & Hix2 & Hiok2 & Hn0 & Hn2 & Hd2 & Hroom2);
    [done| |done|done|unfold seg1, is_u64; cbn_seg; lia|lia|done|done|].
  { apply (index_inv_frame d); [|done]. apply files_set_ne. unfold seg1. cbn_seg. by rewrite Hip. }
  unfold append_message, eff_get, eff_lift, eff_put, mbind, eff_bind, mret, eff_ret.
  fold r. rewrite (encoded_Ok r Hr). unfold write_all.
  rewrite Hlp, Hfc, Hpos, write_at_end, <-encode_log_snoc. fold d1. fold seg1.
  change (seg_next_offset seg) with (seg_next_offset seg1). rewrite Happ. subst seg1. cbn_seg. cbn [seg_set_log_file seg_config] in Hn2.
  unfold is_u32 in Hint.
  rewrite !w64_small by (unfold is_u64; lia). rewrite w32_small by (unfold is_u32; lia).
  rewrite <-Hlen. eexists d2, _, es2. split; [reflexivity|]. cbn_seg.
  split; [split; cbn_seg; try done|split; [|split; [done|split]]].
  - destruct Hd2 as [->|[c ->]]; [apply files_set|]. cbn_seg. rewrite files_set_ne by done. apply files_set.
  - rewrite length_app. cbn [length]. lia.
  - lia.
  - rewrite encode_log_snoc, length_app. done.
  - transitivity d1; [apply disk_frame_set; by left|].
    destruct Hd2 as [->|[c ->]]; [done|]. apply disk_frame_set. right. by left.
  - intros k Hk. exact (Hroom2 k Hk).
Qed.

Lemma log_fits_app base rs rs' : log_fits base (rs ++ rs') → log_fits base rs.
Proof.
  unfold log_fits. rewrite encode_log_app, !length_app. intros (?&?&?). split_and!; lia.
Qed.
Lemma index_room_le seg es n n' : (n' ≤ n)%nat → index_room seg es n → index_room seg es n'.
Proof. intros Hn [Hc|Hr]; [by left|right; lia]. Qed.

Lemma append_loop_spec ms d seg rs es :
  let new := new_records (seg_config seg) (seg_next_offset seg) ms in
  segment_mid d seg rs es →
  f_pos (seg_log_file seg) = length (encode_log rs) →
  Forall record_ok new → log_fits (seg_base_offset seg) (rs ++ new) →
  index_room seg es (length ms) →
  ∃ d' seg' es',
    append_loop ms (Z.of_nat (length (encode_log rs))) (d, seg) =
      ((d', seg'), Ok (Z.of_nat (length (encode_log (rs ++ new))))) ∧
    segment_mid d' seg' (rs ++ new) es' ∧
    f_pos (seg_log_file seg') = length (encode_log (rs ++ new)) ∧
    same_segment seg seg' ∧ disk_frame (segment_files seg) d d' ∧
    (∀ n, index_room seg es (length ms + n) → index_room seg' es' n).
Proof.
  revert d seg rs es. induction ms as [|m ms IH]; intros d seg rs es new Hmid Hpos Hnew Hfit Hroom.
  { unfold new in *. simpl. rewrite app_nil_r in *. by exists d, seg, es. }
  unfold new in *. cbn [new_records] in *. clear new.
  apply Forall_cons in Hnew as [Hr Hnew].
  set (r := make_record (seg_config seg) (seg_next_offset seg) m) in *.
  rewrite (cons_middle r), app_assoc in Hfit.
  destruct (append_message_spec d seg rs es m) as (d1 & seg1 & es1 & Happ & Hmid1 & Hpos1 & Hsame1 & Hfr1 & Hroom1);
    [done|done|done|by eapply log_fits_app|eapply index_room_le, Hroom; cbn [length]; lia|].
  fold r in Happ, Hmid1, Hpos1.
  assert (seg_next_offset seg1 = seg_next_offset seg + 1) as Hn1.
  { rewrite (sm_next _ _ _ _ Hmid1), (sm_next _ _ _ _ Hmid), length_app.
    destruct Hsame1 as [-> _]. cbn [length]. lia. }
  pose proof Hsame1 as (Hb & _ & _ & Hcfg).
  destruct (IH d1 seg1 (rs ++ [r]) es1) as (d2 & seg2 & es2 & Happ2 & Hmid2 & Hpos2 & Hsame2 & Hfr2 & Hroom2);
    rewrite ?Hcfg, ?Hn1, ?Hb; [done|done|done|done|by apply Hroom1|].
  rewrite Hcfg, Hn1 in Happ2, Hmid2, Hpos2. rewrite <-app_assoc in Happ2, Hmid2, Hpos2.
  exists d2, seg2, es2. cbn [append_loop].
  rewrite (eff_bind_eq _ _ _ _ _ Happ), Happ2. split_and!; [done|done|done| | |].
  - by transitivity seg1.
  - transitivity d1; [done|]. by rewrite <-(same_segment_files _ _ Hsame1).
  - intros n Hn. by apply Hroom2, Hroom1.
Qed.

Lemma append_loop_app ms1 ms2 pos s :
  append_loop (ms1 ++ ms2) pos s = (append_loop ms1 pos ≫= append_loop ms2) s.
Proof.
  revert pos s. induction ms1 as [|m ms1 IH]; intros pos s; [done|].
  cbn [append_loop app]. unfold mbind, eff_bind in *.
  destruct (append_message m pos s) as [s1 [pos1|e|]]; [apply IH|done|done].
Qed.

(** The loop changes neither the size nor the mapping. *)
Definition keeps_size (s s' : disk * LogSegment) : Prop :=
  seg_size s'.2 = seg_size s.2 ∧ seg_mmap s'.2 = seg_mmap s.2.
Lemma append_message_keeps m pos s : keeps_size s (append_message m pos s).1.
Proof.
  destruct s as [d seg]. unfold append_message, eff_get, eff_lift, eff_put, mbind, eff_bind, mret, eff_ret.
  destruct (DiskRecord_encode _) as [b|e|]; [|done|done]. unfold write_all.
  destruct (_ <=? _); [|done]. by destruct (OffsetIndex_append _ _ _ _).
Qed.
Lemma append_loop_keeps ms pos s : keeps_size s (append_loop ms pos s).1.
Proof.
  revert pos s. induction ms as [|m ms IH]; intros pos s; [done|].
  cbn [append_loop]. unfold mbind, eff_bind. pose proof (append_message_keeps m pos s) as [H3 H4].
  destruct (append_message m pos s) as [s1 [pos1|e|]]; [|done|done].
  destruct (IH pos1 s1) as [H5 H6]. cbn [fst] in *. split; congruence.
Qed.

Lemma segment_mid_set_file d seg rs es f :
  f_path f = seg_log_path seg → segment_mid d seg rs es →
  segment_mid d (seg_set_log_file f seg) rs es.
Proof. intros Hf []. split; cbn_seg; done. Qed.

(** The beginning of [append]: the cursor goes to the end of the log. *)
Lemma segment_seek_end d seg rs es :
  segment_mid d seg rs es →
  let seg1 := seg_set_log_file (seek_end d (seg_log_file seg)) seg in
  segment_mid d seg1 rs es ∧ f_pos (seg_log_file seg1) = length (encode_log rs).
Proof.
  intros Hmid. split.
  - apply segment_mid_set_file; [|done]. apply (sm_log_path _ _ _ _ Hmid).
  - cbn_seg. unfold seek_end, file_content. cbn [f_pos].
    by rewrite (sm_log_path _ _ _ _ Hmid), (sm_content _ _ _ _ Hmid).
Qed.

(** What the end of [append] establishes: the size and the mapping are up to date. *)
Lemma segment_finish d seg rs es :
  rs ≠ [] → segment_mid d seg rs es →
  LogSegment_inv d
    (LogSegment_remap d (seg_set_size (Z.of_nat (length (encode_log rs))) seg)) rs es.
Proof.
  intros Hne Hmid. destruct (sm_log _ _ _ _ Hmid) as [Hok _].
  assert (file_content d (f_path (seg_log_file seg)) = encode_log rs) as Hfc.
  { unfold file_content. by rewrite (sm_log_path _ _ _ _ Hmid), (sm_content _ _ _ _ Hmid). }
  unfold LogSegment_remap, file_len, mmap_map. cbn_seg. rewrite Hfc.
  rewrite (proj2 (Z.ltb_lt _ _)).
  2: { destruct (encode_log rs) eqn:E; [by apply encode_log_nil_iff in E|]. simpl. lia. }
  split; cbn_seg; [by destruct Hmid; split; cbn_seg|by rewrite decide_False|done].
Qed.

Lemma LogSegment_append_aux d seg rs es ms :
  let new := new_records (seg_config seg) (seg_next_offset seg) ms in
  LogSegment_inv d seg rs es → ms ≠ [] →
  Forall record_ok new → log_fits (seg_base_offset seg) (rs ++ new) →
  index_room seg es (length ms) →
  ∃ d' seg' es',
    LogSegment_append ms (d, seg) = ((d', seg'), Ok (seg_next_offset seg)) ∧
    LogSegment_inv d' seg' (rs ++ new) es' ∧
    same_segment seg seg' ∧ disk_frame (segment_files seg) d d' ∧
    (∀ n, index_room seg es (length ms + n) → index_room seg' es' n).
Proof.
  intros new [Hmid Hmm Hsz] Hne Hnew Hfit Hroom.
  destruct (segment_seek_end _ _ _ _ Hmid) as [Hmid1 Hpos1].
  set (seg1 := seg_set_log_file _ seg) in *.
  destruct (append_loop_spec ms d seg1 rs es) as (d2 & seg2 & es2 & Happ & Hmid2 & Hpos2 & Hsame & Hfr & Hroom2);
    [done..|].
  unfold LogSegment_append. rewrite decide_False by done.
  unfold eff_get, eff_put, eff_modify, mbind, eff_bind, mret, eff_ret.
  fold seg1. rewrite Hsz, Happ. eexists d2, _, es2. split; [reflexivity|]. split_and!.
  - apply segment_finish; [|done].
    intros [_ Hnil]%app_nil. by destruct ms.
  - transitivity seg2; [done|]. unfold LogSegment_remap. by destruct (_ <? _).
  - done.
  - intros n Hn. assert (index_room seg2 es2 n) as Hr by (by apply Hroom2).
    unfold LogSegment_remap. by destruct (_ <? _).
Qed.

(** ** Scans *)
Lemma encode_log_fuel rs tail :
  Forall record_ok rs → (length rs ≤ length (encode_log rs ++ tail))%nat.
Proof.
  intros Hok. rewrite length_app. induction Hok as [|r rs Hr Hok IH]; [simpl; lia|].
  rewrite encode_log_cons, length_app. pose proof (length_encoded r Hr). simpl. lia.
Qed.

(** One turn of each loop. *)
Lemma scan_loop_S fuel cursor l :
  scan_loop (S fuel) cursor l =
    match DiskRecord_decode cursor with
    | Ok (record, cursor) => scan_loop fuel cursor (dr_offset record)
    | Err _ => Ok l
    | Panic => Panic
    end.
Proof. unfold scan_loop. cbn [run_loop scan_turn]. by destruct (DiskRecord_decode cursor) as [[??]|?|]. Qed.
Lemma read_loop_S fuel cursor o :
  read_loop (S fuel) cursor o =
    ('(record, cursor) ← DiskRecord_decode cursor;
     if dr_offset record =? o then Ok record
     else if o <? dr_offset record then Err (InvalidOffset o)
     else read_loop fuel cursor o).
Proof.
  unfold read_loop. cbn [run_loop]. unfold read_turn at 1.
  destruct (DiskRecord_decode cursor) as [[r c]|?|]; [|done..]. rewrite outcome_bind_Ok.
  destruct (_ =? _); [done|]. by destruct (_ <? _).
Qed.
Lemma batch_loop_S fuel cursor o max acc :
  batch_loop (S fuel) cursor o max acc =
    if Z.of_nat (length acc) <? max then
      match DiskRecord_decode cursor with
      | Ok (record, cursor) =>
          if o <=? dr_offset record then batch_loop fuel cursor o max (acc ++ [record])
          else batch_loop fuel cursor o max acc
      | Err _ => Ok acc
      | Panic => Panic
      end
    else Ok acc.
Proof.
  unfold batch_loop. cbn [run_loop]. unfold batch_turn at 1. destruct (_ <? _); [|done].
  destruct (DiskRecord_decode cursor) as [[r c]|?|]; [|done..]. by destruct (_ <=? _).
Qed.

Lemma scan_loop_log rs tail fuel l e :
  Forall record_ok rs → DiskRecord_decode tail = Err e → (length rs < fuel)%nat →
  scan_loop fuel (encode_log rs ++ tail) l = Ok (default l (dr_offset <$> last rs)).
Proof.
  intros Hok Htail. revert fuel l.
  induction Hok as [|r rs Hr Hok IH]; intros fuel l Hfuel; (destruct fuel as [|fuel]; [lia|]).
  - rewrite scan_loop_S. cbn [app encode_log mbind list_bind]. by rewrite Htail.
  - rewrite scan_loop_S, encode_log_cons, <-app_assoc, decode_encoded by done.
    rewrite IH by (cbn [length] in Hfuel; lia). rewrite last_cons. by destruct (last rs).
Qed.

Lemma read_loop_log base rs tail i k r fuel :
  log_ok base rs → rs !! k = Some r → (i ≤ k)%nat → (k - i < fuel)%nat →
  read_loop fuel (encode_log (drop i rs) ++ tail) (base + Z.of_nat k) = Ok r.
Proof.
  intros Hlog Hk. revert i. induction fuel as [|fuel IH]; intros i Hik Hfuel; [lia|].
  pose proof (lookup_lt_Some _ _ _ Hk).
  destruct (drop i rs) as [|r' rs'] eqn:Hd.
  { apply (f_equal length) in Hd. rewrite length_drop in Hd. simpl in Hd. lia. }
  destruct (log_ok_lookup_drop _ _ _ _ _ Hlog Hd) as (Ho & Hok & Hd').
  rewrite read_loop_S, encode_log_cons, <-app_assoc, decode_encoded by done.
  rewrite outcome_bind_Ok. rewrite Ho.
  destruct (decide (i = k)) as [->|Hne].
  - rewrite Z.eqb_refl. rewrite <-(Nat.add_0_r k), <-lookup_drop, Hd in Hk. by simplify_eq/=.
  - rewrite (proj2 (Z.eqb_neq _ _)), (proj2 (Z.ltb_ge _ _)) by lia.
    rewrite <-Hd'. apply IH; lia.
Qed.

(** A read of an offset past the records fails as the bytes after them do. *)
Lemma read_loop_tail base rs tail e i k fuel :
  log_ok base rs → DiskRecord_decode tail = Err e → (length rs ≤ k)%nat →
  (length rs - i < fuel)%nat →
  read_loop fuel (encode_log (drop i rs) ++ tail) (base + Z.of_nat k) = Err e.
Proof.
  intros Hlog Htail Hk. revert i. induction fuel as [|fuel IH]; intros i Hfuel; [lia|].
  rewrite read_loop_S. destruct (drop i rs) as [|r rs'] eqn:Hd.
  { cbn [app encode_log mbind list_bind]. by rewrite Htail. }
  assert (i < length rs)%nat.
  { apply (f_equal length) in Hd. rewrite length_drop in Hd. simpl in Hd. lia. }
  destruct (log_ok_lookup_drop _ _ _ _ _ Hlog Hd) as (Ho & Hok & Hd').
  rewrite encode_log_cons, <-app_assoc, decode_encoded by done. rewrite outcome_bind_Ok.
  rewrite Ho, (proj2 (Z.eqb_neq _ _)), (proj2 (Z.ltb_ge _ _)), <-Hd' by lia. apply IH. lia.
Qed.

Lemma batch_loop_log base rs tail i k fuel max acc e :
  log_ok base rs → DiskRecord_decode tail = Err e →
  (length rs - i < fuel)%nat → (length acc ≤ Z.to_nat max)%nat →
  batch_loop fuel (encode_log (drop i rs) ++ tail) (base + Z.of_nat k) max acc =
    Ok (take (Z.to_nat max) (acc ++ drop (i `max` k) rs)).
Proof.
  intros Hlog Htail. revert i acc. induction fuel as [|fuel IH]; intros i acc Hfuel Hacc; [lia|].
  rewrite batch_loop_S. destruct (Z.ltb_spec (Z.of_nat (length acc)) max); cycle 1.
  { rewrite take_app_le, take_ge by lia. done. }
  destruct (drop i rs) as [|r rs'] eqn:Hd.
  { cbn [app encode_log mbind list_bind]. rewrite Htail.
    assert (length rs ≤ i)%nat.
    { apply (f_equal length) in Hd. rewrite length_drop in Hd. simpl in Hd. lia. }
    rewrite (drop_ge rs), app_nil_r, take_ge by lia. done. }
  destruct (log_ok_lookup_drop _ _ _ _ _ Hlog Hd) as (Ho & Hok & Hd').
  assert (i < length rs)%nat.
  { apply (f_equal length) in Hd. rewrite length_drop in Hd. simpl in Hd. lia. }
  rewrite encode_log_cons, <-app_assoc, decode_encoded by done.
  rewrite Ho, <-Hd'. destruct (Z.leb_spec (base + Z.of_nat k) (base + Z.of_nat i)).
  - rewrite IH by (rewrite ?length_app; cbn [length]; lia). do 2 f_equal.
    replace (S i `max` k)%nat with (S i) by lia. replace (i `max` k)%nat with i by lia.
    by rewrite Hd, Hd', <-app_assoc.
  - rewrite IH by lia. by replace (S i `max` k)%nat with (i `max` k)%nat by lia.
Qed.

(** Every turn that goes on consumes bytes, whatever they are. *)
Lemma scan_turn_consumes s s' : scan_turn s = inr s' → (length s'.1 < length s.1)%nat.
Proof.
  destruct s as [cursor l]. unfold scan_turn.
  destruct (DiskRecord_decode cursor) as [[r c]|e|] eqn:E; [|done|done]. intros [= <-].
  apply decode_consumes in E. cbn [fst]. lia.
Qed.
Lemma read_turn_consumes o cursor cursor' : read_turn o cursor = inr cursor' → (length cursor' < length cursor)%nat.
Proof.
  unfold read_turn. destruct (DiskRecord_decode cursor) as [[r c]|e|] eqn:E; [|done|done].
  apply decode_consumes in E. destruct (_ =? _); [done|]. destruct (_ <? _); [done|].
  intros [= <-]. lia.
Qed.
Lemma batch_turn_consumes o max s s' : batch_turn o max s = inr s' → (length s'.1 < length s.1)%nat.
Proof.
  destruct s as [cursor acc]. unfold batch_turn. destruct (_ <? _); [|done].
  destruct (DiskRecord_decode cursor) as [[r c]|e|] eqn:E; [|done|done].
  apply decode_consumes in E. destruct (_ <=? _); intros [= <-]; cbn [fst]; lia.
Qed.

(** What a segment holds in memory: a mapping of the records [rs] with a [tail] after
    them that is no record, and an index of the records. *)
Record segment_view (seg : LogSegment) (rs : list DiskRecord) (tail : bytes) : Prop := {
  sv_mmap : seg_mmap seg = Some (encode_log rs ++ tail);
  sv_tail : ∃ e, DiskRecord_decode tail = Err e;
  sv_log : log_ok (seg_base_offset seg) rs;
  sv_index : ∃ es, index_view (seg_index seg) es ∧ index_ok (seg_base_offset seg) rs es;
}.

Lemma LogSegment_inv_view d seg rs es :
  LogSegment_inv d seg rs es → rs ≠ [] → segment_view seg rs [].
Proof.
  intros [[] Hmm _] Hne. split; [|by destruct decode_nil as [e He]; eexists|done|by eexists; split; [eapply OffsetIndex_inv_view|]].
  by rewrite Hmm, decide_False, app_nil_r.
Qed.

(** The reader a lookup gives starts at a record not beyond the target. *)
Lemma LogSegment_cursor_spec seg rs tail k :
  segment_view seg rs tail →
  ∃ i, (i ≤ k)%nat ∧
    LogSegment_cursor seg (seg_base_offset seg + Z.of_nat k) = Ok (encode_log (drop i rs) ++ tail).
Proof.
  intros [Hmm _ _ (es & Hix & Hiok)]. unfold LogSegment_cursor.
  rewrite Hmm. cbn [ok_or].
  rewrite outcome_bind_Ok, (lookup_view _ _ _ Hix), outcome_bind_Ok.
  destruct (index_floor es _) as [p|] eqn:Hfl.
  - unfold index_floor in Hfl. apply fmap_Some in Hfl as (e & Hl & ->).
    apply last_Some_elem_of, list_elem_of_filter in Hl as [Hle Hin].
    unfold index_ok in Hiok.
    rewrite Forall_forall in Hiok. destruct (Hiok e Hin) as (i & Hi & ->).
    cbn [fst snd default] in *. exists i. split; [lia|]. unfold slice_from, pos_of, id.
    assert (length (encode_log (take i rs)) ≤ length (encode_log rs))%nat.
    { rewrite <-(take_drop i rs) at 2. rewrite encode_log_app, length_app. lia. }
    rewrite length_app, (proj2 (Z.ltb_ge _ _)), Nat2Z.id, drop_app_le, drop_encode_log by lia.
    done.
  - exists 0%nat. split; [lia|]. unfold slice_from. cbn [default].
    rewrite (proj2 (Z.ltb_ge _ _)) by lia. done.
Qed.

Lemma segment_view_fuel seg rs tail i :
  segment_view seg rs tail → (length rs - i < S (length (encode_log (drop i rs) ++ tail)))%nat.
Proof.
  intros Hv. pose proof (encode_log_fuel (drop i rs) tail (Forall_drop _ _ _ (proj1 (sv_log _ _ _ Hv)))) as Hf.
  rewrite length_drop in Hf. lia.
Qed.

Lemma LogSegment_read_view seg rs tail k r :
  segment_view seg rs tail → rs !! k = Some r →
  seg_base_offset seg + Z.of_nat k < seg_next_offset seg →
  LogSegment_read seg (seg_base_offset seg + Z.of_nat k) = Ok r.
Proof.
  intros Hv Hr Hk. unfold LogSegment_read. pose proof (lookup_lt_Some _ _ _ Hr).
  rewrite (proj2 (Z.ltb_ge _ _)), (proj2 (Z.leb_gt _ _)) by lia.
  destruct (LogSegment_cursor_spec _ _ _ k Hv) as (i & Hi & ->).
  rewrite outcome_bind_Ok. pose proof (segment_view_fuel _ _ _ i Hv).
  apply (read_loop_log _ rs); [apply Hv|done|done|lia].
Qed.

Lemma LogSegment_read_batch_view seg rs tail k max :
  segment_view seg rs tail → seg_base_offset seg + Z.of_nat (length rs) ≤ seg_next_offset seg →
  LogSegment_read_batch seg (seg_base_offset seg + Z.of_nat k) max =
    Ok (take (Z.to_nat max) (drop k rs)).
Proof.
  intros Hv Hn. unfold LogSegment_read_batch. rewrite (proj2 (Z.ltb_ge _ _)) by lia.
  destruct (Z.leb_spec (seg_next_offset seg) (seg_base_offset seg + Z.of_nat k)) as [Hk|Hk].
  { by rewrite drop_ge, take_nil by lia. }
  destruct (LogSegment_cursor_spec _ _ _ k Hv) as (i & Hi & ->).
  rewrite outcome_bind_Ok. pose proof (segment_view_fuel _ _ _ i Hv).
  destruct (sv_tail _ _ _ Hv) as [e He].
  rewrite (batch_loop_log _ rs tail i k _ max [] e); [|apply Hv|done|done|simpl; lia].
  by replace (i `max` k)%nat with k by lia.
Qed.

Lemma LogSegment_read_aux d seg rs es offset :
  LogSegment_inv d seg rs es →
  LogSegment_read seg offset =
    if decide (seg_base_offset seg ≤ offset) then
      ok_or (InvalidOffset offset) (rs !! Z.to_nat (offset - seg_base_offset seg))
    else Err (InvalidOffset offset).
Proof.
  intros Hinv. pose proof (sm_next _ _ _ _ (si_mid _ _ _ _ Hinv)) as Hnext.
  case_decide; [|unfold LogSegment_read; by rewrite (proj2 (Z.ltb_lt _ _)) by lia].
  destruct (Z_of_nat_complete (offset - seg_base_offset seg)) as [k Hk]; [lia|].
  rewrite Hk, Nat2Z.id. assert (offset = seg_base_offset seg + Z.of_nat k) as -> by lia.
  destruct (rs !! k) as [r|] eqn:Hr; cbn [ok_or].
  - pose proof (lookup_lt_Some _ _ _ Hr). eapply LogSegment_read_view; [|done|lia].
    eapply LogSegment_inv_view; [done|]. by intros ->.
  - apply lookup_ge_None_1 in Hr. unfold LogSegment_read.
    rewrite (proj2 (Z.ltb_ge _ _)), (proj2 (Z.leb_le _ _)) by lia. done.
Qed.

Lemma LogSegment_read_batch_aux d seg rs es start max :
  LogSegment_inv d seg rs es →
  LogSegment_read_batch seg start max =
    if decide (seg_base_offset seg ≤ start) then
      Ok (take (Z.to_nat max) (drop (Z.to_nat (start - seg_base_offset seg)) rs))
    else Err (InvalidOffset start).
Proof.
  intros Hinv. pose proof (sm_next _ _ _ _ (si_mid _ _ _ _ Hinv)) as Hnext.
  case_decide; [|unfold LogSegment_read_batch; by rewrite (proj2 (Z.ltb_lt _ _)) by lia].
  destruct (Z_of_nat_complete (start - seg_base_offset seg)) as [k Hk]; [lia|].
  rewrite Hk, Nat2Z.id. assert (start = seg_base_offset seg + Z.of_nat k) as -> by lia.
  destruct (decide (k < length rs)%nat) as [Hlt|Hge].
  - eapply LogSegment_read_batch_view; [|lia].
    eapply LogSegment_inv_view; [done|]. intros ->. simpl in Hlt. lia.
  - rewrite drop_ge, take_nil by lia. unfold LogSegment_read_batch.
    rewrite (proj2 (Z.ltb_ge _ _)), (proj2 (Z.leb_le _ _)) by lia. done.
Qed.

(** ** Creating and opening *)
Lemma segment_paths_ne dir b b' :
  is_u64 b → is_u64 b' → LogSegment_log_path dir b ≠ LogSegment_index_path dir b'.
Proof.
  unfold LogSegment_log_path, LogSegment_index_path. intros Hb Hb' Heq%path_join_inj.
  apply (f_equal (rsplit_once "."%char)) in Heq. by rewrite !rsplit_once_app in Heq.
Qed.
Lemma log_path_inj dir b b' :
  is_u64 b → is_u64 b' → LogSegment_log_path dir b = LogSegment_log_path dir b' → b = b'.
Proof.
  unfold LogSegment_log_path. intros Hb Hb' Heq%path_join_inj.
  apply (f_equal (rsplit_once "."%char)) in Heq. rewrite !rsplit_once_app in Heq by done.
  apply fmt_dec20_inj; [done|done|congruence].
Qed.
Lemma index_path_inj dir b b' :
  is_u64 b → is_u64 b' → LogSegment_index_path dir b = LogSegment_index_path dir b' → b = b'.
Proof.
  unfold LogSegment_index_path. intros Hb Hb' Heq%path_join_inj.
  apply (f_equal (rsplit_once "."%char)) in Heq. rewrite !rsplit_once_app in Heq by done.
  apply fmt_dec20_inj; [done|done|congruence].
Qed.

(** The segment is where its base offset says. *)
Definition segment_at (dir : path) (config : SegmentConfig) (base : Z) (seg : LogSegment) : Prop :=
  seg_base_offset seg = base ∧ seg_config seg = config ∧
  seg_log_path seg = LogSegment_log_path dir base ∧
  seg_index_path seg = LogSegment_index_path dir base.

Lemma segment_at_dir dir config base seg :
  segment_at dir config base seg → Forall (λ q, parent q = dir) (segment_files seg).
Proof.
  intros (_ & _ & Hl & Hx). unfold segment_files. rewrite Hl, Hx.
  unfold LogSegment_log_path, LogSegment_index_path. by rewrite !Forall_cons, !parent_join.
Qed.

Lemma LogSegment_create_fresh d dir base config :
  is_u64 base → is_u32 (sc_index_interval config) → dir ∈ dirs d →
  files d !! LogSegment_log_path dir base = None →
  files d !! LogSegment_index_path dir base = None →
  ∃ d' seg, LogSegment_create base dir config d = (d', Ok seg) ∧
    segment_at dir config base seg ∧ LogSegment_inv d' seg [] [] ∧
    cursor_at_end (seg_index seg) [] ∧ disk_frame (segment_files seg) d d'.
Proof.
  intros Hb Hi Hdir Hl Hx. pose proof (segment_paths_ne dir base base Hb Hb) as Hne.
  unfold LogSegment_create, open_create, mbind, eff_bind. rewrite Hl.
  rewrite decide_True by (unfold LogSegment_log_path; by rewrite parent_join).
  set (d1 := set_content d _ []).
  destruct (OffsetIndex_create_fresh d1 (LogSegment_index_path dir base)) as (d2 & ix & -> & -> & Hp & Hix & Hcur).
  { unfold d1. by rewrite files_set_ne. }
  { unfold LogSegment_index_path. by rewrite parent_join. }
  eexists _, _. split; [reflexivity|]. cbn_seg. split; [done|]. split; [split; [split; cbn_seg|..]|split].
  - done.
  - done.
  - done.
  - rewrite files_set_ne by done. apply files_set.
  - simpl. lia.
  - apply log_ok_nil.
  - unfold is_u64 in Hb. split_and!; simpl; lia.
  - done.
  - constructor.
  - done.
  - lia.
  - done.
  - done.
  - done.
  - transitivity d1; apply disk_frame_set; unfold segment_files; cbn_seg; [by left|right; by left].
Qed.

Lemma scan_for_next_offset_log d f base rs tail e :
  log_ok base rs → log_fits base rs → (encode_log rs ++ tail ≠ [] → base + 1 < 2 ^ 64) →
  file_content d (f_path f) = encode_log rs ++ tail → DiskRecord_decode tail = Err e →
  LogSegment_scan_for_next_offset d f base =
    Ok (if decide (encode_log rs ++ tail = []) then base
        else base + Z.of_nat (Nat.max 1 (length rs))).
Proof.
  intros [Hok Hoff] (Hb & Hf & _) Hb1 Hc Htail. unfold LogSegment_scan_for_next_offset, file_len, mmap_map.
  rewrite Hc. case_decide as Hnil; [by rewrite Hnil|]. specialize (Hb1 Hnil).
  rewrite (proj2 (Z.eqb_neq _ _)) by (destruct (encode_log rs ++ tail); simpl; [done|lia]).
  rewrite (scan_loop_log _ _ _ _ e); [|done|done|].
  2: { pose proof (encode_log_fuel rs tail Hok). lia. }
  rewrite outcome_bind_Ok. f_equal.
  destruct (last rs) as [r|] eqn:Hl.
  - rewrite last_lookup in Hl. pose proof (lookup_lt_Some _ _ _ Hl).
    cbn [fmap option_fmap option_map default]. unfold id. rewrite (Hoff _ _ Hl).
    rewrite w64_small by (unfold is_u64; lia). lia.
  - apply last_None in Hl as ->. simpl. rewrite w64_small by (unfold is_u64; lia). done.
Qed.

Lemma LogSegment_open_aux d dir base config rs tail ix e :
  is_u64 base → (encode_log rs ++ tail ≠ [] → base + 1 < 2 ^ 64) →
  files d !! LogSegment_log_path dir base = Some (encode_log rs ++ tail) →
  OffsetIndex_open (LogSegment_index_path dir base) d = (d, Ok ix) →
  log_ok base rs → log_fits base rs → DiskRecord_decode tail = Err e →
  ∃ seg, LogSegment_open base dir config d = (d, Ok seg) ∧
    segment_at dir config base seg ∧
    f_path (seg_log_file seg) = LogSegment_log_path dir base ∧ seg_index seg = ix ∧
    seg_mmap seg = (if decide (encode_log rs ++ tail = []) then None
                    else Some (encode_log rs ++ tail)) ∧
    seg_size seg = Z.of_nat (length (encode_log rs ++ tail)) ∧
    seg_next_offset seg = (if decide (encode_log rs ++ tail = []) then base
                           else base + Z.of_nat (Nat.max 1 (length rs))) ∧
    seg_records_since_index seg = 0.
Proof.
  intros Hb Hb1 Hl Hx Hlog Hfits Htail.
  unfold LogSegment_open, open_existing at 1, mbind, eff_bind. rewrite Hl. cbn [eff_get]. rewrite Hx.
  set (f := {| f_path := _; f_pos := 0 |}).
  assert (file_content d (f_path f) = encode_log rs ++ tail) as Hc.
  { unfold file_content, f. cbn [f_path]. by rewrite Hl. }
  unfold eff_lift, file_len, mmap_map.
  rewrite (scan_for_next_offset_log _ _ _ _ _ _ Hlog Hfits Hb1 Hc Htail), Hc.
  eexists. split; [reflexivity|]. cbn_seg. split_and!; try done.
  case_decide as Hnil; [by rewrite Hnil|].
  rewrite (proj2 (Z.ltb_lt _ _)); [done|]. destruct (encode_log rs ++ tail); [done|]. simpl. lia.
Qed.

(** Opening only reads. *)
Lemma LogSegment_open_disk b dir config d : (LogSegment_open b dir config d).1 = d.
Proof.
  unfold LogSegment_open, OffsetIndex_open, open_existing, eff_get, eff_lift,
    mbind, eff_bind, mret, eff_ret. by repeat (case_match; simplify_eq/=).
Qed.

(** Opening the files of a segment gives the segment back, but for the cursor of its
    index. *)
Lemma LogSegment_reopen d dir base config seg rs es :
  segment_at dir config base seg → LogSegment_inv d seg rs es →
  ∃ seg', LogSegment_open base dir config d = (d, Ok seg') ∧
    segment_at dir config base seg' ∧ LogSegment_inv d seg' rs es ∧
    index_room seg' es (Z.to_nat (sc_index_interval config)).
Proof.
  intros (Hb & Hcfg & Hl & Hx) [[] Hmm Hsz]. rewrite Hb in *. rewrite Hcfg in *.
  destruct decode_nil as [e He]. pose proof sm_index0 as [Hxc Hxm Hxs Hxw Hxo].
  rewrite sm_index_path0, Hx in Hxc. rewrite Hl in sm_content0.
  pose proof sm_fits0 as (Hf1 & Hf2 & Hf3).
  destruct (OffsetIndex_open_inv d _ es Hxc Hxw Hxo) as (ix & Hopen & Hxp & Hpos & Hix).
  destruct (LogSegment_open_aux d dir base config rs [] ix (Storage e))
    as (seg' & Ho & Hat & Hlp & Heq & Hmm' & Hsz' & Hn & Hsi);
    rewrite ?app_nil_r in *; [unfold is_u64; lia| |done..|].
  { intros Hne. destruct rs; [done|]. cbn [length] in Hf2. lia. }
  rewrite (decide_ext _ (rs = [])) in Hmm' by (apply encode_log_nil_iff, sm_log0).
  rewrite (decide_ext _ (rs = [])) in Hn by (apply encode_log_nil_iff, sm_log0).
  pose proof Hat as (Hb' & Hcfg' & Hl' & Hx'). rewrite <-Heq in Hxp, Hpos, Hix.
  exists seg'. split; [done|]. split; [done|]. split; [split; [split|done|done]|].
  - by rewrite Hl'.
  - by rewrite Hx'.
  - by rewrite Hl', Hx', <-Hl, <-Hx.
  - by rewrite Hl'.
  - rewrite Hn, Hb'. case_decide as Hnil; [subst rs; simpl; lia|].
    destruct rs; [done|]. cbn [length]. lia.
  - by rewrite Hb'.
  - by rewrite Hb'.
  - done.
  - by rewrite Hb'.
  - by rewrite Hcfg'.
  - rewrite Hsi. lia.
  - right. unfold is_u32 in *. rewrite Hsi, Hcfg'. lia.
Qed.

(** ** A failed append *)
Lemma LogSegment_append_error_aux d seg rs es ms1 m ms2 e :
  let new := new_records (seg_config seg) (seg_next_offset seg) ms1 in
  LogSegment_inv d seg rs es →
  Forall record_ok new → log_fits (seg_base_offset seg) (rs ++ new) →
  index_room seg es (length ms1) →
  DiskRecord_encode
    (make_record (seg_config seg) (seg_next_offset seg + Z.of_nat (length ms1)) m) = Err e →
  ∃ d' seg' es',
    LogSegment_append (ms1 ++ m :: ms2) (d, seg) = ((d', seg'), Err e) ∧
    segment_mid d' seg' (rs ++ new) es' ∧
    seg_size seg' = seg_size seg ∧ seg_mmap seg' = seg_mmap seg.
Proof.
  intros new [Hmid Hmm Hsz] Hnew Hfit Hroom Henc.
  destruct (segment_seek_end _ _ _ _ Hmid) as [Hmid1 Hpos1].
  set (seg1 := seg_set_log_file _ seg) in *.
  destruct (append_loop_spec ms1 d seg1 rs es) as (d2 & seg2 & es2 & Happ & Hmid2 & Hpos2 & Hsame & Hfr & Hroom2);
    [done..|].
  pose proof (append_loop_keeps ms1 (seg_size seg1) (d, seg1)) as Hkeep.
  unfold LogSegment_append. rewrite decide_False by (by destruct ms1).
  unfold eff_get, eff_put, eff_modify, mbind, eff_bind, mret, eff_ret. fold seg1.
  rewrite append_loop_app. unfold mbind, eff_bind. change (seg_size seg1) with (seg_size seg) in Hkeep.
  rewrite Hsz in Hkeep |- *. rewrite Happ in Hkeep |- *. cbn [append_loop].
  unfold append_message, eff_get, eff_lift, mbind, eff_bind.
  destruct Hsame as (Hb & _ & _ & Hcfg).
  assert (seg_next_offset seg2 = seg_next_offset seg + Z.of_nat (length ms1)) as ->.
  { rewrite (sm_next _ _ _ _ Hmid2), (sm_next _ _ _ _ Hmid), Hb, length_app, length_new_records.
    cbn [seg1 seg_set_log_file seg_base_offset]. lia. }
  rewrite Hcfg. change (seg_config seg1) with (seg_config seg). rewrite Henc.
  exists d2, seg2, es2. split; [reflexivity|]. split; [done|].
  destruct Hkeep as [Hk1 Hk2]. split; [|exact Hk2]. etrans; [exact Hk1|exact Hsz].
Qed.

End segment_facts.

(** ** Properties *)
Section segment_properties.
Context `{Crc32Laws} `{CompressionLaws}.

(** C21: an append to a segment, under the two conditions it needs: its records can be
    encoded within the 64-bit offsets and sizes, and its index can take them, which means
    that the cursor of the index is at its end (so it is when this process created it) or
    that no entry is due yet (an index that was opened again would be overwritten).  It
    writes one record per message, with consecutive offsets from the next offset on,
    returns the first of them, keeps the invariant of the segment (file, mapping, size,
    next offset and index agree with the list of records), touches no other file, and
    leaves room in the index for as many more records as there was room for beyond these:
    without limit in a segment that this process created. *)
Theorem LogSegment_append_spec d seg rs es ms :
  let new := new_records (seg_config seg) (seg_next_offset seg) ms in
  LogSegment_inv d seg rs es → ms ≠ [] →
  Forall record_ok new → log_fits (seg_base_offset seg) (rs ++ new) →
  index_room seg es (length ms) →
  ∃ d' seg' es',
    LogSegment_append ms (d, seg) = ((d', seg'), Ok (seg_next_offset seg)) ∧
    LogSegment_inv d' seg' (rs ++ new) es' ∧
    (∀ n, index_room seg es (length ms + n) → index_room seg' es' n) ∧
    (cursor_at_end (seg_index seg) es → cursor_at_end (seg_index seg') es') ∧
    same_segment seg seg' ∧ disk_frame (segment_files seg) d d'.
Proof.
  intros new Hinv Hne Hnew Hfit Hroom.
  destruct (LogSegment_append_aux d seg rs es ms) as (d' & seg' & es' & ?&Hinv'&?&?&Hr); [done..|].
  exists d', seg', es'. split; [done|]. split; [done|]. split; [done|]. split; [|done].
  intros Hcur. destruct (Hr (S (Z.to_nat (sc_index_interval (seg_config seg'))))) as [?|Hle];
    [by left|done|].
  pose proof (sm_since _ _ _ _ (si_mid _ _ _ _ Hinv')). lia.
Qed.

(** C22: reading an offset gives the record stored there, and [InvalidOffset] for every
    other offset: the index is only a shortcut, the scan always ends and never fails on
    the way. *)
Theorem LogSegment_read_spec d seg rs es offset :
  LogSegment_inv d seg rs es →
  LogSegment_read seg offset =
    if decide (seg_base_offset seg ≤ offset) then
      ok_or (InvalidOffset offset) (rs !! Z.to_nat (offset - seg_base_offset seg))
    else Err (InvalidOffset offset).
Proof. apply LogSegment_read_aux. Qed.

(** C23: a batch read is the slice of at most [max] records from the start offset on, in order,
    empty past the end, and [InvalidOffset] before the base of the segment: neither the
    index nor the scan shows. *)
Theorem LogSegment_read_batch_spec d seg rs es start max :
  LogSegment_inv d seg rs es →
  LogSegment_read_batch seg start max =
    if decide (seg_base_offset seg ≤ start) then
      Ok (take (Z.to_nat max) (drop (Z.to_nat (start - seg_base_offset seg)) rs))
    else Err (InvalidOffset start).
Proof. apply LogSegment_read_batch_aux. Qed.

(** C24: recovery. A segment whose files hold the records from its base on, an index of
    them, and after the records bytes that are no record (a torn write), opens without
    touching the disk and serves exactly the complete records, one by one and in batches;
    the next offset follows them, except that with no complete record at all it is one more
    than the base. Offsets and sizes fit 64 bits. *)
Theorem LogSegment_open_recovers d dir base config rs tail es e :
  is_u64 base → base + 1 < 2 ^ 64 →
  files d !! LogSegment_log_path dir base = Some (encode_log rs ++ tail) →
  files d !! LogSegment_index_path dir base = Some (encode_entries es) →
  log_ok base rs → log_fits base rs → DiskRecord_decode tail = Err e → tail ≠ [] →
  Forall entry_wf es → StronglySorted entry_lt es → index_ok base rs es →
  ∃ seg, LogSegment_open base dir config d = (d, Ok seg) ∧
    seg_next_offset seg = base + Z.of_nat (Nat.max 1 (length rs)) ∧
    (∀ k r, rs !! k = Some r → LogSegment_read seg (base + Z.of_nat k) = Ok r) ∧
    (∀ k max,
      LogSegment_read_batch seg (base + Z.of_nat k) max = Ok (take (Z.to_nat max) (drop k rs))).
Proof.
  intros Hb Hb1 Hl Hx Hlog Hfits Htail Hne Hwf Hs Hiok.
  destruct (OffsetIndex_open_inv d _ es Hx Hwf Hs) as (ix & Hopen & _ & _ & Hix).
  destruct (LogSegment_open_aux d dir base config rs tail ix e)
    as (seg & Ho & Hat & _ & Heq & Hmm & _ & Hn & _); [done..|]. subst ix.
  assert (encode_log rs ++ tail ≠ []) as Hnil by (intros [_ ?]%app_nil; done).
  rewrite decide_False in Hmm by done. rewrite decide_False in Hn by done.
  destruct Hat as [Hbase _].
  assert (segment_view seg rs tail) as Hv.
  { split; [done|by eexists|by rewrite Hbase|]. exists es. rewrite Hbase.
    split; [by eapply OffsetIndex_inv_view|done]. }
  exists seg. split_and!; [done|done| |].
  - intros k r Hk. pose proof (lookup_lt_Some _ _ _ Hk). rewrite <-Hbase.
    eapply LogSegment_read_view; [done|done|lia].
  - intros k max. rewrite <-Hbase. eapply LogSegment_read_batch_view; [done|lia].
Qed.

(** An append that fails on a message leaves the records before it in the file and
    counted by the next offset, but not in the size or in the mapping: the segment is no
    longer consistent with its file. *)
Theorem LogSegment_append_error d seg rs es ms1 m ms2 e :
  let new := new_records (seg_config seg) (seg_next_offset seg) ms1 in
  LogSegment_inv d seg rs es →
  Forall record_ok new → log_fits (seg_base_offset seg) (rs ++ new) →
  index_room seg es (length ms1) →
  DiskRecord_encode
    (make_record (seg_config seg) (seg_next_offset seg + Z.of_nat (length ms1)) m) = Err e →
  ∃ d' seg' es',
    LogSegment_append (ms1 ++ m :: ms2) (d, seg) = ((d', seg'), Err e) ∧
    segment_mid d' seg' (rs ++ new) es' ∧
    seg_size seg' = seg_size seg ∧ seg_mmap seg' = seg_mmap seg.
Proof. apply LogSegment_append_error_aux. Qed.

(** C25: termination.  On every content of the file, corrupt ones included, each of the
    three loops of a segment (the scan for the next offset, the search of [read], the
    collection of [read_batch]) ends after at most one turn per byte and one more: run
    without fuel, it ends in the result that the operations compute with theirs. *)
Theorem segment_scans_end cursor offset max last_offset :
  let fuel := S (length cursor) in
  (∃ n, (n ≤ fuel)%nat ∧
    loop_ends scan_turn n (cursor, last_offset) (scan_loop fuel cursor last_offset)) ∧
  (∃ n, (n ≤ fuel)%nat ∧ loop_ends (read_turn offset) n cursor (read_loop fuel cursor offset)) ∧
  (∃ n, (n ≤ fuel)%nat ∧
    loop_ends (batch_turn offset max) n (cursor, []) (batch_loop fuel cursor offset max [])).
Proof.
  cbv zeta. split_and!.
  - apply (run_loop_ends scan_turn (length ∘ fst) Panic _ (cursor, last_offset));
      [apply scan_turn_consumes|simpl; lia].
  - apply (run_loop_ends (read_turn offset) length Panic _ cursor); [apply read_turn_consumes|lia].
  - apply (run_loop_ends (batch_turn offset max) (length ∘ fst) Panic _ (cursor, []));
      [apply batch_turn_consumes|simpl; lia].
Qed.
End segment_properties.
