(* ===== verification/Partition.v ===== *)
(** * Partition: a log over several segments

    [storage/src/partition.rs].  A partition appends to its last segment, rotates it when
    it is full, and fetches across segments.  The lock on the list of segments is held for
    the whole of an append and of a fetch. *)
From Stdlib Require Import Ascii.
From S2P Require Import Prelude Bytes Text Common Messages Compression DiskRecord FileSystem.
From S2P Require Import OffsetIndex Retention Segment.

Record Partition : Type := {
  pt_partition_id : Z;
  pt_topic_name : string;
  pt_data_dir : path;
  pt_segments : list LogSegment;
  pt_config : SegmentConfig;
}.

Definition pt_set_segments (segs : list LogSegment) (p : Partition) : Partition :=
  {| pt_partition_id := pt_partition_id p; pt_topic_name := pt_topic_name p;
     pt_data_dir := pt_data_dir p; pt_segments := segs; pt_config := pt_config p |}.

Definition partition_dir (data_dir : path) (topic : string) (partition_id : Z) : path :=
  path_join (path_join data_dir topic) ("partition-" +:+ fmt_dec partition_id).

(** An operation of the disk, in a computation that has more state. *)
Definition on_disk {S A} (m : Method disk A) : Method (disk * S) A := λ '(d, s),
  let '(d, r) := m d in ((d, s), r).

Definition Partition_with_config
    (topic_name : string) (partition_id : Z) (data_dir : path) (config : SegmentConfig)
    : Method disk Partition :=
  let dir := partition_dir data_dir topic_name partition_id in
  _ ← eff_modify (λ d, create_dir_all d dir);
  segment ← LogSegment_create 0 dir config;
  mret {| pt_partition_id := partition_id; pt_topic_name := topic_name; pt_data_dir := dir;
          pt_segments := [segment]; pt_config := config |}.
Definition Partition_new (topic_name : string) (partition_id : Z) (data_dir : path)
    : Method disk Partition :=
  Partition_with_config topic_name partition_id data_dir SegmentConfig_default.

(** The base offset in the name of a log file. *)
Definition log_file_offset (name : string) : option Z :=
  match rsplit_once "."%char name with
  | Some (stem, ext) =>
      if decide (stem ≠ EmptyString ∧ ext = "log") then parse_u64 stem else None
  | None => None
  end.

(** [sort_unstable] on integers. *)
Definition sort_Z : list Z → list Z := merge_sort Z.le.

Definition Partition_next_offset (p : Partition) : Z :=
  match last (pt_segments p) with Some seg => seg_next_offset seg | None => 0 end.

(** The binary search; the interval shrinks at each turn, as in [OffsetIndex]. *)
Fixpoint find_loop (fuel : nat) (segments : list LogSegment) (offset : Z) (left right : nat)
    : Result nat :=
  match fuel with
  | O => Panic
  | S fuel =>
      if (left <? right)%nat then
        let mid := ((left + right) / 2)%nat in
        match segments !! mid with
        | Some seg =>
            if seg_base_offset seg <=? offset
            then find_loop fuel segments offset (mid + 1) right
            else find_loop fuel segments offset left mid
        | None => Panic
        end
      else Ok left
  end.

Definition Partition_find_segment_index (segments : list LogSegment) (offset : Z) : Result nat :=
  left ← find_loop (S (length segments)) segments offset 0 (length segments);
  if (0 <? left)%nat then Ok (left - 1)%nat else Err (InvalidOffset offset).

(** The record of the protocol for a record on disk. *)
Definition to_record (p : Partition) (r : DiskRecord) : Record_ :=
  {| rec_topic := pt_topic_name p; rec_partition := pt_partition_id p;
     rec_offset := dr_offset r; rec_message := DiskRecord_to_message r |}.

Section partition.
Context `{Crc32} `{CompressionLib}.

Fixpoint open_segments (offsets : list Z) (dir : path) (config : SegmentConfig)
    : Method disk (list LogSegment) :=
  match offsets with
  | [] => mret []
  | base_offset :: offsets =>
      segment ← LogSegment_open base_offset dir config;
      segments ← open_segments offsets dir config;
      mret (segment :: segments)
  end.

Definition Partition_open_with_config
    (topic_name : string) (partition_id : Z) (data_dir : path) (config : SegmentConfig)
    : Method disk Partition :=
  let dir := partition_dir data_dir topic_name partition_id in
  d ← eff_get;
  names ← eff_lift (read_dir d dir);
  let segment_base_offsets := omap log_file_offset names in
  if decide (segment_base_offsets = []) then
    eff_lift (Err (Storage ("No segments found in partition directory: " +:+
                            String.concat "/" dir)))
  else
    segments ← open_segments (sort_Z segment_base_offsets) dir config;
    mret {| pt_partition_id := partition_id; pt_topic_name := topic_name; pt_data_dir := dir;
            pt_segments := segments; pt_config := config |}.
Definition Partition_open (topic_name : string) (partition_id : Z) (data_dir : path)
    : Method disk Partition :=
  Partition_open_with_config topic_name partition_id data_dir SegmentConfig_default.

(** A method of the last segment, [segments.last().unwrap()]. *)
Definition on_active {A} (m : Method (disk * LogSegment) A) : Method (disk * Partition) A :=
  λ '(d, p),
    match last (pt_segments p) with
    | None => ((d, p), Panic)
    | Some seg =>
        let '((d, seg), r) := m (d, seg) in
        ((d, pt_set_segments (<[length (pt_segments p) - 1 := seg]> (pt_segments p))%nat p), r)
    end.

Definition Partition_append (messages : list Message) : Method (disk * Partition) Z :=
  if decide (messages = []) then eff_lift (Err (InvalidMessage "No messages to append"))
  else
    '(_, p) ← eff_get;
    active ← eff_lift (ok_or (Storage "No active segment") (last (pt_segments p)));
    _ ← (if LogSegment_should_rotate active then
           new_segment ← on_disk
             (LogSegment_create (seg_next_offset active) (pt_data_dir p) (pt_config p));
           eff_modify (λ '(d, p), (d, pt_set_segments (pt_segments p ++ [new_segment]) p))
         else mret tt);
    on_active (LogSegment_append messages).

Fixpoint fetch_loop (p : Partition) (segments : list LogSegment) (current_offset remaining : Z)
    (all_records : list Record_) : Result (list Record_) :=
  match segments with
  | [] => Ok all_records
  | segment :: segments =>
      if remaining =? 0 then Ok all_records
      else
        disk_records ← LogSegment_read_batch segment current_offset remaining;
        if decide (disk_records = []) then Ok all_records
        else
          let current_offset :=
            match last disk_records with
            | Some r => w64 (dr_offset r + 1)
            | None => current_offset
            end in
          let remaining := w32 (remaining - Z.of_nat (length disk_records)) in
          fetch_loop p segments current_offset remaining
            (all_records ++ (to_record p <$> disk_records))
  end.

Definition Partition_fetch (p : Partition) (offset max_messages : Z) : Result (list Record_) :=
  start_segment_idx ← Partition_find_segment_index (pt_segments p) offset;
  fetch_loop p (drop start_segment_idx (pt_segments p)) offset max_messages [].

End partition.

(** ** The abstract partition: one list of records

    [start] is the offset of the first of them.  All segments but the last are closed:
    they are not empty and are never written again. *)
Section partition_spec.
Context `{Crc32} `{CompressionLib}.

Fixpoint closed_inv (d : disk) (dir : path) (config : SegmentConfig) (base : Z)
    (segs : list LogSegment) (log : list DiskRecord) : Prop :=
  match segs with
  | [] => log = []
  | seg :: segs =>
      ∃ rs es log', log = rs ++ log' ∧ rs ≠ [] ∧
        segment_at dir config base seg ∧ LogSegment_inv d seg rs es ∧
        closed_inv d dir config (base + Z.of_nat (length rs)) segs log'
  end.

(** The directory holds the files of the segments, and nothing else. *)
Definition dir_exact (d : disk) (dir : path) (segs : list LogSegment) : Prop :=
  ∀ name, (path_join dir name ∉ dirs d) ∧
    (is_Some (files d !! path_join dir name) →
     ∃ s, s ∈ segs ∧ path_join dir name ∈ segment_files s).

Record partition_split (d : disk) (p : Partition) (start : Z)
    (log1 log2 : list DiskRecord) (room : nat)
    (pre : list LogSegment) (seg : LogSegment) (es : list (Z * Z)) : Prop := {
  ps_segments : pt_segments p = pre ++ [seg];
  ps_closed : closed_inv d (pt_data_dir p) (pt_config p) start pre log1;
  ps_at : segment_at (pt_data_dir p) (pt_config p) (start + Z.of_nat (length log1)) seg;
  ps_active : LogSegment_inv d seg log2 es;
  ps_room : index_room seg es room;
  ps_dir : pt_data_dir p ∈ dirs d;
  ps_exact : dir_exact d (pt_data_dir p) (pre ++ [seg]);
  ps_fits : log_fits start (log1 ++ log2);
  ps_max : 0 < sc_max_size (pt_config p);
}.

(** The partition holds [log]; [room] more messages can be appended to the index of the
    active segment (any number when it was created by this process). *)
Definition Partition_inv (d : disk) (p : Partition) (start : Z) (log : list DiskRecord)
    (room : nat) : Prop :=
  ∃ pre seg log1 log2 es, log = log1 ++ log2 ∧ partition_split d p start log1 log2 room pre seg es.

End partition_spec.

Section partition_facts.
Context `{Crc32Laws} `{CompressionLaws}.

Lemma segment_inv_frame ps d d' seg rs es :
  disk_frame ps d d' → seg_log_path seg ∉ ps → seg_index_path seg ∉ ps →
  LogSegment_inv d seg rs es → LogSegment_inv d' seg rs es.
Proof.
  intros [_ Hf] Hl Hi [[] Hm Hs]. split; [split; try done|done|done].
  - by rewrite Hf.
  - apply (index_inv_frame d); [|done]. apply Hf. congruence.
Qed.

(** The files of the segment at another base offset. *)
Lemma segment_at_other dir config b b' seg seg' :
  is_u64 b → is_u64 b' → b ≠ b' →
  segment_at dir config b seg → segment_at dir config b' seg' →
  (seg_log_path seg ∉ segment_files seg') ∧ (seg_index_path seg ∉ segment_files seg').
Proof.
  intros Hb Hb' Hne (_&_&Hl&Hx) (_&_&Hl'&Hx'). unfold segment_files.
  rewrite Hl, Hx, Hl', Hx'. split; rewrite !elem_of_cons, elem_of_nil.
  - intros [Heq|[Heq|?]]; [|by apply segment_paths_ne in Heq|done]. by apply log_path_inj in Heq.
  - intros [Heq|[Heq|?]]; [|by apply index_path_inj in Heq|done].
    symmetry in Heq. by apply segment_paths_ne in Heq.
Qed.

Lemma segment_inv_same d d' dir config base seg rs es :
  segment_at dir config base seg → dir_same dir d d' →
  LogSegment_inv d seg rs es → LogSegment_inv d' seg rs es.
Proof.
  intros (_ & _ & Hl & Hx) [_ Hf] [Hmid Hm Hs].
  unfold LogSegment_log_path, LogSegment_index_path in *. split; [|done|done].
  pose proof (sm_index_path _ _ _ _ Hmid) as Hxp. destruct Hmid. split; try done.
  - rewrite Hl in *. by rewrite (proj1 (Hf _)).
  - apply (index_inv_frame d); [|done]. rewrite Hxp, Hx. apply Hf.
Qed.

Lemma log_fits_base base rs rs' :
  log_fits base (rs ++ rs') → log_fits (base + Z.of_nat (length rs)) rs'.
Proof. unfold log_fits. rewrite encode_log_app, !length_app. intros (?&?&?). split_and!; lia. Qed.

Lemma closed_inv_frame d d' dir config base segs log seg b :
  disk_frame (segment_files seg) d d' → segment_at dir config b seg → is_u64 b →
  0 ≤ base → base + Z.of_nat (length log) ≤ b →
  closed_inv d dir config base segs log → closed_inv d' dir config base segs log.
Proof.
  intros Hf Hat Hb. revert base log. induction segs as [|s segs IH]; intros base log Hbase Hlen; [done|].
  intros (rs & es & log' & -> & Hne & Hs & Hinv & Hrest).
  rewrite length_app in Hlen. destruct rs as [|r rs]; [done|]. cbn [length] in Hlen.
  destruct (segment_at_other dir config base b s seg) as [Hl Hi]; [unfold is_u64 in *; lia|done|lia|done|done|].
  exists (r :: rs), es, log'. split_and!; [done|done|done|by eapply segment_inv_frame|].
  apply IH; [lia|cbn [length]; lia|done].
Qed.

Lemma closed_inv_snoc d dir config base segs log seg rs es :
  closed_inv d dir config base segs log →
  segment_at dir config (base + Z.of_nat (length log)) seg → LogSegment_inv d seg rs es → rs ≠ [] →
  closed_inv d dir config base (segs ++ [seg]) (log ++ rs).
Proof.
  revert base log. induction segs as [|s segs IH]; intros base log; simpl.
  - intros -> Hat Hinv Hne. simpl in *. rewrite Z.add_0_r in Hat. exists rs, es, [].
    by rewrite app_nil_r.
  - intros (rs' & es' & log' & -> & Hne' & Hs & Hinv' & Hrest) Hat Hinv Hne.
    exists rs', es', (log' ++ rs). rewrite <-app_assoc. split_and!; [done..|].
    apply IH; [done| |done|done]. rewrite length_app, Nat2Z.inj_add, Z.add_assoc in Hat. done.
Qed.

Lemma closed_inv_app d dir config base segs1 segs2 log :
  closed_inv d dir config base (segs1 ++ segs2) log →
  ∃ log1 log2, log = log1 ++ log2 ∧ closed_inv d dir config base segs1 log1 ∧
    closed_inv d dir config (base + Z.of_nat (length log1)) segs2 log2.
Proof.
  revert base log. induction segs1 as [|s segs1 IH]; intros base log; simpl.
  - intros Hc. exists [], log. simpl. by rewrite Z.add_0_r.
  - intros (rs & es & log' & -> & Hne & Hs & Hinv & (l1 & l2 & -> & H3 & H4)%IH).
    exists (rs ++ l1), l2. rewrite <-app_assoc, length_app, Nat2Z.inj_add, Z.add_assoc.
    split_and!; [done| |done]. by exists rs, es, l1.
Qed.

(** ** Finding the segment of an offset *)
Definition base_lt (s s' : LogSegment) : Prop := seg_base_offset s < seg_base_offset s'.

Lemma closed_inv_bases d dir config base segs log s :
  closed_inv d dir config base segs log → s ∈ segs →
  base ≤ seg_base_offset s < base + Z.of_nat (length log).
Proof.
  revert base log. induction segs as [|s' segs IH]; intros base log; [by intros _ ?%elem_of_nil|].
  intros (rs & es & log' & -> & Hne & (Hb & _) & _ & Hrest) Hin.
  destruct rs as [|r rs]; [done|]. rewrite length_app. cbn [length].
  apply elem_of_cons in Hin as [->|Hin]; [lia|]. specialize (IH _ _ Hrest Hin). cbn [length] in IH. lia.
Qed.

Lemma closed_inv_sorted d dir config base segs log seg :
  closed_inv d dir config base segs log →
  seg_base_offset seg = base + Z.of_nat (length log) →
  StronglySorted base_lt (segs ++ [seg]).
Proof.
  revert base log. induction segs as [|s segs IH]; intros base log.
  { intros _ _. repeat constructor. }
  intros (rs & es & log' & -> & Hne & (Hb & _) & _ & Hrest) Hseg.
  rewrite length_app, Nat2Z.inj_add, Z.add_assoc in Hseg.
  destruct rs as [|r rs]; [done|].
  simpl. constructor; [by eapply IH|]. apply Forall_app. split.
  - apply Forall_forall. intros s' Hs'. pose proof (closed_inv_bases _ _ _ _ _ _ _ Hrest Hs').
    unfold base_lt. cbn [length] in *. lia.
  - apply Forall_singleton. unfold base_lt. cbn [length] in *. lia.
Qed.

Lemma sorted_bases_le segs i j s s' :
  StronglySorted base_lt segs → segs !! i = Some s → segs !! j = Some s' → (i ≤ j)%nat →
  seg_base_offset s ≤ seg_base_offset s'.
Proof.
  intros Hs. revert i j. induction Hs as [|x segs Hs IH Hx]; intros i j Hi Hj Hij; [done|].
  destruct i as [|i], j as [|j]; simpl in *; simplify_eq; [done| |lia|eapply IH; [done..|lia]].
  rewrite Forall_lookup in Hx. specialize (Hx _ _ Hj). unfold base_lt in Hx. lia.
Qed.

Lemma find_loop_spec segs offset fuel left right :
  StronglySorted base_lt segs →
  (right - left < fuel)%nat → (left ≤ right ≤ length segs)%nat →
  (∀ i s, segs !! i = Some s → (i < left)%nat → seg_base_offset s ≤ offset) →
  (∀ i s, segs !! i = Some s → (right ≤ i)%nat → offset < seg_base_offset s) →
  ∃ n, find_loop fuel segs offset left right = Ok n ∧ (n ≤ length segs)%nat ∧
    (∀ i s, segs !! i = Some s → (i < n)%nat → seg_base_offset s ≤ offset) ∧
    (∀ i s, segs !! i = Some s → (n ≤ i)%nat → offset < seg_base_offset s).
Proof.
  intros Hs. revert left right. induction fuel as [|fuel IH]; intros left right Hf Hlr Hlo Hhi; [lia|].
  cbn [find_loop]. destruct (Nat.ltb_spec left right) as [Hlt|Hge]; cycle 1.
  { exists left. split_and!; [done|lia|done|]. intros i s Hi ?. eapply Hhi; [done|lia]. }
  set (mid := ((left + right) / 2)%nat).
  assert (left ≤ mid < right)%nat as Hmid.
  { unfold mid. split; [apply Nat.div_le_lower_bound; lia|apply Nat.Div0.div_lt_upper_bound; lia]. }
  destruct (lookup_lt_is_Some_2 segs mid) as [s Hm]; [lia|]. rewrite Hm.
  destruct (Z.leb_spec (seg_base_offset s) offset).
  - apply IH; [lia|lia| |done]. intros i s' Hi ?.
    transitivity (seg_base_offset s); [|done].
    eapply (sorted_bases_le segs i mid); [done|done|done|lia].
  - apply IH; [lia|lia|done|]. intros i s' Hi ?.
    eapply Z.lt_le_trans; [done|]. by eapply (sorted_bases_le segs mid i).
Qed.

(** ** Fetching *)
Lemma fetch_loop_zero p segs cur acc : fetch_loop p segs cur 0 acc = Ok acc.
Proof. by destruct segs. Qed.

(** The segment gives the records [rs]: one batch from the [k]-th on. *)
Definition segment_reads (seg : LogSegment) (rs : list DiskRecord) : Prop :=
  ∀ k max, LogSegment_read_batch seg (seg_base_offset seg + Z.of_nat k) max =
    Ok (take (Z.to_nat max) (drop k rs)).

Lemma fetch_batch d seg rs es : LogSegment_inv d seg rs es → segment_reads seg rs.
Proof.
  intros Hinv k max. rewrite (LogSegment_read_batch_aux _ _ _ _ _ _ Hinv), decide_True by lia.
  by replace (Z.to_nat (seg_base_offset seg + Z.of_nat k - seg_base_offset seg)) with k by lia.
Qed.

Lemma take_drop_first {A} n k (l l' : list A) :
  (k ≤ length l)%nat →
  take n (drop k (l ++ l')) = take n (drop k l) ++ take (n - (length l - k)) l'.
Proof. intros Hk. by rewrite drop_app_le, take_app, length_drop. Qed.

Lemma last_drop_offset base rs k r :
  log_ok base rs → last (drop k rs) = Some r → dr_offset r = base + Z.of_nat (length rs) - 1.
Proof.
  intros [_ Hoff] Hl. rewrite last_lookup, lookup_drop, length_drop in Hl.
  pose proof (lookup_lt_Some _ _ _ Hl). rewrite (Hoff _ _ Hl). lia.
Qed.

Lemma fetch_loop_log p d dir config base pre seg log1 log2 k max acc :
  closed_inv d dir config base pre log1 →
  segment_at dir config (base + Z.of_nat (length log1)) seg → segment_reads seg log2 →
  (∀ s, head pre = Some s → base + Z.of_nat k < seg_next_offset s) →
  is_u32 max →
  fetch_loop p (pre ++ [seg]) (base + Z.of_nat k) max acc =
    Ok (acc ++ (to_record p <$> take (Z.to_nat max) (drop k (log1 ++ log2)))).
Proof.
  revert base log1 k max acc.
  induction pre as [|s pre IH]; intros base log1 k max acc Hclosed Hat Hreads Hk Hmax; cbn [app fetch_loop].
  - simpl in Hclosed. subst log1. simpl in Hat. rewrite Z.add_0_r in Hat. cbn [app].
    destruct Hat as [Hb _]. destruct (Z.eqb_spec max 0) as [->|Hm].
    { by rewrite take_0, fmap_nil, app_nil_r. }
    rewrite <-Hb, Hreads, outcome_bind_Ok.
    case_decide as Hnil; [by rewrite Hnil, fmap_nil, app_nil_r|done].
  - destruct Hclosed as (rs & es' & log' & -> & Hne & Hs & Hsinv & Hrest).
    destruct (Z.eqb_spec max 0) as [->|Hm].
    { by rewrite take_0, fmap_nil, app_nil_r. }
    destruct Hs as [Hsb _]. specialize (Hk s eq_refl).
    pose proof (si_mid _ _ _ _ Hsinv) as Hsmid.
    rewrite (sm_next _ _ _ _ Hsmid), Hsb in Hk.
    pose proof (sm_fits _ _ _ _ Hsmid) as (Hb0 & Hfit & _). rewrite Hsb in Hb0, Hfit.
    rewrite <-Hsb at 1. rewrite (fetch_batch _ _ _ _ Hsinv), outcome_bind_Ok.
    unfold is_u32 in Hmax. rewrite <-(app_assoc rs), take_drop_first by lia.
    rewrite fmap_app, (app_assoc acc).
    case_decide as Hnil.
    { apply (f_equal length) in Hnil. rewrite length_take, length_drop in Hnil. simpl in Hnil. lia. }
    rewrite length_take, length_drop.
    destruct (decide (Z.to_nat max ≤ length rs - k)%nat) as [Hle|Hgt].
    + replace (Z.to_nat max - (length rs - k))%nat with 0%nat by lia.
      rewrite take_0, fmap_nil, app_nil_r.
      replace (w32 _) with 0; [apply fetch_loop_zero|].
      rewrite w32_small; unfold is_u32; lia.
    + rewrite take_ge by (rewrite length_drop; lia).
      destruct (last (drop k rs)) as [r|] eqn:Hl.
      2: { apply last_None, (f_equal length) in Hl. rewrite length_drop in Hl. simpl in Hl. lia. }
      pose proof (sm_log _ _ _ _ Hsmid) as Hlog. rewrite Hsb in Hlog.
      rewrite (last_drop_offset base rs k r Hlog Hl).
      rewrite w64_small by (unfold is_u64; lia).
      rewrite w32_small by (unfold is_u32; lia).
      replace (base + Z.of_nat (length rs) - 1 + 1)
        with (base + Z.of_nat (length rs) + Z.of_nat 0) by lia.
      rewrite (IH _ log'); [|done| |done| |unfold is_u32; lia].
      * do 4 f_equal. lia.
      * rewrite length_app, Nat2Z.inj_add, Z.add_assoc in Hat. done.
      * intros s' Hs'. destruct pre as [|s0 pre]; [done|]. simpl in Hs'. simplify_eq.
        destruct Hrest as (rs1 & ? & ? & _ & Hne1 & [Hb1 _] & Hinv1 & _).
        rewrite (sm_next _ _ _ _ (si_mid _ _ _ _ Hinv1)), Hb1.
        destruct rs1; [done|]. cbn [length]. lia.
Qed.

Section find.
Context (d : disk) (dir : path) (config : SegmentConfig) (start : Z).
Context (pre : list LogSegment) (seg : LogSegment) (log1 : list DiskRecord).
Context (Hclosed : closed_inv d dir config start pre log1).
Context (Hat : segment_at dir config (start + Z.of_nat (length log1)) seg).

Lemma first_base : ∃ s0, (pre ++ [seg]) !! 0%nat = Some s0 ∧ seg_base_offset s0 = start.
Proof.
  clear -Hclosed Hat. destruct pre as [|s pre']; simpl in *.
  - subst log1. exists seg. split; [done|]. destruct Hat as [-> _]. simpl. lia.
  - exists s. split; [done|]. by destruct Hclosed as (?&?&?&_&_&[? _]&_).
Qed.

(** The base of the segment after a closed one is the closed one's next offset. *)
Lemma next_base n s :
  pre !! n = Some s →
  ∃ s', (pre ++ [seg]) !! S n = Some s' ∧ seg_base_offset s' = seg_next_offset s.
Proof.
  clear -Hclosed Hat. revert start log1 n Hclosed Hat.
  induction pre as [|s1 pre' IH]; intros b log n Hc Hat' Hn; [done|].
  destruct Hc as (rs & es & log' & -> & _ & [Hb _] & Hinv & Hrest).
  rewrite length_app, Nat2Z.inj_add, Z.add_assoc in Hat'.
  destruct n as [|n]; simpl in Hn |- *; [|by eapply IH].
  injection Hn as <-. rewrite (sm_next _ _ _ _ (si_mid _ _ _ _ Hinv)), Hb.
  destruct pre' as [|s2 pre']; simpl in Hrest |- *.
  - subst log'. exists seg. split; [done|]. destruct Hat' as [-> _]. simpl. lia.
  - exists s2. split; [done|]. by destruct Hrest as (?&?&?&_&_&[? _]&_).
Qed.

Lemma find_segment_split offset :
  start ≤ offset →
  ∃ n l1 l2, Partition_find_segment_index (pre ++ [seg]) offset = Ok n ∧
    (n ≤ length pre)%nat ∧ log1 = l1 ++ l2 ∧
    closed_inv d dir config (start + Z.of_nat (length l1)) (drop n pre) l2 ∧
    start + Z.of_nat (length l1) ≤ offset ∧
    (∀ s, head (drop n pre) = Some s → offset < seg_next_offset s).
Proof.
  intros Hge. unfold Partition_find_segment_index.
  pose proof (closed_inv_sorted _ _ _ _ _ _ _ Hclosed (proj1 Hat)) as Hsorted.
  destruct (find_loop_spec (pre ++ [seg]) offset (S (length (pre ++ [seg]))) 0 (length (pre ++ [seg])))
    as (n & -> & Hn & Hlo & Hhi); [done|lia|lia|intros; lia| |].
  { intros i s Hi ?. apply lookup_lt_Some in Hi. lia. }
  rewrite outcome_bind_Ok. destruct first_base as (s0 & Hs0 & Hb0).
  destruct n as [|n]; [specialize (Hhi _ _ Hs0 ltac:(lia)); lia|].
  rewrite length_app in Hn. cbn [length] in Hn.
  destruct (closed_inv_app d dir config start (take n pre) (drop n pre) log1)
    as (l1 & l2 & Hl & Hc1 & Hc2); [by rewrite take_drop|].
  exists n, l1, l2. split; [by rewrite Nat.sub_succ, Nat.sub_0_r|].
  split; [lia|]. split; [done|]. split; [done|]. split.
  - destruct (lookup_lt_is_Some_2 (pre ++ [seg]) n) as [s Hs]; [rewrite length_app; simpl; lia|].
    replace (start + Z.of_nat (length l1)) with (seg_base_offset s); [apply (Hlo n); [done|lia]|].
    destruct (decide (n < length pre)%nat) as [Hlt|].
    + rewrite lookup_app_l in Hs by done. rewrite (drop_S _ _ _ Hs) in Hc2.
      by destruct Hc2 as (?&?&?&_&_&[? _]&_).
    + assert (n = length pre) as -> by lia. rewrite list_lookup_middle in Hs by done. simplify_eq.
      rewrite drop_all in Hc2. simpl in Hc2. subst l2.
      rewrite app_nil_r in Hat. apply Hat.
  - intros s Hs. rewrite head_lookup, lookup_drop, Nat.add_0_r in Hs.
    destruct (next_base n s Hs) as (s' & Hs' & <-). apply (Hhi (S n)); [done|lia].
Qed.

Lemma find_segment_before offset :
  offset < start → Partition_find_segment_index (pre ++ [seg]) offset = Err (InvalidOffset offset).
Proof.
  intros Hlt. unfold Partition_find_segment_index.
  pose proof (closed_inv_sorted _ _ _ _ _ _ _ Hclosed (proj1 Hat)) as Hsorted.
  destruct (find_loop_spec (pre ++ [seg]) offset (S (length (pre ++ [seg]))) 0 (length (pre ++ [seg])))
    as (n & -> & Hn & Hlo & Hhi); [done|lia|lia|intros; lia| |].
  { intros i s Hi ?. apply lookup_lt_Some in Hi. lia. }
  rewrite outcome_bind_Ok. destruct first_base as (s0 & Hs0 & Hb0).
  destruct n as [|n]; [done|]. specialize (Hlo _ _ Hs0 ltac:(lia)). lia.
Qed.
End find.

Lemma fetch_reads d p start pre seg log1 log2 offset max :
  pt_segments p = pre ++ [seg] → closed_inv d (pt_data_dir p) (pt_config p) start pre log1 →
  segment_at (pt_data_dir p) (pt_config p) (start + Z.of_nat (length log1)) seg →
  segment_reads seg log2 → is_u32 max →
  Partition_fetch p offset max =
    if decide (start ≤ offset) then
      Ok (to_record p <$> take (Z.to_nat max) (drop (Z.to_nat (offset - start)) (log1 ++ log2)))
    else Err (InvalidOffset offset).
Proof.
  intros Hsegs Hclosed Hat Hreads Hmax. unfold Partition_fetch. rewrite Hsegs. case_decide as Hge; cycle 1.
  { rewrite (find_segment_before _ _ _ _ _ _ _ Hclosed Hat) by lia. done. }
  destruct (find_segment_split _ _ _ _ _ _ _ Hclosed Hat offset Hge)
    as (n & l1 & l2 & -> & Hn & -> & Hc2 & Hl1 & Hnext).
  rewrite outcome_bind_Ok, drop_app_le by lia.
  rewrite length_app, Nat2Z.inj_add, Z.add_assoc in Hat.
  destruct (Z_of_nat_complete (offset - (start + Z.of_nat (length l1)))) as [k Hk]; [lia|].
  assert (offset = start + Z.of_nat (length l1) + Z.of_nat k) as -> by lia.
  rewrite (fetch_loop_log p d (pt_data_dir p) (pt_config p) _ _ _ l2 log2 k max []); [|done..].
  cbn [app]. rewrite <-app_assoc, (drop_app_ge l1) by lia. do 4 f_equal. lia.
Qed.

Lemma Partition_fetch_aux d p start log room offset max :
  Partition_inv d p start log room → is_u32 max →
  Partition_fetch p offset max =
    if decide (start ≤ offset) then
      Ok (to_record p <$> take (Z.to_nat max) (drop (Z.to_nat (offset - start)) log))
    else Err (InvalidOffset offset).
Proof.
  intros (pre & seg & log1 & log2 & es & -> & []) Hmax.
  eapply fetch_reads; [done|done|done|by eapply fetch_batch|done].
Qed.

(** ** Appending *)
Definition same_partition (p p' : Partition) : Prop :=
  pt_partition_id p' = pt_partition_id p ∧ pt_topic_name p' = pt_topic_name p ∧
  pt_data_dir p' = pt_data_dir p ∧ pt_config p' = pt_config p.

Lemma segment_at_same dir config base seg seg' :
  same_segment seg seg' → segment_at dir config base seg → segment_at dir config base seg'.
Proof. intros (?&?&?&?) (?&?&?&?). split_and!; congruence. Qed.

Lemma dir_exact_frame d d' dir segs seg :
  disk_frame (segment_files seg) d d' → seg ∈ segs →
  dir_exact d dir segs → dir_exact d' dir segs.
Proof.
  intros [Hd Hf] Hin Hex name. rewrite Hd. destruct (Hex name) as [Hdir Hfile]. split; [done|].
  intros Hs. destruct (decide (path_join dir name ∈ segment_files seg)) as [Hi|Hi]; [by exists seg|].
  rewrite Hf in Hs by done. by apply Hfile.
Qed.
Lemma dir_exact_mono d dir segs segs' :
  (∀ s, s ∈ segs → ∃ s', s' ∈ segs' ∧ segment_files s = segment_files s') →
  dir_exact d dir segs → dir_exact d dir segs'.
Proof.
  intros Hsub Hex name. destruct (Hex name) as [Hdir Hfile]. split; [done|].
  intros (s & Hs & Hin)%Hfile. destruct (Hsub s Hs) as (s' & Hs' & Heq).
  exists s'. by rewrite <-Heq.
Qed.
(** A base offset no segment has: its files do not exist. *)
Lemma dir_exact_fresh d dir config segs b :
  dir_exact d dir segs → is_u64 b →
  (∀ s, s ∈ segs → ∃ b', segment_at dir config b' s ∧ is_u64 b' ∧ b' ≠ b) →
  files d !! LogSegment_log_path dir b = None ∧ files d !! LogSegment_index_path dir b = None.
Proof.
  intros Hex Hb Hsegs. unfold LogSegment_log_path, LogSegment_index_path.
  split; apply eq_None_not_Some; intros (s & Hs & Hin)%Hex;
    destruct (Hsegs s Hs) as (b' & (_ & _ & Hl & Hx) & Hb' & Hne);
    unfold segment_files in Hin; rewrite Hl, Hx, !elem_of_cons, elem_of_nil in Hin;
    fold (LogSegment_log_path dir b) (LogSegment_index_path dir b) in Hin;
    destruct Hin as [Hin|[Hin|?]]; try done.
  - apply log_path_inj in Hin; [lia|done..].
  - by apply segment_paths_ne in Hin.
  - symmetry in Hin. by apply segment_paths_ne in Hin.
  - apply index_path_inj in Hin; [lia|done..].
Qed.

Lemma closed_inv_at d dir config base segs log s :
  closed_inv d dir config base segs log → s ∈ segs →
  segment_at dir config (seg_base_offset s) s.
Proof.
  revert base log. induction segs as [|s' segs IH]; intros base log; [by intros _ ?%elem_of_nil|].
  intros (rs & es & log' & -> & Hne & Hat & _ & Hrest) Hin.
  apply elem_of_cons in Hin as [->|Hin]; [|by eapply IH].
  destruct Hat as (Hb & ?). by rewrite Hb.
Qed.

(** The append of the active segment, seen from the partition. *)
Lemma append_active d p start log1 log2 room pre seg es ms :
  let log := log1 ++ log2 in
  let new := new_records (pt_config p) (start + Z.of_nat (length log)) ms in
  partition_split d p start log1 log2 room pre seg es → ms ≠ [] →
  Forall record_ok new → log_fits start (log ++ new) → (length ms ≤ room)%nat →
  ∃ d' seg' es',
    on_active (LogSegment_append ms) (d, p) =
      ((d', pt_set_segments (pre ++ [seg']) p), Ok (start + Z.of_nat (length log))) ∧
    partition_split d' (pt_set_segments (pre ++ [seg']) p) start log1 (log2 ++ new)
      (room - length ms) pre seg' es' ∧
    dir_frame (pt_data_dir p) d d'.
Proof.
  intros log new [] Hne Hnew Hfit Hroom.
  pose proof (si_mid _ _ _ _ ps_active0) as Hmid.
  assert (seg_next_offset seg = start + Z.of_nat (length log)) as Hnext.
  { rewrite (sm_next _ _ _ _ Hmid), (proj1 ps_at0). unfold log. rewrite length_app. lia. }
  pose proof ps_at0 as (Hb & Hcfg & _).
  unfold log in Hfit. rewrite <-app_assoc in Hfit.
  destruct (LogSegment_append_aux d seg log2 es ms) as (d' & seg' & es' & Happ & Hinv & Hsame & Hfr & Hroom');
    rewrite ?Hcfg, ?Hnext, ?Hb; [done|done|done|by apply log_fits_base|by eapply index_room_le|].
  rewrite Hcfg, Hnext in Hinv. rewrite Hnext in Happ. fold new in Hinv.
  assert (is_u64 (start + Z.of_nat (length log1))) as Hub.
  { destruct Hfit as (?&Hf&_). rewrite length_app in Hf. unfold is_u64. lia. }
  exists d', seg', es'. split; [|split].
  - unfold on_active. rewrite ps_segments0, last_snoc, Happ.
    do 3 f_equal.
    replace (length (pre ++ [seg]) - 1)%nat with (length pre + 0)%nat
      by (rewrite length_app; simpl; lia).
    by rewrite insert_app_r.
  - split; cbn [pt_segments pt_set_segments pt_data_dir pt_config].
    + done.
    + eapply closed_inv_frame; [done|done|done| |lia|done]. apply Hfit.
    + by eapply segment_at_same.
    + done.
    + apply Hroom'. eapply index_room_le, ps_room0. lia.
    + destruct Hfr as [-> _]. done.
    + eapply dir_exact_mono, (dir_exact_frame d); [|done| |done].
      * intros s Hs. apply elem_of_app in Hs as [Hs|Hs]; [|apply list_elem_of_singleton in Hs as ->].
        -- exists s. split; [|done]. apply elem_of_app. by left.
        -- exists seg'. split; [apply elem_of_app; right; by apply list_elem_of_singleton|].
           symmetry. by apply same_segment_files.
      * apply elem_of_app. right. by apply list_elem_of_singleton.
    + done.
    + done.
  - eapply disk_dir_frame; [|done]. by eapply segment_at_dir.
Qed.

(** A full active segment is not empty, and the next base offset has no files yet. *)
Lemma rotation_fresh d p start log1 log2 room pre seg es :
  partition_split d p start log1 log2 room pre seg es →
  LogSegment_should_rotate seg = true →
  let next := start + Z.of_nat (length (log1 ++ log2)) in
  seg_next_offset seg = next ∧ is_u64 next ∧
  closed_inv d (pt_data_dir p) (pt_config p) start (pre ++ [seg]) (log1 ++ log2) ∧
  files d !! LogSegment_log_path (pt_data_dir p) next = None ∧
  files d !! LogSegment_index_path (pt_data_dir p) next = None.
Proof.
  intros [] Hrot next. pose proof (si_mid _ _ _ _ ps_active0) as Hmid.
  pose proof ps_at0 as (Hb & Hcfg & _).
  assert (log2 ≠ []) as Hne.
  { intros ->. unfold LogSegment_should_rotate in Hrot.
    rewrite (si_size _ _ _ _ ps_active0), Hcfg in Hrot. simpl in Hrot.
    apply Z.leb_le in Hrot. lia. }
  assert (0 < length log2)%nat by (destruct log2; [done|simpl; lia]).
  pose proof ps_fits0 as (Hst & Hlen & _). fold next in Hlen.
  assert (next = start + Z.of_nat (length log1) + Z.of_nat (length log2)) as Hnext
    by (unfold next; rewrite length_app; lia).
  assert (is_u64 next) as Hub by (unfold is_u64; lia).
  split; [by rewrite (sm_next _ _ _ _ Hmid), Hb, <-Hnext|]. split; [done|].
  split; [by apply (closed_inv_snoc _ _ _ _ pre log1 seg log2 es)|].
  apply (dir_exact_fresh d (pt_data_dir p) (pt_config p) (pre ++ [seg])); [done|done|].
  intros s Hs. apply elem_of_app in Hs as [Hs|Hs]; [|apply list_elem_of_singleton in Hs as ->].
  - exists (seg_base_offset s). split; [by eapply closed_inv_at|].
    pose proof (closed_inv_bases _ _ _ _ _ _ _ ps_closed0 Hs). unfold is_u64. lia.
  - exists (start + Z.of_nat (length log1)). split; [done|]. unfold is_u64. lia.
Qed.

(** The rotation: a new segment after the last record. *)
Lemma rotate_active d p start log1 log2 room room' pre seg es :
  partition_split d p start log1 log2 room pre seg es →
  LogSegment_should_rotate seg = true →
  ∃ d' seg',
    LogSegment_create (seg_next_offset seg) (pt_data_dir p) (pt_config p) d = (d', Ok seg') ∧
    partition_split d' (pt_set_segments (pt_segments p ++ [seg']) p) start (log1 ++ log2) []
      room' (pre ++ [seg]) seg' [] ∧
    dir_frame (pt_data_dir p) d d'.
Proof.
  intros Hsp Hrot. pose proof (rotation_fresh _ _ _ _ _ _ _ _ _ Hsp Hrot) as (Hnext & Hub & Hc & Hfl & Hfx).
  destruct Hsp. pose proof ps_at0 as (_ & Hcfg & _). rewrite Hnext.
  destruct (LogSegment_create_fresh d (pt_data_dir p) (start + Z.of_nat (length (log1 ++ log2))) (pt_config p))
    as (d' & seg' & Hcr & Hat' & Hinv' & Hcur & Hfr); [done| |done|done|done|].
  { rewrite <-Hcfg. apply (si_mid _ _ _ _ ps_active0). }
  exists d', seg'. split; [done|].
  split; [split; cbn [pt_segments pt_set_segments pt_data_dir pt_config]|].
  - by rewrite ps_segments0.
  - eapply closed_inv_frame; [exact Hfr|exact Hat'|done|apply ps_fits0|lia|exact Hc].
  - done.
  - done.
  - by left.
  - by destruct Hfr as [-> _].
  - eapply (dir_exact_frame d); [done| |].
    { apply elem_of_app. right. by apply list_elem_of_singleton. }
    eapply dir_exact_mono, ps_exact0. intros s Hs. exists s. split; [|done].
    apply elem_of_app. by left.
  - by rewrite app_nil_r.
  - done.
  - eapply disk_dir_frame; [|done]. by eapply segment_at_dir.
Qed.

Lemma Partition_append_aux d p start log room ms :
  let new := new_records (pt_config p) (start + Z.of_nat (length log)) ms in
  Partition_inv d p start log room → ms ≠ [] →
  Forall record_ok new → log_fits start (log ++ new) → (length ms ≤ room)%nat →
  ∃ d' p', Partition_append ms (d, p) = ((d', p'), Ok (start + Z.of_nat (length log))) ∧
    Partition_inv d' p' start (log ++ new) (room - length ms) ∧
    same_partition p p' ∧ dir_frame (pt_data_dir p) d d'.
Proof.
  intros new (pre & seg & log1 & log2 & es & -> & Hsp) Hne Hnew Hfit Hroom.
  unfold Partition_append. rewrite decide_False by done.
  unfold eff_get, eff_lift, eff_modify, mbind, eff_bind, mret, eff_ret.
  rewrite (ps_segments _ _ _ _ _ _ _ _ _ Hsp), last_snoc. cbn [ok_or].
  destruct (LogSegment_should_rotate seg) eqn:Hrot.
  - destruct (rotate_active d p start log1 log2 room room pre seg es Hsp Hrot)
      as (d1 & seg1 & Hcr & Hsp1 & Hfr1).
    rewrite (ps_segments _ _ _ _ _ _ _ _ _ Hsp) in Hsp1.
    unfold on_disk at 1. rewrite Hcr. rewrite (ps_segments _ _ _ _ _ _ _ _ _ Hsp).
    destruct (append_active d1 _ start (log1 ++ log2) [] room (pre ++ [seg]) seg1 [] ms Hsp1)
      as (d2 & seg2 & es2 & Happ & Hsp2 & Hfr2);
      rewrite ?app_nil_r; [done..|].
    rewrite app_nil_r in Happ, Hsp2.
    eexists d2, _. split; [exact Happ|]. split; [|split; [done|by transitivity d1]].
    exists (pre ++ [seg]), seg2, (log1 ++ log2), new, es2. split; [done|]. exact Hsp2.
  - destruct (append_active d p start log1 log2 room pre seg es ms Hsp)
      as (d2 & seg2 & es2 & Happ & Hsp2 & Hfr2); [done..|].
    eexists d2, _. split; [exact Happ|]. split; [|done].
    exists pre, seg2, log1, (log2 ++ new), es2. split; [by rewrite app_assoc|done].
Qed.

(** The invariant only depends on the directory of the partition. *)
Lemma closed_inv_same d d' dir config base segs log :
  dir_same dir d d' → closed_inv d dir config base segs log → closed_inv d' dir config base segs log.
Proof.
  intros Hd. revert base log. induction segs as [|s segs IH]; intros base log; [done|].
  intros (rs & es & log' & -> & Hne & Hat & Hinv & Hrest). exists rs, es, log'.
  split_and!; [done|done|done|by eapply segment_inv_same|by apply IH].
Qed.
Lemma Partition_inv_same d d' p start log room :
  dir_same (pt_data_dir p) d d' → Partition_inv d p start log room → Partition_inv d' p start log room.
Proof.
  intros Hd (pre & seg & log1 & log2 & es & -> & []). exists pre, seg, log1, log2, es.
  split; [done|]. split; try done.
  - by eapply closed_inv_same.
  - by eapply segment_inv_same.
  - by apply Hd.
  - intros name. destruct (ps_exact0 name) as [H3 H4], (proj2 Hd name) as [-> ->]. done.
Qed.
Lemma Partition_inv_room d p start log room room' :
  (room' ≤ room)%nat → Partition_inv d p start log room → Partition_inv d p start log room'.
Proof.
  intros Hr (pre & seg & log1 & log2 & es & -> & []). exists pre, seg, log1, log2, es.
  split; [done|]. split; try done. by eapply index_room_le.
Qed.

(** ** Creating *)
Lemma Partition_with_config_aux d topic_name id data_dir config :
  let dir := partition_dir data_dir topic_name id in
  0 < sc_max_size config → is_u32 (sc_index_interval config) →
  (∀ name, files d !! path_join dir name = None ∧ path_join dir name ∉ dirs d) →
  ∃ d' p, Partition_with_config topic_name id data_dir config d = (d', Ok p) ∧
    pt_partition_id p = id ∧ pt_topic_name p = topic_name ∧ pt_data_dir p = dir ∧
    pt_config p = config ∧ (∀ room, Partition_inv d' p 0 [] room) ∧
    dir_frame dir (create_dir_all d dir) d'.
Proof.
  intros dir Hmax Hint Hempty. unfold Partition_with_config, eff_modify, mbind, eff_bind.
  fold dir. set (d1 := create_dir_all d dir).
  destruct (LogSegment_create_fresh d1 dir 0 config) as (d2 & seg & -> & Hat & Hinv & Hcur & Hfr);
    [done|done|apply create_dir_all_self|apply Hempty|apply Hempty|].
  eexists d2, _. split; [reflexivity|]. cbn [pt_partition_id pt_topic_name pt_data_dir pt_config].
  do 4 (split; [done|]). split; [|eapply disk_dir_frame; [|done]; by eapply segment_at_dir].
  intros room. exists [], seg, [], [], []. split; [done|].
  split; cbn [pt_segments pt_data_dir pt_config length].
  - done.
  - done.
  - done.
  - done.
  - by left.
  - destruct Hfr as [-> _]. apply create_dir_all_self.
  - eapply (dir_exact_frame d1); [done|by apply list_elem_of_singleton|].
    intros name. destruct (Hempty name) as [Hf Hd]. split.
    + unfold d1. by rewrite create_dir_all_below by (rewrite length_path_join; lia).
    + simpl. rewrite Hf. by intros [? ?].
  - unfold log_fits. simpl. lia.
  - done.
Qed.

(** ** Opening *)
Lemma log_file_offset_log b : is_u64 b → log_file_offset (fmt_dec20 b +:+ ".log") = Some b.
Proof.
  intros Hb. unfold log_file_offset. rewrite rsplit_once_app by done.
  rewrite decide_True; [by apply parse_u64_fmt20|]. split; [|done].
  intros Hnil. apply (f_equal parse_u64) in Hnil. by rewrite parse_u64_fmt20 in Hnil.
Qed.
Lemma log_file_offset_index b : log_file_offset (fmt_dec20 b +:+ ".index") = None.
Proof.
  unfold log_file_offset. rewrite rsplit_once_app by done. rewrite decide_False; [done|]. by intros [_ ?].
Qed.

Lemma NoDup_omap_inj {A B} (f : A → option B) (l : list A) :
  NoDup l → (∀ x y b, x ∈ l → y ∈ l → f x = Some b → f y = Some b → x = y) → NoDup (omap f l).
Proof.
  induction 1 as [|x l Hx Hl IH]; intros Hinj; [constructor|]. simpl.
  assert (NoDup (omap f l)) as Hnd.
  { apply IH. intros y z b Hy Hz. apply Hinj; by right. }
  destruct (f x) as [b|] eqn:Hfx; [|done]. constructor; [|done].
  intros (y & Hy & Hfy)%list_elem_of_omap. apply Hx.
  rewrite (Hinj x y b); [done|by left|by right|done|done].
Qed.

Lemma sort_Z_unique (l l' : list Z) :
  NoDup l → StronglySorted Z.lt l' → (∀ x, x ∈ l ↔ x ∈ l') → sort_Z l = l'.
Proof.
  intros Hnd Hs Heq.
  assert (StronglySorted Z.le l') as Hle.
  { clear -Hs. induction Hs as [|x l' Hs IH Hx]; constructor; [done|].
    eapply Forall_impl; [exact Hx|]. intros ??. by apply Z.lt_le_incl. }
  assert (NoDup l') as Hnd'.
  { clear -Hs. induction Hs as [|x l' Hs IH Hx]; constructor; [|done].
    intros Hin. rewrite Forall_forall in Hx. specialize (Hx x Hin). lia. }
  apply (StronglySorted_unique Z.le); [apply StronglySorted_merge_sort; apply _|done|].
  unfold sort_Z. rewrite merge_sort_Permutation. by apply NoDup_Permutation.
Qed.

(** The offsets that the names in a directory give, for the files of segments. *)
Lemma dir_exact_offsets d dir config segs names :
  read_dir d dir = Ok names → dir_exact d dir segs →
  (∀ s, s ∈ segs → segment_at dir config (seg_base_offset s) s ∧ is_u64 (seg_base_offset s) ∧
    is_Some (files d !! seg_log_path s)) →
  NoDup (omap log_file_offset names) ∧
  ∀ b, b ∈ omap log_file_offset names ↔ b ∈ seg_base_offset <$> segs.
Proof.
  intros Hnames Hex Hsegs.
  (* every name in the directory is one of a segment *)
  assert (∀ name, name ∈ names → ∃ s, s ∈ segs ∧
    (name = fmt_dec20 (seg_base_offset s) +:+ ".log" ∨
     name = fmt_dec20 (seg_base_offset s) +:+ ".index")) as Hname.
  { intros name [Hin|Hin]%(elem_of_read_dir _ _ _ name Hnames); [|by apply Hex in Hin].
    apply Hex in Hin as (s & Hs & Hin). exists s. split; [done|].
    destruct (Hsegs s Hs) as ((_ & _ & Hl & Hx) & _). unfold segment_files in Hin.
    rewrite Hl, Hx, !elem_of_cons, elem_of_nil in Hin.
    destruct Hin as [Hin%path_join_inj|[Hin%path_join_inj|?]]; [by left|by right|done]. }
  assert (∀ name b, name ∈ names → log_file_offset name = Some b →
    b ∈ seg_base_offset <$> segs ∧ name = fmt_dec20 b +:+ ".log") as Hoff.
  { intros name b (s & Hs & [->| ->])%Hname Hb; [|by rewrite log_file_offset_index in Hb].
    rewrite log_file_offset_log in Hb by apply (Hsegs s Hs). injection Hb as <-.
    split; [by apply list_elem_of_fmap_2|done]. }
  split.
  - apply NoDup_omap_inj; [by eapply read_dir_NoDup|].
    intros x y b Hx Hy [_ ->]%Hoff [_ ->]%Hoff; done.
  - intros b. rewrite list_elem_of_omap. split.
    + by intros (name & Hin & [Hb _]%Hoff).
    + intros (s & -> & Hs)%list_elem_of_fmap. destruct (Hsegs s Hs) as ((_ & _ & Hl & _) & Hu & Hf).
      exists (fmt_dec20 (seg_base_offset s) +:+ ".log").
      split; [|by apply log_file_offset_log]. apply (elem_of_read_dir _ _ _ _ Hnames). left.
      by rewrite Hl in Hf.
Qed.

Lemma open_segments_snoc offsets b dir config d segs :
  open_segments offsets dir config d = (d, Ok segs) →
  open_segments (offsets ++ [b]) dir config d =
    match LogSegment_open b dir config d with
    | (d', Ok s) => (d', Ok (segs ++ [s]))
    | (d', Err e) => (d', Err e)
    | (d', Panic) => (d', Panic)
    end.
Proof.
  revert segs. induction offsets as [|o offsets IH]; intros segs Ho; cbn [open_segments app] in *.
  - injection Ho as <-. unfold mbind, eff_bind, mret, eff_ret.
    by destruct (LogSegment_open b dir config d) as [? [?|?|]].
  - unfold mbind, eff_bind, mret, eff_ret in *.
    pose proof (LogSegment_open_disk o dir config d) as Ho1.
    destruct (LogSegment_open o dir config d) as [d1 [s|?|]]; simplify_eq/=.
    destruct (open_segments offsets dir config d) as [d2 [ss|?|]]; simplify_eq/=.
    rewrite (IH ss eq_refl). by destruct (LogSegment_open b dir config d) as [? [?|?|]].
Qed.

(** Opening closed segments. *)
Lemma open_segments_closed d dir config base segs log :
  closed_inv d dir config base segs log →
  ∃ segs', open_segments (seg_base_offset <$> segs) dir config d = (d, Ok segs') ∧
    closed_inv d dir config base segs' log ∧
    segment_files <$> segs' = segment_files <$> segs.
Proof.
  revert base log. induction segs as [|s segs IH]; intros base log.
  { intros ->. exists []. done. }
  intros (rs & es & log' & -> & Hne & Hat & Hinv & Hrest).
  destruct (LogSegment_reopen d dir base config s rs es Hat Hinv) as (s' & Ho & Hat' & Hinv' & _).
  destruct (IH _ _ Hrest) as (segs' & Hos & Hc & Hfs).
  exists (s' :: segs'). split_and!.
  - rewrite fmap_cons. cbn [open_segments]. rewrite (proj1 Hat).
    unfold mbind, eff_bind, mret, eff_ret. by rewrite Ho, Hos.
  - by exists rs, es, log'.
  - rewrite !fmap_cons, Hfs. f_equal. destruct Hat as (_ & _ & Hl & Hx), Hat' as (_ & _ & Hl' & Hx').
    unfold segment_files. congruence.
Qed.

(** The offsets that the directory gives are those of the segments. *)
Lemma dir_exact_sorted d dir config start pre seg log1 names :
  read_dir d dir = Ok names → dir_exact d dir (pre ++ [seg]) →
  closed_inv d dir config start pre log1 →
  segment_at dir config (start + Z.of_nat (length log1)) seg →
  0 ≤ start → is_u64 (start + Z.of_nat (length log1)) → is_Some (files d !! seg_log_path seg) →
  sort_Z (omap log_file_offset names) = seg_base_offset <$> (pre ++ [seg]).
Proof.
  intros Hnames Hexact Hclosed Hat Hst Hub Hfile. pose proof (proj1 Hat) as Hb.
  destruct (dir_exact_offsets d dir config (pre ++ [seg]) names Hnames Hexact) as [Hnd Hiff].
  { intros s Hs. apply elem_of_app in Hs as [Hs|Hs]; [|apply list_elem_of_singleton in Hs as ->].
    - split; [by eapply closed_inv_at|].
      pose proof (closed_inv_bases _ _ _ _ _ _ _ Hclosed Hs).
      split; [unfold is_u64 in *; lia|].
      apply list_elem_of_split in Hs as (pre1 & pre2 & ->).
      apply closed_inv_app in Hclosed as (l1 & l2 & _ & _ & (rs & es' & l & _ & _ & _ & Hinv & _)).
      eexists. apply (sm_content _ _ _ _ (si_mid _ _ _ _ Hinv)).
    - rewrite Hb. done. }
  apply sort_Z_unique; [done| |done].
  pose proof (closed_inv_sorted _ _ _ _ _ _ _ Hclosed Hb) as Hs.
  clear -Hs. induction Hs as [|s l Hs IH Hx]; [constructor|]. rewrite fmap_cons.
  constructor; [done|]. apply Forall_fmap. exact Hx.
Qed.

(** Opening the directory, by what opening its last segment gives. *)
Lemma open_directory d p start pre seg log1 data_dir opened :
  let dir := pt_data_dir p in
  let base := start + Z.of_nat (length log1) in
  dir = partition_dir data_dir (pt_topic_name p) (pt_partition_id p) →
  dir ∈ dirs d → dir_exact d dir (pre ++ [seg]) →
  closed_inv d dir (pt_config p) start pre log1 → segment_at dir (pt_config p) base seg →
  0 ≤ start → is_u64 base → is_Some (files d !! seg_log_path seg) →
  LogSegment_open base dir (pt_config p) d = (d, opened) →
  ∃ pre', Partition_open_with_config (pt_topic_name p) (pt_partition_id p) data_dir (pt_config p) d =
      (d, seg' ← opened; Ok (pt_set_segments (pre' ++ [seg']) p)) ∧
    closed_inv d dir (pt_config p) start pre' log1 ∧
    segment_files <$> pre' = segment_files <$> pre.
Proof.
  intros dir base Hdir Hin Hexact Hclosed Hat Hst Hub Hfile Ho.
  unfold Partition_open_with_config. rewrite <-Hdir.
  destruct (read_dir d dir) as [names|e|] eqn:Hnames;
    [|by unfold read_dir in Hnames; case_decide|by unfold read_dir in Hnames; case_decide].
  pose proof (dir_exact_sorted _ _ _ _ _ _ _ _ Hnames Hexact Hclosed Hat Hst Hub Hfile) as Hsort.
  assert (omap log_file_offset names ≠ []) as Hne.
  { intros Hnil. rewrite Hnil in Hsort. apply (f_equal length) in Hsort.
    rewrite length_fmap, length_app in Hsort. simpl in Hsort. lia. }
  destruct (open_segments_closed d dir (pt_config p) start pre log1 Hclosed) as (pre' & Hop & Hc' & Hfs).
  exists pre'. split; [|done].
  unfold eff_get, eff_lift, mbind, eff_bind. rewrite Hnames, decide_False by done.
  rewrite Hsort, fmap_app. cbn [fmap list_fmap]. rewrite (open_segments_snoc _ _ _ _ _ _ Hop).
  fold base in Hat. rewrite (proj1 Hat), Ho. by destruct opened.
Qed.

Lemma segment_at_files dir config config' base seg seg' :
  segment_at dir config base seg → segment_at dir config' base seg' →
  segment_files seg' = segment_files seg.
Proof. intros (_ & _ & Hl & Hx) (_ & _ & Hl' & Hx'). unfold segment_files. congruence. Qed.

Lemma Partition_open_aux d p start log room data_dir :
  Partition_inv d p start log room →
  pt_data_dir p = partition_dir data_dir (pt_topic_name p) (pt_partition_id p) →
  ∃ p', Partition_open_with_config (pt_topic_name p) (pt_partition_id p) data_dir (pt_config p) d =
      (d, Ok p') ∧
    same_partition p p' ∧
    Partition_inv d p' start log (Z.to_nat (sc_index_interval (pt_config p))).
Proof.
  intros (pre & seg & log1 & log2 & es & -> & []) Hdir.
  pose proof ps_fits0 as (Hst & Hf & _). rewrite length_app in Hf.
  destruct (LogSegment_reopen d (pt_data_dir p) _ (pt_config p) seg log2 es ps_at0 ps_active0)
    as (seg' & Ho & Hat' & Hinv' & Hroom').
  destruct (open_directory d p start pre seg log1 data_dir (Ok seg')) as (pre' & Hop & Hc & Hfs);
    [done|done|done|done|done|done|unfold is_u64; lia| |done|].
  { eexists. apply (sm_content _ _ _ _ (si_mid _ _ _ _ ps_active0)). }
  eexists. split; [exact Hop|]. split; [done|]. exists pre', seg', log1, log2, es. split; [done|].
  split; cbn [pt_segments pt_data_dir pt_config pt_set_segments]; try done.
  eapply dir_exact_mono, ps_exact0. intros s Hs.
  assert (segment_files s ∈ segment_files <$> (pre' ++ [seg'])) as Hin.
  { rewrite fmap_app, Hfs. cbn [fmap list_fmap].
    rewrite (segment_at_files _ _ _ _ _ _ ps_at0 Hat').
    apply (list_elem_of_fmap_2 segment_files) in Hs. by rewrite fmap_app in Hs. }
  apply list_elem_of_fmap in Hin as (s' & Heq & Hs'). by exists s'.
Qed.

(** ** The abstract partition: a list of messages *)
(** The messages of the records of a fetch: [ms] from offset [o] on. *)
Fixpoint records_from (p : Partition) (o : Z) (ms : list Message) : list Record_ :=
  match ms with
  | [] => []
  | m :: ms =>
      {| rec_topic := pt_topic_name p; rec_partition := pt_partition_id p;
         rec_offset := o; rec_message := m |} :: records_from p (o + 1) ms
  end.

(** The partition holds the messages [ms] at the offsets from [start] on. *)
Definition Partition_holds (d : disk) (p : Partition) (start : Z) (ms : list Message)
    (room : nat) : Prop :=
  Partition_inv d p start (new_records (pt_config p) start ms) room.

(** A message that can be written at any offset. *)
Definition message_fits (config : SegmentConfig) (m : Message) : Prop :=
  ∀ o, is_u64 o → record_ok (make_record config o m).
(** The space the messages take. *)
Definition encoded_size (config : SegmentConfig) (start : Z) (ms : list Message) : Z :=
  Z.of_nat (length (encode_log (new_records config start ms))).

Lemma message_fits_plain config m :
  sc_compression config = CNone → is_u64 (msg_timestamp m) → key_len (msg_key m) < 2 ^ 31 →
  key_len (msg_key m) + Z.of_nat (length (msg_value m)) < 2 ^ 31 →
  message_fits config m.
Proof.
  intros Hc Ht Hk Hl o Ho. unfold make_record. rewrite decide_True by done. split; [done|].
  destruct (DiskRecord_encode (DiskRecord_new o m)) as [b|e|] eqn:E; [|done|done].
  exists b. split; [done|]. apply encode_length in E as (v & Hv & E).
  cbn [dr_value dr_compression DiskRecord_new compress dr_key] in *. simplify_eq.
  unfold encoding_fits. lia.
Qed.

Lemma Forall_message_fits config start ms :
  Forall (message_fits config) ms → 0 ≤ start → start + Z.of_nat (length ms) < 2 ^ 64 →
  Forall record_ok (new_records config start ms).
Proof.
  intros Hms. revert start. induction Hms as [|m ms Hm Hms IH]; intros start H3 H4; simpl; constructor.
  - apply Hm. cbn [length] in H4. unfold is_u64. lia.
  - apply IH; cbn [length] in H4; lia.
Qed.

Lemma closed_inv_offsets d dir config base segs log i r :
  closed_inv d dir config base segs log → log !! i = Some r → dr_offset r = base + Z.of_nat i.
Proof.
  revert base log i. induction segs as [|s segs IH]; intros base log i; [by intros ->|].
  intros (rs & es & log' & -> & _ & [Hb _] & Hinv & Hrest) [Hi|[Hlt Hi]]%lookup_app_Some.
  - destruct (sm_log _ _ _ _ (si_mid _ _ _ _ Hinv)) as [_ Hoff]. rewrite <-Hb. by apply Hoff.
  - rewrite (IH _ _ _ Hrest Hi). lia.
Qed.

Lemma Partition_inv_offsets d p start log room i r :
  Partition_inv d p start log room → log !! i = Some r → dr_offset r = start + Z.of_nat i.
Proof.
  intros (pre & seg & log1 & log2 & es & -> & []) [Hi|[Hlt Hi]]%lookup_app_Some.
  - by eapply closed_inv_offsets.
  - destruct (sm_log _ _ _ _ (si_mid _ _ _ _ ps_active0)) as [_ Hoff].
    rewrite (Hoff _ _ Hi), (proj1 ps_at0). lia.
Qed.

Lemma Partition_inv_start d p start log room :
  Partition_inv d p start log room → 0 ≤ start ∧ start + Z.of_nat (length log) < 2 ^ 64.
Proof. intros (pre & seg & log1 & log2 & es & -> & []). by destruct ps_fits0 as (?&?&_). Qed.

Lemma to_record_from p o log :
  (∀ i r, log !! i = Some r → dr_offset r = o + Z.of_nat i) →
  to_record p <$> log = records_from p o (DiskRecord_to_message <$> log).
Proof.
  revert o. induction log as [|r log IH]; intros o Hoff; [done|].
  rewrite !fmap_cons. cbn [records_from]. rewrite <-(IH (o + 1)).
  - f_equal. unfold to_record. rewrite (Hoff 0%nat r eq_refl). f_equal. lia.
  - intros i r' Hr'. rewrite (Hoff (S i) r' Hr'). lia.
Qed.

Lemma new_records_app config start ms ms' :
  new_records config start (ms ++ ms') =
  new_records config start ms ++ new_records config (start + Z.of_nat (length ms)) ms'.
Proof.
  revert start. induction ms as [|m ms IH]; intros start; simpl.
  - by rewrite Z.add_0_r.
  - f_equal. rewrite IH. do 2 f_equal. lia.
Qed.

Lemma fetch_holds d p start ms room offset max :
  Partition_holds d p start ms room → is_u32 max →
  Partition_fetch p offset max =
    if decide (start ≤ offset) then
      Ok (records_from p offset (take (Z.to_nat max) (drop (Z.to_nat (offset - start)) ms)))
    else Err (InvalidOffset offset).
Proof.
  intros Hinv Hmax. rewrite (Partition_fetch_aux _ _ _ _ _ _ _ Hinv Hmax).
  case_decide as Hle; [|done]. f_equal.
  rewrite <-(messages_new_records (pt_config p) start ms) at 2.
  rewrite <-fmap_drop, <-fmap_take.
  apply to_record_from. intros i r [Hi _]%lookup_take_Some. rewrite lookup_drop in Hi.
  rewrite (Partition_inv_offsets _ _ _ _ _ _ _ Hinv Hi). lia.
Qed.

Lemma Partition_holds_next d p start ms room :
  Partition_holds d p start ms room → Partition_next_offset p = start + Z.of_nat (length ms).
Proof.
  intros (pre & seg & log1 & log2 & es & Heq & Hsp). destruct Hsp as [Hsegs _ [Hb _] Hact _ _ _ _ _].
  unfold Partition_next_offset. rewrite Hsegs, last_snoc, (sm_next _ _ _ _ (si_mid _ _ _ _ Hact)), Hb.
  apply (f_equal length) in Heq. rewrite length_new_records, length_app in Heq. lia.
Qed.

Lemma append_holds d p start ms room new :
  Partition_holds d p start ms room → new ≠ [] → Forall (message_fits (pt_config p)) new →
  start + Z.of_nat (length (ms ++ new)) < 2 ^ 64 →
  encoded_size (pt_config p) start (ms ++ new) < 2 ^ 64 →
  (length new ≤ room)%nat →
  ∃ d' p', Partition_append new (d, p) = ((d', p'), Ok (start + Z.of_nat (length ms))) ∧
    Partition_holds d' p' start (ms ++ new) (room - length new) ∧
    same_partition p p' ∧ dir_frame (pt_data_dir p) d d'.
Proof.
  intros Hinv Hne Hnew Hlen Hsize Hroom.
  unfold encoded_size in Hsize. rewrite new_records_app in Hsize. rewrite length_app in Hlen.
  destruct (Partition_inv_start _ _ _ _ _ Hinv) as [Hs _].
  destruct (Partition_append_aux d p start _ room new Hinv) as (d' & p' & Happ & Hinv' & Hsame & Hfr);
    rewrite ?length_new_records in *; [done| | |done|].
  - apply Forall_message_fits; [done|lia|lia].
  - unfold log_fits. rewrite !length_app, !length_new_records. split_and!; [lia|lia|done].
  - exists d', p'. split_and!; [done| |done|done].
    unfold Partition_holds. destruct Hsame as (_ & _ & _ & ->). by rewrite new_records_app.
Qed.

End partition_facts.

(** ** Runs *)
Section run.
Context `{Crc32} `{CompressionLib}.

(** A sequence of appends, with the offsets they return. *)
Fixpoint append_all (batches : list (list Message)) : Method (disk * Partition) (list Z) :=
  match batches with
  | [] => mret []
  | b :: batches =>
      o ← Partition_append b;
      os ← append_all batches;
      mret (o :: os)
  end.
End run.

(** The offsets the batches get. *)
Fixpoint batch_offsets (start : Z) (batches : list (list Message)) : list Z :=
  match batches with
  | [] => []
  | b :: batches => start :: batch_offsets (start + Z.of_nat (length b)) batches
  end.

Section run_facts.
Context `{Crc32Laws} `{CompressionLaws}.

Lemma encoded_size_app config start ms ms' :
  encoded_size config start (ms ++ ms') =
  encoded_size config start ms + encoded_size config (start + Z.of_nat (length ms)) ms'.
Proof. unfold encoded_size. rewrite new_records_app, encode_log_app, length_app. lia. Qed.

Lemma append_all_holds batches d p start ms room :
  Partition_holds d p start ms room →
  Forall (λ b, b ≠ [] ∧ Forall (message_fits (pt_config p)) b) batches →
  start + Z.of_nat (length (ms ++ concat batches)) < 2 ^ 64 →
  encoded_size (pt_config p) start (ms ++ concat batches) < 2 ^ 64 →
  (length (concat batches) ≤ room)%nat →
  ∃ d' p', append_all batches (d, p) =
      ((d', p'), Ok (batch_offsets (start + Z.of_nat (length ms)) batches)) ∧
    Partition_holds d' p' start (ms ++ concat batches) (room - length (concat batches)) ∧
    same_partition p p'.
Proof.
  revert d p ms room. induction batches as [|b batches IH]; intros d p ms room Hh Hb Hl Hs Hr.
  { exists d, p. simpl in *. rewrite app_nil_r, Nat.sub_0_r. done. }
  apply Forall_cons in Hb as [[Hne Hb] Hbs]. cbn [concat] in *.
  rewrite app_assoc in Hl, Hs. rewrite (length_app b) in Hr.
  destruct (append_holds d p start ms room b) as (d1 & p1 & Happ & Hh1 & Hsame1 & _);
    [done|done|done| | |lia|].
  - rewrite length_app in Hl. lia.
  - rewrite encoded_size_app in Hs.
    assert (0 ≤ encoded_size (pt_config p) (start + Z.of_nat (length (ms ++ b))) (concat batches))
      by (unfold encoded_size; lia). lia.
  - pose proof Hsame1 as (_ & _ & _ & Hcfg).
    destruct (IH d1 p1 (ms ++ b) (room - length b)%nat) as (d2 & p2 & Happ2 & Hh2 & Hsame2);
      rewrite ?Hcfg; [done|done|done|done|lia|].
    exists d2, p2. cbn [append_all batch_offsets].
    rewrite (eff_bind_eq _ _ _ _ _ Happ). unfold mbind, eff_bind, mret, eff_ret. rewrite Happ2.
    rewrite length_app, Nat2Z.inj_add, Z.add_assoc, <-app_assoc in *.
    split; [done|]. rewrite length_app, Nat.sub_add_distr. split; [done|].
    destruct Hsame1 as (?&?&?&?), Hsame2 as (?&?&?&?). split_and!; congruence.
Qed.
End run_facts.

(** ** Properties *)
Section partition_properties.
Context `{Crc32Laws} `{CompressionLaws}.

(** C8: refinement of an append. A partition that holds the messages [ms] appends a batch
    at the offset after them, whether or not it rotates its active segment, holds [ms ++
    new] afterwards, and changes no file outside its directory. The messages must be ones
    that can be written, the log must fit 64-bit offsets and sizes, and the index must have
    room for the batch: it always has in a partition that this process created, and for one
    interval of entries in one that was opened again. *)
Theorem Partition_append_refines d p start ms room new :
  Partition_holds d p start ms room → new ≠ [] → Forall (message_fits (pt_config p)) new →
  start + Z.of_nat (length (ms ++ new)) < 2 ^ 64 →
  encoded_size (pt_config p) start (ms ++ new) < 2 ^ 64 →
  (length new ≤ room)%nat →
  ∃ d' p', Partition_append new (d, p) = ((d', p'), Ok (start + Z.of_nat (length ms))) ∧
    Partition_holds d' p' start (ms ++ new) (room - length new) ∧
    same_partition p p' ∧ dir_frame (pt_data_dir p) d d'.
Proof. apply append_holds. Qed.

(** C9: refinement of a fetch.  It returns exactly the messages from the offset on, at most
    [max] of them, with their offsets, across every segment boundary; an offset before the
    first message is [InvalidOffset], one past the last gives no record. *)
Theorem Partition_fetch_refines d p start ms room offset max :
  Partition_holds d p start ms room → is_u32 max →
  Partition_fetch p offset max =
    if decide (start ≤ offset) then
      Ok (records_from p offset (take (Z.to_nat max) (drop (Z.to_nat (offset - start)) ms)))
    else Err (InvalidOffset offset).
Proof. apply fetch_holds. Qed.

(** C11: a partition that is opened again from the files it left holds the same messages
    (and as many more as its index can take without being written, since the cursor of an
    index that is opened again is at its start). *)
Theorem Partition_open_refines d p start ms room data_dir :
  Partition_holds d p start ms room →
  pt_data_dir p = partition_dir data_dir (pt_topic_name p) (pt_partition_id p) →
  ∃ p', Partition_open_with_config (pt_topic_name p) (pt_partition_id p) data_dir (pt_config p) d =
      (d, Ok p') ∧
    same_partition p p' ∧
    Partition_holds d p' start ms (Z.to_nat (sc_index_interval (pt_config p))).
Proof.
  intros Hh Hdir.
  destruct (Partition_open_aux _ _ _ _ _ _ Hh Hdir) as (p' & Ho & Hsame & Hinv).
  exists p'. split_and!; [done|done|]. unfold Partition_holds.
  by destruct Hsame as (_ & _ & _ & ->).
Qed.

(** A new partition, after any sequence of batches, gave them consecutive offsets from
    0 on, and every fetch of it is the slice of their concatenation. *)
Theorem Partition_run d topic_name id data_dir config batches offset max :
  0 < sc_max_size config → is_u32 (sc_index_interval config) →
  (∀ name, files d !! path_join (partition_dir data_dir topic_name id) name = None ∧
           path_join (partition_dir data_dir topic_name id) name ∉ dirs d) →
  Forall (λ b, b ≠ [] ∧ Forall (message_fits config) b) batches →
  Z.of_nat (length (concat batches)) < 2 ^ 64 →
  encoded_size config 0 (concat batches) < 2 ^ 64 →
  0 ≤ offset → is_u32 max →
  ∃ d' p d'' p', Partition_with_config topic_name id data_dir config d = (d', Ok p) ∧
    append_all batches (d', p) = ((d'', p'), Ok (batch_offsets 0 batches)) ∧
    Partition_fetch p' offset max =
      Ok (records_from p' offset (take (Z.to_nat max) (drop (Z.to_nat offset) (concat batches)))).
Proof.
  intros Hmax Hint Hempty Hb Hl Hs Ho Hm.
  destruct (Partition_with_config_aux d topic_name id data_dir config)
    as (d1 & p & Hnew & _ & _ & _ & Hcfg & Hinv & _); [done..|].
  destruct (append_all_holds batches d1 p 0 [] (length (concat batches)))
    as (d2 & p2 & Happ & Hh & _); rewrite ?Hcfg; [apply Hinv|done..|].
  exists d1, p, d2, p2. split_and!; [done|done|].
  rewrite (fetch_holds _ _ _ _ _ _ _ Hh Hm), decide_True by done. by rewrite Z.sub_0_r.
Qed.
End partition_properties.
