(* ===== verification/Recovery.v ===== *)
(** * Recovery: a partition after the process stopped in an append

    [storage/src/{segment,partition}.rs].  Only the disk survives.  An append writes its
    records one after the other, and after each record the entry of the index when one is
    due; the process can stop after any number of bytes of this sequence.  A rotation
    creates the log file of the new segment and then its index.  What opening the partition
    makes of such a disk, and what the next append makes of it. *)
From Stdlib Require Import Ascii.
From S2P Require Import Prelude Bytes Text Common Messages Compression DiskRecord FileSystem.
From S2P Require Import OffsetIndex Retention Segment Partition.

(** What is written when the first [n] bytes of [size] are. *)
Definition survives {A} (n size : nat) (x : A) : list A :=
  if decide (n < size)%nat then [] else [x].

Section crash.
Context `{Crc32} `{CompressionLib}.

(** The process stops after [n] bytes of the record of [m] and of its index entry. *)
Definition torn_write (m : Message) (n : nat) (position : Z) (s : disk * LogSegment) : disk :=
  let '(d, seg) := s in
  match DiskRecord_encode (make_record (seg_config seg) (seg_next_offset seg) m) with
  | Ok encoded =>
      let d := (write_all d (seg_log_file seg) (take n encoded)).1 in
      if sc_index_interval (seg_config seg) <=? seg_records_since_index seg then
        let entry := encode_entry (seg_next_offset seg, position) in
        (write_all d (ix_file (seg_index seg)) (take (n - length encoded) entry)).1
      else d
  | _ => d
  end.

(** An append that wrote the records of [ms] and stops in the one of [m]. *)
Definition LogSegment_crash (ms : list Message) (m : Message) (n : nat)
    (s : disk * LogSegment) : disk :=
  let '(d, seg) := s in
  let seg := seg_set_log_file (seek_end d (seg_log_file seg)) seg in
  match append_loop ms (seg_size seg) (d, seg) with
  | (s, Ok position) => torn_write m n position s
  | ((d, _), _) => d
  end.

Definition Partition_crash (ms : list Message) (m : Message) (n : nat)
    (s : disk * Partition) : disk :=
  let '(d, p) := s in
  match last (pt_segments p) with
  | None => d
  | Some active =>
      if LogSegment_should_rotate active then
        match LogSegment_create (seg_next_offset active) (pt_data_dir p) (pt_config p) d with
        | (d, Ok segment) => LogSegment_crash ms m n (d, segment)
        | (d, _) => d
        end
      else LogSegment_crash ms m n (d, active)
  end.

(** A rotation that stops between the two files of the new segment. *)
Definition rotation_crash (p : Partition) (d : disk) : disk :=
  (open_create (LogSegment_log_path (pt_data_dir p) (Partition_next_offset p)) d).1.

(** The files of a segment whose log ends in a [tail] after the records [rs], and whose
    index may end in a part of an entry. *)
Record segment_torn (d : disk) (dir : path) (base : Z) (rs : list DiskRecord) (tail : bytes)
    (es : list (Z * Z)) : Prop := {
  st_log : files d !! LogSegment_log_path dir base = Some (encode_log rs ++ tail);
  st_index : ∃ part, (length part < INDEX_ENTRY_SIZE)%nat ∧
    files d !! LogSegment_index_path dir base = Some (encode_entries es ++ part);
  st_tail : ∃ e, DiskRecord_decode tail = Err e;
  st_base : is_u64 base ∧ (tail ≠ [] → base + 1 < 2 ^ 64);
  st_ok : log_ok base rs;
  st_fits : log_fits base rs;
  st_wf : Forall entry_wf es;
  st_sorted : StronglySorted entry_lt es;
  st_entries : index_ok base rs es;
}.
End crash.

Section crash_facts.
Context `{Crc32Laws} `{CompressionLaws}.

Lemma take_encoded_tail r n :
  record_ok r → (n < length (encoded r))%nat → ∃ e, DiskRecord_decode (take n (encoded r)) = Err e.
Proof.
  intros Hok Hn. pose proof (encoded_Ok r Hok) as He. destruct Hok as (_ & b & Hb & Hfit).
  assert (b = encoded r) as -> by congruence.
  destruct (decode_truncated_aux r (encoded r) n He Hfit Hn) as [e ->]. by eexists.
Qed.

(** The first [n] bytes of a record after a log: the record, or a tail that is none. *)
Lemma torn_log base rs r n :
  log_ok base (rs ++ [r]) → log_fits base (rs ++ [r]) →
  ∃ tail e, encode_log rs ++ take n (encoded r) =
      encode_log (rs ++ survives n (length (encoded r)) r) ++ tail ∧ DiskRecord_decode tail = Err e ∧
    log_ok base (rs ++ survives n (length (encoded r)) r) ∧
    log_fits base (rs ++ survives n (length (encoded r)) r).
Proof.
  intros Hok Hfits. unfold survives. case_decide as Hn.
  - assert (record_ok r) as Hr by (destruct Hok as [[_ [? _]%Forall_cons]%Forall_app _]; done).
    destruct (take_encoded_tail r n Hr Hn) as [e He]. rewrite app_nil_r.
    exists (take n (encoded r)), e. split; [done|]. split; [done|]. split; [|by eapply log_fits_app].
    destruct Hok as [[Hall _]%Forall_app Hoff]. split; [done|]. intros i r' Hi.
    apply Hoff. by apply lookup_app_l_Some.
  - destruct decode_nil as [e He]. exists [], (Storage e).
    rewrite encode_log_snoc, take_ge, app_nil_r by lia. done.
Qed.

(** The first [k] bytes of an entry after an index. *)
Lemma torn_entry base rs es e k :
  Forall entry_wf es → StronglySorted entry_lt es → index_ok base rs es → entry_wf e →
  (∀ e', last es = Some e' → entry_lt e' e) →
  ((INDEX_ENTRY_SIZE ≤ k)%nat → ∃ i, (i < length rs)%nat ∧ e = (base + Z.of_nat i, pos_of rs i)) →
  ∃ es' part, encode_entries es ++ take k (encode_entry e) = encode_entries es' ++ part ∧
    (length part < INDEX_ENTRY_SIZE)%nat ∧ Forall entry_wf es' ∧ StronglySorted entry_lt es' ∧
    index_ok base rs es'.
Proof.
  intros Hwf Hs Hok He Hlast Hk. unfold INDEX_ENTRY_SIZE in *. destruct (decide (k < 16)%nat) as [Hlt|Hge].
  - exists es, (take k (encode_entry e)). split; [done|]. rewrite length_take, length_encode_entry.
    split; [lia|done].
  - exists (es ++ [e]), []. rewrite take_ge, encode_entries_app, app_nil_r by (rewrite length_encode_entry; lia).
    split; [unfold encode_entries at 3; simpl; by rewrite app_nil_r|]. split; [simpl; lia|].
    split; [apply Forall_app; split; [done|by apply Forall_singleton]|]. split; [by apply sorted_snoc|].
    apply Forall_app. split; [done|]. apply Forall_singleton, Hk. lia.
Qed.

Lemma torn_write_spec d seg rs es m n :
  let r := make_record (seg_config seg) (seg_next_offset seg) m in
  segment_mid d seg rs es → f_pos (seg_log_file seg) = length (encode_log rs) →
  record_ok r → log_fits (seg_base_offset seg) (rs ++ [r]) → index_room seg es 1 →
  let d' := torn_write m n (Z.of_nat (length (encode_log rs))) (d, seg) in
  let rs' := rs ++ survives n (length (encoded r)) r in
  disk_frame (segment_files seg) d d' ∧
  ∃ tail e es' part,
    files d' !! seg_log_path seg = Some (encode_log rs' ++ tail) ∧ DiskRecord_decode tail = Err e ∧
    files d' !! seg_index_path seg = Some (encode_entries es' ++ part) ∧
    (length part < INDEX_ENTRY_SIZE)%nat ∧ log_ok (seg_base_offset seg) rs' ∧
    log_fits (seg_base_offset seg) rs' ∧ Forall entry_wf es' ∧ StronglySorted entry_lt es' ∧
    index_ok (seg_base_offset seg) rs' es'.
Proof.
  intros r [Hlp Hip Hpp Hc Hn Hlog Hfits [Hxc _ _ Hxw Hxo] Hiok _ _] Hpos Hr Hfit Hroom d' rs'.
  assert (log_ok (seg_base_offset seg) (rs ++ [r])) as Hlog1.
  { apply log_ok_snoc; [done|done|]. unfold r. by rewrite dr_offset_make, Hn. }
  destruct (torn_log _ rs r n Hlog1 Hfit) as (tail & e & Htl & He & Hlog' & Hfits').
  fold rs' in Htl, Hlog', Hfits'. pose proof (index_ok_app _ _ (survives n (length (encoded r)) r) _ Hiok) as Hiok'.
  fold rs' in Hiok'. rewrite Hip in Hxc.
  assert (file_content d (seg_log_path seg) = encode_log rs) as Hfc
    by (unfold file_content; by rewrite Hc).
  set (d1 := set_content d (seg_log_path seg) (encode_log rs' ++ tail)).
  assert (disk_frame (segment_files seg) d d1) as Hfr by (apply disk_frame_set; by left).
  assert (files d1 !! seg_index_path seg = Some (encode_entries es)) as Hx1
    by (unfold d1; by rewrite files_set_ne).
  assert (d' = if sc_index_interval (seg_config seg) <=? seg_records_since_index seg then
    fst (write_all d1 (ix_file (seg_index seg)) (take (n - length (encoded r))
      (encode_entry (seg_next_offset seg, Z.of_nat (length (encode_log rs)))))) else d1) as ->.
  { unfold d', torn_write. fold r.
    rewrite (encoded_Ok r Hr). unfold write_all. cbn [fst].
    rewrite Hlp, Hfc, Hpos, write_at_end, Htl. done. }
  destruct (Z.leb_spec (sc_index_interval (seg_config seg)) (seg_records_since_index seg)) as [Hle|Hlt]; cycle 1.
  { split; [done|]. exists tail, e, es, []. rewrite app_nil_r.
    split; [apply files_set|]. split; [done|]. split; [done|]. split; [unfold INDEX_ENTRY_SIZE; simpl; lia|done]. }
  destruct Hroom as [Hcur|Hroom]; [|lia].
  pose proof Hfits as (Hb0 & Hf1 & Hf2). pose proof Hfit as (_ & Hf1' & _). rewrite length_app in Hf1'. cbn [length] in Hf1'.
  destruct (torn_entry (seg_base_offset seg) rs' es (seg_next_offset seg, Z.of_nat (length (encode_log rs)))
    (n - length (encoded r))) as (es' & part & Hte & Hpart & Hwf' & Hs' & Hiok2); [done|done|done| | | |].
  { split; unfold is_u64; cbn [fst snd]; lia. }
  { intros e' Hl. unfold entry_lt. cbn [fst]. rewrite Hn. by eapply index_last_lt. }
  { intros Hk. unfold INDEX_ENTRY_SIZE in Hk. unfold rs', survives. rewrite decide_False by lia.
    exists (length rs). rewrite length_app, pos_of_app, pos_of_length, Hn by lia. cbn [length]. split; [lia|done]. }
  unfold write_all. cbn [fst]. rewrite Hip.
  assert (file_content d1 (seg_index_path seg) = encode_entries es) as -> by (unfold file_content; by rewrite Hx1).
  unfold cursor_at_end, INDEX_ENTRY_SIZE in Hcur. rewrite Hcur, <-length_encode_entries, write_at_end, Hte.
  split; [transitivity d1; [done|apply disk_frame_set; right; by left]|].
  exists tail, e, es', part. rewrite files_set_ne by done.
  split; [apply files_set|]. split; [done|]. split; [apply files_set|done].
Qed.

Lemma LogSegment_crash_torn d dir config seg rs es ms m n :
  let next := seg_next_offset seg + Z.of_nat (length ms) in
  let new := new_records (seg_config seg) (seg_next_offset seg) ms in
  let r := make_record (seg_config seg) next m in
  segment_at dir config (seg_base_offset seg) seg → LogSegment_inv d seg rs es →
  Forall record_ok new → record_ok r → log_fits (seg_base_offset seg) ((rs ++ new) ++ [r]) →
  index_room seg es (length ms + 1) →
  let d' := LogSegment_crash ms m n (d, seg) in
  disk_frame (segment_files seg) d d' ∧
  ∃ tail es', segment_torn d' dir (seg_base_offset seg)
    ((rs ++ new) ++ survives n (length (encoded r)) r) tail es'.
Proof.
  intros next new r (_ & _ & Hlog & Hidx) [Hmid Hmm Hsz] Hnew Hr Hfit Hroom.
  unfold LogSegment_crash.
  destruct (segment_seek_end _ _ _ _ Hmid) as [Hmid1 Hpos1].
  set (seg1 := seg_set_log_file _ seg) in *.
  destruct (append_loop_spec ms d seg1 rs es)
    as (d2 & seg2 & es2 & Happ & Hmid2 & Hpos2 & (Hb & Hlp & Hip & Hcfg) & Hfr & Hroom2);
    [done|done|done|by eapply log_fits_app|eapply index_room_le, Hroom; lia|].
  specialize (Hroom2 1%nat Hroom).
  change (seg_size seg1) with (seg_size seg). rewrite Hsz, Happ.
  change (new_records (seg_config seg1) (seg_next_offset seg1) ms) with new in *.
  change (seg_log_path seg1) with (seg_log_path seg) in *.
  change (seg_index_path seg1) with (seg_index_path seg) in *.
  change (seg_base_offset seg1) with (seg_base_offset seg) in *.
  change (seg_config seg1) with (seg_config seg) in *.
  change (segment_files seg1) with (segment_files seg) in *.
  assert (seg_next_offset seg2 = next) as Hnext.
  { rewrite (sm_next _ _ _ _ Hmid2), Hb, length_app. unfold new. rewrite length_new_records.
    unfold next. rewrite (sm_next _ _ _ _ Hmid). lia. }
  assert (r = make_record (seg_config seg2) (seg_next_offset seg2) m) as Hreq by (by rewrite Hcfg, Hnext).
  rewrite <-Hb in Hfit. rewrite Hreq in Hr, Hfit |- *.
  destruct (torn_write_spec d2 seg2 (rs ++ new) es2 m n Hmid2 Hpos2 Hr Hfit Hroom2)
    as (Hfr2 & tail & e & es' & part & Hl & He & Hx & Hpart & Hok & Hfits & Hwf & Hs & Hiok).
  rewrite Hb, Hlp, Hip in *. split.
  { etrans; [exact Hfr|]. assert (segment_files seg2 = segment_files seg) as <-; [|done].
    unfold segment_files. congruence. }
  exists tail, es'. pose proof Hfit as (Hb0 & Hfit1 & _). rewrite length_app in Hfit1. cbn [length] in Hfit1.
  split; [by rewrite <-Hlog|exists part; by rewrite <-Hidx|by eexists| |done..].
  split; [unfold is_u64; lia|intros _; lia].
Qed.

Lemma LogSegment_open_torn d dir base config rs tail es :
  segment_torn d dir base rs tail es →
  ∃ seg, LogSegment_open base dir config d = (d, Ok seg) ∧ segment_at dir config base seg ∧
    segment_reads seg rs.
Proof.
  intros [Hl (part & Hpart & Hx) [e Htail] [Hb Hb1] Hlog Hfits Hwf Hs Hiok].
  destruct (OffsetIndex_open_view d _ es part Hx Hpart Hwf Hs) as (ix & Hopen & Hix).
  destruct (LogSegment_open_aux d dir base config rs tail ix e)
    as (seg & Ho & Hat & _ & Heq & Hmm & _ & Hn & _); try done.
  { intros Hne. destruct rs as [|r rs]; [by apply Hb1|]. destruct Hfits as (_ & Hf & _).
    cbn [length] in Hf. lia. }
  exists seg. split; [done|]. split; [done|]. destruct Hat as [Hbase _]. rewrite <-Hbase in *.
  intros k max. case_decide as Hnil.
  - apply app_nil in Hnil as [Hrs ->]. apply encode_log_nil_iff in Hrs as ->; [|apply Hlog].
    rewrite drop_nil, take_nil. unfold LogSegment_read_batch.
    rewrite (proj2 (Z.ltb_ge _ _)), (proj2 (Z.leb_le _ _)) by lia. done.
  - eapply LogSegment_read_batch_view; [|lia].
    split; [done|by eexists|done|exists es; by rewrite Heq].
Qed.

(** The crash of an append to the active segment. *)
Lemma crash_active d p start log1 log2 room pre seg es ms m n data_dir :
  let log := log1 ++ log2 in
  let new := new_records (pt_config p) (start + Z.of_nat (length log)) ms in
  let r := make_record (pt_config p) (start + Z.of_nat (length (log ++ new))) m in
  pt_data_dir p = partition_dir data_dir (pt_topic_name p) (pt_partition_id p) →
  partition_split d p start log1 log2 room pre seg es →
  Forall record_ok new → record_ok r → log_fits start ((log ++ new) ++ [r]) →
  (length ms < room)%nat →
  let d' := LogSegment_crash ms m n (d, seg) in
  dir_frame (pt_data_dir p) d d' ∧
  ∃ p', Partition_open_with_config (pt_topic_name p) (pt_partition_id p) data_dir (pt_config p) d' =
      (d', Ok p') ∧ same_partition p p' ∧
    ∀ offset max, is_u32 max → Partition_fetch p' offset max =
      if decide (start ≤ offset) then
        Ok (to_record p' <$> take (Z.to_nat max) (drop (Z.to_nat (offset - start))
          ((log ++ new) ++ survives n (length (encoded r)) r)))
      else Err (InvalidOffset offset).
Proof.
  intros log new r Hdir [Hsegs Hclosed Hat Hact Hroom0 Hin Hexact Hfits _] Hnew Hr Hfit Hroom d'.
  pose proof (si_mid _ _ _ _ Hact) as Hmid. pose proof Hat as (Hb & Hcfg & _).
  assert (seg_next_offset seg = start + Z.of_nat (length log)) as Hnext.
  { rewrite (sm_next _ _ _ _ Hmid), Hb. unfold log. rewrite length_app. lia. }
  assert (start + Z.of_nat (length (log ++ new)) =
    seg_next_offset seg + Z.of_nat (length ms)) as Hnext'.
  { rewrite Hnext, length_app. unfold new. rewrite length_new_records. lia. }
  unfold r in Hr, Hfit |- *. rewrite Hnext' in Hr, Hfit |- *. clear r.
  unfold new in Hnew, Hfit |- *. rewrite <-Hnext in Hnew, Hfit |- *. rewrite <-Hcfg in Hnew, Hr, Hfit |- *.
  pose proof (proj1 Hfit) as Hst. pose proof Hfit as (_ & Hlen & _).
  rewrite !length_app in Hlen. unfold log in Hlen. rewrite length_app in Hlen.
  unfold log in Hfit. rewrite <-!app_assoc in Hfit. apply log_fits_base in Hfit.
  rewrite <-Hb, app_assoc in Hfit.
  destruct (LogSegment_crash_torn d (pt_data_dir p) (pt_config p) seg log2 es ms m n)
    as (Hfr & tail & es' & Htorn); [by rewrite Hb|done|done|done|done|eapply index_room_le, Hroom0; lia|].
  fold d' in Hfr, Htorn. rewrite Hb in Htorn.
  split; [eapply disk_dir_frame; [by eapply segment_at_dir|done]|].
  destruct (LogSegment_open_torn _ _ _ (pt_config p) _ _ _ Htorn) as (seg' & Ho & Hat' & Hreads).
  destruct (open_directory d' p start pre seg log1 data_dir (Ok seg')) as (pre' & Hop & Hc & _).
  - done.
  - by destruct Hfr as [-> _].
  - apply (dir_exact_frame d _ _ _ seg); [done| |done]. apply elem_of_app. right. by left.
  - eapply closed_inv_frame; [done|done|unfold is_u64; lia|done|lia|done].
  - done.
  - done.
  - unfold is_u64. lia.
  - destruct Hat as (_ & _ & -> & _). eexists. apply (st_log _ _ _ _ _ _ Htorn).
  - done.
  - rewrite Hcfg in *. eexists. split; [exact Hop|]. split; [done|]. intros offset max Hmax.
    erewrite (fetch_reads d' _ start pre' seg' log1); [|done|exact Hc|done|exact Hreads|done].
    unfold log. by rewrite !app_assoc.
Qed.

(** ** A crash between two records *)
Lemma write_nothing d f c :
  files d !! f_path f = Some c → f_pos f = length c → (write_all d f []).1 = d.
Proof.
  intros Hc Hp. unfold write_all, file_content. cbn [fst]. rewrite Hc. cbn [default id].
  rewrite Hp, write_at_end, app_nil_r. unfold set_content. rewrite insert_id by done. by destruct d.
Qed.

Lemma torn_write_nothing d seg rs es m position :
  segment_mid d seg rs es → f_pos (seg_log_file seg) = length (encode_log rs) →
  record_ok (make_record (seg_config seg) (seg_next_offset seg) m) → index_room seg es 1 →
  torn_write m 0 position (d, seg) = d.
Proof.
  intros Hmid Hpos Hr Hroom. unfold torn_write. rewrite (encoded_Ok _ Hr), take_0.
  pose proof Hmid as [Hlp Hip _ Hc _ _ _ [Hxc _ _ _ _] _ _ _].
  rewrite (write_nothing d (seg_log_file seg) (encode_log rs)) by (rewrite ?Hlp; done).
  destruct (Z.leb_spec (sc_index_interval (seg_config seg)) (seg_records_since_index seg)); [|done].
  rewrite Nat.sub_0_l, take_0. destruct Hroom as [Hcur|]; [|lia].
  apply (write_nothing _ _ (encode_entries es)); [done|]. rewrite length_encode_entries.
  by rewrite Hcur.
Qed.

Lemma LogSegment_crash_nothing d seg rs es ms m :
  let new := new_records (seg_config seg) (seg_next_offset seg) ms in
  let next := seg_next_offset seg + Z.of_nat (length ms) in
  ms ≠ [] → LogSegment_inv d seg rs es → Forall record_ok new →
  record_ok (make_record (seg_config seg) next m) → log_fits (seg_base_offset seg) (rs ++ new) →
  index_room seg es (length ms + 1) →
  LogSegment_crash ms m 0 (d, seg) = (LogSegment_append ms (d, seg)).1.1.
Proof.
  intros new next Hne [Hmid Hmm Hsz] Hnew Hr Hfit Hroom.
  unfold LogSegment_crash, LogSegment_append. rewrite decide_False by done.
  unfold eff_get, eff_put, eff_modify, mbind, eff_bind, mret, eff_ret.
  destruct (segment_seek_end _ _ _ _ Hmid) as [Hmid1 Hpos1].
  set (seg1 := seg_set_log_file _ seg) in *.
  destruct (append_loop_spec ms d seg1 rs es)
    as (d2 & seg2 & es2 & Happ & Hmid2 & Hpos2 & (Hb & _ & _ & Hcfg) & _ & Hroom2);
    [done|done|done|done|eapply index_room_le, Hroom; lia|].
  specialize (Hroom2 1%nat Hroom). change (seg_size seg1) with (seg_size seg) in *. rewrite Hsz, Happ.
  apply (torn_write_nothing _ _ (rs ++ new) es2); [exact Hmid2|exact Hpos2| |exact Hroom2].
  rewrite Hcfg, (sm_next _ _ _ _ Hmid2), Hb, length_app, length_new_records.
  change (seg_config seg1) with (seg_config seg). change (seg_base_offset seg1) with (seg_base_offset seg).
  rewrite Nat2Z.inj_add, Z.add_assoc, <-(sm_next _ _ _ _ Hmid). exact Hr.
Qed.

Lemma active_crash_nothing d p start log1 log2 room pre seg es ms m :
  let log := log1 ++ log2 in
  let new := new_records (pt_config p) (start + Z.of_nat (length log)) ms in
  ms ≠ [] → partition_split d p start log1 log2 room pre seg es → Forall record_ok new →
  record_ok (make_record (pt_config p) (start + Z.of_nat (length (log ++ new))) m) →
  log_fits start (log ++ new) → (length ms < room)%nat →
  LogSegment_crash ms m 0 (d, seg) = (on_active (LogSegment_append ms) (d, p)).1.1.
Proof.
  intros log new Hne [Hsegs _ Hat Hact Hroom0 _ _ _ _] Hnew Hr Hfit Hroom.
  pose proof (si_mid _ _ _ _ Hact) as Hmid. pose proof Hat as (Hb & Hcfg & _).
  assert (seg_next_offset seg = start + Z.of_nat (length log)) as Hnext.
  { rewrite (sm_next _ _ _ _ Hmid), Hb. unfold log. rewrite length_app. lia. }
  assert (start + Z.of_nat (length (log ++ new)) = seg_next_offset seg + Z.of_nat (length ms)) as Hnext'.
  { rewrite Hnext, length_app. unfold new. rewrite length_new_records. lia. }
  rewrite Hnext' in Hr. unfold new in *. rewrite <-Hnext in *. rewrite <-Hcfg in *.
  unfold log in Hfit. rewrite <-app_assoc in Hfit. apply log_fits_base in Hfit. rewrite <-Hb in Hfit.
  unfold on_active. rewrite Hsegs, last_snoc.
  rewrite (LogSegment_crash_nothing d seg log2 es ms m);
    [|done|done|done|done|done|eapply index_room_le, Hroom0; lia].
  by destruct (LogSegment_append ms (d, seg)) as [[d' seg'] r].
Qed.

(** A batch that stops before a record leaves what the shorter batch leaves. *)
Lemma Partition_crash_nothing d p start log room ms m :
  let new := new_records (pt_config p) (start + Z.of_nat (length log)) ms in
  ms ≠ [] → Partition_inv d p start log room → Forall record_ok new →
  record_ok (make_record (pt_config p) (start + Z.of_nat (length (log ++ new))) m) →
  log_fits start (log ++ new) → (length ms < room)%nat →
  Partition_crash ms m 0 (d, p) = (Partition_append ms (d, p)).1.1.
Proof.
  intros new Hne (pre & seg & log1 & log2 & es & -> & Hsp) Hnew Hr Hfit Hroom.
  unfold Partition_crash, Partition_append. rewrite decide_False by done.
  unfold eff_get, eff_lift, eff_modify, mbind, eff_bind, mret, eff_ret.
  rewrite (ps_segments _ _ _ _ _ _ _ _ _ Hsp), last_snoc. cbn [ok_or].
  destruct (LogSegment_should_rotate seg) eqn:Hrot.
  - destruct (rotate_active d p start log1 log2 room room pre seg es Hsp Hrot)
      as (d1 & seg1 & Hcr & Hsp1 & _). rewrite (ps_segments _ _ _ _ _ _ _ _ _ Hsp) in Hsp1.
    unfold on_disk. rewrite Hcr, (ps_segments _ _ _ _ _ _ _ _ _ Hsp).
    apply (active_crash_nothing _ _ start (log1 ++ log2) [] room (pre ++ [seg]) seg1 []);
      rewrite ?app_nil_r; done.
  - by apply (active_crash_nothing _ _ start log1 log2 room pre seg es).
Qed.
End crash_facts.

(** ** Properties *)
Section recovery_properties.
Context `{Crc32Laws} `{CompressionLaws}.

Lemma crash_any d p start log room ms m n data_dir :
  let new := new_records (pt_config p) (start + Z.of_nat (length log)) ms in
  let r := make_record (pt_config p) (start + Z.of_nat (length (log ++ new))) m in
  pt_data_dir p = partition_dir data_dir (pt_topic_name p) (pt_partition_id p) →
  Partition_inv d p start log room →
  Forall record_ok new → record_ok r → log_fits start ((log ++ new) ++ [r]) →
  (length ms < room)%nat →
  let d' := Partition_crash ms m n (d, p) in
  dir_frame (pt_data_dir p) d d' ∧
  ∃ p', Partition_open_with_config (pt_topic_name p) (pt_partition_id p) data_dir (pt_config p) d' =
      (d', Ok p') ∧ same_partition p p' ∧
    ∀ offset max, is_u32 max → Partition_fetch p' offset max =
      if decide (start ≤ offset) then
        Ok (to_record p' <$> take (Z.to_nat max) (drop (Z.to_nat (offset - start))
          ((log ++ new) ++ survives n (length (encoded r)) r)))
      else Err (InvalidOffset offset).
Proof.
  intros new r Hdir (pre & seg & log1 & log2 & es & -> & Hsp) Hnew Hr Hfit Hroom.
  unfold Partition_crash. rewrite (ps_segments _ _ _ _ _ _ _ _ _ Hsp), last_snoc.
  destruct (LogSegment_should_rotate seg) eqn:Hrot.
  - destruct (rotate_active d p start log1 log2 room room pre seg es Hsp Hrot)
      as (d1 & seg1 & -> & Hsp1 & Hfr).
    pose proof (crash_active d1 (pt_set_segments (pt_segments p ++ [seg1]) p) start (log1 ++ log2) [] room
      (pre ++ [seg]) seg1 [] ms m n data_dir) as Hc.
    rewrite app_nil_r in Hc. destruct Hc as (Hfr1 & p' & Hp'); [done..|].
    split; [by etrans|]. by exists p'.
  - by apply (crash_active d p start log1 log2 room pre seg es).
Qed.

Lemma new_records_offsets config start ms i r :
  new_records config start ms !! i = Some r → dr_offset r = start + Z.of_nat i.
Proof.
  revert start i. induction ms as [|m ms IH]; intros start i; [done|]. destruct i as [|i]; simpl.
  - intros [= <-]. rewrite dr_offset_make. lia.
  - intros ->%IH. lia.
Qed.

Lemma new_records_survives config start n size m :
  new_records config start (survives n size m) = survives n size (make_record config start m).
Proof. unfold survives. by case_decide. Qed.

Lemma Partition_crash_aux d p start ms room ms1 m n data_dir :
  let r := make_record (pt_config p) (start + Z.of_nat (length (ms ++ ms1))) m in
  pt_data_dir p = partition_dir data_dir (pt_topic_name p) (pt_partition_id p) →
  Partition_holds d p start ms room → Forall (message_fits (pt_config p)) (ms1 ++ [m]) →
  start + Z.of_nat (length ((ms ++ ms1) ++ [m])) < 2 ^ 64 →
  encoded_size (pt_config p) start ((ms ++ ms1) ++ [m]) < 2 ^ 64 → (length ms1 < room)%nat →
  let d' := Partition_crash ms1 m n (d, p) in
  let log := (ms ++ ms1) ++ survives n (length (encoded r)) m in
  dir_frame (pt_data_dir p) d d' ∧
  ∃ p', Partition_open_with_config (pt_topic_name p) (pt_partition_id p) data_dir (pt_config p) d' =
      (d', Ok p') ∧ same_partition p p' ∧
    ∀ offset max, is_u32 max → Partition_fetch p' offset max =
      if decide (start ≤ offset) then
        Ok (records_from p' offset (take (Z.to_nat max) (drop (Z.to_nat (offset - start)) log)))
      else Err (InvalidOffset offset).
Proof.
  intros r Hdir Hinv Hnew Hlen Hsize Hroom d' log.
  destruct (Partition_inv_start _ _ _ _ _ Hinv) as [Hst _].
  apply Forall_app in Hnew as [Hnew [Hm _]%Forall_cons].
  unfold encoded_size in Hsize. rewrite !new_records_app in Hsize. rewrite !length_app in Hlen.
  cbn [length] in Hlen. rewrite length_app in Hsize.
  destruct (crash_any d p start _ room ms1 m n data_dir Hdir Hinv) as (Hfr & p' & Ho & Hsame & Hfetch);
    rewrite ?length_app, ?length_new_records in *; try done.
  - apply Forall_message_fits; [done|lia|lia].
  - apply Hm. unfold is_u64. lia.
  - unfold log_fits. rewrite !length_app, !length_new_records. cbn [length].
    split; [lia|]. split; [lia|done].
  - split; [done|]. exists p'. split; [done|]. split; [done|]. intros offset max Hmax. rewrite Hfetch by done.
    case_decide as Hge; [|done]. rewrite <-new_records_survives, <-new_records_app, <-length_app.
    rewrite <-new_records_app. fold r. fold log. f_equal.
    rewrite <-(messages_new_records (pt_config p) start log) at 2.
    rewrite <-fmap_drop, <-fmap_take.
    apply to_record_from. intros i r' [Hi _]%lookup_take_Some. rewrite lookup_drop in Hi.
    rewrite (new_records_offsets _ _ _ _ _ Hi). lia.
Qed.

(** A crash in the middle of an append loses no message that was there and leaves a
    prefix of the batch.  Whichever message of the batch the process stops in, and after
    however many bytes of its record and of its index entry, the partition opens again
    and serves, at every offset, the old messages followed by those of the batch whose
    records were complete; torn bytes are never served, and no other directory has
    changed. *)
Theorem Partition_crash_recovers d p start ms room ms1 m n data_dir :
  let r := make_record (pt_config p) (start + Z.of_nat (length (ms ++ ms1))) m in
  pt_data_dir p = partition_dir data_dir (pt_topic_name p) (pt_partition_id p) →
  Partition_holds d p start ms room → Forall (message_fits (pt_config p)) (ms1 ++ [m]) →
  start + Z.of_nat (length ((ms ++ ms1) ++ [m])) < 2 ^ 64 →
  encoded_size (pt_config p) start ((ms ++ ms1) ++ [m]) < 2 ^ 64 → (length ms1 < room)%nat →
  let d' := Partition_crash ms1 m n (d, p) in
  let log := (ms ++ ms1) ++ survives n (length (encoded r)) m in
  dir_frame (pt_data_dir p) d d' ∧
  ∃ p', Partition_open_with_config (pt_topic_name p) (pt_partition_id p) data_dir (pt_config p) d' =
      (d', Ok p') ∧ same_partition p p' ∧
    ∀ offset max, is_u32 max → Partition_fetch p' offset max =
      if decide (start ≤ offset) then
        Ok (records_from p' offset (take (Z.to_nat max) (drop (Z.to_nat (offset - start)) log)))
      else Err (InvalidOffset offset).
Proof. apply Partition_crash_aux. Qed.

Lemma rotation_crash_aux d p start ms room seg data_dir :
  pt_data_dir p = partition_dir data_dir (pt_topic_name p) (pt_partition_id p) →
  Partition_holds d p start ms room →
  last (pt_segments p) = Some seg → LogSegment_should_rotate seg = true →
  let d' := rotation_crash p d in
  dir_frame (pt_data_dir p) d d' ∧
  Partition_open_with_config (pt_topic_name p) (pt_partition_id p) data_dir (pt_config p) d' =
    (d', Err io_not_found).
Proof.
  intros Hdir (pre & seg0 & log1 & log2 & es & _ & Hsp) Hlast Hrot d'.
  pose proof (ps_segments _ _ _ _ _ _ _ _ _ Hsp) as Hsegs. rewrite Hsegs, last_snoc in Hlast.
  injection Hlast as ->.
  pose proof (rotation_fresh _ _ _ _ _ _ _ _ _ Hsp Hrot) as (Hnext & Hub & Hc & Hfl & Hfx).
  pose proof (segment_paths_ne (pt_data_dir p) _ _ Hub Hub) as Hpaths.
  destruct Hsp as [_ _ (_ & Hcfg & _) Hact _ Hin Hexact Hfits _].
  set (next := start + Z.of_nat (length (log1 ++ log2))) in *.
  assert (d' = set_content d (LogSegment_log_path (pt_data_dir p) next) []) as Hd'.
  { unfold d', rotation_crash, Partition_next_offset. rewrite Hsegs, last_snoc, Hnext.
    unfold open_create. rewrite Hfl, decide_True; [done|].
    unfold LogSegment_log_path. by rewrite parent_join. }
  destruct (LogSegment_create_fresh d (pt_data_dir p) next (pt_config p))
    as (d1 & ghost & _ & Hat & _); [done| |done|done|done|].
  { rewrite <-Hcfg. apply (si_mid _ _ _ _ Hact). }
  pose proof Hat as (_ & _ & Hgl & _).
  assert (disk_frame (segment_files ghost) d d') as Hfr.
  { rewrite Hd'. apply disk_frame_set. unfold segment_files. rewrite Hgl. by left. }
  split; [eapply disk_dir_frame; [by eapply segment_at_dir|done]|].
  destruct (open_directory d' p start (pre ++ [seg]) ghost (log1 ++ log2) data_dir (Err io_not_found))
    as (pre' & Ho & _); try done.
  - by destruct Hfr as [-> _].
  - eapply (dir_exact_frame d); [done|apply elem_of_app; right; by left|].
    eapply dir_exact_mono, Hexact. intros s Hs. exists s. split; [|done]. apply elem_of_app. by left.
  - eapply closed_inv_frame; [done|done|done|apply Hfits|unfold next; lia|done].
  - apply Hfits.
  - rewrite Hgl, Hd', files_set. by eexists.
  - fold next. unfold LogSegment_open, open_existing, OffsetIndex_open, mbind, eff_bind.
    rewrite Hd', files_set. cbn [eff_get]. unfold open_existing.
    rewrite files_set_ne by done. by rewrite Hfx.
Qed.

(** A crash in the middle of a rotation locks the partition: the log file of the new
    segment is there and its index is not, and from then on every attempt to open the
    partition answers "not found", whatever its older segments hold. *)
Theorem rotation_crash_locks_out d p start ms room seg data_dir :
  pt_data_dir p = partition_dir data_dir (pt_topic_name p) (pt_partition_id p) →
  Partition_holds d p start ms room →
  last (pt_segments p) = Some seg → LogSegment_should_rotate seg = true →
  let d' := rotation_crash p d in
  Partition_open_with_config (pt_topic_name p) (pt_partition_id p) data_dir (pt_config p) d' =
    (d', Err io_not_found).
Proof. intros Hdir Hh Hlast Hrot. by eapply rotation_crash_aux. Qed.

(** Behind the torn bytes nothing is found: a read fails as they decode, and a batch stops. *)
Lemma torn_view_hides seg rs tail e k max :
  segment_view seg rs tail → DiskRecord_decode tail = Err e → (length rs ≤ k)%nat →
  seg_base_offset seg + Z.of_nat k < seg_next_offset seg →
  LogSegment_read seg (seg_base_offset seg + Z.of_nat k) = Err e ∧
  LogSegment_read_batch seg (seg_base_offset seg + Z.of_nat k) max = Ok [].
Proof.
  intros Hv He Hk Hn. unfold LogSegment_read, LogSegment_read_batch.
  rewrite !(proj2 (Z.ltb_ge _ _)), !(proj2 (Z.leb_gt _ _)) by lia.
  destruct (LogSegment_cursor_spec _ _ _ k Hv) as (i & Hi & ->). rewrite !outcome_bind_Ok.
  pose proof (segment_view_fuel _ _ _ i Hv). pose proof (sv_log _ _ _ Hv) as Hlog. split.
  - by apply (read_loop_tail _ rs).
  - rewrite (batch_loop_log _ rs tail i k _ max [] e); [|done|done|done|simpl; lia].
    by rewrite drop_ge, app_nil_r, take_nil by lia.
Qed.

(** One append at the end of a log file, whatever is before it, when the index is not due. *)
Lemma append_behind d seg content m :
  let r := make_record (seg_config seg) (seg_next_offset seg) m in
  let d' := set_content d (f_path (seg_log_file seg)) (content ++ encoded r) in
  file_content d (f_path (seg_log_file seg)) = content → record_ok r →
  seg_records_since_index seg < sc_index_interval (seg_config seg) →
  0 ≤ seg_next_offset seg → seg_next_offset seg + 1 < 2 ^ 64 →
  ∃ seg', LogSegment_append [m] (d, seg) = ((d', seg'), Ok (seg_next_offset seg)) ∧
    seg_base_offset seg' = seg_base_offset seg ∧ seg_mmap seg' = Some (content ++ encoded r) ∧
    seg_index seg' = seg_index seg ∧ seg_next_offset seg' = seg_next_offset seg + 1.
Proof.
  intros r d' Hfc Hr Hint Hn0 Hn1. unfold LogSegment_append. rewrite decide_False by done.
  unfold eff_get, eff_put, eff_modify, mbind, eff_bind, mret, eff_ret.
  cbn [append_loop]. unfold append_message, eff_get, eff_lift, eff_put, mbind, eff_bind, mret, eff_ret.
  set (seg1 := seg_set_log_file (seek_end d (seg_log_file seg)) seg).
  change (seg_next_offset seg1) with (seg_next_offset seg).
  change (seg_config seg1) with (seg_config seg). fold r.
  rewrite (encoded_Ok r Hr). unfold write_all, seek_end. cbn [seg_log_file seg1 seg_set_log_file f_path f_pos seek_end].
  rewrite Hfc, write_at_end. fold d'.
  cbn [seg_records_since_index seg_config seg_set_log_file seg1]. rewrite (proj2 (Z.leb_gt _ _) Hint).
  unfold LogSegment_remap, file_len, mmap_map.
  cbn [seg_log_file seg_set_next seg_set_size seg_set_log_file f_path].
  unfold d'. rewrite file_content_set, (proj2 (Z.ltb_lt _ _)).
  2: { rewrite length_app. pose proof (length_encoded r Hr). lia. }
  eexists. split; [reflexivity|].
  cbn [seg_base_offset seg_mmap seg_index seg_next_offset seg_set_mmap seg_set_next seg_set_size seg_set_log_file seg1].
  split_and!; [done..|]. apply w64_small. unfold is_u64. lia.
Qed.

(** What is appended behind a torn write is lost: the segment opened on it acknowledges
    the append of a message with an offset, but reading that offset fails and a batch
    from it is empty, as long as the torn bytes and the new record do not happen to
    decode together. *)
Theorem torn_tail_swallows_appends d dir base config rs tail es m e :
  segment_torn d dir base rs tail es → tail ≠ [] → 0 < sc_index_interval config →
  let offset := base + Z.of_nat (Nat.max 1 (length rs)) in
  let r := make_record config offset m in
  record_ok r → DiskRecord_decode (tail ++ encoded r) = Err e → offset + 1 < 2 ^ 64 →
  ∃ seg d' seg',
    LogSegment_open base dir config d = (d, Ok seg) ∧
    LogSegment_append [m] (d, seg) = ((d', seg'), Ok offset) ∧
    LogSegment_read seg' offset = Err e ∧
    ∀ max, LogSegment_read_batch seg' offset max = Ok [].
Proof.
  intros [Hl (part & Hpart & Hx) [e0 Htail] [Hb Hb1] Hlog Hfits Hwf Hs Hiok] Hne Hint offset r Hr Hdec Hoff.
  destruct (OffsetIndex_open_view d _ es part Hx Hpart Hwf Hs) as (ix & Hopen & Hix).
  destruct (LogSegment_open_aux d dir base config rs tail ix e0)
    as (seg & Ho & (Hbase & Hcfg & Hlp & Hxp) & Hlf & Heq & _ & _ & Hn & Hsi); try done.
  { intros _. by apply Hb1. }
  rewrite decide_False in Hn by (intros [_ ?]%app_nil; done). fold offset in Hn.
  destruct (append_behind d seg (encode_log rs ++ tail) m) as (seg' & Happ & Hb' & Hm' & Hi' & Hn');
    rewrite ?Hcfg, ?Hn, ?Hlf, ?Hsi in *; [|done|done| |done|].
  { unfold file_content. by rewrite Hl. }
  { unfold is_u64 in Hb. lia. }
  fold r in Happ, Hm'. rewrite <-app_assoc in Hm'. rewrite Hbase in Hb'.
  eexists seg, _, seg'. split; [done|]. split; [exact Happ|].
  assert (segment_view seg' rs (tail ++ encoded r)) as Hv.
  { split; [done|by eexists|by rewrite Hb'|]. exists es. by rewrite Hi', Hb', Heq. }
  unfold offset. rewrite <-Hb'.
  split; [|intros max]; eapply (torn_view_hides seg' rs _ e _ _ Hv Hdec);
    rewrite ?Hb', ?Hn'; unfold offset; lia.
  Unshelve. exact 0.
Qed.
End recovery_properties.
