(* ===== verification/Topic.v ===== *)
(** * Topic and TopicManager

    [storage/src/topic.rs].  A topic is a list of partitions, and the manager a map of
    topics over a data directory.  The program shares topics and partitions between its
    tasks ([Arc]): an operation on a topic that was looked up acts on the topic in the
    map. *)
From S2P Require Import Prelude Bytes Text Common Messages Compression DiskRecord FileSystem.
From S2P Require Import OffsetIndex Retention Segment Partition.

Record Topic : Type := {
  tp_name : string;
  tp_partitions : list Partition;
}.

Record TopicManager : Type := {
  tm_topics : gmap string Topic;
  tm_data_dir : path;
}.

Definition Topic_num_partitions (t : Topic) : Z := w32 (Z.of_nat (length (tp_partitions t))).

(** [Vec::get] with a [u32] index. *)
Definition get_index {A} (l : list A) (i : Z) : option A := l !! Z.to_nat i.

Definition Topic_get_partition (t : Topic) (partition_id : Z) : Result Partition :=
  ok_or (PartitionNotFound (tp_name t) partition_id) (get_index (tp_partitions t) partition_id).

(** The partition number in the name of a directory. *)
Definition partition_dir_id (name : string) : option Z :=
  match strip_prefix "partition-" name with
  | Some id_str => parse_u32 id_str
  | None => None
  end.

Definition TopicManager_new (data_dir : path) : Method disk TopicManager :=
  _ ← eff_modify (λ d, create_dir_all d data_dir);
  mret {| tm_topics := ∅; tm_data_dir := data_dir |}.

Definition TopicManager_get_topic (tm : TopicManager) (name : string) : Result Topic :=
  ok_or (TopicNotFound name) (tm_topics tm !! name).

Definition TopicManager_list_topics `{HashIter} (tm : TopicManager) : list string :=
  (map_iter (tm_topics tm)).*1.
Definition TopicManager_topic_count (tm : TopicManager) : nat := size (tm_topics tm).

Section topic.
Context `{Crc32} `{CompressionLib}.

(** The loop [for i in 0..num_partitions]; [n] turns are left. *)
Fixpoint new_partitions (n : nat) (i : Z) (name : string) (data_dir : path)
    : Method disk (list Partition) :=
  match n with
  | O => mret []
  | S n =>
      partition ← Partition_new name i data_dir;
      partitions ← new_partitions n (i + 1) name data_dir;
      mret (partition :: partitions)
  end.

Definition Topic_new (name : string) (num_partitions : Z) (data_dir : path) : Method disk Topic :=
  partitions ← new_partitions (Z.to_nat num_partitions) 0 name data_dir;
  mret {| tp_name := name; tp_partitions := partitions |}.

Fixpoint open_partitions (ids : list Z) (name : string) (data_dir : path)
    : Method disk (list Partition) :=
  match ids with
  | [] => mret []
  | id :: ids =>
      partition ← Partition_open name id data_dir;
      partitions ← open_partitions ids name data_dir;
      mret (partition :: partitions)
  end.

Definition Topic_open (name : string) (data_dir : path) : Method disk Topic :=
  let topic_dir := path_join data_dir name in
  d ← eff_get;
  names ← eff_lift (read_dir d topic_dir);
  let partition_ids :=
    omap (λ entry, if is_dir d (path_join topic_dir entry) then partition_dir_id entry else None)
      names in
  if decide (partition_ids = []) then
    eff_lift (Err (Storage ("No partitions found for topic: " +:+ name)))
  else
    partitions ← open_partitions (sort_Z partition_ids) name data_dir;
    mret {| tp_name := name; tp_partitions := partitions |}.

(** The loop over the entries of the data directory: a topic that does not open is
    skipped. *)
Fixpoint open_topics (names : list string) (data_dir : path) (topics : gmap string Topic)
    : Method disk (gmap string Topic) :=
  match names with
  | [] => mret topics
  | topic_name :: names => λ d,
      if is_dir d (path_join data_dir topic_name) then
        match Topic_open topic_name data_dir d with
        | (d, Ok topic) => open_topics names data_dir (<[topic_name := topic]> topics) d
        | (d, Err _) => open_topics names data_dir topics d
        | (d, Panic) => (d, Panic)
        end
      else open_topics names data_dir topics d
  end.

Definition TopicManager_open (data_dir : path) : Method disk TopicManager :=
  d ← eff_get;
  topics ←
    (if is_dir d data_dir || bool_decide (is_Some (files d !! data_dir)) then
       names ← eff_lift (read_dir d data_dir);
       open_topics names data_dir ∅
     else mret ∅);
  mret {| tm_topics := topics; tm_data_dir := data_dir |}.

Definition TopicManager_create_topic (name : string) (num_partitions : Z)
    : Method (disk * TopicManager) unit :=
  '(_, tm) ← eff_get;
  match tm_topics tm !! name with
  | Some _ => eff_lift (Err (InvalidMessage ("Topic '" +:+ name +:+ "' already exists")))
  | None =>
      topic ← on_disk (Topic_new name num_partitions (tm_data_dir tm));
      eff_modify (λ '(d, tm),
        (d, {| tm_topics := <[name := topic]> (tm_topics tm); tm_data_dir := tm_data_dir tm |}))
  end.

(** A method of a partition of a topic. *)
Definition on_partition {A} (partition_id : Z) (m : Method (disk * Partition) A)
    : Method (disk * Topic) A := λ '(d, t),
  match Topic_get_partition t partition_id with
  | Ok p =>
      let '((d, p), r) := m (d, p) in
      ((d, {| tp_name := tp_name t;
              tp_partitions := <[Z.to_nat partition_id := p]> (tp_partitions t) |}), r)
  | Err e => ((d, t), Err e)
  | Panic => ((d, t), Panic)
  end.

Definition Topic_append (partition_id : Z) (messages : list Message) : Method (disk * Topic) Z :=
  on_partition partition_id (Partition_append messages).

Definition Topic_fetch (t : Topic) (partition_id offset max_messages : Z) : Result (list Record_) :=
  partition ← Topic_get_partition t partition_id;
  Partition_fetch partition offset max_messages.

(** A method of a topic that was looked up. *)
Definition on_topic {A} (name : string) (m : Method (disk * Topic) A)
    : Method (disk * TopicManager) A := λ '(d, tm),
  match TopicManager_get_topic tm name with
  | Ok t =>
      let '((d, t), r) := m (d, t) in
      ((d, {| tm_topics := <[name := t]> (tm_topics tm); tm_data_dir := tm_data_dir tm |}), r)
  | Err e => ((d, tm), Err e)
  | Panic => ((d, tm), Panic)
  end.

End topic.

(** ** The abstract topics: for every topic, one list of messages per partition *)
Abbreviation topic_logs := (list (list Message)).

Fixpoint records_at (name : string) (id o : Z) (ms : list Message) : list Record_ :=
  match ms with
  | [] => []
  | m :: ms =>
      {| rec_topic := name; rec_partition := id; rec_offset := o; rec_message := m |} ::
      records_at name id (o + 1) ms
  end.

Section topic_spec.
Context `{Crc32} `{CompressionLib}.

(** Partition [id] of the topic [name] holds the messages [ms]. *)
Record partition_ok (d : disk) (data_dir : path) (name : string) (id : Z) (p : Partition)
    (ms : list Message) (room : nat) : Prop := {
  po_id : pt_partition_id p = id;
  po_topic : pt_topic_name p = name;
  po_dir : pt_data_dir p = partition_dir data_dir name id;
  po_config : pt_config p = SegmentConfig_default;
  po_holds : Partition_holds d p 0 ms room;
}.

Record Topic_holds (d : disk) (data_dir : path) (name : string) (t : Topic) (logs : topic_logs)
    (room : nat) : Prop := {
  th_name : tp_name t = name;
  th_length : length (tp_partitions t) = length logs;
  th_partitions : ∀ i p ms, tp_partitions t !! i = Some p → logs !! i = Some ms →
    partition_ok d data_dir name (Z.of_nat i) p ms room;
}.

(** Partition [id] of the topic [name] exists. *)
Definition has_partition (spec : gmap string topic_logs) (name : string) (id : Z) : Prop :=
  ∃ logs, spec !! name = Some logs ∧ 0 ≤ id < Z.of_nat (length logs).

Record Manager_holds (d : disk) (tm : TopicManager) (spec : gmap string topic_logs)
    (room : nat) : Prop := {
  mh_topics : ∀ name, option_relation
    (λ t logs, Topic_holds d (tm_data_dir tm) name t logs room) (λ _, False) (λ _, False)
    (tm_topics tm !! name) (spec !! name);
  mh_u32 : ∀ name logs, spec !! name = Some logs → is_u32 (Z.of_nat (length logs));
  mh_data_dir : tm_data_dir tm ∈ dirs d;
  mh_topic_dir : ∀ name id, has_partition spec name id → path_join (tm_data_dir tm) name ∈ dirs d;
  (* the directories of partitions are those of the topics *)
  mh_dirs : ∀ name entry id,
    path_join (path_join (tm_data_dir tm) name) entry ∈ dirs d → partition_dir_id entry = Some id →
    entry = "partition-" +:+ fmt_dec id ∧ has_partition spec name id;
  mh_fresh : ∀ name id entry, is_u32 id →
    is_Some (files d !! path_join (partition_dir (tm_data_dir tm) name id) entry) ∨
      path_join (partition_dir (tm_data_dir tm) name id) entry ∈ dirs d →
    has_partition spec name id;
}.

(** What a reader sees: the messages that each partition serves. *)
Definition partition_serves (name : string) (id : Z) (p : Partition) (ms : list Message) : Prop :=
  ∀ offset max, is_u64 offset → is_u32 max →
    Partition_fetch p offset max =
      Ok (records_at name id offset (take (Z.to_nat max) (drop (Z.to_nat offset) ms))).
(** [Q] relates the partitions of the topic to its logs. *)
Definition topic_opens (Q : Z → Partition → list Message → Prop) (name : string) (t : Topic)
    (logs : topic_logs) : Prop :=
  tp_name t = name ∧ length (tp_partitions t) = length logs ∧
  ∀ i p ms, tp_partitions t !! i = Some p → logs !! i = Some ms → Q (Z.of_nat i) p ms.
Definition Topic_serves (name : string) : Topic → topic_logs → Prop :=
  topic_opens (partition_serves name) name.
Record Manager_serves (tm : TopicManager) (spec : gmap string topic_logs) : Prop := {
  ms_topics : ∀ name, option_relation (Topic_serves name) (λ _, False) (λ _, False)
    (tm_topics tm !! name) (spec !! name);
  ms_u32 : ∀ name logs, spec !! name = Some logs → is_u32 (Z.of_nat (length logs));
}.
End topic_spec.

(** What the operations of a manager may change outside the directories of partitions:
    they create such directories. *)
Record topics_frame (data_dir : path) (d d' : disk) : Prop := {
  tf_dirs : ∀ q, q ∈ dirs d → q ∈ dirs d';
  tf_files : ∀ q, (length q ≤ S (S (length data_dir)))%nat → files d' !! q = files d !! q;
  tf_new : ∀ name entry, path_join (path_join data_dir name) entry ∈ dirs d' →
    path_join (path_join data_dir name) entry ∈ dirs d ∨
    ∃ id, is_u32 id ∧ entry = "partition-" +:+ fmt_dec id;
}.

Section topic_facts.
Context `{Crc32Laws} `{CompressionLaws}.

Lemma partition_dir_inj data_dir name name' id id' :
  is_u32 id → is_u32 id' →
  partition_dir data_dir name id = partition_dir data_dir name' id' → name = name' ∧ id = id'.
Proof.
  unfold partition_dir, is_u32. intros Hid Hid' [Heq1 Heq2]%path_join_inj_2.
  apply path_join_inj_2 in Heq1 as [_ ->]. split; [done|].
  apply fmt_dec_inj; [unfold is_u64; lia..|].
  apply (f_equal (strip_prefix "partition-")) in Heq2. rewrite !strip_prefix_app in Heq2. congruence.
Qed.
Lemma length_partition_dir data_dir name id :
  length (partition_dir data_dir name id) = S (S (length data_dir)).
Proof. unfold partition_dir. by rewrite !length_path_join. Qed.

Lemma partition_ok_same d d' data_dir name id p ms room :
  dir_same (partition_dir data_dir name id) d d' →
  partition_ok d data_dir name id p ms room → partition_ok d' data_dir name id p ms room.
Proof. intros Hd []. split; try done. eapply Partition_inv_same; [|done]. by rewrite po_dir0. Qed.
Lemma partition_ok_room d data_dir name id p ms room room' :
  (room' ≤ room)%nat → partition_ok d data_dir name id p ms room →
  partition_ok d data_dir name id p ms room'.
Proof. intros Hr []. split; try done. by eapply Partition_inv_room. Qed.

(** The records of a fetch, by the topic and the partition they are in. *)
Lemma records_from_at p name id o ms :
  pt_topic_name p = name → pt_partition_id p = id → records_from p o ms = records_at name id o ms.
Proof. intros <- <-. revert o. induction ms as [|m ms IH]; intros o; simpl; [done|]. by rewrite IH. Qed.

(** ** Creating a topic *)
Lemma default_config_ok :
  0 < sc_max_size SegmentConfig_default ∧ is_u32 (sc_index_interval SegmentConfig_default).
Proof. done. Qed.

Lemma Partition_new_aux d name id data_dir :
  let dir := partition_dir data_dir name id in
  (∀ entry, files d !! path_join dir entry = None ∧ path_join dir entry ∉ dirs d) →
  ∃ d' p, Partition_new name id data_dir d = (d', Ok p) ∧
    (∀ room, partition_ok d' data_dir name id p [] room) ∧
    dir_frame dir (create_dir_all d dir) d'.
Proof.
  intros dir Hempty. destruct default_config_ok as [Hm Hi].
  destruct (Partition_with_config_aux d name id data_dir SegmentConfig_default Hm Hi Hempty)
    as (d' & p & Hnew & ? & ? & ? & Hcfg & Hinv & Hfr).
  exists d', p. split_and!; [done| |done]. intros room. split; try done.
  unfold Partition_holds. rewrite Hcfg. apply Hinv.
Qed.

(** The partitions [i .. i + n - 1] of a topic are new on the disk. *)
Definition fresh_partitions (d : disk) (data_dir : path) (name : string) (i : Z) (n : nat) : Prop :=
  ∀ id entry, i ≤ id < i + Z.of_nat n →
    files d !! path_join (partition_dir data_dir name id) entry = None ∧
    path_join (partition_dir data_dir name id) entry ∉ dirs d.

(** What creating them changes. *)
Record partitions_created (d d' : disk) (data_dir : path) (name : string) (i : Z) (n : nat) : Prop := {
  pc_files : ∀ q, (∀ id, i ≤ id < i + Z.of_nat n → parent q ≠ partition_dir data_dir name id) →
    files d' !! q = files d !! q;
  pc_dirs : ∀ q, q ∈ dirs d' ↔
    (∃ id m, i ≤ id < i + Z.of_nat n ∧ q = take m (partition_dir data_dir name id)) ∨ q ∈ dirs d;
}.

Lemma partitions_created_same d d' data_dir name i n q :
  partitions_created d d' data_dir name i n → length q = S (S (length data_dir)) →
  (∀ id, i ≤ id < i + Z.of_nat n → q ≠ partition_dir data_dir name id) →
  dir_same q d d'.
Proof.
  intros [Hf Hd] Hlen Hne. split; [intros Hq; apply Hd; by right|].
  intros entry. split; [apply Hf; intros id; rewrite parent_join; by apply Hne|].
  rewrite Hd. split; [|by right]. intros [(id & m & _ & Heq)|?]; [|done].
  apply (f_equal length) in Heq.
  rewrite length_path_join, length_take, length_partition_dir in Heq. lia.
Qed.

Lemma new_partitions_aux n d i name data_dir :
  0 ≤ i → i + Z.of_nat n < 2 ^ 32 → fresh_partitions d data_dir name i n →
  ∃ d' ps, new_partitions n i name data_dir d = (d', Ok ps) ∧ length ps = n ∧
    (∀ k p room, ps !! k = Some p → partition_ok d' data_dir name (i + Z.of_nat k) p [] room) ∧
    partitions_created d d' data_dir name i n.
Proof.
  revert d i. induction n as [|n IH]; intros d i Hi Hn Hfresh.
  { exists d, []. split_and!; [done|done|done|]. split; [done|].
    intros q. split; [by right|]. intros [(?&?&?&_)|?]; [lia|done]. }
  destruct (Partition_new_aux d name i data_dir) as (d1 & p & Hnew & Hp & [Hfd Hff]);
    [intros entry; apply Hfresh; lia|].
  assert (∀ id, i < id < i + Z.of_nat (S n) →
    partition_dir data_dir name id ≠ partition_dir data_dir name i) as Hne.
  { intros id Hid Heq. apply partition_dir_inj in Heq as [_ ->]; [lia|unfold is_u32; lia..]. }
  assert (dir_frame (partition_dir data_dir name i) (create_dir_all d (partition_dir data_dir name i)) d1) as Hfr1
    by by split.
  destruct (IH d1 (i + 1)) as (d2 & ps & Hps & Hlen & Hall & Hcr); [lia|lia| |].
  { intros id entry Hid. destruct (Hfresh id entry) as [Hf Hd]; [lia|].
    assert (dir_same (partition_dir data_dir name id) d d1) as Hs.
    { transitivity (create_dir_all d (partition_dir data_dir name i)).
      - apply create_dir_all_same. by rewrite !length_partition_dir.
      - eapply dir_frame_same; [|done]. apply Hne. lia. }
    destruct (proj2 Hs entry) as [-> ->]. done. }
  exists d2, (p :: ps). split_and!.
  - cbn [new_partitions]. unfold mbind, eff_bind, mret, eff_ret. by rewrite Hnew, Hps.
  - simpl. by rewrite Hlen.
  - intros [|k] q room Hq; simpl in Hq.
    + injection Hq as <-. rewrite Z.add_0_r. eapply partition_ok_same; [|apply Hp].
      eapply partitions_created_same; [done|apply length_partition_dir|].
      intros id Hid Heq. apply (Hne id); [lia|done].
    + replace (i + Z.of_nat (S k)) with (i + 1 + Z.of_nat k) by lia. by apply Hall.
  - destruct Hcr as [Hcf Hcd]. split.
    + intros q Hq. rewrite Hcf by (intros; apply Hq; lia). rewrite Hff by (apply Hq; lia). done.
    + intros q. rewrite Hcd, Hfd, elem_of_create_dir_all. split.
      * intros [(id & m & Hid & ->)|[[m ->]|Hq]]; [left; exists id, m; split; [lia|done]|left|by right].
        exists i, m. split; [lia|done].
      * intros [(id & m & Hid & ->)|Hq]; [|by right; right].
        destruct (decide (id = i)) as [->|]; [right; left; by exists m|].
        left. exists id, m. split; [lia|done].
Qed.

Lemma partitions_created_frame d d' data_dir name i n :
  partitions_created d d' data_dir name i n → 0 ≤ i → i + Z.of_nat n ≤ 2 ^ 32 →
  topics_frame data_dir d d'.
Proof.
  intros [Hf Hd] Hi Hn. split.
  - intros q Hq. apply Hd. by right.
  - intros q Hq. apply Hf. intros id _ Heq. apply (f_equal length) in Heq.
    unfold parent in Heq. rewrite length_take, length_partition_dir in Heq. lia.
  - intros name' entry [(id & m & Hid & Heq)|Hq]%Hd; [right|by left]. exists id.
    split; [unfold is_u32; lia|]. rewrite take_ge in Heq.
    + unfold partition_dir in Heq. by apply path_join_inj_2 in Heq as [_ ->].
    + apply (f_equal length) in Heq.
      rewrite !length_path_join, length_take, length_partition_dir in Heq.
      rewrite length_partition_dir. lia.
Qed.

Lemma dir_frame_topics d d' data_dir name id :
  dir_frame (partition_dir data_dir name id) d d' → topics_frame data_dir d d'.
Proof.
  intros [Hd Hf]. split.
  - by rewrite Hd.
  - intros q Hq. apply Hf. intros Heq. apply (f_equal length) in Heq.
    unfold parent in Heq. rewrite length_take, length_partition_dir in Heq. lia.
  - intros name' entry. rewrite Hd. by left.
Qed.

(** ** The manager *)
Lemma Manager_lookup d tm spec room name logs :
  Manager_holds d tm spec room → spec !! name = Some logs →
  ∃ t, tm_topics tm !! name = Some t ∧ Topic_holds d (tm_data_dir tm) name t logs room.
Proof.
  intros Hm Hs. pose proof (mh_topics _ _ _ _ Hm name) as Hr. rewrite Hs in Hr.
  destruct (tm_topics tm !! name) as [t|]; [by exists t|done].
Qed.
Lemma Manager_lookup_None d tm spec room name :
  Manager_holds d tm spec room → spec !! name = None → tm_topics tm !! name = None.
Proof.
  intros Hm Hs. pose proof (mh_topics _ _ _ _ Hm name) as Hr. rewrite Hs in Hr.
  by destruct (tm_topics tm !! name).
Qed.
Lemma Manager_get_topic d tm spec room name :
  Manager_holds d tm spec room →
  match spec !! name with
  | Some logs => ∃ t, TopicManager_get_topic tm name = Ok t ∧
      Topic_holds d (tm_data_dir tm) name t logs room
  | None => TopicManager_get_topic tm name = Err (TopicNotFound name)
  end.
Proof.
  intros Hm. unfold TopicManager_get_topic. destruct (spec !! name) as [logs|] eqn:Hs.
  - destruct (Manager_lookup _ _ _ _ _ _ Hm Hs) as (t & -> & Ht). by exists t.
  - by rewrite (Manager_lookup_None _ _ _ _ _ Hm Hs).
Qed.
Lemma Topic_get d data_dir name t logs room pid :
  Topic_holds d data_dir name t logs room → 0 ≤ pid →
  match logs !! Z.to_nat pid with
  | Some ms => ∃ p, Topic_get_partition t pid = Ok p ∧
      tp_partitions t !! Z.to_nat pid = Some p ∧ partition_ok d data_dir name pid p ms room
  | None => Topic_get_partition t pid = Err (PartitionNotFound name pid)
  end.
Proof.
  intros [Hn Hl Hp] Hpid. unfold Topic_get_partition, get_index. rewrite Hn.
  destruct (logs !! Z.to_nat pid) as [ms|] eqn:Hms.
  - pose proof (lookup_lt_Some _ _ _ Hms) as Hlt. rewrite <-Hl in Hlt.
    destruct (lookup_lt_is_Some_2 _ _ Hlt) as [p Hpp]. rewrite Hpp. exists p.
    specialize (Hp _ _ _ Hpp Hms). rewrite Z2Nat.id in Hp by done. done.
  - apply lookup_ge_None in Hms. rewrite lookup_ge_None_2 by lia. done.
Qed.

(** Every partition of the topics has a directory. *)
Lemma partition_ok_dir d data_dir name id p ms room :
  partition_ok d data_dir name id p ms room → partition_dir data_dir name id ∈ dirs d.
Proof. intros []. rewrite <-po_dir0. by destruct po_holds0 as (?&?&?&?&?&_&[]). Qed.

Lemma Topic_holds_same d d' data_dir name t logs room room' :
  (∀ i, (i < length logs)%nat → dir_same (partition_dir data_dir name (Z.of_nat i)) d d') →
  (room' ≤ room)%nat →
  Topic_holds d data_dir name t logs room → Topic_holds d' data_dir name t logs room'.
Proof.
  intros Hd Hr [Hn Hl Hp]. split; [done|done|]. intros i p ms Hip Hims.
  eapply partition_ok_same; [apply Hd; by eapply lookup_lt_Some|].
  eapply partition_ok_room; [done|]. by eapply Hp.
Qed.

Lemma TopicManager_new_aux d data_dir :
  (∀ name entry id, path_join (path_join data_dir name) entry ∈ dirs d → partition_dir_id entry ≠ Some id) →
  (∀ name id entry, files d !! path_join (partition_dir data_dir name id) entry = None ∧
     path_join (partition_dir data_dir name id) entry ∉ dirs d) →
  ∃ d' tm, TopicManager_new data_dir d = (d', Ok tm) ∧ tm_data_dir tm = data_dir ∧
    ∀ room, Manager_holds d' tm ∅ room.
Proof.
  intros Hdirs Hempty. unfold TopicManager_new, eff_modify, mbind, eff_bind, mret, eff_ret.
  eexists _, _. split; [reflexivity|]. split; [done|]. intros room.
  split; cbn [tm_topics tm_data_dir].
  - intros name. by rewrite !lookup_empty.
  - intros name logs. by rewrite lookup_empty.
  - apply create_dir_all_self.
  - intros name id (logs & Hl & _). by rewrite lookup_empty in Hl.
  - intros name entry id Hin Hid. rewrite create_dir_all_below in Hin
      by (rewrite !length_path_join; lia). by eapply Hdirs in Hid.
  - intros name id entry _ [Hf|Hd]; destruct (Hempty name id entry) as [Hf' Hd'].
    + unfold create_dir_all in Hf. cbn [files] in Hf. rewrite Hf' in Hf. by destruct Hf.
    + rewrite create_dir_all_below in Hd; [done|].
      rewrite length_path_join, length_partition_dir. lia.
Qed.

Lemma has_partition_insert spec name n name' id :
  spec !! name = None →
  has_partition (<[name := replicate n []]> spec) name' id ↔
  has_partition spec name' id ∨ (name' = name ∧ 0 ≤ id < Z.of_nat n).
Proof.
  intros Hs. unfold has_partition. destruct (decide (name' = name)) as [->|Hne].
  - rewrite lookup_insert_eq, Hs. split.
    + intros (logs & [= <-] & Hid). rewrite length_replicate in Hid. by right.
    + intros [(? & ? & _)|[_ Hid]]; [done|]. eexists. split; [done|]. by rewrite length_replicate.
  - rewrite lookup_insert_ne by done. split; [by left|]. by intros [?|[? _]].
Qed.

Lemma take_partition_dir data_dir name id m q :
  q = take m (partition_dir data_dir name id) → length q = S (length data_dir) →
  q = path_join data_dir name.
Proof.
  intros -> Hlen. rewrite length_take, length_partition_dir in Hlen.
  assert (m = S (length data_dir)) as -> by lia.
  unfold partition_dir. by rewrite take_path_join by (by rewrite length_path_join).
Qed.

Lemma partition_dir_id_fmt id : is_u32 id → partition_dir_id ("partition-" +:+ fmt_dec id) = Some id.
Proof. intros Hid. unfold partition_dir_id. rewrite strip_prefix_app. by apply parse_u32_fmt. Qed.

(** The manager that [create_topic] leaves. *)
Lemma Manager_holds_created d d' tm spec room name n ps :
  Manager_holds d tm spec room → spec !! name = None → is_u32 n →
  length ps = Z.to_nat n →
  (∀ k p, ps !! k = Some p → partition_ok d' (tm_data_dir tm) name (0 + Z.of_nat k) p [] room) →
  partitions_created d d' (tm_data_dir tm) name 0 (Z.to_nat n) →
  Manager_holds d' {| tm_topics := <[name := {| tp_name := name; tp_partitions := ps |}]> (tm_topics tm);
                      tm_data_dir := tm_data_dir tm |} (<[name := replicate (Z.to_nat n) []]> spec) room.
Proof.
  intros Hm Hs Hn Hlen Hok Hcr. pose proof Hm as [Hmt Hmu Hmd Hmtd Hmdirs Hmf]. unfold is_u32 in Hn.
  assert (∀ name' i, name' ≠ name → is_u32 i →
    dir_same (partition_dir (tm_data_dir tm) name' i) d d') as Hsame.
  { intros name' i Hne Hi. eapply partitions_created_same; [done|apply length_partition_dir|].
    intros id Hid Heq. apply partition_dir_inj in Heq as [? _]; [done|done|unfold is_u32; lia]. }
  destruct Hcr as [Hcf Hcd].
  split; cbn [tm_topics tm_data_dir].
  - intros name'. destruct (decide (name' = name)) as [->|Hne].
    + rewrite !lookup_insert_eq. split; cbn [tp_name tp_partitions]; [done|by rewrite length_replicate|].
      intros i p ms Hip Hims. apply lookup_replicate in Hims as [-> _]. by apply Hok.
    + rewrite !lookup_insert_ne by done. specialize (Hmt name').
      destruct (tm_topics tm !! name') as [t|], (spec !! name') as [logs|] eqn:Hl; try done.
      simpl in Hmt |- *. eapply Topic_holds_same; [|done|done].
      intros i Hi. apply Hsame; [done|]. specialize (Hmu _ _ Hl). unfold is_u32 in *. lia.
  - intros name' logs. destruct (decide (name' = name)) as [->|Hne].
    + rewrite lookup_insert_eq. intros [= <-]. rewrite length_replicate. unfold is_u32. lia.
    + rewrite lookup_insert_ne by done. apply Hmu.
  - apply Hcd. by right.
  - intros name' id Hp. rewrite has_partition_insert in Hp by done. destruct Hp as [Hp|[-> Hid]].
    + apply Hcd. right. by eapply Hmtd.
    + apply Hcd. left. exists id, (S (length (tm_data_dir tm))). split; [lia|].
      unfold partition_dir. by rewrite take_path_join by (by rewrite length_path_join).
  - intros name' entry id Hin Hid. rewrite has_partition_insert by done.
    apply Hcd in Hin as [(id' & m & Hid' & Heq)|Hin].
    + assert (path_join (path_join (tm_data_dir tm) name') entry = partition_dir (tm_data_dir tm) name id') as Heq'.
      { rewrite Heq, take_ge; [done|]. apply (f_equal length) in Heq.
        rewrite !length_path_join, length_take, length_partition_dir in Heq.
        rewrite length_partition_dir. lia. }
      unfold partition_dir in Heq'. apply path_join_inj_2 in Heq' as [Hn' ->].
      apply path_join_inj_2 in Hn' as [_ ->].
      rewrite partition_dir_id_fmt in Hid by (unfold is_u32; lia). injection Hid as ->.
      split; [done|]. right. split; [done|lia].
    + destruct (Hmdirs _ _ _ Hin Hid). by split; [|left].
  - intros name' id entry Hid Hin. rewrite has_partition_insert by done.
    destruct (decide (name' = name ∧ 0 ≤ id < n)) as [[-> Hid']|Hne]; [right; split; [done|lia]|].
    left. apply (Hmf name' id entry Hid).
    assert (dir_same (partition_dir (tm_data_dir tm) name' id) d d') as [_ Hs'].
    { eapply partitions_created_same; [by split|apply length_partition_dir|].
      intros id' Hid' Heq. apply partition_dir_inj in Heq as [-> ->]; [|done|unfold is_u32; lia].
      apply Hne. split; [done|lia]. }
    destruct (Hs' entry) as [<- <-]. done.
Qed.

Lemma Manager_create d tm spec room name n :
  Manager_holds d tm spec room → spec !! name = None → is_u32 n →
  ∃ d' tm', TopicManager_create_topic name n (d, tm) = ((d', tm'), Ok tt) ∧
    tm_data_dir tm' = tm_data_dir tm ∧
    Manager_holds d' tm' (<[name := replicate (Z.to_nat n) []]> spec) room ∧
    topics_frame (tm_data_dir tm) d d'.
Proof.
  intros Hm Hs Hn. pose proof Hm as [Hmt Hmu Hmd Hmtd Hmdirs Hmf]. unfold is_u32 in Hn.
  assert (¬ ∃ id, has_partition spec name id) as Hno.
  { intros (id & logs & Hl & _). by rewrite Hs in Hl. }
  destruct (new_partitions_aux (Z.to_nat n) d 0 name (tm_data_dir tm))
    as (d' & ps & Hnew & Hlen & Hok & Hcr); [lia|lia| |].
  { intros id entry Hid.
    assert (¬ is_Some (files d !! path_join (partition_dir (tm_data_dir tm) name id) entry) ∧
      path_join (partition_dir (tm_data_dir tm) name id) entry ∉ dirs d) as [Hf Hd].
    { split; intros Hin; apply Hno; exists id; eapply Hmf; eauto; unfold is_u32; lia. }
    split; [by apply eq_None_not_Some|done]. }
  eexists d', _. split; [|split; [|split]]; cycle 3.
  - eapply partitions_created_frame; [exact Hcr|lia|lia].
  - unfold TopicManager_create_topic, eff_get, mbind, eff_bind.
    rewrite (Manager_lookup_None _ _ _ _ _ Hm Hs). unfold on_disk, Topic_new, mbind, eff_bind.
    rewrite Hnew. reflexivity.
  - done.
  - apply (Manager_holds_created d); try done. intros k p. apply Hok.
Qed.

(** Other partitions do not see what happens in the directory of one. *)
Lemma other_partition_same d d' data_dir name pid name' id :
  is_u32 pid → is_u32 id → (name', id) ≠ (name, pid) →
  dir_frame (partition_dir data_dir name pid) d d' →
  dir_same (partition_dir data_dir name' id) d d'.
Proof.
  intros Hp Hi Hne Hfr. eapply dir_frame_same; [|done].
  intros [-> ->]%partition_dir_inj; done.
Qed.

(** What the append of one partition does to a topic. *)
Lemma Topic_append_aux d data_dir name t logs pid ms room new :
  Topic_holds d data_dir name t logs room → is_u32 (Z.of_nat (length logs)) → 0 ≤ pid →
  logs !! Z.to_nat pid = Some ms → new ≠ [] →
  Forall (message_fits SegmentConfig_default) new →
  Z.of_nat (length (ms ++ new)) < 2 ^ 64 →
  encoded_size SegmentConfig_default 0 (ms ++ new) < 2 ^ 64 → (length new ≤ room)%nat →
  ∃ d' t', Topic_append pid new (d, t) = ((d', t'), Ok (Z.of_nat (length ms))) ∧
    Topic_holds d' data_dir name t' (<[Z.to_nat pid := ms ++ new]> logs) (room - length new) ∧
    dir_frame (partition_dir data_dir name pid) d d'.
Proof.
  intros Ht Hu32 Hpid Hms Hne Hfit Hlen Hsize Hroom.
  pose proof (Topic_get _ _ _ _ _ _ pid Ht Hpid) as Hget. rewrite Hms in Hget.
  destruct Hget as (p & Hgp & Hpp & Hok).
  pose proof (lookup_lt_Some _ _ _ Hms) as Hlt. unfold is_u32 in Hu32.
  destruct Hok as [Hid Htn Hdir Hcfg Hholds].
  destruct (append_holds d p 0 ms room new) as (d' & p' & Happ & Hh & Hsame & Hfr);
    rewrite ?Hcfg; [done|done|done|lia|done|done|].
  rewrite Hdir in Hfr. destruct Hsame as (Hid' & Htn' & Hdir' & Hcfg').
  unfold Topic_append, on_partition. rewrite Hgp, Happ.
  eexists d', _. split; [by rewrite Z.add_0_l|]. split; [|done].
  destruct Ht as [Hn Hl Hp]. split; cbn [tp_name tp_partitions]; [done|by rewrite !length_insert|].
  intros i q ms' Hq Hms'. destruct (decide (i = Z.to_nat pid)) as [->|Hi].
  - rewrite list_lookup_insert_eq in Hq by lia. rewrite list_lookup_insert_eq in Hms' by lia.
    simplify_eq.
    rewrite Z2Nat.id by done. split; congruence || done.
  - rewrite list_lookup_insert_ne in Hq by done. rewrite list_lookup_insert_ne in Hms' by done.
    pose proof (lookup_lt_Some _ _ _ Hms').
    eapply partition_ok_room; [|eapply partition_ok_same; [|by eapply Hp]]; [lia|].
    eapply other_partition_same; [| | |done]; [unfold is_u32; lia|unfold is_u32; lia|].
    intros [= Heq]. lia.
Qed.

Lemma has_partition_update spec name logs pid (ms : list Message) name' id :
  spec !! name = Some logs →
  has_partition (<[name := <[pid := ms]> logs]> spec) name' id ↔ has_partition spec name' id.
Proof.
  intros Hs. unfold has_partition. destruct (decide (name' = name)) as [->|Hne].
  - rewrite lookup_insert_eq, Hs. split; intros (l & [= <-] & Hid); eexists; (split; [done|]);
      by rewrite length_insert in *.
  - by rewrite lookup_insert_ne.
Qed.

Lemma Manager_append d tm spec room name logs pid ms new :
  Manager_holds d tm spec room → spec !! name = Some logs → 0 ≤ pid →
  logs !! Z.to_nat pid = Some ms → new ≠ [] →
  Forall (message_fits SegmentConfig_default) new →
  Z.of_nat (length (ms ++ new)) < 2 ^ 64 →
  encoded_size SegmentConfig_default 0 (ms ++ new) < 2 ^ 64 → (length new ≤ room)%nat →
  ∃ d' tm', on_topic name (Topic_append pid new) (d, tm) = ((d', tm'), Ok (Z.of_nat (length ms))) ∧
    tm_data_dir tm' = tm_data_dir tm ∧
    Manager_holds d' tm' (<[name := <[Z.to_nat pid := ms ++ new]> logs]> spec) (room - length new) ∧
    topics_frame (tm_data_dir tm) d d'.
Proof.
  intros Hm Hs Hpid Hms Hne Hfit Hlen Hsize Hroom.
  pose proof (Manager_get_topic _ _ _ _ name Hm) as Hget. rewrite Hs in Hget.
  destruct Hget as (t & Hgt & Ht). pose proof (mh_u32 _ _ _ _ Hm _ _ Hs) as Hu.
  destruct (Topic_append_aux d _ name t logs pid ms room new Ht Hu Hpid Hms Hne Hfit Hlen Hsize Hroom)
    as (d' & t' & Happ & Ht' & Hfr).
  unfold on_topic. rewrite Hgt, Happ. eexists d', _. split; [done|]. split; [done|].
  split; [|by eapply dir_frame_topics].
  pose proof (lookup_lt_Some _ _ _ Hms) as Hlt. unfold is_u32 in Hu.
  destruct Hm as [Hmt Hmu Hmd Hmtd Hmdirs Hmf]. pose proof Hfr as [Hfd Hff].
  split; cbn [tm_topics tm_data_dir]; rewrite ?Hfd; try done.
  - intros name'. destruct (decide (name' = name)) as [->|Hne']; [by rewrite !lookup_insert_eq|].
    rewrite !lookup_insert_ne by done. specialize (Hmt name').
    destruct (tm_topics tm !! name') as [t0|], (spec !! name') as [logs0|] eqn:Hl; try done.
    simpl in Hmt |- *. eapply (Topic_holds_same d d' _ _ _ _ room); [|lia|done].
    intros i Hi. specialize (Hmu _ _ Hl). unfold is_u32 in Hmu.
    eapply other_partition_same; [| | |done]; [unfold is_u32; lia|unfold is_u32; lia|].
    by intros [= -> _].
  - intros name' logs'. destruct (decide (name' = name)) as [->|Hne'].
    + rewrite lookup_insert_eq. intros [= <-]. by rewrite length_insert.
    + rewrite lookup_insert_ne by done. apply Hmu.
  - intros name' id. rewrite has_partition_update by done. apply Hmtd.
  - intros name' entry id. rewrite has_partition_update by done. apply Hmdirs.
  - intros name' id entry Hid Hin. rewrite has_partition_update by done.
    destruct (decide ((name', id) = (name, pid))) as [[= -> ->]|Hne'].
    { exists logs. split; [done|lia]. }
    apply (Hmf name' id entry Hid). destruct Hin as [Hin|Hin]; [left|by right].
    rewrite Hff in Hin; [done|]. rewrite parent_join. intros Heq. apply Hne'.
    apply partition_dir_inj in Heq as [-> ->]; [done|done|unfold is_u32; lia].
Qed.

Lemma on_topic_no_partition d tm name t logs room pid new :
  TopicManager_get_topic tm name = Ok t → Topic_holds d (tm_data_dir tm) name t logs room →
  0 ≤ pid → logs !! Z.to_nat pid = None →
  on_topic name (Topic_append pid new) (d, tm) = ((d, tm), Err (PartitionNotFound name pid)).
Proof.
  intros Hgt Ht Hpid Hms. pose proof (Topic_get _ _ _ _ _ _ pid Ht Hpid) as Hg. rewrite Hms in Hg.
  unfold on_topic, Topic_append, on_partition. rewrite Hgt, Hg.
  unfold TopicManager_get_topic, ok_or in Hgt.
  destruct (tm_topics tm !! name) as [t'|] eqn:Hl; [|done]. injection Hgt as ->.
  rewrite insert_id by done. by destruct tm.
Qed.

(** An append of nothing is refused and changes nothing. *)
Lemma on_topic_empty d tm name t logs ms room pid :
  TopicManager_get_topic tm name = Ok t → Topic_holds d (tm_data_dir tm) name t logs room →
  0 ≤ pid → logs !! Z.to_nat pid = Some ms →
  on_topic name (Topic_append pid []) (d, tm) = ((d, tm), Err (InvalidMessage "No messages to append")).
Proof.
  intros Hgt Ht Hpid Hms. pose proof (Topic_get _ _ _ _ _ _ pid Ht Hpid) as Hg. rewrite Hms in Hg.
  destruct Hg as (p & Hg & Hp & _).
  unfold on_topic, Topic_append, on_partition. rewrite Hgt, Hg.
  unfold Partition_append. rewrite decide_True by done. unfold eff_lift.
  unfold TopicManager_get_topic, ok_or in Hgt.
  destruct (tm_topics tm !! name) as [t'|] eqn:Hl; [|done]. injection Hgt as ->.
  rewrite (list_insert_id _ _ _ Hp).
  replace {| tp_name := tp_name t; tp_partitions := tp_partitions t |} with t by by destruct t.
  rewrite insert_id by done. by destruct tm.
Qed.

(** ** Reading *)
Lemma partition_ok_serves d data_dir name id p ms room :
  partition_ok d data_dir name id p ms room → partition_serves name id p ms.
Proof.
  intros [] offset max Ho Hm. rewrite (fetch_holds _ _ _ _ _ _ _ po_holds0 Hm).
  rewrite decide_True by apply Ho. rewrite Z.sub_0_r. f_equal. by apply records_from_at.
Qed.

Lemma Topic_holds_serves d data_dir name t logs room :
  Topic_holds d data_dir name t logs room → Topic_serves name t logs.
Proof.
  intros [Hn Hl Hp]. split; [done|]. split; [done|]. intros i p ms Hip Hims.
  eapply partition_ok_serves. by eapply Hp.
Qed.

Lemma Manager_holds_serves d tm spec room : Manager_holds d tm spec room → Manager_serves tm spec.
Proof.
  intros Hm. split; [|apply Hm]. intros name. pose proof (mh_topics _ _ _ _ Hm name) as Hr.
  destruct (tm_topics tm !! name) as [t|], (spec !! name) as [logs|]; try done.
  by eapply Topic_holds_serves.
Qed.

Lemma serves_get_topic tm spec name :
  Manager_serves tm spec →
  match spec !! name with
  | Some logs => ∃ t, TopicManager_get_topic tm name = Ok t ∧ Topic_serves name t logs ∧
      is_u32 (Z.of_nat (length logs))
  | None => TopicManager_get_topic tm name = Err (TopicNotFound name)
  end.
Proof.
  intros [Hs Hu]. specialize (Hs name). specialize (Hu name). unfold TopicManager_get_topic.
  destruct (tm_topics tm !! name) as [t|], (spec !! name) as [logs|]; try done.
  exists t. split; [done|]. split; [done|]. by apply Hu.
Qed.

Lemma Topic_serves_count name t logs :
  Topic_serves name t logs → is_u32 (Z.of_nat (length logs)) →
  Topic_num_partitions t = Z.of_nat (length logs).
Proof. intros (_ & Hl & _) Hu. unfold Topic_num_partitions. rewrite Hl. by apply w32_small. Qed.

Lemma Topic_serves_fetch name t logs pid offset max :
  Topic_serves name t logs → 0 ≤ pid → is_u64 offset → is_u32 max →
  Topic_fetch t pid offset max =
    match logs !! Z.to_nat pid with
    | Some ms => Ok (records_at name pid offset (take (Z.to_nat max) (drop (Z.to_nat offset) ms)))
    | None => Err (PartitionNotFound name pid)
    end.
Proof.
  intros (Hn & Hl & Hp) Hpid Ho Hm. unfold Topic_fetch, Topic_get_partition, get_index.
  destruct (logs !! Z.to_nat pid) as [ms|] eqn:Hms.
  - pose proof (lookup_lt_Some _ _ _ Hms) as Hlt. rewrite <-Hl in Hlt.
    destruct (lookup_lt_is_Some_2 _ _ Hlt) as [p Hpp]. rewrite Hpp. unfold ok_or.
    rewrite outcome_bind_Ok. specialize (Hp _ _ _ Hpp Hms). rewrite Z2Nat.id in Hp by done. by apply Hp.
  - apply lookup_ge_None in Hms. rewrite lookup_ge_None_2 by lia. by rewrite Hn.
Qed.

Lemma Topic_fetch_aux d data_dir name t logs pid room offset max :
  Topic_holds d data_dir name t logs room → 0 ≤ pid → is_u64 offset → is_u32 max →
  Topic_fetch t pid offset max =
    match logs !! Z.to_nat pid with
    | Some ms => Ok (records_at name pid offset (take (Z.to_nat max) (drop (Z.to_nat offset) ms)))
    | None => Err (PartitionNotFound name pid)
    end.
Proof. intros Ht. eapply Topic_serves_fetch, Topic_holds_serves, Ht. Qed.

(** The manager does not see what happens outside the directories of topics. *)
Lemma Manager_holds_frame d d' tm spec room :
  (∀ q, q ∈ dirs d → q ∈ dirs d') →
  (∀ q, (S (length (tm_data_dir tm)) < length q)%nat → q ∈ dirs d' → q ∈ dirs d) →
  (∀ q, (S (S (length (tm_data_dir tm))) < length q)%nat → files d' !! q = files d !! q) →
  Manager_holds d tm spec room → Manager_holds d' tm spec room.
Proof.
  intros Hd1 Hd2 Hf [Hmt Hmu Hmd Hmtd Hmdirs Hmf]. split; [|done|auto| | |].
  - intros name. specialize (Hmt name).
    destruct (tm_topics tm !! name) as [t|], (spec !! name) as [logs|]; try done.
    simpl in Hmt |- *. eapply Topic_holds_same; [|done|done]. intros i _. split; [auto|].
    intros entry. split.
    + apply Hf. rewrite length_path_join, length_partition_dir. lia.
    + split; [|auto]. apply Hd2. rewrite length_path_join, length_partition_dir. lia.
  - intros name id Hp. eauto.
  - intros name entry id Hin. apply Hmdirs, Hd2; [|done]. rewrite !length_path_join. lia.
  - intros name id entry Hid Hin. apply (Hmf name id entry Hid).
    rewrite Hf in Hin by (rewrite length_path_join, length_partition_dir; lia).
    destruct Hin as [?|Hin]; [by left|right]. apply Hd2; [|done].
    rewrite length_path_join, length_partition_dir. lia.
Qed.

Lemma Manager_holds_room d tm spec room room' :
  (room' ≤ room)%nat → Manager_holds d tm spec room → Manager_holds d tm spec room'.
Proof.
  intros Hr [Hmt Hmu Hmd Hmtd Hmdirs Hmf]. split; try done. intros name. specialize (Hmt name).
  destruct (tm_topics tm !! name) as [t|], (spec !! name) as [logs|]; try done.
  simpl in Hmt |- *. eapply Topic_holds_same; [|done|done]. done.
Qed.

(** ** Opening *)
(** The directories of the topics: what a start finds on the disk before it opens any
    partition. *)
Record Manager_layout (d : disk) (data_dir : path) (spec : gmap string topic_logs) : Prop := {
  ml_u32 : ∀ name logs, spec !! name = Some logs → is_u32 (Z.of_nat (length logs));
  ml_data_dir : data_dir ∈ dirs d;
  ml_topic_dir : ∀ name id, has_partition spec name id → path_join data_dir name ∈ dirs d;
  ml_partition_dir : ∀ name id, has_partition spec name id → partition_dir data_dir name id ∈ dirs d;
  ml_dirs : ∀ name entry id,
    path_join (path_join data_dir name) entry ∈ dirs d → partition_dir_id entry = Some id →
    entry = "partition-" +:+ fmt_dec id ∧ has_partition spec name id;
}.

Lemma Manager_holds_layout d tm spec room :
  Manager_holds d tm spec room → Manager_layout d (tm_data_dir tm) spec.
Proof.
  intros Hm. split; try apply Hm. intros name id (logs & Hl & Hid).
  destruct (Manager_lookup _ _ _ _ _ _ Hm Hl) as (t & _ & [_ Hlen Hps]).
  destruct (lookup_lt_is_Some_2 logs (Z.to_nat id)) as [ms Hms]; [lia|].
  destruct (lookup_lt_is_Some_2 (tp_partitions t) (Z.to_nat id)) as [p Hpp]; [lia|].
  specialize (Hps _ _ _ Hpp Hms). rewrite Z2Nat.id in Hps by lia. by eapply partition_ok_dir.
Qed.

Lemma has_partition_same spec spec' name id :
  (∀ name, length <$> spec' !! name = length <$> spec !! name) →
  has_partition spec' name id ↔ has_partition spec name id.
Proof.
  intros Hs. specialize (Hs name). unfold has_partition.
  destruct (spec !! name) as [logs|], (spec' !! name) as [logs'|]; simplify_eq/=.
  2: { by split; intros (? & ? & _). }
  split; intros (? & [= <-] & ?); eexists; (split; [done|lia]).
Qed.

(** It depends on the directories of the disk and the numbers of partitions only. *)
Lemma Manager_layout_same d d' data_dir spec spec' :
  dirs d' = dirs d → (∀ name, length <$> spec' !! name = length <$> spec !! name) →
  Manager_layout d data_dir spec → Manager_layout d' data_dir spec'.
Proof.
  intros Hd Hs [Hu Hdd Htd Hpd Hds]. pose proof (λ name id, has_partition_same _ _ name id Hs) as Hp.
  split; [|by rewrite Hd|..].
  - intros name logs Hl. specialize (Hs name). rewrite Hl in Hs.
    destruct (spec !! name) as [logs'|] eqn:Hl'; simplify_eq/=. rewrite Hs. by eapply Hu.
  - intros name id. rewrite Hp, Hd. apply Htd.
  - intros name id. rewrite Hp, Hd. apply Hpd.
  - intros name entry id. rewrite Hp, Hd. apply Hds.
Qed.

(** Opening the partitions one after the other, when each of them opens. *)
Lemma open_partitions_all d data_dir name (Q : Z → Partition → list Message → Prop) i logs :
  (∀ k ms, logs !! k = Some ms →
    ∃ p, Partition_open name (i + Z.of_nat k) data_dir d = (d, Ok p) ∧ Q (i + Z.of_nat k) p ms) →
  ∃ ps, open_partitions (seqZ i (Z.of_nat (length logs))) name data_dir d = (d, Ok ps) ∧
    length ps = length logs ∧
    ∀ k p ms, ps !! k = Some p → logs !! k = Some ms → Q (i + Z.of_nat k) p ms.
Proof.
  revert i. induction logs as [|ms logs IH]; intros i Hopen.
  { exists []. done. }
  cbn [length]. rewrite seqZ_cons by lia. rewrite Nat2Z.inj_succ, Z.pred_succ.
  destruct (Hopen 0%nat ms eq_refl) as (p & Ho & HQ). rewrite Z.add_0_r in Ho, HQ.
  destruct (IH (Z.succ i)) as (ps & Hos & Hl & Hall).
  { intros k ms' Hms'. specialize (Hopen (S k) ms' Hms').
    by replace (Z.succ i + Z.of_nat k) with (i + Z.of_nat (S k)) by lia. }
  exists (p :: ps). split; [|split; [by rewrite <-Hl|]].
  - cbn [open_partitions]. unfold mbind, eff_bind, mret, eff_ret. by rewrite Ho, Hos.
  - intros [|k] q ms' Hq Hms'; simpl in Hq, Hms'; simplify_eq; [by rewrite Z.add_0_r|].
    replace (i + Z.of_nat (S k)) with (Z.succ i + Z.of_nat k) by lia. by eapply Hall.
Qed.

(** When one of them does not open, none is. *)
Lemma open_partitions_fails d data_dir name e n i j :
  i ≤ j < i + Z.of_nat n → (∀ k, i ≤ k < j → ∃ p, Partition_open name k data_dir d = (d, Ok p)) →
  Partition_open name j data_dir d = (d, Err e) →
  open_partitions (seqZ i (Z.of_nat n)) name data_dir d = (d, Err e).
Proof.
  revert i. induction n as [|n IH]; intros i Hj Hopen Hfail; [lia|].
  rewrite seqZ_cons, Nat2Z.inj_succ, Z.pred_succ by lia.
  cbn [open_partitions]. unfold mbind, eff_bind, mret, eff_ret.
  destruct (decide (i = j)) as [->|Hne]; [by rewrite Hfail|].
  destruct (Hopen i) as [p ->]; [lia|]. rewrite IH; [done|lia| |done]. intros k Hk. apply Hopen. lia.
Qed.

(** The partition numbers that the directory of a topic gives. *)
Definition topic_partition_ids (d : disk) (topic_dir : path) (names : list string) : list Z :=
  omap (λ entry, if is_dir d (path_join topic_dir entry) then partition_dir_id entry else None) names.

Section layout.
Context (d : disk) (data_dir : path) (spec : gmap string topic_logs).
Context (Hlay : Manager_layout d data_dir spec).

Lemma elem_of_topic_partition_ids name names id :
  read_dir d (path_join data_dir name) = Ok names →
  id ∈ topic_partition_ids d (path_join data_dir name) names ↔ has_partition spec name id.
Proof.
  intros Hnames. unfold topic_partition_ids. rewrite list_elem_of_omap. unfold is_dir. split.
  - intros (entry & Hin & Hid). case_bool_decide as Hd; [|done]. by eapply (ml_dirs _ _ _ Hlay).
  - intros Hp. pose proof (ml_partition_dir _ _ _ Hlay _ _ Hp) as Hdir. unfold partition_dir in Hdir.
    destruct Hp as (logs & Hl & Hid). pose proof (ml_u32 _ _ _ Hlay _ _ Hl) as Hu. unfold is_u32 in Hu.
    exists ("partition-" +:+ fmt_dec id). rewrite bool_decide_true by done. split.
    + apply (elem_of_read_dir _ _ _ _ Hnames). by right.
    + apply partition_dir_id_fmt. unfold is_u32. lia.
Qed.

Lemma topic_partition_ids_sorted name names logs :
  read_dir d (path_join data_dir name) = Ok names → spec !! name = Some logs →
  sort_Z (topic_partition_ids d (path_join data_dir name) names) = seqZ 0 (Z.of_nat (length logs)).
Proof.
  intros Hnames Hl. apply sort_Z_unique.
  - apply NoDup_omap_inj; [by eapply read_dir_NoDup|]. unfold is_dir.
    intros x y b _ _ Hx Hy. case_bool_decide as Hdx; [|done]. case_bool_decide as Hdy; [|done].
    destruct (ml_dirs _ _ _ Hlay _ _ _ Hdy Hx) as [-> _].
    by destruct (ml_dirs _ _ _ Hlay _ _ _ Hdx Hy) as [-> _].
  - generalize (length logs) 0. clear. intros n. induction n as [|n IH]; intros i; [constructor|].
    rewrite seqZ_cons, Nat2Z.inj_succ, Z.pred_succ by lia. constructor; [apply IH|].
    apply Forall_forall. intros x Hx%elem_of_seqZ. lia.
  - intros x. rewrite (elem_of_topic_partition_ids _ _ _ Hnames), elem_of_seqZ.
    unfold has_partition. rewrite Hl. split; [|intros; exists logs; split; [done|lia]].
    intros (? & [= <-] & ?). lia.
Qed.

(** Opening the directory of a topic opens its partitions in order; a directory without
    partitions is no topic. *)
Lemma Topic_open_layout name :
  path_join data_dir name ∈ dirs d →
  match spec !! name with
  | Some (ms :: logs) => Topic_open name data_dir d =
      (partitions ← open_partitions (seqZ 0 (Z.of_nat (length (ms :: logs)))) name data_dir;
       mret {| tp_name := name; tp_partitions := partitions |}) d
  | _ => ∃ e, Topic_open name data_dir d = (d, Err e)
  end.
Proof.
  intros Hdir. unfold Topic_open, eff_get, eff_lift, mbind, eff_bind, mret, eff_ret.
  destruct (read_dir d (path_join data_dir name)) as [names|e|] eqn:Hnames;
    [|by unfold read_dir in Hnames; rewrite decide_True in Hnames..].
  fold (topic_partition_ids d (path_join data_dir name) names).
  pose proof (elem_of_topic_partition_ids name names) as Hids.
  destruct (spec !! name) as [[|ms logs]|] eqn:Hl.
  1,3: rewrite decide_True; [by eexists|]; apply elem_of_nil_inv; intros id Hin;
    apply Hids in Hin as (l & Hl' & Hid); [|done]; rewrite Hl in Hl'; simplify_eq; simpl in Hid; lia.
  rewrite decide_False.
  2: { intros Hnil. assert (has_partition spec name 0) as Hp by (exists (ms :: logs); simpl; split; [done|lia]).
       apply Hids in Hp; [|done]. rewrite Hnil in Hp. by apply elem_of_nil in Hp. }
  by rewrite (topic_partition_ids_sorted _ _ _ Hnames Hl).
Qed.

(** A topic opens when its partitions do. *)
Lemma Topic_open_all name ms logs (Q : Z → Partition → list Message → Prop) :
  spec !! name = Some (ms :: logs) →
  (∀ k ms', (ms :: logs) !! k = Some ms' →
    ∃ p, Partition_open name (Z.of_nat k) data_dir d = (d, Ok p) ∧ Q (Z.of_nat k) p ms') →
  ∃ t, Topic_open name data_dir d = (d, Ok t) ∧ topic_opens Q name t (ms :: logs).
Proof.
  intros Hl Hopen. assert (path_join data_dir name ∈ dirs d) as Hdir.
  { apply (ml_topic_dir _ _ _ Hlay name 0). exists (ms :: logs). split; [done|simpl; lia]. }
  pose proof (Topic_open_layout name Hdir) as Ho. rewrite Hl in Ho. rewrite Ho. clear Ho.
  destruct (open_partitions_all d data_dir name Q 0 (ms :: logs)) as (ps & Hps & Hlen & HQ).
  { intros k ms'. rewrite Z.add_0_l. apply Hopen. }
  unfold mbind, eff_bind, mret, eff_ret. rewrite Hps. eexists. split; [done|].
  split; [done|]. split; [done|]. intros k p ms'. rewrite <-(Z.add_0_l (Z.of_nat k)). apply HQ.
Qed.

(** What the loop over the data directory makes of a name. *)
Definition opened_topic (name : string) : option Topic :=
  if is_dir d (path_join data_dir name) then
    match Topic_open name data_dir d with (_, Ok t) => Some t | _ => None end
  else None.

Lemma open_topics_aux names topics :
  (∀ name, path_join data_dir name ∈ dirs d →
    (∃ t, Topic_open name data_dir d = (d, Ok t)) ∨ (∃ e, Topic_open name data_dir d = (d, Err e))) →
  ∃ topics', open_topics names data_dir topics d = (d, Ok topics') ∧
    ∀ name, topics' !! name =
      match opened_topic name with
      | Some t => if decide (name ∈ names) then Some t else topics !! name
      | None => topics !! name
      end.
Proof.
  intros Hopen. revert topics. induction names as [|n names IH]; intros topics.
  { exists topics. split; [done|]. intros name. by destruct (opened_topic _). }
  assert (open_topics (n :: names) data_dir topics d =
    open_topics names data_dir
      (match opened_topic n with Some t => <[n := t]> topics | None => topics end) d) as ->.
  { cbn [open_topics]. unfold opened_topic, is_dir. case_bool_decide as Hd; [|done].
    by destruct (Hopen n Hd) as [[t ->]|[e ->]]. }
  destruct (IH (match opened_topic n with Some t => <[n := t]> topics | None => topics end))
    as (topics' & -> & Hlk).
  exists topics'. split; [done|]. intros name. rewrite Hlk. clear.
  destruct (decide (name = n)) as [->|Hne].
  - destruct (opened_topic n) as [t|]; [|done]. rewrite lookup_insert_eq.
    rewrite (decide_True (P := n ∈ n :: names)) by (by left). by case_decide.
  - assert (name ∈ n :: names ↔ name ∈ names) as Hiff.
    { rewrite elem_of_cons. split; [by intros [?|?]|by right]. }
    destruct (opened_topic name) as [t|].
    + rewrite (decide_ext _ _ _ _ Hiff).
      destruct (opened_topic n); [|done]. by rewrite lookup_insert_ne.
    + destruct (opened_topic n); [|done]. by rewrite lookup_insert_ne.
Qed.

(** A manager opened on such a disk has the topics that open. *)
Lemma TopicManager_open_layout :
  (∀ name ms logs, spec !! name = Some (ms :: logs) →
    (∃ t, Topic_open name data_dir d = (d, Ok t)) ∨ (∃ e, Topic_open name data_dir d = (d, Err e))) →
  ∃ tm, TopicManager_open data_dir d = (d, Ok tm) ∧ tm_data_dir tm = data_dir ∧
    ∀ name, tm_topics tm !! name =
      match spec !! name, Topic_open name data_dir d with
      | Some (_ :: _), (_, Ok t) => Some t
      | _, _ => None
      end.
Proof.
  intros Hopen. unfold TopicManager_open, eff_get, eff_lift, mbind, eff_bind, mret, eff_ret.
  unfold is_dir at 1. rewrite bool_decide_true by apply Hlay. cbn [orb].
  destruct (read_dir d data_dir) as [names|e|] eqn:Hnames;
    [|unfold read_dir in Hnames; rewrite decide_True in Hnames by apply Hlay; done..].
  destruct (open_topics_aux names ∅) as (topics' & -> & Hlk).
  { intros name Hd. pose proof (Topic_open_layout name Hd) as Ho.
    destruct (spec !! name) as [[|ms logs]|] eqn:Hl; [by right| |by right]. by eapply Hopen. }
  eexists. split; [reflexivity|]. split; [done|]. intros name. cbn [tm_topics].
  rewrite Hlk, lookup_empty. unfold opened_topic, is_dir. case_bool_decide as Hd.
  - pose proof (Topic_open_layout name Hd) as Ho.
    destruct (spec !! name) as [[|ms logs]|] eqn:Hl; [by destruct Ho as (e & ->)| |by destruct Ho as (e & ->)].
    destruct (Hopen _ _ _ Hl) as [[t ->]|[e ->]]; [|done].
    rewrite decide_True; [done|]. apply (elem_of_read_dir _ _ _ _ Hnames). by right.
  - destruct (spec !! name) as [[|ms logs]|] eqn:Hl; [done| |done]. exfalso. apply Hd.
    apply (ml_topic_dir _ _ _ Hlay name 0). exists (ms :: logs). split; [done|simpl; lia].
Qed.
End layout.

(** ** Reopening *)
Definition reopen_room : nat := Z.to_nat (sc_index_interval SegmentConfig_default).

Lemma Partition_reopen d data_dir name id p ms room :
  partition_ok d data_dir name id p ms room →
  ∃ p', Partition_open name id data_dir d = (d, Ok p') ∧
    partition_ok d data_dir name id p' ms reopen_room.
Proof.
  intros [Hid Htn Hdir Hcfg Hh].
  destruct (Partition_open_aux d p 0 _ room data_dir Hh) as (p' & Ho & Hsame & Hinv);
    [by rewrite Hdir, Htn, Hid|].
  rewrite Htn, Hid, Hcfg in Ho. exists p'. split; [done|].
  destruct Hsame as (Hid' & Htn' & Hdir' & Hcfg').
  split; [congruence..|]. unfold Partition_holds. rewrite Hcfg'. by rewrite Hcfg in Hinv |- *.
Qed.

Lemma Manager_partition d tm spec room name logs k ms :
  Manager_holds d tm spec room → spec !! name = Some logs → logs !! k = Some ms →
  ∃ p, partition_ok d (tm_data_dir tm) name (Z.of_nat k) p ms room.
Proof.
  intros Hm Hl Hk. destruct (Manager_lookup _ _ _ _ _ _ Hm Hl) as (t & _ & [_ Hlen Hps]).
  destruct (lookup_lt_is_Some_2 (tp_partitions t) k) as [p Hpp]; [|by eauto].
  rewrite Hlen. by eapply lookup_lt_Some.
Qed.

Lemma Manager_reopen d tm spec room :
  Manager_holds d tm spec room →
  ∃ tm', TopicManager_open (tm_data_dir tm) d = (d, Ok tm') ∧
    tm_data_dir tm' = tm_data_dir tm ∧
    Manager_holds d tm' (filter (λ '(_, logs), logs ≠ []) spec) reopen_room.
Proof.
  intros Hm. pose proof (Manager_holds_layout _ _ _ _ Hm) as Hlay.
  assert (∀ name ms logs, spec !! name = Some (ms :: logs) →
    ∃ t, Topic_open name (tm_data_dir tm) d = (d, Ok t) ∧
      topic_opens (λ i p ms, partition_ok d (tm_data_dir tm) name i p ms reopen_room) name t (ms :: logs)) as Hopen.
  { intros name ms logs Hl. eapply Topic_open_all; [done|done|]. intros k ms' Hms'.
    destruct (Manager_partition _ _ _ _ _ _ _ _ Hm Hl Hms') as (p & Hp). by eapply Partition_reopen. }
  destruct (TopicManager_open_layout d (tm_data_dir tm) spec Hlay) as (tm' & Ho & Hdir & Hlk).
  { intros name ms logs Hl. destruct (Hopen _ _ _ Hl) as (t & Ht & _). left. by exists t. }
  exists tm'. split; [done|]. split; [done|].
  set (spec' := filter _ spec).
  assert (∀ name id, has_partition spec' name id ↔ has_partition spec name id) as Hhp.
  { intros name id. unfold has_partition, spec'. split; intros (logs & Hl & Hid); exists logs.
    - apply map_lookup_filter_Some in Hl as [Hl _]. done.
    - split; [|done]. apply map_lookup_filter_Some. split; [done|]. intros ->. simpl in Hid. lia. }
  destruct Hm as [_ Hmu Hmd Hmtd Hmdirs Hmf].
  split; rewrite ?Hdir; [|intros name logs [? _]%map_lookup_filter_Some; eauto|done| | |].
  - intros name. rewrite Hlk, ?Hdir.
    assert (spec' !! name = match spec !! name with Some (ms :: logs) => Some (ms :: logs) | _ => None end) as ->.
    { unfold spec'. rewrite map_lookup_filter. by destruct (spec !! name) as [[|]|]. }
    destruct (spec !! name) as [[|ms logs]|] eqn:Hl; [done| |done].
    destruct (Hopen _ _ _ Hl) as (t & -> & Hn & Hlen & HQ). by split.
  - intros name id. rewrite Hhp. apply Hmtd.
  - intros name entry id. rewrite Hhp. apply Hmdirs.
  - intros name id entry. rewrite Hhp. apply Hmf.
Qed.

End topic_facts.

(** ** Properties *)
Section topic_properties.
Context `{Crc32Laws} `{CompressionLaws}.

(** Creating a topic that exists is refused and changes nothing; creating a new one
    adds a topic with that many empty partitions and leaves every other topic alone. *)
Theorem TopicManager_create_refines d tm spec room name n :
  Manager_holds d tm spec room → is_u32 n →
  match spec !! name with
  | Some _ => TopicManager_create_topic name n (d, tm) =
      ((d, tm), Err (InvalidMessage ("Topic '" +:+ name +:+ "' already exists")))
  | None => ∃ d' tm', TopicManager_create_topic name n (d, tm) = ((d', tm'), Ok tt) ∧
      tm_data_dir tm' = tm_data_dir tm ∧
      Manager_holds d' tm' (<[name := replicate (Z.to_nat n) []]> spec) room
  end.
Proof.
  intros Hm Hn. destruct (spec !! name) as [logs|] eqn:Hs; [|].
  2: { destruct (Manager_create d tm spec room name n Hm Hs Hn) as (d' & tm' & ? & ? & ? & _). by exists d', tm'. }
  destruct (Manager_lookup _ _ _ _ _ _ Hm Hs) as (t & Ht & _).
  unfold TopicManager_create_topic, eff_get, mbind, eff_bind. by rewrite Ht.
Qed.

(** An append to a partition of a topic extends that log only, and returns the offset
    of its first message; an unknown topic or partition is reported and changes nothing. *)
Theorem TopicManager_append_refines d tm spec room name pid new :
  Manager_holds d tm spec room → 0 ≤ pid → new ≠ [] →
  Forall (message_fits SegmentConfig_default) new → (length new ≤ room)%nat →
  match spec !! name with
  | None => on_topic name (Topic_append pid new) (d, tm) = ((d, tm), Err (TopicNotFound name))
  | Some logs =>
      match logs !! Z.to_nat pid with
      | None => on_topic name (Topic_append pid new) (d, tm) =
          ((d, tm), Err (PartitionNotFound name pid))
      | Some ms =>
          Z.of_nat (length (ms ++ new)) < 2 ^ 64 →
          encoded_size SegmentConfig_default 0 (ms ++ new) < 2 ^ 64 →
          ∃ d' tm', on_topic name (Topic_append pid new) (d, tm) =
              ((d', tm'), Ok (Z.of_nat (length ms))) ∧
            Manager_holds d' tm' (<[name := <[Z.to_nat pid := ms ++ new]> logs]> spec)
              (room - length new)
      end
  end.
Proof.
  intros Hm Hpid Hne Hfit Hroom.
  pose proof (Manager_get_topic _ _ _ _ name Hm) as Hget.
  destruct (spec !! name) as [logs|] eqn:Hs; [|unfold on_topic; by rewrite Hget].
  destruct (logs !! Z.to_nat pid) as [ms|] eqn:Hms.
  - intros Hl Hz. destruct (Manager_append d tm spec room name logs pid ms new)
      as (d' & tm' & Ha & _ & Hm' & _); [done..|]. by exists d', tm'.
  - destruct Hget as (t & Hgt & Ht). by eapply on_topic_no_partition.
Qed.

(** A fetch returns the messages of that partition from the offset on, at most [max]
    of them, and nothing else can be returned; an unknown topic or partition is reported. *)
Theorem TopicManager_fetch_refines d tm spec room name pid offset max :
  Manager_holds d tm spec room → 0 ≤ pid → is_u64 offset → is_u32 max →
  (t ← TopicManager_get_topic tm name; Topic_fetch t pid offset max) =
    match spec !! name with
    | None => Err (TopicNotFound name)
    | Some logs =>
        match logs !! Z.to_nat pid with
        | None => Err (PartitionNotFound name pid)
        | Some ms => Ok (records_at name pid offset (take (Z.to_nat max) (drop (Z.to_nat offset) ms)))
        end
    end.
Proof.
  intros Hm Hpid Ho Hmax. pose proof (Manager_get_topic _ _ _ _ name Hm) as Hget.
  destruct (spec !! name) as [logs|]; [|by rewrite Hget].
  destruct Hget as (t & -> & Ht). rewrite outcome_bind_Ok. by eapply Topic_fetch_aux.
Qed.

(** Durability.  A manager opened on the disk another one left holds the same topics
    with the same messages in the same partitions, except that a topic with no partition
    is forgotten: it has no directory. *)
Theorem TopicManager_restart d tm spec room :
  Manager_holds d tm spec room →
  ∃ tm', TopicManager_open (tm_data_dir tm) d = (d, Ok tm') ∧
    Manager_holds d tm' (filter (λ '(_, logs), logs ≠ []) spec) reopen_room.
Proof. intros Hm. destruct (Manager_reopen _ _ _ _ Hm) as (tm' & ? & _ & ?). by exists tm'. Qed.
End topic_properties.
