(* ===== verification/OffsetManager.v ===== *)
(** * OffsetManager: the committed offsets of the consumer groups

    [broker/src/offset_manager.rs].  The offsets are a map in memory and one text file per
    group, written again in full at every commit and read back when the broker starts.
    An operation acts on the disk and the manager together. *)
From Stdlib Require Import Ascii.
From S2P Require Import Prelude Bytes Text Common FileSystem.

(** The key of an offset: group, topic and partition. *)
Abbreviation OffsetKey := (string * string * Z)%type.

Record OffsetManager : Type := {
  om_offsets : gmap OffsetKey Z;
  om_data_dir : path;
}.
Definition om_set_offsets (m : gmap OffsetKey Z) (om : OffsetManager) : OffsetManager :=
  {| om_offsets := m; om_data_dir := om_data_dir om |}.

Definition OffsetManager_new (data_dir : path) : Method disk OffsetManager :=
  let data_dir := path_join data_dir "offsets" in
  _ ← eff_modify (λ d, create_dir_all d data_dir);
  mret {| om_offsets := ∅; om_data_dir := data_dir |}.

(** [group_id.offsets], the file of a group. *)
Definition group_file (om : OffsetManager) (group_id : string) : path :=
  path_join (om_data_dir om) (group_id +:+ ".offsets").

(** [topic:partition=offset] and a newline. *)
Definition offset_line (topic : string) (partition offset : Z) : string :=
  topic +:+ ":" +:+ fmt_dec partition +:+ "=" +:+ fmt_dec offset +:+
    String newline EmptyString.

(** What a line of a file makes of the offsets: a line that does not parse is skipped. *)
Definition load_line (group_id : string) (offsets : gmap OffsetKey Z) (line : string)
    : gmap OffsetKey Z :=
  match split_once "=" line with
  | Some (key, value) =>
      match split_once ":" key with
      | Some (topic, partition_str) =>
          match parse_u32 partition_str, parse_u64 value with
          | Some partition, Some offset => <[(group_id, topic, partition) := offset]> offsets
          | _, _ => offsets
          end
      | None => offsets
      end
  | None => offsets
  end.

(** One entry of the directory. *)
Definition load_entry (d : disk) (data_dir : path) (name : string)
    : Method (gmap OffsetKey Z) unit :=
  let path := path_join data_dir name in
  let '(group_id, extension) := stem_extension name in
  if is_file d path && bool_decide (extension = Some "offsets") && utf8_valid group_id then
    contents ← eff_lift (read_file_to_string d path);
    eff_modify (λ offsets, foldl (load_line group_id) offsets (lines contents))
  else mret tt.

(** The loop over the entries: an entry that cannot be read ends it. *)
Fixpoint load_entries (d : disk) (data_dir : path) (names : list string)
    : Method (gmap OffsetKey Z) unit :=
  match names with
  | [] => mret tt
  | name :: names => _ ← load_entry d data_dir name; load_entries d data_dir names
  end.

Definition OffsetManager_load (d : disk) : Method OffsetManager unit := λ om,
  match read_dir d (om_data_dir om) with
  | Ok names =>
      let '(offsets, r) := load_entries d (om_data_dir om) names (om_offsets om) in
      (om_set_offsets offsets om, r)
  | Err e => (om, Err e)
  | Panic => (om, Panic)
  end.

Definition fetch_offset (group_id topic : string) (partition : Z) (om : OffsetManager)
    : Result (option Z) :=
  Ok (om_offsets om !! (group_id, topic, partition)).

(** The offsets of a group, by topic and partition. *)
Definition get_group_offsets (group_id : string) (om : OffsetManager) : gmap (string * Z) Z :=
  list_to_map (omap (λ '((gid, topic, partition), offset),
    if decide (gid = group_id) then Some ((topic, partition), offset) else None)
    (map_to_list (om_offsets om))).

(** [write_all] of each line in turn. *)
Fixpoint write_lines (ls : list string) (f : File) : Method disk unit :=
  match ls with
  | [] => mret tt
  | l :: ls => λ d, let '(d, f) := write_all d f (bytes_of_string l) in write_lines ls f d
  end.

Section offset_manager.
Context `{HashIter}.

(** The lines of the file of a group, in the order the map is visited. *)
Definition group_lines (group_id : string) (om : OffsetManager) : list string :=
  (λ '((_, topic, partition), offset), offset_line topic partition offset) <$>
    filter (λ '((gid, _, _), _), gid = group_id) (map_iter (om_offsets om)).

Definition persist_group (group_id : string) (om : OffsetManager) : Method disk unit :=
  file ← file_create (group_file om group_id);
  write_lines (group_lines group_id om) file.

(** [commit_offset]: memory first, then the file. *)
Definition commit_offset (group_id topic : string) (partition offset : Z)
    : Method (disk * OffsetManager) unit := λ '(d, om),
  let om := om_set_offsets (<[(group_id, topic, partition) := offset]> (om_offsets om)) om in
  let '(d, r) := persist_group group_id om d in
  ((d, om), r).

Definition delete_group (group_id : string) : Method (disk * OffsetManager) unit := λ '(d, om),
  let om := om_set_offsets (filter (λ '((gid, _, _), _), gid ≠ group_id) (om_offsets om)) om in
  let file_path := group_file om group_id in
  if path_exists d file_path then
    let '(d, r) := remove_file file_path d in ((d, om), r)
  else ((d, om), Ok tt).

End offset_manager.

(** ** The text of a file *)
(** What is stored for a group: topic, partition and offset. *)
Abbreviation offset_entry := (string * Z * Z)%type.

Definition entry_line (e : offset_entry) : string :=
  let '(topic, partition, offset) := e in offset_line topic partition offset.
Definition lines_text (ls : list string) : string := foldr String.append EmptyString ls.
Definition entries_text (es : list offset_entry) : string := lines_text (entry_line <$> es).

(** Topics whose name survives the format of a line. *)
Record clean_topic (t : string) : Prop := {
  ct_colon : string_in ":" t = false;
  ct_equals : string_in "=" t = false;
  ct_newline : string_in newline t = false;
  ct_utf8 : utf8_valid t = true;
}.
Definition clean_group (g : string) : Prop := g ≠ EmptyString ∧ utf8_valid g = true.
Definition clean_entry (e : offset_entry) : Prop :=
  let '(t, p, o) := e in clean_topic t ∧ is_u32 p ∧ is_u64 o.

(** Entries whose line is read back as one line. *)
Definition one_line (e : offset_entry) : Prop :=
  let '(t, p, o) := e in
  string_in newline t = false ∧ utf8_valid t = true ∧ is_u32 p ∧ is_u64 o.
Lemma clean_one_line e : clean_entry e → one_line e.
Proof. destruct e as [[t p] o]. by intros ([] & Hp & Ho). Qed.

(** A line without its newline. *)
Definition bare_line (e : offset_entry) : string :=
  let '(t, p, o) := e in (t +:+ ":" +:+ fmt_dec p) +:+ String "=" (fmt_dec o).

Lemma entry_line_bare e : entry_line e = bare_line e +:+ String newline EmptyString.
Proof.
  destruct e as [[t p] o]. cbn [entry_line bare_line]. unfold offset_line.
  rewrite <-!string_app_assoc. done.
Qed.

Lemma entries_text_cons e es :
  entries_text (e :: es) = bare_line e +:+ String newline (entries_text es).
Proof.
  change (entries_text (e :: es)) with (entry_line e +:+ entries_text es).
  by rewrite entry_line_bare, <-string_app_assoc.
Qed.

Lemma is_u32_u64 p : is_u32 p → is_u64 p.
Proof. unfold is_u32, is_u64. lia. Qed.

Lemma load_bare_line g m t p o :
  clean_entry (t, p, o) → load_line g m (bare_line (t, p, o)) = <[(g, t, p) := o]> m.
Proof.
  intros ([] & Hp & Ho). unfold load_line. cbn [bare_line]. rewrite split_once_app.
  2: { rewrite !string_in_app, ct_equals0, fmt_dec_no_char by (done || by apply is_u32_u64). done. }
  change (t +:+ ":" +:+ fmt_dec p) with (t +:+ String ":" (fmt_dec p)).
  rewrite split_once_app by done. by rewrite parse_u32_fmt, parse_u64_fmt.
Qed.

Lemma lines_entries es :
  Forall one_line es → lines (entries_text es) = bare_line <$> es.
Proof.
  induction 1 as [|[[t p] o] es (Hn & Hu & Hp & Ho) Hes IH]; [done|].
  rewrite entries_text_cons, lines_cons, fmap_cons; [by f_equal|..]; cbn [bare_line].
  - rewrite string_in_app. cbn [string_in].
    rewrite !string_in_app, Hn. cbn [string_in].
    rewrite !fmt_dec_no_char by (done || by apply is_u32_u64). done.
  - rewrite ends_with_app. apply ends_with_not_in. cbn [string_in].
    by rewrite fmt_dec_no_char.
Qed.

Lemma fmt_dec_utf8 z : is_u64 z → utf8_valid (fmt_dec z) = true.
Proof. intros Hz. apply all_digits_utf8, fmt_dec_digits, Hz. Qed.

Lemma entries_text_utf8 es : Forall one_line es → utf8_valid (entries_text es) = true.
Proof.
  induction 1 as [|[[t p] o] es (Hn & Hu & Hp & Ho) Hes IH]; [done|].
  rewrite entries_text_cons, utf8_valid_app; [exact IH|]. cbn [bare_line].
  rewrite <-string_app_assoc, utf8_valid_app by done.
  rewrite <-string_app_assoc, utf8_valid_app by done.
  rewrite utf8_valid_app by by apply fmt_dec_utf8, is_u32_u64.
  by apply fmt_dec_utf8.
Qed.

(** The name of the file of a group. *)
Lemma stem_extension_group g :
  g ≠ EmptyString → stem_extension (g +:+ ".offsets") = (g, Some "offsets").
Proof.
  intros Hg. unfold stem_extension.
  change ".offsets" with (String "."%char "offsets"). rewrite rsplit_once_app by done.
  destruct g as [|c g]; [done|]. rewrite decide_False; [done|].
  intros Hn. apply (f_equal String.length) in Hn. rewrite string_length_app in Hn.
  cbn in Hn. lia.
Qed.
Lemma stem_extension_Some name g :
  stem_extension name = (g, Some "offsets") → g ≠ EmptyString ∧ name = g +:+ ".offsets".
Proof.
  unfold stem_extension. destruct (rsplit_once _ name) as [[[|x a] b]|] eqn:Hs; [done| |done].
  case_decide; [done|]. intros [= <- ->]. split; [done|]. by apply rsplit_once_Some in Hs.
Qed.
Lemma group_file_inj om g g' : group_file om g = group_file om g' → g = g'.
Proof.
  intros Heq%path_join_inj. apply (f_equal (rsplit_once ".")) in Heq.
  change ".offsets" with (String "."%char "offsets") in Heq.
  rewrite !rsplit_once_app in Heq by done. congruence.
Qed.

(** ** Loading *)
Definition insert_entry (g : string) (m : gmap OffsetKey Z) (e : offset_entry) : gmap OffsetKey Z :=
  let '(t, p, o) := e in <[(g, t, p) := o]> m.

Lemma foldl_load_lines g es m :
  Forall clean_entry es → foldl (load_line g) m (bare_line <$> es) = foldl (insert_entry g) m es.
Proof.
  intros Hes. revert m. induction Hes as [|[[t p] o] es He Hes IH]; intros m; [done|].
  rewrite fmap_cons. cbn [foldl]. by rewrite load_bare_line, IH.
Qed.

(** Loading entries of [M] into a part of [M] gives a larger part of [M]. *)
Lemma foldl_insert_entries g es m M :
  (∀ t p o, (t, p, o) ∈ es → M !! (g, t, p) = Some o) → m ⊆ M →
  let m' := foldl (insert_entry g) m es in
  m ⊆ m' ∧ m' ⊆ M ∧ ∀ t p o, (t, p, o) ∈ es → m' !! (g, t, p) = Some o.
Proof.
  intros Hes. revert m. induction es as [|[[t p] o] es IH]; intros m Hm.
  { split_and!; [done|done|]. by intros ??? ?%elem_of_nil. }
  assert (M !! (g, t, p) = Some o) as Hk by (apply Hes; by left).
  assert (m ⊆ <[(g, t, p) := o]> m ∧ <[(g, t, p) := o]> m ⊆ M) as [H1 H2].
  { split; apply map_subseteq_spec; intros k x Hx.
    - destruct (decide (k = (g, t, p))) as [->|Hne]; [|by rewrite lookup_insert_ne].
      rewrite lookup_insert_eq. rewrite map_subseteq_spec in Hm. apply Hm in Hx. congruence.
    - apply lookup_insert_Some in Hx as [[<- <-]|[_ Hx]]; [done|].
      rewrite map_subseteq_spec in Hm. by apply Hm. }
  destruct (IH ltac:(intros; apply Hes; by right) _ H2) as (H3 & H4 & H5).
  split_and!; [by etrans|done|]. intros t' p' o' [Heq|Hin]%elem_of_cons.
  - injection Heq as -> -> ->. rewrite map_subseteq_spec in H3. apply H3, lookup_insert_eq.
  - by apply H5.
Qed.

(** ** The invariant: the files hold what the memory holds *)
(** The file of group [g] lists the offsets that [M] has for it. *)
Definition file_matches (M : gmap OffsetKey Z) (g : string) (c : bytes) : Prop :=
  ∃ es, c = bytes_of_string (entries_text es) ∧ Forall clean_entry es ∧
    ∀ t p o, (t, p, o) ∈ es ↔ M !! (g, t, p) = Some o.

Record Offsets_ok (d : disk) (om : OffsetManager) : Prop := {
  oo_dir : om_data_dir om ∈ dirs d;
  oo_clean : ∀ g t p o, om_offsets om !! (g, t, p) = Some o →
    clean_group g ∧ clean_entry (t, p, o);
  oo_files : ∀ g, clean_group g →
    match files d !! group_file om g with
    | Some c => file_matches (om_offsets om) g c
    | None => ∀ t p, om_offsets om !! (g, t, p) = None
    end;
  oo_dirs : ∀ g, group_file om g ∉ dirs d;
}.

Lemma load_entry_ok d om name m :
  Offsets_ok d om → m ⊆ om_offsets om →
  ∃ m', load_entry d (om_data_dir om) name m = (m', Ok tt) ∧ m ⊆ m' ∧ m' ⊆ om_offsets om ∧
    ∀ g t p o, name = g +:+ ".offsets" → om_offsets om !! (g, t, p) = Some o →
      m' !! (g, t, p) = Some o.
Proof.
  intros [Hdir Hclean Hfiles Hdirs] Hm. unfold load_entry.
  destruct (stem_extension name) as [g ext] eqn:Hse.
  destruct (is_file d (path_join (om_data_dir om) name)) eqn:Hf; cbn [andb].
  2: { exists m. split_and!; [done|done|done|]. intros g' t p o -> Hk.
       destruct (Hclean _ _ _ _ Hk) as [Hg _]. specialize (Hfiles _ Hg).
       unfold group_file in Hfiles. unfold is_file in Hf. apply bool_decide_eq_false in Hf.
       destruct (files d !! _) as [c|] eqn:Hc; [by destruct Hf|]. congruence. }
  destruct (decide (ext = Some "offsets")) as [->|Hext].
  2: { rewrite (bool_decide_false _ Hext). cbn [andb]. exists m. split_and!; [done|done|done|].
       intros g' t p o -> Hk. destruct (Hclean _ _ _ _ Hk) as [[Hg _] _].
       rewrite stem_extension_group in Hse by done. injection Hse as _ <-. done. }
  rewrite bool_decide_true by done. cbn [andb].
  apply stem_extension_Some in Hse as [Hg ->].
  destruct (utf8_valid g) eqn:Hu.
  2: { exists m. split_and!; [done|done|done|]. intros g' t p o Heq Hk.
       assert (g = g') as -> by (eapply (group_file_inj om); unfold group_file; congruence).
       destruct (Hclean _ _ _ _ Hk) as [[_ Hu'] _]. congruence. }
  specialize (Hfiles g (conj Hg Hu)). unfold is_file in Hf. apply bool_decide_eq_true in Hf as [c Hc].
  unfold group_file in Hfiles. rewrite Hc in Hfiles. destruct Hfiles as (es & -> & Hes & Hin).
  unfold read_file_to_string, eff_lift, eff_modify, mbind, eff_bind.
  assert (Forall one_line es) as Hone by (eapply Forall_impl; [done|]; apply clean_one_line).
  rewrite Hc, string_of_bytes_of_string, entries_text_utf8, lines_entries, foldl_load_lines by done.
  eexists. split; [reflexivity|].
  destruct (foldl_insert_entries g es m (om_offsets om)) as (H1 & H2 & H3);
    [by intros ??? ?%Hin|done|].
  split_and!; [done|done|]. intros g' t p o Heq Hk.
  assert (g = g') as -> by (eapply (group_file_inj om); unfold group_file; congruence).
  by apply H3, Hin.
Qed.

Lemma load_entries_ok d om names m :
  Offsets_ok d om → m ⊆ om_offsets om →
  ∃ m', load_entries d (om_data_dir om) names m = (m', Ok tt) ∧ m ⊆ m' ∧ m' ⊆ om_offsets om ∧
    ∀ g t p o, g +:+ ".offsets" ∈ names → om_offsets om !! (g, t, p) = Some o →
      m' !! (g, t, p) = Some o.
Proof.
  intros Hok. revert m. induction names as [|name names IH]; intros m Hm.
  { exists m. split_and!; [done|done|done|]. by intros ???? ?%elem_of_nil. }
  destruct (load_entry_ok d om name m Hok Hm) as (m1 & H1 & Hs1 & Hs1' & Hk1).
  destruct (IH m1 Hs1') as (m2 & H2 & Hs2 & Hs2' & Hk2).
  exists m2. cbn [load_entries]. unfold mbind, eff_bind. rewrite H1.
  split_and!; [done|by etrans|done|]. intros g t p o [Hn|Hn]%elem_of_cons Hk.
  - rewrite map_subseteq_spec in Hs2. eapply Hs2, Hk1; done.
  - by eapply Hk2.
Qed.

(** A manager without offsets that loads the directory finds all the offsets. *)
Lemma OffsetManager_load_ok d om om0 :
  Offsets_ok d om → om_data_dir om0 = om_data_dir om → om_offsets om0 ⊆ om_offsets om →
  OffsetManager_load d om0 = (om, Ok tt).
Proof.
  intros Hok Hdir Hsub. unfold OffsetManager_load. rewrite Hdir.
  destruct (read_dir d (om_data_dir om)) as [names|e|] eqn:Hn;
    [|by unfold read_dir in Hn; rewrite decide_True in Hn by apply Hok..].
  destruct (load_entries_ok d om names (om_offsets om0) Hok Hsub) as (m' & -> & H1 & H2 & H3).
  f_equal. destruct om as [M dir]. unfold om_set_offsets. cbn [om_offsets om_data_dir] in *.
  rewrite Hdir. f_equal. apply (anti_symm (⊆)); [done|].
  apply map_subseteq_spec. intros [[g t] p] o Hk. apply H3; [|done].
  apply (elem_of_read_dir _ _ _ _ Hn). left.
  destruct (oo_clean _ _ Hok _ _ _ _ Hk) as [Hg _]. pose proof (oo_files _ _ Hok g Hg) as Hf.
  unfold group_file in Hf. cbn [om_offsets om_data_dir] in Hf.
  destruct (files d !! _); [by eexists|]. by rewrite Hf in Hk.
Qed.

Lemma Offsets_ok_same d d' om :
  dir_same (om_data_dir om) d d' → Offsets_ok d om → Offsets_ok d' om.
Proof.
  intros [Hd Hs] [Hdir Hclean Hfiles Hdirs]. split; [auto|done| |].
  - intros g Hg. destruct (Hs (g +:+ ".offsets")) as [Heq _]. unfold group_file.
    rewrite Heq. by apply Hfiles.
  - intros g Hin. apply (Hdirs g). by apply (Hs (g +:+ ".offsets")).
Qed.

(** ** Persisting *)
Lemma write_lines_spec ls f d c :
  files d !! f_path f = Some c → f_pos f = length c →
  ∃ d', write_lines ls f d = (d', Ok tt) ∧ disk_frame [f_path f] d d' ∧
    files d' !! f_path f = Some (c ++ bytes_of_string (lines_text ls)).
Proof.
  revert f d c. induction ls as [|l ls IH]; intros f d c Hc Hpos.
  { exists d. split_and!; [done|done|]. cbn. by rewrite app_nil_r. }
  cbn [write_lines]. unfold write_all, file_content. rewrite Hc, Hpos, write_at_end. cbn [default].
  destruct (IH {| f_path := f_path f; f_pos := length c + length (bytes_of_string l) |}
    (set_content d (f_path f) (c ++ bytes_of_string l)) (c ++ bytes_of_string l))
    as (d' & Hw & Hfr & Hc'); [by rewrite files_set|by rewrite length_app|].
  exists d'. cbn [f_path] in *. split_and!; [done| |].
  - etrans; [|done]. apply disk_frame_set. by left.
  - rewrite Hc'. change (lines_text (l :: ls)) with (l +:+ lines_text ls).
    by rewrite bytes_of_string_app, app_assoc.
Qed.

Section persist_facts.
Context `{HashIterLaws}.

Definition group_entries (g : string) (om : OffsetManager) : list offset_entry :=
  (λ '((_, t, p), o), (t, p, o)) <$>
    filter (λ '((gid, _, _), _), gid = g) (map_iter (om_offsets om)).

Lemma group_lines_entries g om : group_lines g om = entry_line <$> group_entries g om.
Proof.
  unfold group_lines, group_entries. rewrite <-list_fmap_compose.
  apply list_fmap_ext. by intros i [[[? ?] ?] ?] _.
Qed.

Lemma elem_of_group_entries g om t p o :
  (t, p, o) ∈ group_entries g om ↔ om_offsets om !! (g, t, p) = Some o.
Proof.
  unfold group_entries. rewrite list_elem_of_fmap, <-elem_of_map_iter. split.
  - intros ([[[g' t'] p'] o'] & [= <- <- <-] & [Hg Hin]%list_elem_of_filter).
    cbn beta iota in Hg. by subst g'.
  - intros Hin. exists (g, t, p, o). split; [done|]. by apply list_elem_of_filter.
Qed.

Lemma persist_group_spec g om d :
  om_data_dir om ∈ dirs d →
  ∃ d', persist_group g om d = (d', Ok tt) ∧ disk_frame [group_file om g] d d' ∧
    files d' !! group_file om g = Some (bytes_of_string (entries_text (group_entries g om))).
Proof.
  intros Hdir. unfold persist_group, file_create, mbind, eff_bind.
  assert (parent (group_file om g) = om_data_dir om) as -> by apply parent_join.
  rewrite bool_decide_true, orb_true_r by done.
  destruct (write_lines_spec (group_lines g om) {| f_path := group_file om g; f_pos := 0 |}
    (set_content d (group_file om g) []) []) as (d' & Hw & Hfr & Hc);
    [apply files_set|done|].
  exists d'. cbn [f_path] in *. split_and!; [done| |].
  - etrans; [|done]. apply disk_frame_set. by left.
  - by rewrite Hc, group_lines_entries.
Qed.

Lemma group_entries_clean g om d :
  Offsets_ok d om → Forall clean_entry (group_entries g om).
Proof.
  intros Hok. apply Forall_forall. intros [[t p] o] Hin%elem_of_group_entries.
  by apply (oo_clean _ _ Hok) in Hin as [_ ?].
Qed.

(** The files after the file of group [g] was written from [om]: those of the other groups
    are still the ones of [om_disk]. *)
Definition synced (g : string) (om om_disk : OffsetManager) : OffsetManager :=
  om_set_offsets (filter (λ '((gid, _, _), _), gid = g) (om_offsets om) ∪
                  filter (λ '((gid, _, _), _), gid ≠ g) (om_offsets om_disk)) om.

Lemma synced_lookup g om om_disk g' t p :
  om_offsets (synced g om om_disk) !! (g', t, p) =
    if decide (g' = g) then om_offsets om !! (g', t, p) else om_offsets om_disk !! (g', t, p).
Proof.
  unfold synced. cbn [om_set_offsets om_offsets]. rewrite lookup_union, !map_lookup_filter.
  destruct (decide (g' = g)); destruct (om_offsets om !! (g', t, p)), (om_offsets om_disk !! (g', t, p));
    simpl; repeat case_guard; simpl; tauto.
Qed.

Lemma synced_same g om om_disk :
  (∀ g' t p, g' ≠ g → om_offsets om !! (g', t, p) = om_offsets om_disk !! (g', t, p)) →
  synced g om om_disk = om.
Proof.
  intros Hsame. assert (om_offsets (synced g om om_disk) = om_offsets om) as Heq.
  { apply map_eq. intros [[g' t] p]. rewrite synced_lookup. case_decide; [done|]. by rewrite Hsame. }
  destruct om as [m dir]. unfold synced, om_set_offsets in *. cbn [om_offsets om_data_dir] in *. by rewrite Heq.
Qed.

Lemma persist_aux g om om_disk d :
  Offsets_ok d om_disk → om_data_dir om = om_data_dir om_disk →
  (∀ t p o, om_offsets om !! (g, t, p) = Some o → clean_group g ∧ clean_entry (t, p, o)) →
  ∃ d', persist_group g om d = (d', Ok tt) ∧ dir_frame (om_data_dir om) d d' ∧
    Offsets_ok d' (synced g om om_disk).
Proof.
  intros Hok Hdir Hclean.
  destruct (persist_group_spec g om d) as (d' & Hp & Hfr & Hc); [rewrite Hdir; apply Hok|].
  exists d'. split_and!; [done| |].
  { eapply disk_dir_frame; [|done]. apply Forall_singleton, parent_join. }
  assert (∀ g', group_file (synced g om om_disk) g' = group_file om_disk g') as Hfile.
  { intros g'. unfold group_file. cbn [synced om_set_offsets om_data_dir]. by rewrite Hdir. }
  assert (group_file om g = group_file om_disk g) as Hg by (unfold group_file; by rewrite Hdir).
  rewrite Hg in Hfr, Hc. split.
  - cbn [synced om_set_offsets om_data_dir]. rewrite (proj1 Hfr), Hdir. apply Hok.
  - intros g' t p o. rewrite synced_lookup. case_decide as He; [subst; apply Hclean|apply Hok].
  - intros g' Hg'. rewrite Hfile. destruct (decide (g' = g)) as [->|Hne].
    + rewrite Hc. eexists. split; [done|]. split.
      * apply Forall_forall. intros [[t' p'] o'] Hin%elem_of_group_entries. by eapply Hclean.
      * intros. rewrite synced_lookup, decide_True by done. apply elem_of_group_entries.
    + rewrite (proj2 Hfr) by (rewrite list_elem_of_singleton; by intros ?%group_file_inj).
      pose proof (oo_files _ _ Hok g' Hg') as Hf.
      destruct (files d !! group_file om_disk g') as [c|].
      * destruct Hf as (es & -> & Hes & Hin). exists es. split_and!; [done|done|].
        intros. by rewrite synced_lookup, decide_False, Hin.
      * intros. by rewrite synced_lookup, decide_False.
  - intros g'. rewrite (proj1 Hfr), Hfile. apply Hok.
Qed.

(** What a commit does. *)
Definition committed (g t : string) (p o : Z) (om : OffsetManager) : OffsetManager :=
  om_set_offsets (<[(g, t, p) := o]> (om_offsets om)) om.

Lemma committed_clean d g t p o om :
  Offsets_ok d om → clean_group g → clean_entry (t, p, o) →
  ∀ g' t' p' o', om_offsets (committed g t p o om) !! (g', t', p') = Some o' →
    clean_group g' ∧ clean_entry (t', p', o').
Proof.
  intros Hok Hg He g' t' p' o'. unfold committed. cbn [om_set_offsets om_offsets].
  intros [[[= <- <- <-] <-]|[_ Hk]]%lookup_insert_Some; [done|]. by apply (oo_clean _ _ Hok) in Hk.
Qed.

Lemma commit_offset_aux d om g t p o :
  Offsets_ok d om → clean_group g → clean_entry (t, p, o) →
  ∃ d', commit_offset g t p o (d, om) = ((d', committed g t p o om), Ok tt) ∧
    dir_frame (om_data_dir om) d d' ∧ Offsets_ok d' (committed g t p o om).
Proof.
  intros Hok Hg He. pose proof (committed_clean d g t p o om Hok Hg He) as Hclean.
  destruct (persist_aux g (committed g t p o om) om d Hok eq_refl (Hclean g)) as (d' & Hp & Hfr & Hok').
  exists d'. unfold commit_offset. fold (committed g t p o om). rewrite Hp. split_and!; [done|done|].
  rewrite synced_same in Hok'; [done|]. intros g' t' p' Hne.
  cbn [committed om_set_offsets om_offsets]. by rewrite lookup_insert_ne by congruence.
Qed.

(** What a deletion does. *)
Definition without_group (g : string) (om : OffsetManager) : OffsetManager :=
  om_set_offsets (filter (λ '((gid, _, _), _), gid ≠ g) (om_offsets om)) om.

Lemma without_group_lookup g om g' t p :
  om_offsets (without_group g om) !! (g', t, p) =
    if decide (g' = g) then None else om_offsets om !! (g', t, p).
Proof.
  unfold without_group. cbn [om_set_offsets om_offsets]. rewrite map_lookup_filter.
  destruct (om_offsets om !! (g', t, p)); simpl; [|by case_decide].
  repeat case_guard; case_decide; simpl in *; tauto.
Qed.

Lemma delete_group_aux d om g :
  Offsets_ok d om →
  ∃ d', delete_group g (d, om) = ((d', without_group g om), Ok tt) ∧
    dir_frame (om_data_dir om) d d' ∧ Offsets_ok d' (without_group g om) ∧
    files d' !! group_file om g = None.
Proof.
  intros Hok. unfold delete_group. fold (without_group g om).
  change (group_file (without_group g om) g) with (group_file om g).
  set (d' := if is_file d (group_file om g) then remove_content d (group_file om g) else d).
  assert ((if path_exists d (group_file om g)
     then let '(d, r) := remove_file (group_file om g) d in ((d, without_group g om), r)
     else ((d, without_group g om), Ok tt)) = ((d', without_group g om), Ok tt)) as ->.
  { unfold path_exists, remove_file, d', is_dir.
    rewrite (bool_decide_false (_ ∈ dirs d)) by apply Hok. by destruct (is_file _ _). }
  assert (disk_frame [group_file om g] d d') as Hfr.
  { unfold d'. destruct (is_file _ _); [|done]. split; [done|]. intros q Hq.
    apply lookup_delete_ne. set_solver. }
  assert (files d' !! group_file om g = None) as Hnone.
  { unfold d'. destruct (is_file _ _) eqn:Hf; [apply lookup_delete_eq|].
    unfold is_file in Hf. apply bool_decide_eq_false in Hf. by apply eq_None_not_Some. }
  exists d'. split_and!; [done| | |done].
  { eapply disk_dir_frame; [|done]. apply Forall_singleton, parent_join. }
  split.
  - rewrite (proj1 Hfr). apply Hok.
  - intros g' t p o. rewrite without_group_lookup. case_decide; [done|]. apply Hok.
  - intros g' Hg'. change (group_file (without_group g om) g') with (group_file om g').
    destruct (decide (g' = g)) as [->|Hne].
    + rewrite Hnone. intros. rewrite without_group_lookup. by rewrite decide_True.
    + rewrite (proj2 Hfr) by (rewrite list_elem_of_singleton; by intros ?%group_file_inj).
      pose proof (oo_files _ _ Hok g' Hg') as Hf.
      destruct (files d !! group_file om g') as [c|].
      * destruct Hf as (es & -> & Hes & Hin). exists es. split_and!; [done|done|].
        intros. by rewrite without_group_lookup, decide_False.
      * intros. by rewrite without_group_lookup, decide_False.
  - intros g'. rewrite (proj1 Hfr). apply Hok.
Qed.

End persist_facts.

(** ** Starting *)
Lemma Offsets_ok_create_dir d om :
  Offsets_ok d om → Offsets_ok (create_dir_all d (om_data_dir om)) om.
Proof. apply Offsets_ok_same, create_dir_all_same. done. Qed.

(** A manager whose directory holds no file of offsets yet. *)
Lemma OffsetManager_new_aux d data_dir :
  let dir := path_join data_dir "offsets" in
  (∀ name, files d !! path_join dir name = None ∧ path_join dir name ∉ dirs d) →
  ∃ d' om, OffsetManager_new data_dir d = (d', Ok om) ∧ om_offsets om = ∅ ∧
    om_data_dir om = dir ∧ Offsets_ok d' om.
Proof.
  intros dir Hfresh. eexists _, _. split; [reflexivity|]. split; [done|]. split; [done|].
  split; cbn [om_offsets om_data_dir].
  - apply create_dir_all_self.
  - intros ????. by rewrite lookup_empty.
  - intros g _. unfold group_file. cbn [om_data_dir]. fold dir.
    change (files (create_dir_all d dir)) with (files d). by rewrite (proj1 (Hfresh _)).
  - intros g. unfold group_file. cbn [om_data_dir]. fold dir.
    rewrite create_dir_all_below by (rewrite length_path_join; lia). apply Hfresh.
Qed.

(** ** Runs of the manager *)
(** What a broker does to the offsets over its lifetimes. *)
Inductive offset_op : Type :=
  | OpCommit (g t : string) (p o : Z)
  | OpDelete (g : string)
  | OpRestart.

(** A restart: the memory is lost, a new manager loads the directory. *)
Definition OffsetManager_restart (data_dir : path) : Method (disk * OffsetManager) unit := λ '(d, om),
  match OffsetManager_new data_dir d with
  | (d, Ok om) => let '(om, r) := OffsetManager_load d om in ((d, om), r)
  | (d, Err e) => ((d, om), Err e)
  | (d, Panic) => ((d, om), Panic)
  end.

Definition run_op `{HashIter} (data_dir : path) (op : offset_op) : Method (disk * OffsetManager) unit :=
  match op with
  | OpCommit g t p o => commit_offset g t p o
  | OpDelete g => delete_group g
  | OpRestart => OffsetManager_restart data_dir
  end.
Fixpoint run_ops `{HashIter} (data_dir : path) (ops : list offset_op)
    : Method (disk * OffsetManager) unit :=
  match ops with
  | [] => mret tt
  | op :: ops => _ ← run_op data_dir op; run_ops data_dir ops
  end.

(** The abstract offsets: a commit overwrites, a deletion drops a group, a restart changes
    nothing. *)
Definition spec_op (M : gmap OffsetKey Z) (op : offset_op) : gmap OffsetKey Z :=
  match op with
  | OpCommit g t p o => <[(g, t, p) := o]> M
  | OpDelete g => filter (λ '((gid, _, _), _), gid ≠ g) M
  | OpRestart => M
  end.
Definition clean_op (op : offset_op) : Prop :=
  match op with
  | OpCommit g t p o => clean_group g ∧ clean_entry (t, p, o)
  | _ => True
  end.

Section runs.
Context `{HashIterLaws}.

Lemma OffsetManager_restart_aux d om data_dir :
  Offsets_ok d om → om_data_dir om = path_join data_dir "offsets" →
  ∃ d', OffsetManager_restart data_dir (d, om) = ((d', om), Ok tt) ∧ Offsets_ok d' om.
Proof.
  intros Hok Hdir. apply Offsets_ok_create_dir in Hok. rewrite Hdir in Hok.
  eexists. unfold OffsetManager_restart, OffsetManager_new, eff_modify, mbind, eff_bind, mret, eff_ret.
  rewrite (OffsetManager_load_ok _ om); [by split|done|done|]. apply map_empty_subseteq.
Qed.

Lemma run_op_aux d om data_dir op :
  Offsets_ok d om → om_data_dir om = path_join data_dir "offsets" → clean_op op →
  ∃ d' om', run_op data_dir op (d, om) = ((d', om'), Ok tt) ∧ Offsets_ok d' om' ∧
    om_data_dir om' = om_data_dir om ∧ om_offsets om' = spec_op (om_offsets om) op.
Proof.
  intros Hok Hdir Hop. destruct op as [g t p o|g|]; cbn [run_op].
  - destruct Hop as [Hg He].
    destruct (commit_offset_aux d om g t p o Hok Hg He) as (d' & Hr & _ & Hok').
    by exists d', (committed g t p o om).
  - destruct (delete_group_aux d om g Hok) as (d' & Hr & _ & Hok' & _).
    by exists d', (without_group g om).
  - destruct (OffsetManager_restart_aux d om data_dir Hok Hdir) as (d' & Hr & Hok').
    by exists d', om.
Qed.

Lemma run_ops_aux ops d om data_dir :
  Offsets_ok d om → om_data_dir om = path_join data_dir "offsets" → Forall clean_op ops →
  ∃ d' om', run_ops data_dir ops (d, om) = ((d', om'), Ok tt) ∧ Offsets_ok d' om' ∧
    om_offsets om' = foldl spec_op (om_offsets om) ops.
Proof.
  intros Hok Hdir Hops. revert d om Hok Hdir.
  induction Hops as [|op ops Hop Hops IH]; intros d om Hok Hdir; [by exists d, om|].
  destruct (run_op_aux d om data_dir op Hok Hdir Hop) as (d1 & om1 & Hr & Hok1 & Hd1 & Hs1).
  destruct (IH d1 om1 Hok1 ltac:(congruence)) as (d2 & om2 & Hr2 & Hok2 & Hs2).
  exists d2, om2. cbn [run_ops foldl]. rewrite <-Hs1. split_and!; [|done|done].
  by rewrite (eff_bind_eq _ _ _ _ _ Hr).
Qed.

(** A commit that stops after [k] lines of the file. *)
Definition commit_stopped (k : nat) (g t : string) (p o : Z) : Method (disk * OffsetManager) unit :=
  λ '(d, om),
  let om := committed g t p o om in
  let '(d, r) := (file ← file_create (group_file om g); write_lines (take k (group_lines g om)) file) d in
  ((d, om), r).

(** What the file still has of the offsets of [g]. *)
Definition stopped (k : nat) (g : string) (om : OffsetManager) : OffsetManager :=
  om_set_offsets (filter (λ '((gid, t, p), o), gid = g → (t, p, o) ∈ take k (group_entries g om))
    (om_offsets om)) om.

Lemma stopped_lookup k g om g' t p o :
  om_offsets (stopped k g om) !! (g', t, p) = Some o ↔
    om_offsets om !! (g', t, p) = Some o ∧ (g' = g → (t, p, o) ∈ take k (group_entries g om)).
Proof. unfold stopped. cbn [om_set_offsets om_offsets]. by rewrite map_lookup_filter_Some. Qed.

Lemma commit_stopped_aux k d om g t p o :
  Offsets_ok d om → clean_group g → clean_entry (t, p, o) →
  ∃ d', commit_stopped k g t p o (d, om) = ((d', committed g t p o om), Ok tt) ∧
    Offsets_ok d' (stopped k g (committed g t p o om)).
Proof.
  intros Hok Hg He.
  destruct (commit_offset_aux d om g t p o Hok Hg He) as (d1 & _ & _ & Hok1).
  unfold commit_stopped, file_create, mbind, eff_bind. set (om' := committed g t p o om) in *.
  assert (parent (group_file om' g) = om_data_dir om) as -> by apply parent_join.
  rewrite bool_decide_true, orb_true_r by apply Hok.
  destruct (write_lines_spec (take k (group_lines g om')) {| f_path := group_file om' g; f_pos := 0 |}
    (set_content d (group_file om' g) []) []) as (d' & Hw & Hfr & Hc); [apply files_set|done|].
  rewrite Hw. eexists. split; [done|]. cbn [f_path app] in *.
  assert (disk_frame [group_file om' g] d d') as Hfr'.
  { etrans; [|done]. apply disk_frame_set. by left. }
  pose proof (group_entries_clean g om' d1 Hok1) as Hclean.
  split.
  - rewrite (proj1 Hfr'). apply Hok.
  - intros g' t' p' o' [Hk _]%stopped_lookup. by apply (oo_clean _ _ Hok1) in Hk.
  - intros g' Hg'. change (group_file (stopped k g om') g') with (group_file om' g').
    destruct (decide (g' = g)) as [->|Hne].
    + rewrite Hc, group_lines_entries, <-fmap_take. eexists. split; [done|].
      split; [by apply Forall_take|]. intros t' p' o'. rewrite stopped_lookup.
      rewrite <-elem_of_group_entries. split; [|tauto]. intros Hin. split; [|done].
      rewrite <-(take_drop k (group_entries g om')). apply elem_of_app. by left.
    + rewrite (proj2 Hfr') by (rewrite list_elem_of_singleton; by intros ?%group_file_inj).
      pose proof (oo_files _ _ Hok g' Hg') as Hf. change (group_file om' g') with (group_file om g').
      assert (∀ t' p' o', om_offsets (stopped k g om') !! (g', t', p') = Some o' ↔
        om_offsets om !! (g', t', p') = Some o') as Hsame.
      { intros. rewrite stopped_lookup. unfold om', committed. cbn [om_set_offsets om_offsets].
        rewrite lookup_insert_ne by congruence. tauto. }
      destruct (files d !! group_file om g') as [c|].
      * destruct Hf as (es & -> & Hes & Hin). exists es. split_and!; [done|done|].
        intros. by rewrite Hsame, Hin.
      * intros t' p'. apply eq_None_not_Some. intros [o' Ho']. apply Hsame in Ho'. by rewrite Hf in Ho'.
  - intros g'. rewrite (proj1 Hfr'). apply Hok.
Qed.

End runs.

(** ** Topics that the format loses *)
(** A colon in the topic makes the line unreadable. *)
Lemma load_colon_line g m t p o :
  string_in ":" t = true → string_in "=" t = false → is_u32 p → is_u64 o →
  load_line g m (bare_line (t, p, o)) = m.
Proof.
  intros Hc He Hp Ho. unfold load_line. cbn [bare_line]. rewrite split_once_app.
  2: { rewrite !string_in_app, He, fmt_dec_no_char by (done || by apply is_u32_u64). done. }
  destruct (split_once_in ":" t Hc) as (a & b & Hs).
  rewrite (split_once_app_l _ _ _ _ _ Hs).
  replace (parse_u32 (b +:+ ":" +:+ fmt_dec p)) with (@None Z); [done|].
  symmetry. apply (parse_dec_not _ ":"); [|done|done].
  rewrite string_in_app. cbn. by rewrite orb_true_r.
Qed.

Lemma load_entries_none d data_dir names m :
  (∀ name, load_entry d data_dir name m = (m, Ok tt)) →
  load_entries d data_dir names m = (m, Ok tt).
Proof.
  intros Hn. induction names as [|name names IH]; [done|]. cbn [load_entries].
  by rewrite (eff_bind_eq _ _ _ _ _ (Hn name)).
Qed.

Section lost.
Context `{HashIterLaws}.

Lemma colon_topic_aux d om data_dir g t p o :
  Offsets_ok d om → om_data_dir om = path_join data_dir "offsets" → om_offsets om = ∅ →
  (∀ name, files d !! path_join (om_data_dir om) name = None) →
  clean_group g → is_u32 p → is_u64 o → string_in ":" t = true → string_in "=" t = false →
  string_in newline t = false → utf8_valid t = true →
  ∃ d1 d2, commit_offset g t p o (d, om) = ((d1, committed g t p o om), Ok tt) ∧
    OffsetManager_restart data_dir (d1, committed g t p o om) = ((d2, om), Ok tt).
Proof.
  intros Hok Hdir Hempty Hno Hg Hp Ho Hc He Hn Hu. unfold commit_offset.
  fold (committed g t p o om). set (om' := committed g t p o om).
  destruct (persist_group_spec g om' d) as (d1 & -> & Hfr & Hfile); [apply Hok|].
  exists d1. eexists. split; [done|].
  assert (group_entries g om' = [(t, p, o)]) as Hes.
  { unfold group_entries, om', committed. cbn [om_set_offsets om_offsets]. rewrite Hempty, insert_empty.
    pose proof (map_iter_perm ({[(g, t, p) := o]} : gmap OffsetKey Z)) as Hi.
    rewrite map_to_list_singleton in Hi. apply Permutation_singleton_r in Hi. rewrite Hi.
    rewrite filter_cons_True by done. done. }
  rewrite Hes in Hfile. change (group_file om' g) with (group_file om g) in *.
  assert (Forall one_line [(t, p, o)]) as Hone by by apply Forall_singleton.
  unfold OffsetManager_restart, OffsetManager_new, eff_modify, mbind, eff_bind, mret, eff_ret.
  rewrite <-Hdir. unfold OffsetManager_load. cbn [om_data_dir om_offsets].
  destruct (read_dir _ _) as [names|e|] eqn:Hnames;
    [|unfold read_dir in Hnames; rewrite decide_True in Hnames by apply create_dir_all_self; done..].
  rewrite load_entries_none.
  { unfold om_set_offsets. cbn [om_data_dir]. rewrite <-Hempty. by destruct om. }
  intros name. unfold load_entry.
  change (is_file (create_dir_all d1 (om_data_dir om))) with (is_file d1).
  change (read_file_to_string (create_dir_all d1 (om_data_dir om))) with (read_file_to_string d1).
  destruct (stem_extension name) as [g' ext] eqn:Hse.
  destruct (decide (path_join (om_data_dir om) name = group_file om g)) as [Heq|Hne].
  2: { unfold is_file. rewrite (proj2 Hfr), Hno, bool_decide_false by (set_solver || apply is_Some_None).
       done. }
  pose proof Heq as Heq'. apply path_join_inj in Heq' as ->.
  rewrite stem_extension_group in Hse by apply Hg. injection Hse as <- <-.
  rewrite Heq. unfold is_file, read_file_to_string. rewrite Hfile.
  rewrite bool_decide_true by by eexists.
  rewrite bool_decide_true by done. rewrite (proj2 Hg). cbn [andb].
  rewrite string_of_bytes_of_string.
  rewrite entries_text_utf8 by done.
  unfold eff_lift, eff_modify, mbind, eff_bind. rewrite lines_entries by done. cbn [fmap list_fmap foldl].
  by rewrite load_colon_line.
Qed.

End lost.

(** ** Concurrent commits

    A commit holds the write lock only while it changes the map, and writes the file under
    a read lock: several commits of one group may write its file at the same time, each
    through its own cursor.  The map cannot change while one of them writes, so they all
    write the same lines.  A step is one call on a file. *)
Inductive writer : Type :=
  | Waiting
  | Writing (pos : nat) (rest : list string)
  | Finished.

Record persist_state : Type := {
  ps_content : bytes;
  ps_writers : list writer;
}.

Inductive persist_step (ls : list string) : persist_state → persist_state → Prop :=
  | step_create c ws i :
      ws !! i = Some Waiting →
      persist_step ls {| ps_content := c; ps_writers := ws |}
        {| ps_content := []; ps_writers := <[i := Writing 0 ls]> ws |}
  | step_write c ws i pos l rest :
      ws !! i = Some (Writing pos (l :: rest)) →
      persist_step ls {| ps_content := c; ps_writers := ws |}
        {| ps_content := write_at c pos (bytes_of_string l);
           ps_writers := <[i := Writing (pos + length (bytes_of_string l)) rest]> ws |}
  | step_sync c ws i pos :
      ws !! i = Some (Writing pos []) →
      persist_step ls {| ps_content := c; ps_writers := ws |}
        {| ps_content := c; ps_writers := <[i := Finished]> ws |}.

(** The writer will still write position [i]. *)
Definition will_write (i : nat) (w : writer) : Prop :=
  match w with Waiting => True | Writing pos _ => (pos ≤ i)%nat | Finished => False end.
Definition writer_ok (T : bytes) (w : writer) : Prop :=
  match w with
  | Writing pos rest => (pos ≤ length T)%nat ∧ drop pos T = bytes_of_string (lines_text rest)
  | _ => True
  end.
Definition persist_inv (T : bytes) (s : persist_state) : Prop :=
  Forall (writer_ok T) (ps_writers s) ∧ (length (ps_content s) ≤ length T)%nat ∧
  ∀ i, (i < length T)%nat →
    ps_content s !! i = T !! i ∨ Exists (will_write i) (ps_writers s).

Lemma write_at_lookup c pos bs i :
  write_at c pos bs !! i =
    if decide (i < pos)%nat
    then (if decide (i < length c)%nat then c !! i else Some Byte.x00)
    else if decide (i < pos + length bs)%nat then bs !! (i - pos)%nat else c !! i.
Proof.
  unfold write_at. destruct (decide (i < pos)%nat) as [Hi|Hi].
  - destruct (decide (i < length c)%nat) as [Hc|Hc].
    + rewrite lookup_app_l by (rewrite length_take; lia). by apply lookup_take_lt.
    + rewrite lookup_app_r by (rewrite length_take; lia).
      rewrite lookup_app_l by (rewrite length_replicate, length_take; lia).
      rewrite lookup_replicate_2; [done|]. rewrite length_take. lia.
  - rewrite lookup_app_r by (rewrite length_take; lia).
    rewrite lookup_app_r by (rewrite length_replicate, length_take; lia).
    rewrite length_replicate, length_take.
    replace (i - pos `min` length c - (pos - length c))%nat with (i - pos)%nat by lia.
    destruct (decide (i < pos + length bs)%nat).
    + apply lookup_app_l. lia.
    + rewrite lookup_app_r, lookup_drop by lia. f_equal. lia.
Qed.

Lemma length_write_at c pos bs :
  length (write_at c pos bs) = Nat.max (length c) (pos + length bs).
Proof.
  unfold write_at. rewrite !length_app, length_take, length_replicate, length_drop. lia.
Qed.

Lemma Exists_insert {A} (P : A → Prop) (l : list A) i x y :
  l !! i = Some x → Exists P l → (P x → P y) → Exists P (<[i := y]> l).
Proof.
  rewrite !Exists_exists. intros Hi (z & Hz & HP) Hxy. apply list_elem_of_lookup in Hz as [j Hj].
  pose proof (lookup_lt_Some _ _ _ Hi).
  destruct (decide (j = i)) as [->|Hne].
  - exists y. split; [|simplify_eq; auto]. apply list_elem_of_lookup. exists i.
    by apply list_lookup_insert_eq.
  - exists z. split; [|done]. apply list_elem_of_lookup. exists j. by rewrite list_lookup_insert_ne.
Qed.

Lemma persist_inv_step ls s s' :
  persist_inv (bytes_of_string (lines_text ls)) s → persist_step ls s s' →
  persist_inv (bytes_of_string (lines_text ls)) s'.
Proof.
  set (T := bytes_of_string (lines_text ls)). intros (Hw & Hlen & Hpos) Hstep.
  destruct Hstep as [c ws i Hi|c ws i pos l rest Hi|c ws i pos Hi];
    unfold persist_inv; cbn [ps_content ps_writers] in *.
  - split_and!; [apply Forall_insert; [done|]; split; [lia|done]|simpl; lia|].
    intros k Hk. right. apply Exists_exists. exists (Writing 0 ls). split; [|simpl; lia].
    apply list_elem_of_insert. by eapply lookup_lt_Some.
  - pose proof (Forall_lookup_1 _ _ _ _ Hw Hi) as [Hp Hd]. cbn [lines_text foldr] in Hd.
    change (l +:+ foldr String.append EmptyString rest) with (l +:+ lines_text rest) in Hd.
    rewrite bytes_of_string_app in Hd. set (bl := bytes_of_string l) in *.
    assert (length T - pos = length bl + length (bytes_of_string (lines_text rest)))%nat as HT.
    { rewrite <-length_drop, Hd, length_app. done. }
    split_and!.
    + apply Forall_insert; [done|]. split; [lia|].
      by rewrite <-drop_drop, Hd, drop_app_length.
    + rewrite length_write_at. lia.
    + intros k Hk. rewrite write_at_lookup. destruct (Hpos k Hk) as [Heq|Hex].
      * left. assert (k < length c)%nat by (eapply lookup_lt_is_Some; rewrite Heq; by apply lookup_lt_is_Some).
        destruct (decide (k < pos)%nat); [by rewrite decide_True|]. case_decide; [|done].
        replace k with (pos + (k - pos))%nat at 2 by lia.
        rewrite <-lookup_drop, Hd, lookup_app_l by lia. done.
      * destruct (decide (k < pos)%nat) as [Hkp|Hkp].
        { right. eapply Exists_insert; [done|done|]. simpl. lia. }
        destruct (decide (k < pos + length bl)%nat).
        { left. replace k with (pos + (k - pos))%nat at 2 by lia.
          rewrite <-lookup_drop, Hd, lookup_app_l by lia. done. }
        right. eapply Exists_insert; [done|done|]. simpl. lia.
  - pose proof (Forall_lookup_1 _ _ _ _ Hw Hi) as [Hp Hd].
    apply (f_equal length) in Hd. rewrite length_drop in Hd. simpl in Hd.
    split_and!; [by apply Forall_insert|done|].
    intros k Hk. destruct (Hpos k Hk) as [|Hex]; [by left|right].
    eapply Exists_insert; [done|done|]. simpl. lia.
Qed.

Lemma persist_inv_steps ls s s' :
  rtc (persist_step ls) s s' → persist_inv (bytes_of_string (lines_text ls)) s →
  persist_inv (bytes_of_string (lines_text ls)) s'.
Proof. induction 1; [done|]. intros Hi. by eapply IHrtc, persist_inv_step. Qed.

(** The first step of writers that all wait empties the file. *)
Lemma persist_first_step ls c ws s :
  Forall (λ w, w = Waiting) ws → persist_step ls {| ps_content := c; ps_writers := ws |} s →
  persist_inv (bytes_of_string (lines_text ls)) s.
Proof.
  intros Hw Hstep. rewrite Forall_forall in Hw.
  assert (∀ i w, ws !! i = Some w → w = Waiting) as Hw'.
  { intros i w Hi. apply Hw. by eapply list_elem_of_lookup_2. }
  inversion Hstep; subst; try (match goal with H : ws !! _ = Some _ |- _ => by apply Hw' in H end).
  split_and!; cbn [ps_content ps_writers].
  - apply Forall_insert; [|split; [lia|done]]. apply Forall_forall. by intros w ->%Hw.
  - simpl. lia.
  - intros k Hk. right. apply Exists_exists. exists (Writing 0 ls). split; [|simpl; lia].
    apply list_elem_of_insert. by eapply lookup_lt_Some.
Qed.

Lemma persist_finished T s :
  persist_inv T s → Forall (λ w, w = Finished) (ps_writers s) → ps_content s = T.
Proof.
  intros (_ & Hlen & Hpos) Hf. apply list_eq_same_length with (n := length T); [done| |].
  - destruct (decide (length (ps_content s) = length T)) as [|Hne]; [done|].
    destruct (Hpos (length (ps_content s))) as [Heq|Hex]; [lia| |].
    + rewrite lookup_ge_None_2 in Heq by lia. symmetry in Heq. apply lookup_ge_None in Heq. lia.
    + apply Exists_exists in Hex as (w & Hin & Hwill). rewrite Forall_forall in Hf.
      by rewrite (Hf w Hin) in Hwill.
  - intros i x y Hi Hx Hy. destruct (Hpos i Hi) as [Heq|Hex]; [congruence|].
    apply Exists_exists in Hex as (w & Hin & Hwill). rewrite Forall_forall in Hf.
    by rewrite (Hf w Hin) in Hwill.
Qed.

(** ** Properties *)
Section offset_properties.
Context `{HashIterLaws}.

(** C13: refinement. From an empty directory on, any sequence of commits of clean names,
    deletions of groups and restarts of the broker leaves exactly the offsets of the
    abstract map, in which a commit overwrites one offset, a deletion drops a group and a
    restart changes nothing: every operation succeeds and every fetch returns the abstract
    offset. Clean names ([clean_op]) are those that survive the text of the file: the topic
    of a commit holds no colon, no equals sign and no newline, the group is not empty, both
    are UTF-8, and the numbers have their widths. The condition is needed: the offset of a
    topic with a colon is lost at the next start ([colon_topic_lost]). *)
Theorem OffsetManager_run d data_dir ops :
  (∀ name, files d !! path_join (path_join data_dir "offsets") name = None ∧
     path_join (path_join data_dir "offsets") name ∉ dirs d) →
  Forall clean_op ops →
  ∃ d0 om0 d1 om1, OffsetManager_new data_dir d = (d0, Ok om0) ∧
    run_ops data_dir ops (d0, om0) = ((d1, om1), Ok tt) ∧
    ∀ g t p, fetch_offset g t p om1 = Ok (foldl spec_op ∅ ops !! (g, t, p)).
Proof.
  intros Hfresh Hops.
  destruct (OffsetManager_new_aux d data_dir Hfresh) as (d0 & om0 & Hnew & He & Hd & Hok).
  destruct (run_ops_aux ops d0 om0 data_dir Hok Hd Hops) as (d1 & om1 & Hrun & _ & Hs).
  exists d0, om0, d1, om1. split_and!; [done|done|]. intros g t p.
  unfold fetch_offset. by rewrite Hs, He.
Qed.

(** A commit updates the memory and the file of its group, nothing outside the
    directory of the offsets changes, and memory and files agree again. *)
Theorem commit_offset_spec d om g t p o :
  Offsets_ok d om → clean_group g → clean_entry (t, p, o) →
  ∃ d' om', commit_offset g t p o (d, om) = ((d', om'), Ok tt) ∧
    om_offsets om' = <[(g, t, p) := o]> (om_offsets om) ∧
    dir_frame (om_data_dir om) d d' ∧ Offsets_ok d' om'.
Proof.
  intros Hok Hg He. destruct (commit_offset_aux d om g t p o Hok Hg He) as (d' & Hc & Hfr & Hok').
  by exists d', (committed g t p o om).
Qed.

(** Deleting a group removes its offsets and its file, and no other. *)
Theorem delete_group_spec d om g :
  Offsets_ok d om →
  ∃ d' om', delete_group g (d, om) = ((d', om'), Ok tt) ∧
    (∀ g' t p, fetch_offset g' t p om' =
      Ok (if decide (g' = g) then None else om_offsets om !! (g', t, p))) ∧
    files d' !! group_file om g = None ∧ Offsets_ok d' om'.
Proof.
  intros Hok. destruct (delete_group_aux d om g Hok) as (d' & Hd & _ & Hok' & Hf).
  exists d', (without_group g om). split_and!; [done| |done|done].
  intros. unfold fetch_offset. by rewrite without_group_lookup.
Qed.

(** The file is emptied before it is written again, so a commit is not atomic: a
    broker that stops after [k] lines forgets, when it starts again, every offset of the
    group that is not among the first [k] of the new file, the ones that were committed
    long before included. *)
Theorem commit_stop_loses_offsets k d om data_dir g t p o :
  Offsets_ok d om → om_data_dir om = path_join data_dir "offsets" →
  clean_group g → clean_entry (t, p, o) →
  ∃ d1 d2 om1 om2, commit_stopped k g t p o (d, om) = ((d1, om1), Ok tt) ∧
    OffsetManager_restart data_dir (d1, om1) = ((d2, om2), Ok tt) ∧
    ∀ g' t' p' o', fetch_offset g' t' p' om2 = Ok (Some o') ↔
      fetch_offset g' t' p' om1 = Ok (Some o') ∧
      (g' = g → (t', p', o') ∈ take k (group_entries g om1)).
Proof.
  intros Hok Hdir Hg He.
  destruct (commit_stopped_aux k d om g t p o Hok Hg He) as (d1 & Hc & Hok1).
  destruct (OffsetManager_restart_aux d1 (stopped k g (committed g t p o om)) data_dir Hok1)
    as (d2 & Hr & _); [done|].
  exists d1, d2, (committed g t p o om), (stopped k g (committed g t p o om)).
  split_and!; [done|exact Hr|]. intros g' t' p' o'. unfold fetch_offset.
  split.
  - intros [= Hk]. apply stopped_lookup in Hk as [-> ?]. done.
  - intros [[= Hk] Hin]. f_equal. by apply stopped_lookup.
Qed.

(** An offset of a topic whose name holds a colon is acknowledged and written, and
    is gone after the next restart: its line does not parse. *)
Theorem colon_topic_lost d om data_dir g t p o :
  Offsets_ok d om → om_data_dir om = path_join data_dir "offsets" → om_offsets om = ∅ →
  (∀ name, files d !! path_join (om_data_dir om) name = None) →
  clean_group g → is_u32 p → is_u64 o → string_in ":" t = true → string_in "=" t = false →
  string_in newline t = false → utf8_valid t = true →
  ∃ d1 om1 d2 om2, commit_offset g t p o (d, om) = ((d1, om1), Ok tt) ∧
    fetch_offset g t p om1 = Ok (Some o) ∧
    OffsetManager_restart data_dir (d1, om1) = ((d2, om2), Ok tt) ∧
    fetch_offset g t p om2 = Ok None.
Proof.
  intros Hok Hdir Hempty Hno Hg Hp Ho Hc He Hn Hu.
  destruct (colon_topic_aux d om data_dir g t p o) as (d1 & d2 & H1 & H2); [done..|].
  exists d1, (committed g t p o om), d2, om. split_and!; [done| |done|].
  - unfold fetch_offset, committed. cbn [om_set_offsets om_offsets]. by rewrite lookup_insert_eq.
  - unfold fetch_offset. by rewrite Hempty.
Qed.

(** C36: interleaving.  However the calls of several commits that write the file of one
    group at the same time interleave, once they all finished the file is the one that a
    single commit writes. *)
Theorem concurrent_persists_agree d om g c ws s :
  om_data_dir om ∈ dirs d → Forall (λ w, w = Waiting) ws → ws ≠ [] →
  rtc (persist_step (group_lines g om)) {| ps_content := c; ps_writers := ws |} s →
  Forall (λ w, w = Finished) (ps_writers s) →
  files (persist_group g om d).1 !! group_file om g = Some (ps_content s).
Proof.
  intros Hdir Hw Hne Hrun Hf.
  destruct (persist_group_spec g om d Hdir) as (d' & -> & _ & Hc). cbn [fst]. rewrite Hc.
  unfold entries_text. rewrite <-group_lines_entries. f_equal. symmetry.
  apply persist_finished; [|done].
  inversion Hrun as [|? s1 ? Hs1 Hrest]; subst.
  - exfalso. destruct ws as [|w ws]; [done|]. cbn [ps_writers] in Hf.
    apply Forall_cons in Hw as [-> _]. by apply Forall_cons in Hf as [? _].
  - eapply persist_inv_steps; [done|]. by eapply persist_first_step.
Qed.
End offset_properties.
