(* ===== verification/Cluster.v ===== *)
(** * ClusterMetadata: brokers, replicas and leaders

    [broker/src/cluster.rs].  For every partition the cluster keeps its leader, its
    replicas, the in-sync replicas (ISR), the offsets the replicas reached, the high
    watermark and the leader epoch.  An [Instant] is a number of nanoseconds, and [now] a
    reading of the clock. *)
From S2P Require Import Prelude Common Messages.

Record BrokerInfo : Type := {
  bi_id : Z;
  bi_host : string;
  bi_port : Z;
  bi_last_heartbeat : option Z;
}.

Definition BrokerInfo_new (now : Z) (id : Z) (host : string) (port : Z) : BrokerInfo :=
  {| bi_id := id; bi_host := host; bi_port := port; bi_last_heartbeat := Some now |}.
Definition BrokerInfo_is_alive (now timeout : Z) (b : BrokerInfo) : bool :=
  match bi_last_heartbeat b with
  | Some last => Z.max 0 (now - last) <? timeout
  | None => false
  end.
Definition BrokerInfo_update_heartbeat (now : Z) (b : BrokerInfo) : BrokerInfo :=
  {| bi_id := bi_id b; bi_host := bi_host b; bi_port := bi_port b;
     bi_last_heartbeat := Some now |}.

Record ReplicaInfo : Type := {
  ri_broker_id : Z;
  ri_is_leader : bool;
  ri_offset : Z;
}.
Definition ReplicaInfo_new_leader (broker_id offset : Z) : ReplicaInfo :=
  {| ri_broker_id := broker_id; ri_is_leader := true; ri_offset := offset |}.
Definition ReplicaInfo_new_follower (broker_id offset : Z) : ReplicaInfo :=
  {| ri_broker_id := broker_id; ri_is_leader := false; ri_offset := offset |}.

Record PartitionReplicaState : Type := {
  prs_topic : string;
  prs_partition : Z;
  prs_leader : Z;
  prs_replicas : list Z;
  prs_isr : gset Z;
  prs_replica_offsets : gmap Z Z;
  prs_high_watermark : Z;
  prs_leader_epoch : Z;
}.

Definition PartitionReplicaState_new (topic : string) (partition leader : Z) (replicas : list Z)
    : PartitionReplicaState :=
  {| prs_topic := topic; prs_partition := partition; prs_leader := leader;
     prs_replicas := replicas; prs_isr := list_to_set replicas;
     prs_replica_offsets := list_to_map ((λ id, (id, 0)) <$> replicas);
     prs_high_watermark := 0; prs_leader_epoch := 0 |}.

(** The updates of the methods. *)
Definition prs_set_sync (isr : gset Z) (offsets : gmap Z Z) (hw : Z) (s : PartitionReplicaState)
    : PartitionReplicaState :=
  {| prs_topic := prs_topic s; prs_partition := prs_partition s; prs_leader := prs_leader s;
     prs_replicas := prs_replicas s; prs_isr := isr; prs_replica_offsets := offsets;
     prs_high_watermark := hw; prs_leader_epoch := prs_leader_epoch s |}.
Definition prs_set_leader (leader : Z) (isr : gset Z) (epoch : Z) (s : PartitionReplicaState)
    : PartitionReplicaState :=
  {| prs_topic := prs_topic s; prs_partition := prs_partition s; prs_leader := leader;
     prs_replicas := prs_replicas s; prs_isr := isr; prs_replica_offsets := prs_replica_offsets s;
     prs_high_watermark := prs_high_watermark s; prs_leader_epoch := epoch |}.

(** The high watermark that [update_high_watermark] computes. *)
Definition update_high_watermark (s : PartitionReplicaState) : PartitionReplicaState :=
  if decide (prs_isr s = ∅) then s
  else
    let min_offset :=
      default 0 (list_min (omap (λ b, prs_replica_offsets s !! b) (elements (prs_isr s)))) in
    prs_set_sync (prs_isr s) (prs_replica_offsets s) min_offset s.

Definition PartitionReplicaState_update_replica_offset
    (broker_id offset lag_threshold : Z) (s : PartitionReplicaState) : PartitionReplicaState :=
  let offsets := <[broker_id := offset]> (prs_replica_offsets s) in
  let leader_offset := default 0 (offsets !! prs_leader s) in
  let isr :=
    if leader_offset <=? w64 (offset + lag_threshold)
    then {[broker_id]} ∪ prs_isr s else prs_isr s ∖ {[broker_id]} in
  update_high_watermark (prs_set_sync isr offsets (prs_high_watermark s) s).

Definition PartitionReplicaState_is_leader_in_sync (s : PartitionReplicaState) : bool :=
  bool_decide (prs_leader s ∈ prs_isr s).

(** [cluster.rs], [ClusterMetadata]: the maps are shared by all the clones of it. *)
Record ClusterMetadata : Type := {
  cm_brokers : gmap Z BrokerInfo;
  cm_partition_states : gmap (string * Z) PartitionReplicaState;
  cm_broker_id : Z;
  cm_broker_timeout : Z;
  cm_isr_lag_threshold : Z;
}.
Definition cm_set_brokers (m : gmap Z BrokerInfo) (c : ClusterMetadata) : ClusterMetadata :=
  {| cm_brokers := m; cm_partition_states := cm_partition_states c;
     cm_broker_id := cm_broker_id c; cm_broker_timeout := cm_broker_timeout c;
     cm_isr_lag_threshold := cm_isr_lag_threshold c |}.
Definition cm_set_states (m : gmap (string * Z) PartitionReplicaState) (c : ClusterMetadata)
    : ClusterMetadata :=
  {| cm_brokers := cm_brokers c; cm_partition_states := m;
     cm_broker_id := cm_broker_id c; cm_broker_timeout := cm_broker_timeout c;
     cm_isr_lag_threshold := cm_isr_lag_threshold c |}.

Definition ClusterMetadata_new (broker_id broker_timeout isr_lag_threshold : Z) : ClusterMetadata :=
  {| cm_brokers := ∅; cm_partition_states := ∅; cm_broker_id := broker_id;
     cm_broker_timeout := broker_timeout; cm_isr_lag_threshold := isr_lag_threshold |}.

Definition register_broker (broker : BrokerInfo) (c : ClusterMetadata) : ClusterMetadata :=
  cm_set_brokers (<[bi_id broker := broker]> (cm_brokers c)) c.

Definition update_broker_heartbeat (now broker_id : Z) (c : ClusterMetadata) : ClusterMetadata :=
  match cm_brokers c !! broker_id with
  | Some b => cm_set_brokers (<[broker_id := BrokerInfo_update_heartbeat now b]> (cm_brokers c)) c
  | None => c
  end.

Definition is_broker_alive (now broker_id : Z) (c : ClusterMetadata) : bool :=
  match cm_brokers c !! broker_id with
  | Some b => BrokerInfo_is_alive now (cm_broker_timeout c) b
  | None => false
  end.

Definition set_partition_replicas (topic : string) (partition leader : Z) (replicas : list Z)
    (c : ClusterMetadata) : ClusterMetadata :=
  let key := (topic, partition) in
  let state :=
    match cm_partition_states c !! key with
    | Some s =>
        {| prs_topic := prs_topic s; prs_partition := prs_partition s; prs_leader := leader;
           prs_replicas := replicas; prs_isr := list_to_set replicas;
           prs_replica_offsets := prs_replica_offsets s;
           prs_high_watermark := prs_high_watermark s; prs_leader_epoch := prs_leader_epoch s |}
    | None => PartitionReplicaState_new topic partition leader replicas
    end in
  cm_set_states (<[key := state]> (cm_partition_states c)) c.

Definition get_partition_leader (topic : string) (partition : Z) (c : ClusterMetadata) : option Z :=
  prs_leader <$> cm_partition_states c !! (topic, partition).
Definition get_partition_replicas (topic : string) (partition : Z) (c : ClusterMetadata) : list Z :=
  default [] (prs_replicas <$> cm_partition_states c !! (topic, partition)).
Definition get_partition_isr (topic : string) (partition : Z) (c : ClusterMetadata) : gset Z :=
  default ∅ (prs_isr <$> cm_partition_states c !! (topic, partition)).
Definition get_high_watermark (topic : string) (partition : Z) (c : ClusterMetadata) : Z :=
  default 0 (prs_high_watermark <$> cm_partition_states c !! (topic, partition)).
Definition is_partition_leader (topic : string) (partition : Z) (c : ClusterMetadata) : bool :=
  match get_partition_leader topic partition c with
  | Some leader => leader =? cm_broker_id c
  | None => false
  end.

Definition ClusterMetadata_update_replica_offset
    (topic : string) (partition broker_id offset : Z) (c : ClusterMetadata) : ClusterMetadata :=
  match cm_partition_states c !! (topic, partition) with
  | Some s =>
      cm_set_states
        (<[(topic, partition) :=
            PartitionReplicaState_update_replica_offset broker_id offset (cm_isr_lag_threshold c) s]>
          (cm_partition_states c)) c
  | None => c
  end.

Section cluster.
Context `{HashIter}.

Definition elect_new_leader (s : PartitionReplicaState) : PartitionReplicaState * option Z :=
  match set_iter (prs_isr s) with
  | new_leader :: _ =>
      (prs_set_leader new_leader (prs_isr s) (w32 (prs_leader_epoch s + 1)) s, Some new_leader)
  | [] =>
      match prs_replicas s with
      | new_leader :: _ =>
          (prs_set_leader new_leader ({[new_leader]} ∪ prs_isr s) (w32 (prs_leader_epoch s + 1)) s,
           Some new_leader)
      | [] => (s, None)
      end
  end.

Definition get_alive_brokers (now : Z) (c : ClusterMetadata) : list BrokerInfo :=
  filter (λ b, BrokerInfo_is_alive now (cm_broker_timeout c) b = true) (map_iter (cm_brokers c)).*2.

Definition get_all_partition_states (c : ClusterMetadata) : list PartitionReplicaState :=
  (map_iter (cm_partition_states c)).*2.

(** What a failure does to the state of one partition. *)
Definition fail_broker (failed_broker_id : Z) (s : PartitionReplicaState)
    : PartitionReplicaState * option Z :=
  let s := prs_set_sync (prs_isr s ∖ {[failed_broker_id]}) (prs_replica_offsets s)
             (prs_high_watermark s) s in
  if prs_leader s =? failed_broker_id then elect_new_leader s else (s, None).

(** Each state is changed in place; the new leaders are listed in the order of the visit. *)
Definition handle_broker_failure (failed_broker_id : Z) (c : ClusterMetadata)
    : ClusterMetadata * list (string * Z * Z) :=
  (cm_set_states (fst ∘ fail_broker failed_broker_id <$> cm_partition_states c) c,
   omap (λ '(_, s),
     match fail_broker failed_broker_id s with
     | (s', Some new_leader) => Some (prs_topic s', prs_partition s', new_leader)
     | (_, None) => None
     end) (map_iter (cm_partition_states c))).

End cluster.

(** ** Lemmas *)
Section cluster_facts.
Context `{HashIterLaws}.

(** The high watermark is the least offset of the in-sync replicas. *)
Definition hw_is_min (s : PartitionReplicaState) : Prop :=
  (∀ b o, b ∈ prs_isr s → prs_replica_offsets s !! b = Some o → prs_high_watermark s ≤ o) ∧
  ((∃ b o, b ∈ prs_isr s ∧ prs_replica_offsets s !! b = Some o) →
   ∃ b, b ∈ prs_isr s ∧ prs_replica_offsets s !! b = Some (prs_high_watermark s)).

Lemma update_high_watermark_min s :
  prs_isr s ≠ ∅ → hw_is_min (update_high_watermark s).
Proof.
  intros Hne. unfold update_high_watermark. rewrite decide_False by done.
  set (l := omap (λ b, prs_replica_offsets s !! b) (elements (prs_isr s))).
  assert (∀ o, o ∈ l ↔ ∃ b, b ∈ prs_isr s ∧ prs_replica_offsets s !! b = Some o) as Hl.
  { intros o. unfold l. rewrite list_elem_of_omap. by setoid_rewrite elem_of_elements. }
  split; cbn [prs_set_sync prs_isr prs_replica_offsets prs_high_watermark].
  - intros b o Hb Ho. destruct (list_min l) as [m|] eqn:Hm.
    + apply list_min_spec in Hm as [_ Hle]. apply Hle, Hl. by exists b.
    + apply list_min_None in Hm. assert (o ∈ l) as Hin by (apply Hl; by exists b).
      rewrite Hm in Hin. by apply elem_of_nil in Hin.
  - intros (b & o & Hb & Ho). destruct (list_min l) as [m|] eqn:Hm.
    + apply list_min_spec in Hm as [Hin _]. by apply Hl.
    + apply list_min_None in Hm. assert (o ∈ l) as Hin by (apply Hl; by exists b).
      rewrite Hm in Hin. by apply elem_of_nil in Hin.
Qed.

Lemma update_high_watermark_keeps s :
  let s' := update_high_watermark s in
  prs_topic s' = prs_topic s ∧ prs_partition s' = prs_partition s ∧ prs_leader s' = prs_leader s ∧
  prs_replicas s' = prs_replicas s ∧ prs_isr s' = prs_isr s ∧
  prs_replica_offsets s' = prs_replica_offsets s ∧ prs_leader_epoch s' = prs_leader_epoch s.
Proof. unfold update_high_watermark. by case_decide. Qed.

Lemma update_replica_offset_aux b o lag s :
  let s' := PartitionReplicaState_update_replica_offset b o lag s in
  let leader_offset := default 0 (<[b := o]> (prs_replica_offsets s) !! prs_leader s) in
  prs_leader s' = prs_leader s ∧ prs_replicas s' = prs_replicas s ∧
  prs_leader_epoch s' = prs_leader_epoch s ∧
  prs_replica_offsets s' = <[b := o]> (prs_replica_offsets s) ∧
  (b ∈ prs_isr s' ↔ leader_offset ≤ w64 (o + lag)) ∧
  (∀ b', b' ≠ b → b' ∈ prs_isr s' ↔ b' ∈ prs_isr s) ∧
  (prs_isr s' ≠ ∅ → hw_is_min s').
Proof.
  cbv zeta. unfold PartitionReplicaState_update_replica_offset.
  set (isr := if _ <=? _ then _ else _).
  set (s1 := prs_set_sync isr _ _ s).
  destruct (update_high_watermark_keeps s1) as (_ & _ & Hl & Hr & Hi & Ho & He).
  rewrite Hi. split_and!; [done|done|done|done| | |].
  - change (prs_isr s1) with isr. unfold isr.
    destruct (Z.leb_spec (default 0 (<[b := o]> (prs_replica_offsets s) !! prs_leader s)) (w64 (o + lag))).
    + split; [done|]. intros _. apply elem_of_union_l. by apply elem_of_singleton.
    + split; [|lia]. intros [_ Hn]%elem_of_difference. destruct Hn. by apply elem_of_singleton.
  - intros b' Hb'. change (prs_isr s1) with isr. unfold isr. case_match.
    + rewrite elem_of_union, elem_of_singleton. split; [by intros [?|?]|by right].
    + rewrite elem_of_difference, elem_of_singleton. split; [by intros [? _]|done].
  - apply update_high_watermark_min.
Qed.

Lemma set_iter_nil (X : gset Z) : set_iter X = [] ↔ X = ∅.
Proof.
  split.
  - intros Hn. apply leibniz_equiv, elements_empty_iff. apply Permutation_nil. rewrite <-Hn.
    apply set_iter_perm.
  - intros ->. pose proof (set_iter_perm (∅ : gset Z)) as Hp. rewrite elements_empty in Hp.
    by apply Permutation_nil.
Qed.

(** An election picks an in-sync replica when there is one, the first replica otherwise. *)
Lemma elect_new_leader_aux s :
  match elect_new_leader s with
  | (s', Some l) =>
      (l ∈ prs_isr s ∨ prs_isr s = ∅ ∧ head (prs_replicas s) = Some l) ∧
      s' = prs_set_leader l ({[l]} ∪ prs_isr s) (w32 (prs_leader_epoch s + 1)) s
  | (s', None) => s' = s ∧ prs_isr s = ∅ ∧ prs_replicas s = []
  end.
Proof.
  unfold elect_new_leader. destruct (set_iter (prs_isr s)) as [|l ls] eqn:Hl.
  - apply set_iter_nil in Hl. destruct (prs_replicas s) as [|r rs]; [done|].
    split; [by right|done].
  - assert (l ∈ prs_isr s) as Hin by (apply elem_of_set_iter; rewrite Hl; by left).
    split; [by left|]. replace ({[l]} ∪ prs_isr s) with (prs_isr s); [done|].
    apply leibniz_equiv. set_solver.
Qed.

Lemma fail_broker_aux b s :
  match fail_broker b s with
  | (s', Some l) =>
      prs_leader s = b ∧ prs_leader s' = l ∧ l ∈ prs_isr s' ∧
      prs_leader_epoch s' = w32 (prs_leader_epoch s + 1) ∧
      (l ∈ prs_isr s ∧ l ≠ b ∨ prs_isr s ⊆ {[b]} ∧ head (prs_replicas s) = Some l)
  | (s', None) =>
      prs_leader s' = prs_leader s ∧ prs_leader_epoch s' = prs_leader_epoch s ∧
      prs_isr s' = prs_isr s ∖ {[b]} ∧
      (prs_leader s = b → prs_isr s ⊆ {[b]} ∧ prs_replicas s = [])
  end.
Proof.
  unfold fail_broker. set (s1 := prs_set_sync _ _ _ s).
  destruct (Z.eqb_spec (prs_leader s1) b) as [Hl|Hl]; [|by split_and!].
  pose proof (elect_new_leader_aux s1) as He. destruct (elect_new_leader s1) as [s' [l|]].
  - destruct He as [Hc ->].
    cbn [prs_set_leader prs_leader prs_isr prs_leader_epoch s1 prs_set_sync].
    cbn [s1 prs_set_sync prs_isr prs_replicas] in Hc. split_and!; [done|done|set_solver|done|].
    destruct Hc as [Hin|[He Hh]]; [left; set_solver|right]. split; [|done].
    intros x Hx. apply elem_of_singleton. destruct (decide (x = b)); [done|].
    assert (x ∈ prs_isr s ∖ {[b]}) as Hin by set_solver. rewrite He in Hin. set_solver.
  - destruct He as (-> & He & Hr).
    cbn [s1 prs_set_sync prs_isr prs_replicas prs_leader prs_leader_epoch] in *.
    split_and!; [done|done|done|]. intros _. split; [|done].
    intros x Hx. apply elem_of_singleton. destruct (decide (x = b)); [done|].
    assert (x ∈ prs_isr s ∖ {[b]}) as Hin by set_solver. rewrite He in Hin. set_solver.
Qed.

(** ** The invariant of the cluster: every leader is in sync *)
Definition leader_in_sync (c : ClusterMetadata) : Prop :=
  ∀ k s, cm_partition_states c !! k = Some s → prs_leader s ∈ prs_isr s ∧ prs_replicas s ≠ [].
(** The offsets that are reported leave room for the lag threshold. *)
Definition offset_in_range (c : ClusterMetadata) (o : Z) : Prop :=
  0 ≤ o ∧ 0 ≤ cm_isr_lag_threshold c ∧ o + cm_isr_lag_threshold c < 2 ^ 64.

Lemma leader_in_sync_update c topic partition b o :
  leader_in_sync c → offset_in_range c o →
  leader_in_sync (ClusterMetadata_update_replica_offset topic partition b o c).
Proof.
  intros Hinv Ho. unfold ClusterMetadata_update_replica_offset.
  destruct (cm_partition_states c !! (topic, partition)) as [s|] eqn:Hs; [|done].
  intros k s'. cbn [cm_set_states cm_partition_states].
  intros [[<- <-]|[_ Hk]]%lookup_insert_Some; [|by eapply Hinv].
  destruct (update_replica_offset_aux b o (cm_isr_lag_threshold c) s)
    as (Hl & Hr & _ & _ & Hin & Hout & _).
  rewrite Hl, Hr. destruct (Hinv _ _ Hs) as [Hi Hne]. split; [|done].
  destruct (decide (prs_leader s = b)) as [Heq|]; [|by apply Hout].
  rewrite Heq at 1. apply Hin. rewrite Heq, lookup_insert_eq. unfold offset_in_range in Ho. simpl.
  rewrite w64_small by (unfold is_u64; lia). lia.
Qed.

Lemma leader_in_sync_failure c b :
  leader_in_sync c → leader_in_sync (handle_broker_failure b c).1.
Proof.
  intros Hinv k s'. cbn [handle_broker_failure fst cm_set_states cm_partition_states].
  rewrite lookup_fmap. intros (s & Hs & ->)%fmap_Some. simpl.
  pose proof (fail_broker_aux b s) as Hf. specialize (Hinv _ _ Hs).
  assert (prs_replicas (fail_broker b s).1 = prs_replicas s) as Hr.
  { unfold fail_broker. destruct (_ =? _); [|done]. pose proof (elect_new_leader_aux (prs_set_sync
      (prs_isr s ∖ {[b]}) (prs_replica_offsets s) (prs_high_watermark s) s)) as He.
    destruct (elect_new_leader _) as [s1 [l|]]; [by destruct He as [_ ->]|by destruct He as [-> _]]. }
  destruct Hinv as [Hin Hne]. rewrite Hr. split; [|done].
  destruct (fail_broker b s) as [s1 [l|]]; simpl in *.
  - by destruct Hf as (_ & -> & Hin' & _).
  - destruct Hf as (-> & _ & -> & Hb).
    destruct (decide (prs_leader s = b)) as [Heq|Hlb]; [|set_solver].
    by destruct (Hb Heq) as [_ ?].
Qed.

Lemma leader_in_sync_replicas c topic partition leader replicas :
  leader_in_sync c → leader ∈ replicas →
  leader_in_sync (set_partition_replicas topic partition leader replicas c).
Proof.
  intros Hinv Hl k s'. cbn [set_partition_replicas cm_set_states cm_partition_states].
  intros [[<- <-]|[_ Hk]]%lookup_insert_Some; [|by eapply Hinv].
  assert (replicas ≠ []) as Hne by (intros ->; by apply elem_of_nil in Hl).
  destruct (cm_partition_states c !! (topic, partition));
    cbn [prs_leader prs_isr prs_replicas PartitionReplicaState_new];
    (split; [by apply elem_of_list_to_set|done]).
Qed.

(** The cluster under the calls that change it, in any order and any number.  The caller
    names a leader among the replicas it sets, as [assign_partition_replicas] does, and
    reports offsets that leave room for the lag threshold. *)
Inductive cluster_step : ClusterMetadata → ClusterMetadata → Prop :=
  | step_register b c : cluster_step c (register_broker b c)
  | step_heartbeat now b c : cluster_step c (update_broker_heartbeat now b c)
  | step_set_replicas topic partition leader replicas c :
      leader ∈ replicas →
      cluster_step c (set_partition_replicas topic partition leader replicas c)
  | step_update_offset topic partition b o c :
      offset_in_range c o →
      cluster_step c (ClusterMetadata_update_replica_offset topic partition b o c)
  | step_failure b c : cluster_step c (handle_broker_failure b c).1.

Lemma cluster_step_in_sync c c' : cluster_step c c' → leader_in_sync c → leader_in_sync c'.
Proof.
  intros [b ?|now b ?|topic partition leader replicas ? Hin|topic partition b o ? Ho|b ?] Hinv.
  - done.
  - unfold update_broker_heartbeat. by destruct (_ !! b).
  - by apply leader_in_sync_replicas.
  - by apply leader_in_sync_update.
  - by apply leader_in_sync_failure.
Qed.
Lemma cluster_steps_in_sync c c' : rtc cluster_step c c' → leader_in_sync c → leader_in_sync c'.
Proof. induction 1; eauto using cluster_step_in_sync. Qed.

(** ** Offsets within the logs *)
(** No replica is further than [n], and neither is the high watermark; nothing is known of
    any other broker than [me]. *)
Record state_within (me n : Z) (s : PartitionReplicaState) : Prop := {
  sw_offsets : map_Forall (λ _ o, 0 ≤ o ≤ n) (prs_replica_offsets s);
  sw_mark : 0 ≤ prs_high_watermark s ≤ n;
  sw_others : map_Forall (λ b o, b ≠ me → o = 0) (prs_replica_offsets s);
}.
Definition marks_within (len : string * Z → Z) (c : ClusterMetadata) : Prop :=
  map_Forall (λ k s, state_within (cm_broker_id c) (len k) s) (cm_partition_states c).

Lemma state_within_mono me n n' s : n ≤ n' → state_within me n s → state_within me n' s.
Proof.
  intros Hn [Ho Hm Hb]. split; [|lia|done]. eapply map_Forall_impl; [exact Ho|]. intros id o. cbn. lia.
Qed.
Lemma marks_within_mono len len' c : (∀ k, len k ≤ len' k) → marks_within len c → marks_within len' c.
Proof. intros Hle Hc k s Hk. eapply state_within_mono; [apply Hle|by apply Hc]. Qed.

Lemma high_watermark_within me n s : state_within me n s → 0 ≤ n → state_within me n (update_high_watermark s).
Proof.
  intros [Ho Hm Hb] Hn. unfold update_high_watermark. case_decide; [done|]. split; [done| |done]. cbn.
  destruct (list_min _) as [x|] eqn:Hmin; cbn; [|lia].
  apply list_min_spec in Hmin as [Hin _]. apply list_elem_of_omap in Hin as (b & _ & Hx). by apply Ho in Hx.
Qed.

Lemma marks_within_set len topic partition leader replicas c :
  (∀ k, 0 ≤ len k) → marks_within len c →
  marks_within len (set_partition_replicas topic partition leader replicas c).
Proof.
  intros Hlen Hc. apply map_Forall_insert_2; [|done]. specialize (Hlen (topic, partition)).
  destruct (cm_partition_states c !! (topic, partition)) as [s|] eqn:Hk.
  - by apply Hc in Hk as [Ho Hm Hb].
  - assert (map_Forall (λ _ o, o = 0) (list_to_map ((λ id, (id, 0)) <$> replicas) : gmap Z Z)) as Hz.
    { intros id o Hid. apply elem_of_list_to_map_2, list_elem_of_fmap in Hid as (x & Heq & _). by injection Heq. }
    split; [|done|]; (eapply map_Forall_impl; [exact Hz|]); [by intros id o ->|done].
Qed.

Lemma marks_within_update len topic partition o c :
  0 ≤ o ≤ len (topic, partition) → marks_within len c →
  marks_within len (ClusterMetadata_update_replica_offset topic partition (cm_broker_id c) o c).
Proof.
  intros Ho Hc. unfold ClusterMetadata_update_replica_offset.
  destruct (cm_partition_states c !! (topic, partition)) as [s|] eqn:Hk; [|done].
  apply map_Forall_insert_2; [|done]. apply Hc in Hk as [Hos Hm Hb].
  apply high_watermark_within; [|lia]. split; [|done|]; by apply map_Forall_insert_2.
Qed.

Lemma fail_broker_keeps_marks b s :
  prs_replica_offsets (fail_broker b s).1 = prs_replica_offsets s ∧
  prs_high_watermark (fail_broker b s).1 = prs_high_watermark s.
Proof.
  unfold fail_broker, elect_new_leader. destruct (_ =? _); [|done].
  destruct (set_iter _); [|done]. by destruct (prs_replicas _).
Qed.

Lemma marks_within_failure len b c : marks_within len c → marks_within len (handle_broker_failure b c).1.
Proof.
  intros Hc k s'. cbn [handle_broker_failure fst cm_set_states cm_partition_states].
  rewrite lookup_fmap. intros (s & Hk & ->)%fmap_Some. apply Hc in Hk as [Ho Hm Hb]. cbn [compose].
  destruct (fail_broker_keeps_marks b s) as [Heo Hem]. split; cbn; by rewrite ?Heo, ?Hem.
Qed.

End cluster_facts.

(** ** Properties *)
Section cluster_properties.
Context `{HashIterLaws}.

(** A replica that reports an offset is in sync afterwards exactly when it is within
    the lag threshold of the leader, the membership of the others does not change, and the
    high watermark becomes the least offset of the in-sync replicas. *)
Theorem update_replica_offset_spec b o lag s :
  is_u64 o → 0 ≤ lag → o + lag < 2 ^ 64 →
  let s' := PartitionReplicaState_update_replica_offset b o lag s in
  let leader_offset := default 0 (<[b := o]> (prs_replica_offsets s) !! prs_leader s) in
  prs_leader s' = prs_leader s ∧ prs_leader_epoch s' = prs_leader_epoch s ∧
  prs_replica_offsets s' = <[b := o]> (prs_replica_offsets s) ∧
  (b ∈ prs_isr s' ↔ leader_offset ≤ o + lag) ∧
  (∀ b', b' ≠ b → b' ∈ prs_isr s' ↔ b' ∈ prs_isr s) ∧
  (prs_isr s' ≠ ∅ → hw_is_min s').
Proof.
  intros Ho Hlag Hb. cbv zeta.
  destruct (update_replica_offset_aux b o lag s) as (Hl & _ & He & Hof & Hin & Hout & Hm).
  rewrite w64_small in Hin by (unfold is_u64 in *; lia). done.
Qed.

(** The high watermark is not monotone.  A replica within the lag threshold joins the
    in-sync replicas with its own offset, and the watermark falls back to it. *)
Theorem high_watermark_regresses b o lag s lo :
  prs_isr s = {[prs_leader s]} → b ≠ prs_leader s →
  prs_replica_offsets s !! prs_leader s = Some lo → prs_high_watermark s = lo →
  0 ≤ o → o < lo → lo ≤ o + lag → o + lag < 2 ^ 64 →
  prs_high_watermark (PartitionReplicaState_update_replica_offset b o lag s) = o.
Proof.
  intros Hisr Hne Hlo Hhw Ho Hlt Hlag Hb.
  destruct (update_replica_offset_aux b o lag s) as (Hl & _ & _ & Hof & Hin & Hout & Hm).
  set (s' := PartitionReplicaState_update_replica_offset b o lag s) in *.
  rewrite lookup_insert_ne, Hlo, w64_small in Hin by (done || unfold is_u64; lia). simpl in Hin.
  assert (b ∈ prs_isr s') as Hb' by (apply Hin; lia).
  destruct Hm as [Hle Hatt]; [set_solver|].
  assert (prs_high_watermark s' ≤ o) as Hle'.
  { apply (Hle b); [done|]. by rewrite Hof, lookup_insert_eq. }
  destruct Hatt as (b' & Hb'' & Ho'); [exists b, o; by rewrite Hof, lookup_insert_eq|].
  destruct (decide (b' = b)) as [->|Hbb].
  - rewrite Hof, lookup_insert_eq in Ho'. congruence.
  - apply Hout in Hb''; [|done]. rewrite Hisr in Hb''. apply elem_of_singleton in Hb'' as ->.
    rewrite Hof, lookup_insert_ne, Hlo in Ho' by done. injection Ho' as Ho'. lia.
Qed.

(** A broker that is no replica of a partition enters its in-sync replicas when it
    reports an offset within the lag threshold: nothing checks the assignment. *)
Theorem isr_admits_strangers b o lag s :
  b ∉ prs_replicas s → b ≠ prs_leader s →
  default 0 (prs_replica_offsets s !! prs_leader s) ≤ o + lag → is_u64 (o + lag) →
  let s' := PartitionReplicaState_update_replica_offset b o lag s in
  b ∈ prs_isr s' ∧ b ∉ prs_replicas s'.
Proof.
  intros Hr Hne Hlag Hb. cbv zeta.
  destruct (update_replica_offset_aux b o lag s) as (_ & -> & _ & _ & Hin & _).
  rewrite lookup_insert_ne, w64_small in Hin by done. by split; [apply Hin|].
Qed.

(** When a broker fails, every partition it led elects an in-sync replica other than
    it, with a new epoch, whenever there is one; the other partitions keep their leader and
    their epoch; and the broker leaves every ISR where it was not elected again. *)
Theorem handle_broker_failure_spec b c k s :
  cm_partition_states c !! k = Some s →
  ∃ s', cm_partition_states (handle_broker_failure b c).1 !! k = Some s' ∧
    (prs_leader s ≠ b →
      prs_leader s' = prs_leader s ∧ prs_leader_epoch s' = prs_leader_epoch s ∧ b ∉ prs_isr s') ∧
    (prs_leader s = b → (∃ x, x ∈ prs_isr s ∧ x ≠ b) →
      prs_leader s' ≠ b ∧ prs_leader s' ∈ prs_isr s ∧
      prs_leader_epoch s' = w32 (prs_leader_epoch s + 1) ∧
      (prs_topic s', prs_partition s', prs_leader s') ∈ (handle_broker_failure b c).2).
Proof.
  intros Hs. cbn [handle_broker_failure fst snd cm_set_states cm_partition_states].
  rewrite lookup_fmap, Hs. eexists. split; [done|]. simpl.
  pose proof (fail_broker_aux b s) as Hf. destruct (fail_broker b s) as [s' [l|]] eqn:Hfb; simpl.
  - destruct Hf as (Hb & Hl & Hin & He & Hc). split; [done|]. intros _ (x & Hx & Hxb).
    rewrite Hl. destruct Hc as [[Hli Hlb]|[Hsub _]]; [|set_solver].
    split_and!; [done|done|done|]. apply list_elem_of_omap. exists (k, s).
    by rewrite elem_of_map_iter, Hfb.
  - destruct Hf as (Hl & He & Hi & Hb). split; [|intros ? (x & ? & ?); set_solver].
    intros _. split_and!; [done|done|]. rewrite Hi. set_solver.
Qed.

(** With no other in-sync replica the failed broker elects itself again when it is the
    first replica: it stays leader, is put back into the ISR, and only the epoch moves. *)
Theorem failed_broker_reelects_itself b rs s :
  prs_leader s = b → prs_isr s ⊆ {[b]} → prs_replicas s = b :: rs →
  (fail_broker b s).2 = Some b ∧ prs_leader (fail_broker b s).1 = b ∧
  b ∈ prs_isr (fail_broker b s).1 ∧
  prs_leader_epoch (fail_broker b s).1 = w32 (prs_leader_epoch s + 1).
Proof.
  intros Hl Hi Hr. pose proof (fail_broker_aux b s) as Hf.
  destruct (fail_broker b s) as [s' [l|]]; simpl.
  - destruct Hf as (_ & Hl' & Hin & He & [[Hli Hlb]|[_ Hh]]); [set_solver|].
    rewrite Hr in Hh. injection Hh as <-. done.
  - destruct Hf as (_ & _ & _ & Hb). destruct (Hb Hl) as [_ Hn]. by rewrite Hr in Hn.
Qed.

(** C38: in every cluster that the operations reach from a new one (registrations,
    heartbeats, assignments, reports of offsets and failures of brokers, in any order),
    every partition has a leader that is one of its in-sync replicas, so that
    [is_leader_in_sync] holds; an election after a failure can always find one.  It is
    assumed of the calls that an assignment names a leader among its replicas, which is
    not checked, and that a reported offset and the lag threshold add up to less than
    [2 ^ 64], since the sum wraps around. *)
Theorem leader_in_sync_invariant broker_id timeout lag c topic partition s :
  rtc cluster_step (ClusterMetadata_new broker_id timeout lag) c →
  cm_partition_states c !! (topic, partition) = Some s →
  PartitionReplicaState_is_leader_in_sync s = true ∧
  prs_leader s ∈ get_partition_isr topic partition c ∧
  get_partition_replicas topic partition c ≠ [] ∧
  (∀ b, prs_leader s = b → is_Some (fail_broker b s).2).
Proof.
  intros Hrtc Hs. pose proof (cluster_steps_in_sync _ _ Hrtc) as Hinv.
  destruct (Hinv ltac:(by intros ???) _ _ Hs) as [Hin Hne].
  unfold PartitionReplicaState_is_leader_in_sync, get_partition_isr, get_partition_replicas.
  rewrite Hs. split; [by apply bool_decide_eq_true|]. split; [done|]. split; [done|].
  intros b Hb. pose proof (fail_broker_aux b s) as Hf.
  destruct (fail_broker b s) as [s' [l|]]; [by eexists|].
  destruct Hf as (_ & _ & _ & Hn). by destruct (Hn Hb) as [_ ?].
Qed.
End cluster_properties.
