(* ===== verification/Replication.v ===== *)
(** * ReplicationManager: replica assignment, replication fetches and broker health

    [broker/src/replication.rs].  The manager shares the cluster and the topics with the
    server, so its operations take them as arguments and return what they change.  [now]
    is a reading of the clock. *)
From S2P Require Import Prelude Bytes Text Common Messages Compression DiskRecord FileSystem.
From S2P Require Import OffsetIndex Retention Segment Partition Topic Cluster.

Record ReplicationFetchRequest : Type := {
  rq_topic : string;
  rq_partition : Z;
  rq_offset : Z;
  rq_max_records : Z;
}.
Record ReplicationFetchResponse : Type := {
  rr_records : list Record_;
  rr_high_watermark : Z;
  rr_leader_epoch : Z;
}.

Record ReplicationManager : Type := {
  rp_follower_state : gmap (string * Z) Z;
  rp_replication_factor : Z;
  rp_max_isr_lag : Z;
}.
Definition ReplicationManager_new (replication_factor max_isr_lag : Z) : ReplicationManager :=
  {| rp_follower_state := ∅; rp_replication_factor := replication_factor;
     rp_max_isr_lag := max_isr_lag |}.

Record ReplicationStats : Type := {
  rs_total_partitions : nat;
  rs_leader_partitions : nat;
  rs_follower_partitions : nat;
  rs_under_replicated_partitions : nat;
}.

Definition update_leader_offset (topic : string) (partition offset : Z) (c : ClusterMetadata)
    : ClusterMetadata :=
  ClusterMetadata_update_replica_offset topic partition (cm_broker_id c) offset c.

Definition can_acknowledge_write (topic : string) (partition offset : Z) (c : ClusterMetadata) : bool :=
  offset <=? get_high_watermark topic partition c.

(** One turn of [follower_replication_loop]; [false] when it ends. *)
Definition follower_replication_step (topic : string) (partition : Z) (tm : TopicManager)
    (c : ClusterMetadata) (rm : ReplicationManager) : ClusterMetadata * ReplicationManager * bool :=
  if is_partition_leader topic partition c then (c, rm, false)
  else
    let current_offset := default 0 (rp_follower_state rm !! (topic, partition)) in
    match topic_handle ← TopicManager_get_topic tm topic; Topic_get_partition topic_handle partition with
    | Ok partition_handle =>
        let next_offset := Partition_next_offset partition_handle in
        if current_offset <? next_offset then
          (ClusterMetadata_update_replica_offset topic partition (cm_broker_id c) next_offset c,
           {| rp_follower_state := <[(topic, partition) := next_offset]> (rp_follower_state rm);
              rp_replication_factor := rp_replication_factor rm;
              rp_max_isr_lag := rp_max_isr_lag rm |}, true)
        else (c, rm, true)
    | _ => (c, rm, true)
    end.

(** The loop: before each turn the topics are those of [tm], and the other tasks have
    changed the cluster; [false] when it has ended. *)
Fixpoint follower_replication_loop (topic : string) (partition : Z)
    (turns : list (TopicManager * (ClusterMetadata → ClusterMetadata))) (c : ClusterMetadata)
    (rm : ReplicationManager) : ClusterMetadata * ReplicationManager * bool :=
  match turns with
  | [] => (c, rm, true)
  | (tm, others) :: turns =>
      let '(c, rm, again) := follower_replication_step topic partition tm (others c) rm in
      if again then follower_replication_loop topic partition turns c rm else (c, rm, false)
  end.

Section replication.
Context `{Crc32} `{CompressionLib} `{HashIter}.

(** The replicas of a partition, its leader first. *)
Definition assign_partition_replicas (now : Z) (partition : Z) (c : ClusterMetadata)
    (rm : ReplicationManager) : Result (Z * list Z) :=
  let alive_brokers := get_alive_brokers now c in
  let num_brokers := Z.of_nat (length alive_brokers) in
  if num_brokers =? 0 then Ok (cm_broker_id c, [cm_broker_id c])
  else
    let repl_factor := Z.min (rp_replication_factor rm) num_brokers in
    let start_idx := partition mod num_brokers in
    let replicas := omap (λ i, bi_id <$> alive_brokers !! Z.to_nat ((start_idx + i) mod num_brokers))
                      (seqZ 0 repl_factor) in
    match replicas with
    | leader :: _ => Ok (leader, replicas)
    | [] => Panic
    end.

(** The state of a partition among all of them, as [iter().find(..)] looks for it. *)
Definition find_state (topic : string) (partition : Z) (c : ClusterMetadata)
    : option PartitionReplicaState :=
  head (filter (λ s, prs_topic s = topic ∧ prs_partition s = partition) (get_all_partition_states c)).

Definition handle_replication_fetch (request : ReplicationFetchRequest) (tm : TopicManager)
    (c : ClusterMetadata) : Result (option ReplicationFetchResponse) :=
  if negb (is_partition_leader (rq_topic request) (rq_partition request) c) then Ok None
  else
    records ←
      match TopicManager_get_topic tm (rq_topic request) with
      | Ok topic =>
          match Topic_get_partition topic (rq_partition request) with
          | Ok partition =>
              match Partition_fetch partition (rq_offset request) (rq_max_records request) with
              | Err _ => Ok []
              | r => r
              end
          | _ => Ok []
          end
      | _ => Ok []
      end;
    let high_watermark := get_high_watermark (rq_topic request) (rq_partition request) c in
    let leader_epoch :=
      default 0 (prs_leader_epoch <$> find_state (rq_topic request) (rq_partition request) c) in
    Ok (Some {| rr_records := records; rr_high_watermark := high_watermark;
                rr_leader_epoch := leader_epoch |}).

(** The states are copied before the loop; the failures are handled one by one. *)
Definition check_broker_health (now : Z) (c : ClusterMetadata) : ClusterMetadata :=
  let alive_ids := bi_id <$> get_alive_brokers now c in
  foldl (λ c state,
    if decide (prs_leader state ∈ alive_ids) then c
    else (handle_broker_failure (prs_leader state) c).1)
    c (get_all_partition_states c).

Definition get_replication_lag (topic : string) (partition follower_id : Z) (c : ClusterMetadata)
    : option Z :=
  leader_offset ← (s ← find_state topic partition c; prs_replica_offsets s !! prs_leader s);
  follower_offset ← (s ← find_state topic partition c; prs_replica_offsets s !! follower_id);
  Some (Z.max 0 (leader_offset - follower_offset)).

Definition get_replication_stats (c : ClusterMetadata) : ReplicationStats :=
  let states := get_all_partition_states c in
  {| rs_total_partitions := length states;
     rs_leader_partitions := length (filter (λ s, prs_leader s = cm_broker_id c) states);
     rs_follower_partitions :=
       length (filter (λ s, prs_leader s ≠ cm_broker_id c ∧ cm_broker_id c ∈ prs_replicas s) states);
     rs_under_replicated_partitions :=
       length (filter (λ s, (size (prs_isr s) < length (prs_replicas s))%nat) states) |}.

End replication.

(** ** Lemmas *)
(** States and brokers are filed under what they say they are. *)
Definition states_filed (c : ClusterMetadata) : Prop :=
  ∀ k s, cm_partition_states c !! k = Some s → (prs_topic s, prs_partition s) = k.
Definition brokers_filed (c : ClusterMetadata) : Prop :=
  ∀ id b, cm_brokers c !! id = Some b → bi_id b = id.

Section replication_facts.
Context `{HashIterLaws}.

Lemma find_state_lookup topic partition c :
  states_filed c → find_state topic partition c = cm_partition_states c !! (topic, partition).
Proof.
  intros Hf. unfold find_state, get_all_partition_states.
  set (l := filter _ (map_iter (cm_partition_states c)).*2).
  assert (∀ s, s ∈ l ↔ cm_partition_states c !! (topic, partition) = Some s) as Hl.
  { intros s. unfold l. rewrite list_elem_of_filter, list_elem_of_fmap. split.
    - intros [[Ht Hp] ([k s'] & -> & Hin%elem_of_map_iter)]. cbn [snd] in *.
      by rewrite <-Ht, <-Hp, (Hf _ _ Hin).
    - intros Hs. pose proof (Hf _ _ Hs) as [= Ht Hp]. split; [done|].
      exists (topic, partition, s). split; [done|]. by apply elem_of_map_iter. }
  destruct l as [|s rest] eqn:El; cbn [head].
  - destruct (cm_partition_states c !! (topic, partition)) as [s|] eqn:Hs; [|done].
    assert (s ∈ ([] : list PartitionReplicaState)) as Hin by by apply Hl. by apply elem_of_nil in Hin.
  - symmetry. apply Hl. by left.
Qed.

Lemma elem_of_alive_brokers now c b :
  b ∈ get_alive_brokers now c ↔
    BrokerInfo_is_alive now (cm_broker_timeout c) b = true ∧ ∃ id, cm_brokers c !! id = Some b.
Proof.
  unfold get_alive_brokers. rewrite list_elem_of_filter, list_elem_of_fmap. split.
  - intros [Ha ([id b'] & -> & Hin%elem_of_map_iter)]. split; [done|by exists id].
  - intros [Ha (id & Hb)]. split; [done|]. exists (id, b). split; [done|]. by apply elem_of_map_iter.
Qed.

Lemma NoDup_alive_ids now c : brokers_filed c → NoDup (bi_id <$> get_alive_brokers now c).
Proof.
  intros Hf. unfold get_alive_brokers.
  eapply sublist_NoDup; [|apply fmap_sublist, sublist_filter].
  replace (bi_id <$> (map_iter (cm_brokers c)).*2) with ((map_iter (cm_brokers c)).*1);
    [apply NoDup_map_iter|].
  rewrite <-list_fmap_compose. apply list_fmap_ext. intros i [id b] Hi. cbn [fst snd compose].
  symmetry. apply Hf. apply elem_of_map_iter. by eapply list_elem_of_lookup_2.
Qed.

(** The brokers that are picked, for a factor that is at least one. *)
Definition picked_replicas (ids : list Z) (partition factor : Z) : list Z :=
  omap (λ i, ids !! Z.to_nat ((partition mod Z.of_nat (length ids) + i) mod Z.of_nat (length ids)))
    (seqZ 0 (Z.min factor (Z.of_nat (length ids)))).

Lemma assign_picked now p c rm :
  let ids := bi_id <$> get_alive_brokers now c in
  assign_partition_replicas now p c rm =
    if decide (ids = []) then Ok (cm_broker_id c, [cm_broker_id c])
    else match picked_replicas ids p (rp_replication_factor rm) with
         | leader :: rs => Ok (leader, leader :: rs)
         | [] => Panic
         end.
Proof.
  intros ids. unfold assign_partition_replicas, picked_replicas, ids. rewrite length_fmap.
  set (alive := get_alive_brokers now c). destruct alive as [|b bs] eqn:Ha; [done|].
  rewrite <-Ha. destruct (Z.eqb_spec (Z.of_nat (length alive)) 0) as [He|_].
  { rewrite Ha in He. simpl in He. lia. }
  rewrite decide_False by by rewrite Ha.
  replace (omap _ (seqZ 0 _)) with (omap
    (λ i, (bi_id <$> alive) !! Z.to_nat ((p mod Z.of_nat (length alive) + i) mod Z.of_nat (length alive)))
    (seqZ 0 (Z.min (rp_replication_factor rm) (Z.of_nat (length alive))))); [by case_match|].
  apply list_omap_ext, Forall_Forall2_diag, Forall_forall. intros i _. apply list_lookup_fmap.
Qed.

Lemma elem_of_picked ids p factor b : b ∈ picked_replicas ids p factor → b ∈ ids.
Proof.
  unfold picked_replicas. rewrite list_elem_of_omap. intros (i & _ & Hb).
  by eapply list_elem_of_lookup_2.
Qed.

(** Every index is in range, so that no pick fails. *)
Lemma picked_fmap ids p factor :
  ids ≠ [] → ∃ g, picked_replicas ids p factor = g <$> seqZ 0 (Z.min factor (Z.of_nat (length ids))) ∧
    ∀ i, ids !! Z.to_nat ((p mod Z.of_nat (length ids) + i) mod Z.of_nat (length ids)) = Some (g i).
Proof.
  intros Hne. set (f := λ i, ids !! Z.to_nat ((p mod Z.of_nat (length ids) + i) mod Z.of_nat (length ids))).
  assert (0 < Z.of_nat (length ids)) as Hn by (destruct ids; [done|simpl; lia]).
  assert (∀ i, f i = Some (default 0 (f i))) as Hf.
  { intros i. destruct (f i) eqn:Hi; [done|]. unfold f in Hi. apply lookup_ge_None in Hi.
    pose proof (Z.mod_pos_bound (p mod Z.of_nat (length ids) + i) _ Hn). lia. }
  exists (λ i, default 0 (f i)). split; [|done]. unfold picked_replicas. fold f.
  generalize (seqZ 0 (Z.min factor (Z.of_nat (length ids)))). intros l.
  induction l as [|x l IH]; [done|]. cbn [omap list_omap]. rewrite IH, (Hf x). done.
Qed.

Lemma picked_lookup ids p factor i :
  ids ≠ [] → 0 ≤ i < Z.min factor (Z.of_nat (length ids)) →
  picked_replicas ids p factor !! Z.to_nat i =
    ids !! Z.to_nat ((p mod Z.of_nat (length ids) + i) mod Z.of_nat (length ids)).
Proof.
  intros Hne Hi. destruct (picked_fmap ids p factor Hne) as (g & -> & Hg).
  by rewrite list_lookup_fmap, lookup_seqZ_lt, Z2Nat.id, Z.add_0_l, Hg by lia.
Qed.

Lemma length_picked ids p factor :
  0 ≤ factor → length (picked_replicas ids p factor) = Z.to_nat (Z.min factor (Z.of_nat (length ids))).
Proof.
  intros Hf. destruct (decide (ids = [])) as [->|Hne].
  { unfold picked_replicas. simpl. by rewrite Z.min_r by lia. }
  destruct (picked_fmap ids p factor Hne) as (g & -> & _). by rewrite length_fmap, length_seqZ.
Qed.

Lemma NoDup_picked ids p factor : NoDup ids → 0 ≤ factor → NoDup (picked_replicas ids p factor).
Proof.
  intros Hnd Hf. destruct (decide (ids = [])) as [->|Hne].
  { unfold picked_replicas. simpl. rewrite Z.min_r by lia. constructor. }
  assert (0 < Z.of_nat (length ids)) as Hn by (destruct ids; [done|simpl; lia]).
  apply NoDup_alt. intros i j b Hi Hj.
  pose proof (lookup_lt_Some _ _ _ Hi) as Hli. pose proof (lookup_lt_Some _ _ _ Hj) as Hlj.
  rewrite length_picked in Hli, Hlj by done.
  rewrite <-(Nat2Z.id i), picked_lookup in Hi by (done || lia).
  rewrite <-(Nat2Z.id j), picked_lookup in Hj by (done || lia).
  pose proof (NoDup_lookup _ _ _ _ Hnd Hi Hj) as Heq.
  set (n := Z.of_nat (length ids)) in *. set (q := p mod n) in *.
  pose proof (Z.mod_pos_bound (q + Z.of_nat i) n Hn). pose proof (Z.mod_pos_bound (q + Z.of_nat j) n Hn).
  assert ((q + Z.of_nat i) mod n = (q + Z.of_nat j) mod n) as Hm by lia.
  pose proof (Z.div_mod (q + Z.of_nat i) n ltac:(lia)) as Hdi.
  pose proof (Z.div_mod (q + Z.of_nat j) n ltac:(lia)) as Hdj. rewrite Hm in Hdi.
  generalize dependent ((q + Z.of_nat i) / n). generalize dependent ((q + Z.of_nat j) / n).
  intros dj Hdj di Hdi. assert (Z.of_nat i - Z.of_nat j = n * (di - dj)) as Hij by lia.
  assert (di - dj = 0 ∨ 1 ≤ di - dj ∨ di - dj ≤ -1) as [Hz|[Hz|Hz]] by lia; [|nia|nia].
  rewrite Hz in Hij. lia.
Qed.

(** ** Broker health *)
(** The dead brokers that lead a partition. *)
Definition dead_leader (now : Z) (c : ClusterMetadata) (b : Z) : Prop :=
  (b ∉ bi_id <$> get_alive_brokers now c) ∧ ∃ k s, cm_partition_states c !! k = Some s ∧ prs_leader s = b.

(** The failures of a list of brokers, one by one, on one partition. *)
Lemma failures_lookup bs c k :
  cm_partition_states (foldl (λ c b, (handle_broker_failure b c).1) c bs) !! k =
    (λ s, foldl (λ s b, (fail_broker b s).1) s bs) <$> cm_partition_states c !! k.
Proof.
  revert c. induction bs as [|b bs IH]; intros c; cbn [foldl].
  { by destruct (cm_partition_states c !! k). }
  rewrite IH. cbn [handle_broker_failure fst cm_set_states cm_partition_states].
  rewrite lookup_fmap. by destruct (cm_partition_states c !! k).
Qed.

(** The dead leaders that a health check finds, in the order it visits the partitions. *)
Definition found_dead (now : Z) (c : ClusterMetadata) : list Z :=
  filter (λ b, b ∉ bi_id <$> get_alive_brokers now c) (prs_leader <$> get_all_partition_states c).

Lemma check_broker_health_foldl now c :
  check_broker_health now c = foldl (λ c b, (handle_broker_failure b c).1) c (found_dead now c).
Proof.
  unfold check_broker_health, found_dead. generalize (bi_id <$> get_alive_brokers now c). intros alive.
  generalize (get_all_partition_states c). intros l. revert c.
  induction l as [|s l IH]; intros c; [done|]. cbn [foldl]. rewrite fmap_cons, IH.
  destruct (decide (prs_leader s ∈ alive)) as [Hin|Hin].
  - rewrite filter_cons_False by tauto. done.
  - by rewrite filter_cons_True by done.
Qed.

Lemma elem_of_all_states c s :
  s ∈ get_all_partition_states c ↔ ∃ k, cm_partition_states c !! k = Some s.
Proof.
  unfold get_all_partition_states. rewrite list_elem_of_fmap. split.
  - intros ([k s'] & -> & Hin%elem_of_map_iter). by exists k.
  - intros (k & Hk). exists (k, s). split; [done|]. by apply elem_of_map_iter.
Qed.

Lemma elem_of_found_dead now c b : b ∈ found_dead now c ↔ dead_leader now c b.
Proof.
  unfold found_dead, dead_leader. rewrite list_elem_of_filter.
  rewrite (list_elem_of_fmap prs_leader). split.
  - intros [Hd (s & -> & (k & Hk)%elem_of_all_states)]. split; [done|by exists k, s].
  - intros [Hd (k & s & Hk & <-)]. split; [done|]. exists s. split; [done|].
    apply elem_of_all_states. by exists k.
Qed.

Lemma fail_broker_isr b s x :
  x ∈ prs_isr (fail_broker b s).1 →
  x ∈ prs_isr s ∧ x ≠ b ∨ (fail_broker b s).2 = Some x ∧ prs_isr s ⊆ {[b]}.
Proof.
  unfold fail_broker. set (s1 := prs_set_sync _ _ _ s).
  destruct (prs_leader s1 =? b).
  - pose proof (elect_new_leader_aux s1) as He. destruct (elect_new_leader s1) as [s' [l|]]; cbn [fst snd].
    + destruct He as [Hc ->]. cbn [prs_set_leader prs_isr s1 prs_set_sync] in *.
      intros [->%elem_of_singleton|Hx]%elem_of_union; [|set_solver].
      destruct Hc as [Hin|[He _]]; [set_solver|]. right. split; [done|].
      intros y Hy. apply elem_of_singleton. destruct (decide (y = b)) as [|Hyb]; [done|].
      assert (y ∈ prs_isr s ∖ {[b]}) as Hin by set_solver. rewrite He in Hin. set_solver.
    + destruct He as (-> & _). cbn [s1 prs_set_sync prs_isr]. set_solver.
  - cbn [fst s1 prs_set_sync prs_isr]. set_solver.
Qed.
Lemma fail_broker_keeps b s x : x ∈ prs_isr s → x ≠ b → x ∈ prs_isr (fail_broker b s).1.
Proof.
  intros Hx Hne. unfold fail_broker. set (s1 := prs_set_sync _ _ _ s).
  assert (x ∈ prs_isr s1) as Hx1 by (cbn [s1 prs_set_sync prs_isr]; set_solver).
  destruct (prs_leader s1 =? b); [|done].
  pose proof (elect_new_leader_aux s1) as He. destruct (elect_new_leader s1) as [s' [l|]]; cbn [fst].
  - destruct He as [_ ->]. cbn [prs_set_leader prs_isr]. set_solver.
  - by destruct He as [-> _].
Qed.

(** Failures of brokers that do not lead the partition. *)
Lemma failures_keep_leader bs s :
  prs_leader s ∉ bs →
  let s' := foldl (λ s b, (fail_broker b s).1) s bs in
  prs_leader s' = prs_leader s ∧ prs_leader_epoch s' = prs_leader_epoch s.
Proof.
  revert s. induction bs as [|b bs IH]; intros s Hn; [done|]. cbn [foldl].
  apply not_elem_of_cons in Hn as [Hb Hn]. pose proof (fail_broker_aux b s) as Hf.
  destruct (fail_broker b s) as [s1 [l|]]; [by destruct Hf as [? _]|]. cbn [fst].
  destruct Hf as (Hl & He & _). rewrite <-Hl, <-He. apply IH. by rewrite Hl.
Qed.

(** With an in-sync replica that does not fail, none of the failed brokers leads. *)
Lemma failures_elect bs x s (done_ : list Z) :
  x ∈ prs_isr s → x ∉ bs →
  (∀ b, b ∈ done_ → (b ∉ prs_isr s) ∧ prs_leader s ≠ b) →
  let s' := foldl (λ s b, (fail_broker b s).1) s bs in
  ∀ b, b ∈ done_ ∨ b ∈ bs → (b ∉ prs_isr s') ∧ prs_leader s' ≠ b.
Proof.
  revert s done_. induction bs as [|b bs IH]; intros s done_ Hx Hxb Hdone; cbn [foldl].
  { intros b [Hb|Hb%elem_of_nil]; [by apply Hdone|done]. }
  apply not_elem_of_cons in Hxb as [Hne Hxb]. cbv zeta. intros b' Hb'.
  apply (IH (fail_broker b s).1 (b :: done_)); [by apply fail_broker_keeps|done| |].
  2: { destruct Hb' as [?|[->|?]%elem_of_cons]; [left; by right|left; by left|by right]. }
  clear b' Hb'. intros b' Hb'.
  assert (∀ y, y ∈ prs_isr (fail_broker b s).1 → y ∈ prs_isr s ∧ y ≠ b) as Hisr.
  { intros y Hy. apply fail_broker_isr in Hy as [?|[_ Hsub]]; [done|]. set_solver. }
  pose proof (fail_broker_aux b s) as Hf. destruct (fail_broker b s) as [s1 [l|]]; cbn [fst] in *.
  - destruct Hf as (_ & Hl & Hlin & _). apply Hisr in Hlin as Hl'.
    apply elem_of_cons in Hb' as [->|Hb'].
    + split; [intros Hy%Hisr; tauto|]. rewrite Hl. tauto.
    + destruct (Hdone _ Hb') as [Hni Hnl]. split; [intros Hy%Hisr; tauto|]. rewrite Hl.
      intros ->. tauto.
  - destruct Hf as (Hl & _ & _ & Hb). rewrite Hl.
    apply elem_of_cons in Hb' as [->|Hb'].
    + split; [intros Hy%Hisr; tauto|]. intros Heq. destruct (Hb Heq) as [Hsub _]. set_solver.
    + destruct (Hdone _ Hb') as [Hni Hnl]. split; [intros Hy%Hisr; tauto|done].
Qed.

(** A partition with no other replica in sync than its leader [b]. *)
Definition lonely (b : Z) (s : PartitionReplicaState) : Prop :=
  prs_leader s = b ∧ prs_isr s ⊆ {[b]} ∧ head (prs_replicas s) = Some b.

Lemma fail_broker_lonely b s :
  lonely b s → lonely b (fail_broker b s).1 ∧
    prs_leader_epoch (fail_broker b s).1 = w32 (prs_leader_epoch s + 1).
Proof.
  intros (Hl & Hi & Hr). unfold fail_broker. cbn [prs_set_sync prs_leader].
  rewrite Hl, Z.eqb_refl. unfold elect_new_leader. cbn [prs_set_sync prs_isr prs_replicas].
  assert (prs_isr s ∖ {[b]} = ∅) as -> by (apply leibniz_equiv; set_solver).
  rewrite (proj2 (set_iter_nil ∅) eq_refl).
  destruct (prs_replicas s) as [|r rs] eqn:Hrs; [done|]. injection Hr as ->.
  unfold lonely. cbn [fst prs_set_leader prs_set_sync prs_leader prs_isr prs_replicas prs_leader_epoch].
  rewrite Hrs. split_and!; [done|set_solver|done|done].
Qed.

Lemma failures_lonely bs b s :
  Forall (λ x, x = b) bs → lonely b s →
  let s' := foldl (λ s b, (fail_broker b s).1) s bs in
  lonely b s' ∧ w32 (prs_leader_epoch s') = w32 (prs_leader_epoch s + Z.of_nat (length bs)).
Proof.
  intros Hbs. revert s. induction Hbs as [|x bs -> Hbs IH]; intros s Hs; cbn [foldl].
  { split; [done|]. simpl. by rewrite Z.add_0_r. }
  destruct (fail_broker_lonely b s Hs) as [Hs1 He]. destruct (IH _ Hs1) as [Hs2 He2].
  split; [done|]. rewrite He2, He. unfold w32. rewrite Zplus_mod_idemp_l. f_equal. simpl. lia.
Qed.

End replication_facts.

(** ** Properties *)
Section replication_properties.
Context `{HashIterLaws}.

(** C40: with a replication factor of at least one, a partition is given that many distinct
    alive brokers, or all of them when there are fewer, its leader first: the alive broker
    whose position is the partition number modulo their count, so that leaders go
    round-robin. Without an alive broker it is given this one. (A factor of zero panics:
    [assign_zero_factor_panics].) *)
Theorem assign_partition_replicas_spec now p c rm :
  brokers_filed c → is_u32 p → 1 ≤ rp_replication_factor rm →
  let ids := bi_id <$> get_alive_brokers now c in
  ∃ leader rs, assign_partition_replicas now p c rm = Ok (leader, leader :: rs) ∧
    (ids = [] → leader = cm_broker_id c ∧ rs = []) ∧
    (ids ≠ [] → NoDup (leader :: rs) ∧ (∀ b, b ∈ leader :: rs → b ∈ ids) ∧
      length (leader :: rs) = Z.to_nat (Z.min (rp_replication_factor rm) (Z.of_nat (length ids))) ∧
      ids !! Z.to_nat (p mod Z.of_nat (length ids)) = Some leader).
Proof.
  intros Hf Hp Hrf ids. rewrite assign_picked. fold ids.
  destruct (decide (ids = [])) as [He|Hne]; [by exists (cm_broker_id c), []|].
  pose proof (NoDup_alive_ids now c Hf) as Hnd. fold ids in Hnd.
  pose proof (NoDup_picked ids p (rp_replication_factor rm) Hnd ltac:(lia)) as Hpnd.
  pose proof (length_picked ids p (rp_replication_factor rm) ltac:(lia)) as Hlen.
  pose proof (elem_of_picked ids p (rp_replication_factor rm)) as Hin.
  assert (0 < Z.of_nat (length ids)) as Hn by (destruct ids; [done|simpl; lia]).
  pose proof (picked_lookup ids p (rp_replication_factor rm) 0 Hne ltac:(lia)) as H0'.
  rewrite Z.add_0_r, Zmod_mod in H0'.
  destruct (picked_replicas ids p (rp_replication_factor rm)) as [|l rs]; [simpl in Hlen; lia|].
  exists l, rs. split_and!; [done|done|]. intros _. by split_and!.
Qed.

(** With a replication factor of zero the assignment panics as soon as there is an
    alive broker: the list of replicas is empty and has no first element. *)
Theorem assign_zero_factor_panics now p c rm :
  get_alive_brokers now c ≠ [] → rp_replication_factor rm = 0 →
  assign_partition_replicas now p c rm = Panic.
Proof.
  intros Ha Hrf. rewrite assign_picked. rewrite decide_False by by intros ?%fmap_nil_inv.
  unfold picked_replicas. rewrite Hrf, Z.min_l by lia. done.
Qed.

(** C39: a health check does not touch the leader and the epoch of a partition whose leader
    is alive; and a partition that has an in-sync replica which is not itself a dead leader
    ends up with a leader that is none of the dead leaders. *)
Theorem check_broker_health_spec now c k s :
  cm_partition_states c !! k = Some s →
  ∃ s', cm_partition_states (check_broker_health now c) !! k = Some s' ∧
    (¬ dead_leader now c (prs_leader s) →
      prs_leader s' = prs_leader s ∧ prs_leader_epoch s' = prs_leader_epoch s) ∧
    (∀ x, x ∈ prs_isr s → ¬ dead_leader now c x →
      ∀ b, dead_leader now c b → (b ∉ prs_isr s') ∧ prs_leader s' ≠ b).
Proof.
  intros Hs. rewrite check_broker_health_foldl, failures_lookup, Hs. eexists. split; [done|].
  setoid_rewrite <-elem_of_found_dead. split; [by apply failures_keep_leader|].
  intros x Hx Hnx b Hb.
  apply (failures_elect (found_dead now c) x s []); [done|done|by intros ? ?%elem_of_nil|by right].
Qed.

(** A broker that is alone in sync for all its partitions stays their leader after its
    heartbeat expired, and every health check raises the epoch of every partition by the
    number of partitions. *)
Theorem stale_broker_bumps_epochs now c b k s :
  (b ∉ bi_id <$> get_alive_brokers now c) →
  (∀ k s, cm_partition_states c !! k = Some s → lonely b s) →
  cm_partition_states c !! k = Some s →
  ∃ s', cm_partition_states (check_broker_health now c) !! k = Some s' ∧ prs_leader s' = b ∧
    w32 (prs_leader_epoch s') =
      w32 (prs_leader_epoch s + Z.of_nat (size (cm_partition_states c))).
Proof.
  intros Hb Hall Hs. rewrite check_broker_health_foldl, failures_lookup, Hs.
  eexists. split; [done|].
  assert (prs_leader <$> get_all_partition_states c =
    (λ _, b) <$> get_all_partition_states c) as Hleaders.
  { apply list_fmap_ext. intros i x Hi%list_elem_of_lookup_2.
    apply elem_of_all_states in Hi as [k' Hk']. by apply (Hall _ _ Hk'). }
  assert (Forall (λ x, x = b) (prs_leader <$> get_all_partition_states c)) as Hfa.
  { rewrite Hleaders. apply Forall_fmap, Forall_forall. done. }
  assert (found_dead now c = prs_leader <$> get_all_partition_states c) as Hfd.
  { unfold found_dead. apply list_filter_all. eapply Forall_impl; [done|]. by intros ? ->. }
  rewrite Hfd.
  destruct (failures_lonely _ b s Hfa (Hall _ _ Hs)) as [(Hl & _) He]. split; [done|].
  rewrite He. unfold get_all_partition_states. by rewrite !length_fmap, length_map_iter.
Qed.
End replication_properties.

(** ** The loop of a follower *)
Section follower.
Context `{Crc32Laws} `{CompressionLaws}.

Lemma update_replica_keeps_leader topic partition b o c :
  is_partition_leader topic partition (ClusterMetadata_update_replica_offset topic partition b o c) =
  is_partition_leader topic partition c.
Proof.
  unfold is_partition_leader, get_partition_leader, ClusterMetadata_update_replica_offset.
  destruct (cm_partition_states c !! (topic, partition)) as [st|] eqn:Hst; [|by rewrite Hst].
  cbn [cm_set_states cm_partition_states cm_broker_id]. rewrite lookup_insert_eq.
  destruct (update_replica_offset_aux b o (cm_isr_lag_threshold c) st) as (Hl & _). cbn [fmap option_fmap option_map].
  by rewrite Hl.
Qed.

(** One turn of a follower whose log is [ms]. *)
Lemma follower_step d tm spec room topic partition logs ms c rm :
  Manager_holds d tm spec room → spec !! topic = Some logs → 0 ≤ partition →
  logs !! Z.to_nat partition = Some ms → is_partition_leader topic partition c = false →
  follower_replication_step topic partition tm c rm =
    if default 0 (rp_follower_state rm !! (topic, partition)) <? Z.of_nat (length ms) then
      (ClusterMetadata_update_replica_offset topic partition (cm_broker_id c) (Z.of_nat (length ms)) c,
       {| rp_follower_state := <[(topic, partition) := Z.of_nat (length ms)]> (rp_follower_state rm);
          rp_replication_factor := rp_replication_factor rm; rp_max_isr_lag := rp_max_isr_lag rm |}, true)
    else (c, rm, true).
Proof.
  intros Hm Hl Hp Hms Hlead. pose proof (Manager_get_topic _ _ _ _ topic Hm) as Hget. rewrite Hl in Hget.
  destruct Hget as (t & Hg & Ht). pose proof (Topic_get _ _ _ _ _ _ partition Ht Hp) as Hgp.
  rewrite Hms in Hgp. destruct Hgp as (pt & Hgp & _ & Hpt).
  pose proof (Partition_holds_next _ _ _ _ _ (po_holds _ _ _ _ _ _ _ Hpt)) as Hn. rewrite Z.add_0_l in Hn.
  unfold follower_replication_step. by rewrite Hlead, Hg, outcome_bind_Ok, Hgp, Hn.
Qed.

(** The loop of a follower settles on the end of its own log: one turn brings the offset it
    remembers to the number of messages of its partition, unless it is beyond, and reports
    it to the cluster; as long as the log does not grow the next turns change nothing, and
    they go on until the broker leads the partition. *)
Theorem follower_step_settles d tm spec room topic partition logs ms c rm :
  Manager_holds d tm spec room → spec !! topic = Some logs → 0 ≤ partition →
  logs !! Z.to_nat partition = Some ms → is_partition_leader topic partition c = false →
  let k := (topic, partition) in
  let current := default 0 (rp_follower_state rm !! k) in
  ∃ c' rm', follower_replication_step topic partition tm c rm = (c', rm', true) ∧
    default 0 (rp_follower_state rm' !! k) = Z.max current (Z.of_nat (length ms)) ∧
    (∀ k', k' ≠ k → rp_follower_state rm' !! k' = rp_follower_state rm !! k') ∧
    c' = (if current <? Z.of_nat (length ms)
          then ClusterMetadata_update_replica_offset topic partition (cm_broker_id c) (Z.of_nat (length ms)) c
          else c) ∧
    follower_replication_step topic partition tm c' rm' = (c', rm', true).
Proof.
  intros Hm Hl Hp Hms Hlead k current. pose proof (follower_step _ _ _ _ _ _ _ _ c rm Hm Hl Hp Hms Hlead) as Hstep.
  fold k current in Hstep. rewrite Hstep. clear Hstep.
  destruct (Z.ltb_spec current (Z.of_nat (length ms))) as [Hlt|Hge].
  - eexists _, _. split; [reflexivity|]. cbn [rp_follower_state]. rewrite lookup_insert_eq.
    split; [cbn; unfold id; lia|]. split; [intros k' Hk'; by apply lookup_insert_ne|]. split; [done|].
    rewrite (follower_step _ _ _ _ _ _ _ _ _ _ Hm Hl Hp Hms) by (by rewrite update_replica_keeps_leader).
    cbn [rp_follower_state]. fold k. rewrite lookup_insert_eq. cbn [default]. unfold id. by rewrite Z.ltb_irrefl.
  - exists c, rm. split; [done|]. fold current. split; [lia|]. do 2 (split; [done|]).
    rewrite (follower_step _ _ _ _ _ _ _ _ c rm Hm Hl Hp Hms Hlead). fold k current.
    by rewrite (proj2 (Z.ltb_ge _ _)) by lia.
Qed.

(** Before the turn the log is [ms], and the other tasks leave the leader alone. *)
Definition follower_turn (topic : string) (partition : Z)
    (turn : TopicManager * (ClusterMetadata → ClusterMetadata)) (ms : list Message) : Prop :=
  (∃ d spec room logs, Manager_holds d turn.1 spec room ∧ spec !! topic = Some logs ∧
     logs !! Z.to_nat partition = Some ms) ∧
  ∀ c, is_partition_leader topic partition (turn.2 c) = is_partition_leader topic partition c.

(** The loop of a follower, whatever else happens to the cluster and the topics between its
    turns: after any number of turns the offset it remembers is the longest that its log
    was, no other offset has changed, and it goes on until a turn at which its broker leads
    the partition, which ends it and changes nothing. *)
Theorem follower_loop_follows topic partition turns mss c rm :
  0 ≤ partition → Forall2 (follower_turn topic partition) turns mss →
  is_partition_leader topic partition c = false →
  let k := (topic, partition) in
  ∃ c' rm', follower_replication_loop topic partition turns c rm = (c', rm', true) ∧
    default 0 (rp_follower_state rm' !! k) =
      foldl Z.max (default 0 (rp_follower_state rm !! k)) ((λ ms, Z.of_nat (length ms)) <$> mss) ∧
    (∀ k', k' ≠ k → rp_follower_state rm' !! k' = rp_follower_state rm !! k') ∧
    ∀ tm others later, is_partition_leader topic partition (others c') = true →
      follower_replication_loop topic partition (turns ++ (tm, others) :: later) c rm = (others c', rm', false).
Proof.
  intros Hp Hturns Hlead k. revert c rm Hlead.
  induction Hturns as [|[tm others] ms turns mss [(d & spec & room & logs & Hm & Hl & Hms) Ho] _ IH];
    intros c rm Hlead.
  { exists c, rm. split; [done|]. split; [done|]. split; [done|]. intros tm others later Hlast.
    cbn [follower_replication_loop app]. unfold follower_replication_step. by rewrite Hlast. }
  cbn [fst snd] in *. rewrite <-Ho in Hlead.
  pose proof (follower_step _ _ _ _ _ _ _ _ (others c) rm Hm Hl Hp Hms Hlead) as Hstep. fold k in Hstep.
  cbn [follower_replication_loop app fmap list_fmap foldl]. rewrite Hstep. clear Hstep.
  set (current := default 0 (rp_follower_state rm !! k)).
  destruct (Z.ltb_spec current (Z.of_nat (length ms))) as [Hlt|Hge].
  - edestruct IH as (c' & rm' & Hloop & Hoff & Hother & Hend); [rewrite update_replica_keeps_leader; exact Hlead|].
    exists c', rm'. split; [exact Hloop|]. split.
    + rewrite Hoff. cbn [rp_follower_state]. rewrite lookup_insert_eq. cbn [default]. unfold id.
      by rewrite Z.max_r by lia.
    + split; [|exact Hend]. intros k' Hk'. rewrite Hother by done. by apply lookup_insert_ne.
  - destruct (IH _ rm Hlead) as (c' & rm' & Hloop & Hoff & Hother & Hend).
    exists c', rm'. split; [exact Hloop|]. split; [by rewrite Z.max_l by lia|done].
Qed.
End follower.
