(* ===== verification/Coordinator.v ===== *)
(** * GroupCoordinator: consumer groups and their partition assignments

    [broker/src/coordinator.rs].  A group is a map of members; every change of its
    members assigns all the partitions of the subscribed topics again, round-robin.
    [now] is a reading of the clock and [uuid] the eight characters a generated member id
    ends with.  Each operation holds the lock of the groups from start to end. *)
From S2P Require Import Prelude Text Common Messages.

Record GroupMember : Type := {
  gm_member_id : string;
  gm_topics : list string;
  gm_last_heartbeat : Z;
  gm_assignments : list PartitionAssignment;
}.
Definition gm_set_assignments (l : list PartitionAssignment) (m : GroupMember) : GroupMember :=
  {| gm_member_id := gm_member_id m; gm_topics := gm_topics m;
     gm_last_heartbeat := gm_last_heartbeat m; gm_assignments := l |}.
Definition gm_set_heartbeat (now : Z) (m : GroupMember) : GroupMember :=
  {| gm_member_id := gm_member_id m; gm_topics := gm_topics m;
     gm_last_heartbeat := now; gm_assignments := gm_assignments m |}.

Record ConsumerGroup : Type := {
  cg_group_id : string;
  cg_members : gmap string GroupMember;
  cg_generation : Z;
}.
Definition cg_set_members (ms : gmap string GroupMember) (g : ConsumerGroup) : ConsumerGroup :=
  {| cg_group_id := cg_group_id g; cg_members := ms; cg_generation := cg_generation g |}.

Definition ConsumerGroup_new (group_id : string) : ConsumerGroup :=
  {| cg_group_id := group_id; cg_members := ∅; cg_generation := 0 |}.

Definition add_member (member : GroupMember) (g : ConsumerGroup) : ConsumerGroup :=
  cg_set_members (<[gm_member_id member := member]> (cg_members g)) g.

Definition remove_member (member_id : string) (g : ConsumerGroup)
    : ConsumerGroup * option GroupMember :=
  (cg_set_members (delete member_id (cg_members g)) g, cg_members g !! member_id).

Definition ConsumerGroup_heartbeat (now : Z) (member_id : string) : Method ConsumerGroup unit := λ g,
  match cg_members g !! member_id with
  | Some m => (cg_set_members (<[member_id := gm_set_heartbeat now m]> (cg_members g)) g, Ok tt)
  | None => (g, Err (ConsumerNotFound member_id))
  end.

(** A member whose last heartbeat is older than the timeout. *)
Definition is_dead (now timeout : Z) (m : GroupMember) : bool :=
  timeout <? Z.max 0 (now - gm_last_heartbeat m).

Record GroupCoordinator : Type := {
  gc_groups : gmap string ConsumerGroup;
  gc_heartbeat_timeout : Z;
  gc_topic_partitions : gmap string Z;
}.
Definition gc_set_groups (gs : gmap string ConsumerGroup) (c : GroupCoordinator) : GroupCoordinator :=
  {| gc_groups := gs; gc_heartbeat_timeout := gc_heartbeat_timeout c;
     gc_topic_partitions := gc_topic_partitions c |}.

Definition GroupCoordinator_new (heartbeat_timeout : Z) : GroupCoordinator :=
  {| gc_groups := ∅; gc_heartbeat_timeout := heartbeat_timeout; gc_topic_partitions := ∅ |}.

Definition update_topic_partitions (topic : string) (partition_count : Z) (c : GroupCoordinator)
    : GroupCoordinator :=
  {| gc_groups := gc_groups c; gc_heartbeat_timeout := gc_heartbeat_timeout c;
     gc_topic_partitions := <[topic := partition_count]> (gc_topic_partitions c) |}.

Definition GroupCoordinator_heartbeat (now : Z) (group_id member_id : string)
    : Method GroupCoordinator bool := λ c,
  match gc_groups c !! group_id with
  | Some g =>
      let '(g, r) := ConsumerGroup_heartbeat now member_id g in
      (gc_set_groups (<[group_id := g]> (gc_groups c)) c, (λ _, false) <$> r)
  | None => (c, Err (GroupNotFound group_id))
  end.

Definition get_group_size (group_id : string) (c : GroupCoordinator) : option nat :=
  (λ g, size (cg_members g)) <$> gc_groups c !! group_id.

(** The loop over the partitions: the one at [idx] goes to the member at [idx % n]; an
    index past the end would panic, and the remainder rules it out. *)
Fixpoint assign_loop (idx : nat) (partitions : list PartitionAssignment)
    (member_ids : list string) (members : gmap string GroupMember) : gmap string GroupMember :=
  match partitions with
  | [] => members
  | partition :: partitions =>
      let member_idx := (idx mod length member_ids)%nat in
      let members :=
        match member_ids !! member_idx with
        | Some member_id =>
            alter (λ m, gm_set_assignments (gm_assignments m ++ [partition]) m) member_id members
        | None => members
        end in
      assign_loop (S idx) partitions member_ids members
  end.

Section coordinator.
Context `{HashIter}.

Definition get_dead_members (now timeout : Z) (g : ConsumerGroup) : list string :=
  (filter (λ '(_, m), is_dead now timeout m = true) (map_iter (cg_members g))).*1.

(** All the topics of the members. *)
Definition all_topics (g : ConsumerGroup) : gset string :=
  list_to_set (map_iter (cg_members g) ≫= (λ '(_, m), gm_topics m)).

(** All the partitions of these topics, as far as they are known. *)
Definition all_partitions (topic_partitions : gmap string Z) (g : ConsumerGroup)
    : list PartitionAssignment :=
  set_iter (all_topics g) ≫= λ topic,
    match topic_partitions !! topic with
    | Some partition_count => PartitionAssignment_new topic <$> seqZ 0 partition_count
    | None => []
    end.

Definition rebalance (topic_partitions : gmap string Z) (g : ConsumerGroup) : ConsumerGroup :=
  let generation := w32 (cg_generation g + 1) in
  let partitions := all_partitions topic_partitions g in
  let member_ids := (map_iter (cg_members g)).*1 in
  let members :=
    if decide (member_ids = []) then cg_members g
    else assign_loop 0 partitions member_ids (gm_set_assignments [] <$> cg_members g) in
  {| cg_group_id := cg_group_id g; cg_members := members; cg_generation := generation |}.

Definition join_group (now : Z) (uuid : string) (group_id : string) (member_id : option string)
    (topics : list string) : Method GroupCoordinator (string * list PartitionAssignment) := λ c,
  let group := default (ConsumerGroup_new group_id) (gc_groups c !! group_id) in
  let member_id := default (group_id +:+ "-" +:+ uuid) member_id in
  let member := {| gm_member_id := member_id; gm_topics := topics; gm_last_heartbeat := now;
                   gm_assignments := [] |} in
  let group := add_member member group in
  let group := rebalance (gc_topic_partitions c) group in
  let assignments := default [] (gm_assignments <$> cg_members group !! member_id) in
  (gc_set_groups (<[group_id := group]> (gc_groups c)) c, Ok (member_id, assignments)).

Definition leave_group (group_id member_id : string) : Method GroupCoordinator unit := λ c,
  match gc_groups c !! group_id with
  | Some group =>
      match remove_member member_id group with
      | (group, Some _) =>
          if decide (cg_members group = ∅)
          then (gc_set_groups (delete group_id (gc_groups c)) c, Ok tt)
          else (gc_set_groups
                  (<[group_id := rebalance (gc_topic_partitions c) group]> (gc_groups c)) c, Ok tt)
      | (_, None) => (c, Err (ConsumerNotFound member_id))
      end
  | None => (c, Err (GroupNotFound group_id))
  end.

(** [check_heartbeats]; [clock] is the reading of the clock for each group. *)
Definition remove_dead (now timeout : Z) (g : ConsumerGroup) : ConsumerGroup :=
  foldl (λ g member_id, (remove_member member_id g).1) g (get_dead_members now timeout g).

Definition check_heartbeats (clock : string → Z) (c : GroupCoordinator) : GroupCoordinator :=
  let timeout := gc_heartbeat_timeout c in
  let groups := map_imap (λ gid g, Some (remove_dead (clock gid) timeout g)) (gc_groups c) in
  let groups_to_rebalance :=
    omap (λ '(gid, g),
      if decide (get_dead_members (clock gid) timeout g = []) then None else Some gid)
      (map_iter (gc_groups c)) in
  let groups :=
    foldl (λ gs gid,
      match gs !! gid with
      | Some g =>
          if decide (cg_members g = ∅) then gs
          else <[gid := rebalance (gc_topic_partitions c) g]> gs
      | None => gs
      end) groups groups_to_rebalance in
  gc_set_groups (filter (λ '(_, g), cg_members g ≠ ∅) groups) c.

Definition get_groups (c : GroupCoordinator) : list string := (map_iter (gc_groups c)).*1.

End coordinator.

(** ** The share of a member

    [share n j idx ps]: the elements of [ps], numbered from [idx] on, whose number is
    [j] modulo [n]. *)
Fixpoint share {A} (n j idx : nat) (ps : list A) : list A :=
  match ps with
  | [] => []
  | p :: ps =>
      if decide (idx mod n = j)%nat then p :: share n j (S idx) ps else share n j (S idx) ps
  end.

Lemma mjoin_cons_at {A} (f : nat → list A) (p : A) (j0 n i : nat) :
  (i ≤ j0 < i + n)%nat →
  mjoin ((λ j, if decide (j0 = j) then p :: f j else f j) <$> seq i n) ≡ₚ
  p :: mjoin (f <$> seq i n).
Proof.
  revert i. induction n as [|n IH]; intros i Hj; [lia|]. cbn [seq]. rewrite !fmap_cons. simpl.
  destruct (decide (j0 = i)) as [->|Hne].
  - assert ((λ j, if decide (i = j) then p :: f j else f j) <$> seq (S i) n =
      f <$> seq (S i) n) as ->; [|done].
    apply list_fmap_ext. intros k j Hk.
    apply lookup_seq in Hk as [-> _]. by rewrite decide_False by lia.
  - rewrite IH by lia. by rewrite Permutation_middle.
Qed.

Lemma share_cover {A} n idx (ps : list A) :
  (0 < n)%nat → mjoin ((λ j, share n j idx ps) <$> seq 0 n) ≡ₚ ps.
Proof.
  intros Hn. revert idx. induction ps as [|p ps IH]; intros idx; simpl.
  - generalize 0%nat. clear. induction n as [|n IHn]; intros i; simpl; [done|apply IHn].
  - rewrite (mjoin_cons_at (λ j, share n j (S idx) ps) p (idx mod n) n 0).
    + by rewrite IH.
    + pose proof (Nat.mod_upper_bound idx n). lia.
Qed.

(** The size of a share. *)
Lemma length_share {A} n j idx (ps : list A) :
  (j < n)%nat →
  (length (share n j idx ps) + (idx + n - 1 - j) / n = (idx + length ps + n - 1 - j) / n)%nat.
Proof.
  intros Hj. revert idx. induction ps as [|p ps IH]; intros idx; simpl.
  { f_equal. lia. }
  specialize (IH (S idx)).
  replace (idx + S (length ps) + n - 1 - j)%nat with (S idx + length ps + n - 1 - j)%nat by lia.
  rewrite <-IH.
  assert (((S idx + n - 1 - j) / n = (idx + n - 1 - j) / n + (if decide (idx mod n = j) then 1 else 0))%nat) as Hs.
  { pose proof (Nat.div_mod_eq idx n) as Hd. pose proof (Nat.mod_upper_bound idx n) as Hm.
    set (q := (idx / n)%nat) in *. set (r := (idx mod n)%nat) in *.
    destruct (decide (r = j)) as [Hr|Hr].
    - replace (S idx + n - 1 - j)%nat with ((q + 1) * n)%nat by lia.
      rewrite Nat.div_mul by lia.
      replace (idx + n - 1 - j)%nat with (n - 1 + q * n)%nat by lia.
      rewrite Nat.div_add, Nat.div_small by lia. lia.
    - destruct (decide (r < j)%nat).
      + replace (S idx + n - 1 - j)%nat with (r + n - j + q * n)%nat by lia.
        replace (idx + n - 1 - j)%nat with (r + n - 1 - j + q * n)%nat by lia.
        rewrite !Nat.div_add, !Nat.div_small by lia. lia.
      + replace (S idx + n - 1 - j)%nat with (r - j + (q + 1) * n)%nat by lia.
        replace (idx + n - 1 - j)%nat with (r - 1 - j + (q + 1) * n)%nat by lia.
        rewrite !Nat.div_add, !Nat.div_small by lia. lia. }
  rewrite Hs. case_decide; cbn [length]; lia.
Qed.

Lemma share_balanced {A} n j (ps : list A) :
  (j < n)%nat →
  (length ps / n ≤ length (share n j 0 ps) ≤ (length ps + n - 1) / n)%nat.
Proof.
  intros Hj. pose proof (length_share n j 0 ps Hj) as Hl.
  rewrite (Nat.div_small (0 + n - 1 - j)) in Hl by lia. rewrite Nat.add_0_r in Hl.
  rewrite Hl. split; apply Nat.Div0.div_le_mono; lia.
Qed.

(** ** Rebalancing *)
(** All the assignments of the members of a group. *)
Definition group_assignments (g : ConsumerGroup) : list PartitionAssignment :=
  map_to_list (cg_members g) ≫= (λ '(_, m), gm_assignments m).

(** The partition [a] is one that the group should consume. *)
Definition subscribed (topic_partitions : gmap string Z) (g : ConsumerGroup)
    (a : PartitionAssignment) : Prop :=
  (∃ id m, cg_members g !! id = Some m ∧ pa_topic a ∈ gm_topics m) ∧
  ∃ n, topic_partitions !! pa_topic a = Some n ∧ 0 ≤ pa_partition a < n.

Section rebalance_facts.
Context `{HashIterLaws}.

Lemma elem_of_all_topics g t :
  t ∈ all_topics g ↔ ∃ id m, cg_members g !! id = Some m ∧ t ∈ gm_topics m.
Proof.
  unfold all_topics. rewrite elem_of_list_to_set, list_elem_of_bind. split.
  - intros ([id m] & Ht & Hin). apply elem_of_map_iter in Hin. by exists id, m.
  - intros (id & m & Hm & Ht). exists (id, m). split; [done|]. by apply elem_of_map_iter.
Qed.

Lemma elem_of_all_partitions tp g a : a ∈ all_partitions tp g ↔ subscribed tp g a.
Proof.
  unfold all_partitions, subscribed. rewrite list_elem_of_bind. setoid_rewrite elem_of_set_iter.
  rewrite <-elem_of_all_topics. split.
  - intros (t & Ha & Ht). destruct (tp !! t) as [n|] eqn:Hn; [|by apply elem_of_nil in Ha].
    apply list_elem_of_fmap in Ha as (p & -> & Hp). apply elem_of_seqZ in Hp.
    split; [done|]. exists n. split; [done|]. simpl. lia.
  - intros (Ht & n & Hn & Hp). exists (pa_topic a). rewrite Hn. split; [|done].
    apply list_elem_of_fmap. exists (pa_partition a). split; [by destruct a|].
    apply elem_of_seqZ. lia.
Qed.

Lemma NoDup_all_partitions tp g : NoDup (all_partitions tp g).
Proof.
  unfold all_partitions. pose proof (NoDup_set_iter (all_topics g)) as Hnd.
  induction Hnd as [|t ts Ht Hnd IH]; [constructor|]. rewrite bind_cons.
  apply NoDup_app. split; [|split; [|done]].
  - destruct (tp !! t); [|constructor]. apply NoDup_fmap_2; [|apply NoDup_seqZ].
    by intros ?? [= ->].
  - intros a Ha (t' & Ha' & Ht')%list_elem_of_bind.
    assert (pa_topic a = t) as <-.
    { destruct (tp !! t); [|by apply elem_of_nil in Ha].
      by apply list_elem_of_fmap in Ha as (? & -> & _). }
    assert (pa_topic a = t') as <-; [|done].
    destruct (tp !! t'); [|by apply elem_of_nil in Ha'].
    by apply list_elem_of_fmap in Ha' as (? & -> & _).
Qed.

Lemma gm_set_assignments_app m l p :
  gm_set_assignments (gm_assignments (gm_set_assignments l m) ++ p) (gm_set_assignments l m) =
  gm_set_assignments (l ++ p) m.
Proof. done. Qed.

Lemma assign_loop_lookup ps ids ms idx j id :
  NoDup ids → ids !! j = Some id →
  assign_loop idx ps ids ms !! id =
    (λ m, gm_set_assignments (gm_assignments m ++ share (length ids) j idx ps) m) <$> ms !! id.
Proof.
  intros Hnd Hj. pose proof (lookup_lt_Some _ _ _ Hj) as Hlt. revert idx ms.
  induction ps as [|p ps IH]; intros idx ms; cbn [assign_loop share].
  - destruct (ms !! id) as [m|]; [|done]. simpl. rewrite app_nil_r. by destruct m.
  - rewrite IH. destruct (ids !! (idx mod length ids)%nat) as [id'|] eqn:Hid'.
    2: { apply lookup_ge_None in Hid'. pose proof (Nat.mod_upper_bound idx (length ids)). lia. }
    case_decide as Heq.
    + rewrite Heq, Hj in Hid'. injection Hid' as <-. rewrite lookup_alter_eq.
      destruct (ms !! id) as [m|]; [|done]. simpl. by rewrite <-app_assoc.
    + rewrite lookup_alter_ne; [done|]. intros ->. apply Heq. by eapply NoDup_lookup.
Qed.

Lemma assign_loop_dom ps ids ms idx id :
  is_Some (assign_loop idx ps ids ms !! id) ↔ is_Some (ms !! id).
Proof.
  revert idx ms. induction ps as [|p ps IH]; intros idx ms; cbn [assign_loop]; [done|].
  rewrite IH. destruct (ids !! _) as [id'|]; [|done].
  destruct (decide (id = id')) as [->|Hne]; [|by rewrite lookup_alter_ne].
  by rewrite lookup_alter_eq, fmap_is_Some.
Qed.

(** What a rebalance gives to each member. *)
Lemma rebalance_lookup tp g j id :
  (map_iter (cg_members g)).*1 !! j = Some id →
  cg_members (rebalance tp g) !! id =
    gm_set_assignments (share (size (cg_members g)) j 0 (all_partitions tp g)) <$>
      cg_members g !! id.
Proof.
  intros Hj. unfold rebalance. cbn [cg_members].
  rewrite decide_False by (intros Hn; by rewrite Hn in Hj).
  rewrite (assign_loop_lookup _ _ _ _ j id (NoDup_map_iter _) Hj), lookup_fmap.
  rewrite length_fmap, length_map_iter. by destruct (cg_members g !! id).
Qed.

Lemma rebalance_dom tp g id :
  is_Some (cg_members (rebalance tp g) !! id) ↔ is_Some (cg_members g !! id).
Proof.
  unfold rebalance. cbn [cg_members]. case_decide; [done|].
  by rewrite assign_loop_dom, lookup_fmap, fmap_is_Some.
Qed.

Lemma rebalance_member tp g id m :
  cg_members g !! id = Some m →
  ∃ j, (j < size (cg_members g))%nat ∧ (map_iter (cg_members g)).*1 !! j = Some id ∧
    cg_members (rebalance tp g) !! id =
      Some (gm_set_assignments (share (size (cg_members g)) j 0 (all_partitions tp g)) m).
Proof.
  intros Hm. assert (id ∈ (map_iter (cg_members g)).*1) as Hin
    by (apply elem_of_map_iter_keys; by eexists).
  apply list_elem_of_lookup in Hin as [j Hj]. exists j.
  pose proof (lookup_lt_Some _ _ _ Hj) as Hlt. rewrite length_fmap, length_map_iter in Hlt.
  split; [done|]. split; [done|]. by rewrite (rebalance_lookup tp g j id Hj), Hm.
Qed.

Lemma rebalance_None tp g id : cg_members g !! id = None → cg_members (rebalance tp g) !! id = None.
Proof.
  intros Hn. apply eq_None_not_Some. rewrite rebalance_dom, Hn. by intros [? ?].
Qed.

(** The assignments of the members, in any order of the members. *)
Definition assignments_of (ms : gmap string GroupMember) (id : string) : list PartitionAssignment :=
  default [] (gm_assignments <$> ms !! id).

Lemma group_assignments_keys g ids :
  NoDup ids → (∀ id, id ∈ ids ↔ is_Some (cg_members g !! id)) →
  group_assignments g ≡ₚ ids ≫= assignments_of (cg_members g).
Proof.
  intros Hnd Hids. unfold group_assignments.
  transitivity ((map_to_list (cg_members g)).*1 ≫= assignments_of (cg_members g)).
  - assert (∀ l, (∀ k m, (k, m) ∈ l → cg_members g !! k = Some m) →
      l ≫= (λ '(_, m), gm_assignments m) = l.*1 ≫= assignments_of (cg_members g)) as Hgen.
    { induction l as [|[k m] l IH]; intros Hl; [done|]. rewrite fmap_cons, !bind_cons. simpl.
      rewrite IH by (intros; apply Hl; by right). f_equal.
      unfold assignments_of. rewrite (Hl k m) by (by left). done. }
    rewrite Hgen; [done|]. intros k m. by rewrite elem_of_map_to_list.
  - apply bind_Permutation. apply NoDup_Permutation; [apply NoDup_fst_map_to_list|done|].
    intros id. rewrite Hids, list_elem_of_fmap. split.
    + intros ([k m] & -> & Hin). apply elem_of_map_to_list in Hin. by eexists.
    + intros [m Hm]. exists (id, m). by rewrite elem_of_map_to_list.
Qed.

Lemma rebalance_covers_aux tp g :
  cg_members g ≠ ∅ → group_assignments (rebalance tp g) ≡ₚ all_partitions tp g.
Proof.
  intros Hne. set (ids := (map_iter (cg_members g)).*1).
  assert (length ids = size (cg_members g)) as Hlen by (unfold ids; by rewrite length_fmap, length_map_iter).
  rewrite (group_assignments_keys _ ids); [|apply NoDup_map_iter|].
  2: { intros id. rewrite rebalance_dom. apply elem_of_map_iter_keys. }
  assert (ids ≫= assignments_of (cg_members (rebalance tp g)) =
    mjoin ((λ j, share (size (cg_members g)) j 0 (all_partitions tp g)) <$> seq 0 (length ids))) as ->.
  { assert (ids ≫= assignments_of (cg_members (rebalance tp g)) =
      mjoin (assignments_of (cg_members (rebalance tp g)) <$> ids)) as ->.
    { generalize ids (assignments_of (cg_members (rebalance tp g))). clear.
      induction ids as [|id ids IH]; intros f; [done|]. rewrite bind_cons, IH. done. }
    f_equal. apply list_eq. intros j. rewrite !list_lookup_fmap.
    destruct (ids !! j) as [id|] eqn:Hj.
    - pose proof (lookup_lt_Some _ _ _ Hj). rewrite lookup_seq_lt by done. cbn [fmap option_fmap option_map]. f_equal.
      unfold assignments_of. rewrite (rebalance_lookup tp g j id Hj).
      assert (is_Some (cg_members g !! id)) as [m ->]; [|done].
      apply elem_of_map_iter_keys. by apply list_elem_of_lookup_2 in Hj.
    - apply lookup_ge_None in Hj. rewrite lookup_seq_ge by done. done. }
  rewrite Hlen. apply share_cover.
  assert (size (cg_members g) ≠ 0%nat); [|lia]. by rewrite map_size_non_empty_iff.
Qed.

End rebalance_facts.

(** ** Heartbeats *)
Section heartbeat_facts.
Context `{HashIterLaws}.

(** The members that are alive. *)
Definition live_members (now timeout : Z) (g : ConsumerGroup) : gmap string GroupMember :=
  filter (λ '(_, m), is_dead now timeout m = false) (cg_members g).

Lemma elem_of_dead_members now timeout g id :
  id ∈ get_dead_members now timeout g ↔
  ∃ m, cg_members g !! id = Some m ∧ is_dead now timeout m = true.
Proof.
  unfold get_dead_members. rewrite list_elem_of_fmap. split.
  - intros ([id' m] & -> & [Hd Hin]%list_elem_of_filter). apply elem_of_map_iter in Hin. by exists m.
  - intros (m & Hm & Hd). exists (id, m). split; [done|].
    apply list_elem_of_filter. split; [done|]. by apply elem_of_map_iter.
Qed.

Lemma remove_dead_eq now timeout g :
  remove_dead now timeout g = cg_set_members (live_members now timeout g) g.
Proof.
  assert (∀ l g0, foldl (λ g member_id, (remove_member member_id g).1) g0 l =
    cg_set_members (filter (λ '(id, _), id ∉ l) (cg_members g0)) g0) as Hf.
  { induction l as [|id l IH]; intros g0; simpl.
    - rewrite map_filter_id by (intros; apply not_elem_of_nil). by destruct g0.
    - rewrite IH. unfold cg_set_members. cbn [cg_group_id cg_generation cg_members]. f_equal.
      apply map_eq. intros k. apply option_eq. intros m.
      rewrite !map_lookup_filter_Some, lookup_delete_Some, not_elem_of_cons. naive_solver. }
  unfold remove_dead. rewrite Hf. f_equal. unfold live_members. apply map_filter_ext.
  intros id m Hm. rewrite elem_of_dead_members. split.
  - intros Hn. destruct (is_dead now timeout m) eqn:Hd; [|done]. destruct Hn. by exists m.
  - intros Hd (m' & Hm' & Hd'). congruence.
Qed.

Lemma no_dead_members now timeout g :
  get_dead_members now timeout g = [] → live_members now timeout g = cg_members g.
Proof.
  intros Hn. apply map_filter_id. intros id m Hm.
  destruct (is_dead now timeout m) eqn:Hd; [|done].
  assert (id ∈ get_dead_members now timeout g) as Hin by (apply elem_of_dead_members; by exists m).
  rewrite Hn in Hin. by apply elem_of_nil in Hin.
Qed.

(** What the check makes of a group. *)
Definition checked_group (now timeout : Z) (tp : gmap string Z) (g : ConsumerGroup)
    : option ConsumerGroup :=
  let live := live_members now timeout g in
  if decide (live = ∅) then None
  else if decide (get_dead_members now timeout g = []) then Some g
  else Some (rebalance tp (cg_set_members live g)).

Lemma foldl_update_lookup {A} (f : A → option A) (l : list string) (gs : gmap string A) k :
  NoDup l →
  foldl (λ gs gid, match gs !! gid with
                   | Some g => match f g with Some g' => <[gid := g']> gs | None => gs end
                   | None => gs end) gs l !! k =
  match gs !! k with
  | Some g => if decide (k ∈ l) then Some (default g (f g)) else Some g
  | None => None
  end.
Proof.
  intros Hnd. revert gs. induction Hnd as [|x l Hx Hnd IH]; intros gs; simpl.
  { by destruct (gs !! k). }
  rewrite IH. destruct (decide (k = x)) as [->|Hne].
  - destruct (gs !! x) as [g|] eqn:Hg; [|by rewrite Hg].
    destruct (f g) as [g'|] eqn:Hfg; [rewrite lookup_insert_eq|rewrite Hg];
      rewrite (decide_True (P := x ∈ x :: l)) by (by left);
      by rewrite (decide_False (P := x ∈ l)).
  - assert (match gs !! x with
      | Some g => match f g with Some g' => <[x := g']> gs | None => gs end
      | None => gs end !! k = gs !! k) as ->.
    { destruct (gs !! x) as [g|]; [|done]. destruct (f g); [|done]. by rewrite lookup_insert_ne. }
    destruct (gs !! k); [|done]. apply decide_ext. rewrite elem_of_cons. split; [by right|].
    by intros [?|?].
Qed.

Lemma NoDup_omap_keys {K A} (f : K * A → option K) (l : list (K * A)) :
  (∀ k a k', f (k, a) = Some k' → k' = k) → NoDup l.*1 → NoDup (omap f l).
Proof.
  intros Hf. induction l as [|[k a] l IH]; intros Hnd; [constructor|].
  rewrite fmap_cons in Hnd. apply NoDup_cons in Hnd as [Hk Hnd]. specialize (IH Hnd). simpl.
  destruct (f (k, a)) as [k'|] eqn:Hfk; [|done]. apply Hf in Hfk as ->. constructor; [|done].
  intros ([k1 a1] & Hin & ->%Hf)%list_elem_of_omap. apply Hk, list_elem_of_fmap. by exists (k1, a1).
Qed.

(** The groups that are rebalanced one after the other. *)
Definition rebalanced (tp : gmap string Z) (g : ConsumerGroup) : option ConsumerGroup :=
  if decide (cg_members g = ∅) then None else Some (rebalance tp g).

Lemma foldl_rebalanced_lookup tp (l : list string) (gs : gmap string ConsumerGroup) k :
  NoDup l →
  foldl (λ gs gid, match gs !! gid with
      | Some g => if decide (cg_members g = ∅) then gs else <[gid := rebalance tp g]> gs
      | None => gs end) gs l !! k =
  match gs !! k with
  | Some g => if decide (k ∈ l) then Some (default g (rebalanced tp g)) else Some g
  | None => None
  end.
Proof.
  intros Hnd. rewrite <-(foldl_update_lookup (rebalanced tp) l gs k Hnd). f_equal.
  clear Hnd. revert gs. induction l as [|x l IH]; intros gs; [done|]. cbn [foldl]. rewrite IH. f_equal.
  destruct (gs !! x) as [g|]; [|done]. unfold rebalanced. by case_decide.
Qed.

Lemma rebalance_nonempty tp g : cg_members g ≠ ∅ → cg_members (rebalance tp g) ≠ ∅.
Proof.
  intros (id & m & Hm)%map_choose Hn.
  assert (is_Some (cg_members (rebalance tp g) !! id)) as [m' Hm'] by (apply rebalance_dom; by eexists).
  by rewrite Hn, lookup_empty in Hm'.
Qed.

Lemma check_heartbeats_lookup clock c gid :
  gc_groups (check_heartbeats clock c) !! gid =
    gc_groups c !! gid ≫= checked_group (clock gid) (gc_heartbeat_timeout c) (gc_topic_partitions c).
Proof.
  unfold check_heartbeats. cbn [gc_set_groups gc_groups].
  set (timeout := gc_heartbeat_timeout c). set (tp := gc_topic_partitions c).
  set (l := omap _ (map_iter (gc_groups c))).
  assert (∀ k, k ∈ l ↔ ∃ g, gc_groups c !! k = Some g ∧ get_dead_members (clock k) timeout g ≠ []) as Hl.
  { intros k. unfold l. rewrite list_elem_of_omap. split.
    - intros ([k' g] & Hin & Hk). apply elem_of_map_iter in Hin. case_decide; [done|].
      injection Hk as ->. by exists g.
    - intros (g & Hg & Hd). exists (k, g). rewrite elem_of_map_iter. split; [done|].
      by rewrite decide_False. }
  assert (NoDup l) as Hnd.
  { apply NoDup_omap_keys; [|apply NoDup_map_iter]. intros k g k' Hk. by case_decide; simplify_eq. }
  set (gs := map_imap _ (gc_groups c)).
  rewrite map_lookup_filter, (foldl_rebalanced_lookup tp l gs gid Hnd).
  unfold gs. rewrite map_lookup_imap.
  destruct (gc_groups c !! gid) as [g|] eqn:Hg; [|done]. simpl.
  rewrite remove_dead_eq. unfold checked_group. fold timeout tp.
  set (live := live_members (clock gid) timeout g).
  destruct (decide (gid ∈ l)) as [Hin|Hin].
  - apply Hl in Hin as (g' & Hg' & Hd). rewrite Hg in Hg'. injection Hg' as <-.
    rewrite (decide_False (P := get_dead_members _ _ _ = [])) by done.
    unfold rebalanced. cbn [cg_set_members cg_members]. destruct (decide (live = ∅)) as [He|He]; simpl.
    + rewrite option_guard_False; [done|]. tauto.
    + rewrite option_guard_True; [done|]. by apply (rebalance_nonempty tp (cg_set_members live g)).
  - assert (get_dead_members (clock gid) timeout g = []) as Hd.
    { destruct (decide (get_dead_members (clock gid) timeout g = [])); [done|].
      destruct Hin. apply Hl. by exists g. }
    rewrite (decide_True (P := get_dead_members _ _ _ = [])) by done.
    simpl. unfold live. rewrite no_dead_members by done.
    destruct (decide (cg_members g = ∅)) as [He|He].
    + rewrite option_guard_False; [done|]. simpl. tauto.
    + rewrite option_guard_True by done. simpl. by destruct g.
Qed.

End heartbeat_facts.

(** ** The invariant of the coordinator *)
(** No group is empty, members are filed under their ids, and no partition is assigned
    twice in a group. *)
Record group_ok (g : ConsumerGroup) : Prop := {
  go_members : cg_members g ≠ ∅;
  go_ids : ∀ id m, cg_members g !! id = Some m → gm_member_id m = id;
  go_disjoint : NoDup (group_assignments g);
}.
Definition coordinator_inv (c : GroupCoordinator) : Prop :=
  ∀ gid g, gc_groups c !! gid = Some g → group_ok g.

Section coordinator_facts.
Context `{HashIterLaws}.

Lemma rebalance_ok tp g :
  cg_members g ≠ ∅ → (∀ id m, cg_members g !! id = Some m → gm_member_id m = id) →
  group_ok (rebalance tp g).
Proof.
  intros Hne Hids. split.
  - intros Hn. apply map_choose in Hne as (id & m & Hm).
    destruct (rebalance_member tp g id m Hm) as (j & _ & _ & Hr). by rewrite Hn, lookup_empty in Hr.
  - intros id m Hm. destruct (cg_members g !! id) as [m0|] eqn:Hm0.
    + destruct (rebalance_member tp g id m0 Hm0) as (j & _ & _ & Hr). rewrite Hr in Hm.
      injection Hm as <-. exact (Hids _ _ Hm0).
    + by rewrite (rebalance_None _ _ _ Hm0) in Hm.
  - rewrite rebalance_covers_aux by done. apply NoDup_all_partitions.
Qed.

Lemma coordinator_inv_insert c gid g :
  coordinator_inv c → group_ok g → coordinator_inv (gc_set_groups (<[gid := g]> (gc_groups c)) c).
Proof.
  intros Hc Hg gid' g'. cbn [gc_set_groups gc_groups].
  intros [[<- <-]|[_ Hl]]%lookup_insert_Some; [done|]. exact (Hc _ _ Hl).
Qed.

(** The group that a join adds its member to. *)
Definition joined_group (now : Z) (uuid gid : string) (member_id : option string)
    (topics : list string) (c : GroupCoordinator) : ConsumerGroup :=
  let g := default (ConsumerGroup_new gid) (gc_groups c !! gid) in
  let id := default (gid +:+ "-" +:+ uuid) member_id in
  add_member {| gm_member_id := id; gm_topics := topics; gm_last_heartbeat := now;
                gm_assignments := [] |} g.

Lemma joined_group_members now uuid gid member_id topics c :
  coordinator_inv c →
  let g := joined_group now uuid gid member_id topics c in
  cg_members g ≠ ∅ ∧ (∀ id m, cg_members g !! id = Some m → gm_member_id m = id).
Proof.
  intros Hc. unfold joined_group, add_member. cbn [cg_set_members cg_members gm_member_id].
  split; [apply insert_non_empty|].
  intros id m [[<- <-]|[_ Hm]]%lookup_insert_Some; [done|].
  destruct (gc_groups c !! gid) as [g|] eqn:Hg; simpl in Hm.
  - exact (go_ids _ (Hc _ _ Hg) _ _ Hm).
  - by rewrite lookup_empty in Hm.
Qed.

Lemma join_group_inv now uuid gid member_id topics c :
  coordinator_inv c → coordinator_inv (join_group now uuid gid member_id topics c).1.
Proof.
  intros Hc. unfold join_group. cbn [fst]. apply coordinator_inv_insert; [done|].
  destruct (joined_group_members now uuid gid member_id topics c Hc) as [Hne Hids].
  by apply rebalance_ok.
Qed.

Lemma leave_group_inv gid member_id c :
  coordinator_inv c → coordinator_inv (leave_group gid member_id c).1.
Proof.
  intros Hc. unfold leave_group. destruct (gc_groups c !! gid) as [g|] eqn:Hg; [|done].
  unfold remove_member. destruct (cg_members g !! member_id); [|done].
  case_decide as He; cbn [fst].
  - intros gid' g'. cbn [gc_set_groups gc_groups]. intros [_ Hl]%lookup_delete_Some. exact (Hc _ _ Hl).
  - apply coordinator_inv_insert; [done|]. apply rebalance_ok; [done|].
    intros id m. cbn [cg_set_members cg_members]. intros [_ Hm]%lookup_delete_Some.
    exact (go_ids _ (Hc _ _ Hg) _ _ Hm).
Qed.

Lemma group_assignments_heartbeat g id m now :
  cg_members g !! id = Some m →
  group_assignments (cg_set_members (<[id := gm_set_heartbeat now m]> (cg_members g)) g) ≡ₚ
  group_assignments g.
Proof.
  intros Hm. unfold group_assignments. cbn [cg_set_members cg_members].
  rewrite <-(insert_delete_id (cg_members g) id m Hm) at 2.
  rewrite <-insert_delete_eq.
  rewrite !map_to_list_insert by apply lookup_delete_eq. done.
Qed.

Lemma heartbeat_inv now gid member_id c :
  coordinator_inv c → coordinator_inv (GroupCoordinator_heartbeat now gid member_id c).1.
Proof.
  intros Hc. unfold GroupCoordinator_heartbeat.
  destruct (gc_groups c !! gid) as [g|] eqn:Hg; [|done]. pose proof (Hc _ _ Hg) as [Hne Hids Hnd].
  unfold ConsumerGroup_heartbeat. destruct (cg_members g !! member_id) as [m|] eqn:Hm; cbn [fst].
  - apply coordinator_inv_insert; [done|]. split.
    + apply insert_non_empty.
    + intros id m'. cbn [cg_set_members cg_members].
      intros [[<- <-]|[_ Hm']]%lookup_insert_Some; [by apply (Hids _ _ Hm)|by apply Hids].
    + by rewrite group_assignments_heartbeat.
  - by apply coordinator_inv_insert.
Qed.

Lemma check_heartbeats_inv clock c : coordinator_inv c → coordinator_inv (check_heartbeats clock c).
Proof.
  intros Hc gid g. rewrite check_heartbeats_lookup.
  intros (g0 & Hg0 & Hck)%bind_Some. unfold checked_group in Hck.
  case_decide as Hlive; [done|]. case_decide; simplify_eq; [by eapply Hc|].
  apply rebalance_ok; [done|]. intros id m [Hm _]%map_lookup_filter_Some.
  exact (go_ids _ (Hc _ _ Hg0) _ _ Hm).
Qed.

Lemma member_nodup g id m : NoDup (group_assignments g) → cg_members g !! id = Some m → NoDup (gm_assignments m).
Proof.
  intros Hnd Hm. unfold group_assignments in Hnd.
  rewrite <-(map_to_list_delete _ _ _ Hm), bind_cons in Hnd. by apply NoDup_app in Hnd as [? _].
Qed.

Lemma join_group_nodup now uuid gid member_id topics c :
  coordinator_inv c → ∀ m l, (join_group now uuid gid member_id topics c).2 = Ok (m, l) → NoDup l.
Proof.
  intros Hc. pose proof (join_group_inv now uuid gid member_id topics c Hc gid) as Hinv. revert Hinv.
  unfold join_group. cbv zeta. cbn [fst snd gc_set_groups gc_groups].
  match goal with |- context [rebalance ?tp ?g] => generalize (rebalance tp g) end.
  intros g Hinv m l [= _ <-]. specialize (Hinv g (lookup_insert_eq _ _ _)).
  destruct (cg_members g !! _) as [x|] eqn:Hx; [|constructor]. eapply member_nodup; [apply Hinv|exact Hx].
Qed.

(** The errors of the operations. *)
Lemma leave_group_errors gid member_id c :
  match (leave_group gid member_id c).2 with
  | Ok _ => True
  | Err e => e = GroupNotFound gid ∨ e = ConsumerNotFound member_id
  | Panic => False
  end.
Proof.
  unfold leave_group, remove_member. destruct (gc_groups c !! gid) as [g|]; [|by left].
  destruct (cg_members g !! member_id); [by case_decide|by right].
Qed.
Lemma heartbeat_errors now gid member_id c :
  match (GroupCoordinator_heartbeat now gid member_id c).2 with
  | Ok needs_rejoin => needs_rejoin = false
  | Err e => e = GroupNotFound gid ∨ e = ConsumerNotFound member_id
  | Panic => False
  end.
Proof.
  unfold GroupCoordinator_heartbeat, ConsumerGroup_heartbeat. destruct (gc_groups c !! gid) as [g|]; [|by left].
  destruct (cg_members g !! member_id); [done|by right].
Qed.

End coordinator_facts.

(** ** What is assigned *)
(** Every number of partitions the coordinator knows satisfies [Q], and every partition it
    has assigned is below such a number. *)
Definition counted (Q : string → Z → Prop) (a : PartitionAssignment) : Prop :=
  ∃ n, Q (pa_topic a) n ∧ 0 ≤ pa_partition a < n.
Definition group_within (Q : string → Z → Prop) (g : ConsumerGroup) : Prop :=
  map_Forall (λ _ m, Forall (counted Q) (gm_assignments m)) (cg_members g).
Record assigned_within (Q : string → Z → Prop) (c : GroupCoordinator) : Prop := {
  aw_counts : map_Forall Q (gc_topic_partitions c);
  aw_groups : map_Forall (λ _, group_within Q) (gc_groups c);
}.

Section within_facts.
Context `{HashIterLaws} (Q : string → Z → Prop).

Lemma assigned_within_mono (Q' : string → Z → Prop) c :
  (∀ t n, Q t n → Q' t n) → assigned_within Q c → assigned_within Q' c.
Proof.
  intros HQ [Hc Hg]. split; [eapply map_Forall_impl; eauto|].
  eapply map_Forall_impl; [exact Hg|]. intros gid g Hall. eapply map_Forall_impl; [exact Hall|].
  intros id m Hm. eapply Forall_impl; [exact Hm|]. intros a (n & Hn & Hp). exists n. eauto.
Qed.

Lemma assigned_within_new timeout : assigned_within Q (GroupCoordinator_new timeout).
Proof. split; apply map_Forall_empty. Qed.

Lemma share_sublist {A} n j idx (ps : list A) : share n j idx ps `sublist_of` ps.
Proof.
  revert idx. induction ps as [|p ps IH]; intros idx; [done|]. cbn [share].
  case_decide; [apply sublist_skip, IH|apply sublist_cons, IH].
Qed.

Lemma rebalance_within tp g : map_Forall Q tp → group_within Q (rebalance tp g).
Proof.
  intros Htp id m Hm.
  assert (is_Some (cg_members g !! id)) as [m0 Hm0] by (apply (rebalance_dom tp); by eexists).
  destruct (rebalance_member tp g id m0 Hm0) as (j & _ & _ & Heq). rewrite Hm in Heq. injection Heq as ->.
  cbn [gm_set_assignments gm_assignments]. apply Forall_forall. intros a Ha.
  assert (a ∈ all_partitions tp g) as Hin
    by (by eapply elem_of_submseteq, sublist_submseteq, share_sublist).
  apply elem_of_all_partitions in Hin as [_ (n & Hn & Hp)]. exists n. split; [by apply Htp|done].
Qed.

Lemma within_counts topic n c : Q topic n → assigned_within Q c → assigned_within Q (update_topic_partitions topic n c).
Proof. intros Hn [Ht Hg]. split; [|done]. by apply map_Forall_insert_2. Qed.

Lemma within_insert c gid g :
  assigned_within Q c → group_within Q g → assigned_within Q (gc_set_groups (<[gid := g]> (gc_groups c)) c).
Proof. intros [Ht Hg] Hin. split; [done|]. by apply map_Forall_insert_2. Qed.

Lemma member_within g id : group_within Q g → Forall (counted Q) (default [] (gm_assignments <$> cg_members g !! id)).
Proof. intros Hg. destruct (cg_members g !! id) as [m|] eqn:Hm; [exact (Hg _ _ Hm)|constructor]. Qed.

Lemma join_within now uuid gid mid topics c :
  assigned_within Q c →
  assigned_within Q (join_group now uuid gid mid topics c).1 ∧
  ∀ m l, (join_group now uuid gid mid topics c).2 = Ok (m, l) → Forall (counted Q) l.
Proof.
  intros Hc. unfold join_group. cbv zeta.
  match goal with |- context [rebalance ?tp ?g] => pose proof (rebalance_within tp g (aw_counts _ _ Hc)) as Hr;
    revert Hr; generalize (rebalance tp g); intros g' Hr end.
  split; [by apply within_insert|]. intros m l Hj. injection Hj as _ <-. by apply member_within.
Qed.

Lemma leave_within gid mid c : assigned_within Q c → assigned_within Q (leave_group gid mid c).1.
Proof.
  intros Hc. unfold leave_group. destruct (gc_groups c !! gid); [|done]. unfold remove_member.
  destruct (_ !! mid); [|done]. case_decide; cbn [fst].
  - destruct Hc. split; [done|]. by apply map_Forall_delete.
  - apply within_insert; [done|]. apply rebalance_within, Hc.
Qed.

Lemma heartbeat_within now gid mid c :
  assigned_within Q c → assigned_within Q (GroupCoordinator_heartbeat now gid mid c).1.
Proof.
  intros Hc. unfold GroupCoordinator_heartbeat. destruct (gc_groups c !! gid) as [g|] eqn:Hk; [|done].
  apply (aw_groups _ _ Hc) in Hk. unfold ConsumerGroup_heartbeat.
  destruct (cg_members g !! mid) as [m|] eqn:Hm; (apply within_insert; [done|]); [|done].
  apply map_Forall_insert_2; [|done]. by apply Hk in Hm.
Qed.

Lemma check_within clock c : assigned_within Q c → assigned_within Q (check_heartbeats clock c).
Proof.
  intros [Ht Hg]. split; [done|]. intros gid g. rewrite check_heartbeats_lookup.
  destruct (gc_groups c !! gid) as [g0|] eqn:Hk; [|done]. apply Hg in Hk. cbn. unfold checked_group.
  repeat case_decide; [done|by intros [= <-]|]. intros [= <-]. by apply rebalance_within.
Qed.
End within_facts.

(** ** Properties *)
Section coordinator_properties.
Context `{HashIterLaws}.

(** C18: a rebalance assigns every known partition of every subscribed topic to exactly one
    member of the group, and nothing else, whatever order the members and the topics are
    visited in. *)
Theorem rebalance_covers tp g :
  cg_members g ≠ ∅ →
  NoDup (group_assignments (rebalance tp g)) ∧
  ∀ a, a ∈ group_assignments (rebalance tp g) ↔ subscribed tp g a.
Proof.
  intros Hne. rewrite (rebalance_covers_aux tp g Hne). split; [apply NoDup_all_partitions|].
  intros a. rewrite (rebalance_covers_aux tp g Hne). apply elem_of_all_partitions.
Qed.

(** C19: the numbers of partitions of two members of a rebalanced group differ by at most
    one. *)
Theorem rebalance_balanced tp g id id' m m' :
  cg_members (rebalance tp g) !! id = Some m → cg_members (rebalance tp g) !! id' = Some m' →
  (length (gm_assignments m) ≤ S (length (gm_assignments m')))%nat.
Proof.
  assert (∀ i x, cg_members (rebalance tp g) !! i = Some x → ∃ n j,
    n = size (cg_members g) ∧ (j < n)%nat ∧ gm_assignments x = share n j 0 (all_partitions tp g)) as Hsh.
  { intros i x Hx. destruct (cg_members g !! i) as [y|] eqn:Hy.
    - destruct (rebalance_member tp g i y Hy) as (j & Hj & _ & Hr). rewrite Hr in Hx.
      injection Hx as <-. by exists (size (cg_members g)), j.
    - by rewrite (rebalance_None _ _ _ Hy) in Hx. }
  intros (n & j & Hn & Hj & ->)%Hsh (n' & j' & -> & Hj' & ->)%Hsh. subst n.
  set (n := size (cg_members g)) in *. set (ps := all_partitions tp g).
  pose proof (share_balanced n j ps Hj). pose proof (share_balanced n j' ps Hj').
  assert ((length ps + n - 1) / n ≤ S (length ps / n))%nat; [|lia].
  transitivity ((length ps + 1 * n) / n)%nat; [apply Nat.Div0.div_le_mono; lia|].
  rewrite Nat.div_add by lia. lia.
Qed.

(** A join returns the member's id and exactly the partitions that the rebalanced
    group assigned to it, and changes no other group. *)
Theorem join_group_spec now uuid gid member_id topics c :
  let id := default (gid +:+ "-" +:+ uuid) member_id in
  ∃ c' l, join_group now uuid gid member_id topics c = (c', Ok (id, l)) ∧
    gc_groups c' !! gid =
      Some (rebalance (gc_topic_partitions c) (joined_group now uuid gid member_id topics c)) ∧
    (∀ gid', gid' ≠ gid → gc_groups c' !! gid' = gc_groups c !! gid') ∧
    ∃ m, cg_members (rebalance (gc_topic_partitions c)
           (joined_group now uuid gid member_id topics c)) !! id = Some m ∧
         gm_topics m = topics ∧ gm_assignments m = l.
Proof.
  intros id. unfold join_group. fold id.
  fold (joined_group now uuid gid member_id topics c).
  set (g := joined_group now uuid gid member_id topics c).
  assert (cg_members g !! id = Some {| gm_member_id := id; gm_topics := topics;
    gm_last_heartbeat := now; gm_assignments := [] |}) as Hm.
  { unfold g, joined_group, add_member. cbn [cg_set_members cg_members gm_member_id]. fold id.
    by rewrite lookup_insert_eq. }
  destruct (rebalance_member (gc_topic_partitions c) g id _ Hm) as (j & _ & _ & Hr).
  eexists _, _. split; [reflexivity|]. cbn [gc_set_groups gc_groups].
  split; [apply lookup_insert_eq|]. split; [intros gid' Hne; by apply lookup_insert_ne|].
  eexists. split; [exact Hr|].
  split; [done|]. unfold g, joined_group in Hr. fold id in Hr. by rewrite Hr.
Qed.

(** A heartbeat check removes exactly the members whose last heartbeat is older than
    the timeout, rebalances a group when it lost a member and otherwise leaves it alone, and
    drops the groups that are left without members. *)
Theorem check_heartbeats_spec clock c gid :
  gc_groups (check_heartbeats clock c) !! gid =
    g ← gc_groups c !! gid;
    let live := live_members (clock gid) (gc_heartbeat_timeout c) g in
    if decide (live = ∅) then None
    else if decide (get_dead_members (clock gid) (gc_heartbeat_timeout c) g = []) then Some g
    else Some (rebalance (gc_topic_partitions c) (cg_set_members live g)).
Proof. apply check_heartbeats_lookup. Qed.

(** C20: safety.  In every state the coordinator can reach, no partition is assigned to two
    members of a group, and no group is empty: every operation keeps this invariant. *)
Theorem coordinator_invariant c :
  (∀ timeout, coordinator_inv (GroupCoordinator_new timeout)) ∧
  (coordinator_inv c →
    (∀ topic n, coordinator_inv (update_topic_partitions topic n c)) ∧
    (∀ now uuid gid member_id topics,
      coordinator_inv (join_group now uuid gid member_id topics c).1) ∧
    (∀ gid member_id, coordinator_inv (leave_group gid member_id c).1) ∧
    (∀ now gid member_id, coordinator_inv (GroupCoordinator_heartbeat now gid member_id c).1) ∧
    (∀ clock, coordinator_inv (check_heartbeats clock c))).
Proof.
  split; [by intros t gid g ?|]. intros Hc. split_and!.
  - done.
  - intros. by apply join_group_inv.
  - intros. by apply leave_group_inv.
  - intros. by apply heartbeat_inv.
  - intros. by apply check_heartbeats_inv.
Qed.

(** A heartbeat never asks a member to join again, although the membership and the
    assignments of its group may have changed since it joined. *)
Theorem heartbeat_never_rejoins now gid member_id c :
  (GroupCoordinator_heartbeat now gid member_id c).2 =
    match gc_groups c !! gid with
    | None => Err (GroupNotFound gid)
    | Some g =>
        match cg_members g !! member_id with
        | Some _ => Ok false
        | None => Err (ConsumerNotFound member_id)
        end
    end.
Proof.
  unfold GroupCoordinator_heartbeat. destruct (gc_groups c !! gid) as [g|]; [|done].
  unfold ConsumerGroup_heartbeat. by destruct (cg_members g !! member_id).
Qed.
End coordinator_properties.
