(* ===== verification/Server.v ===== *)
(** * BrokerServer: the requests of the clients

    [broker/src/server.rs].  The server owns the topics, the groups, the offsets, the
    cluster and the replication manager; the source shares them between its tasks, and
    here they are one state.  A request is one step: the clock is read once for it
    ([env_now]), and [env_uuid] is the random part of a member id it may generate. *)
From Stdlib Require Import Ascii.
From S2P Require Import Prelude Bytes Text Common Messages Codec Compression DiskRecord.
From S2P Require Import FileSystem OffsetIndex Retention Segment Partition Topic.
From S2P Require Import OffsetManager Cluster Replication Coordinator.

Record BrokerServer : Type := {
  sv_config : BrokerConfig;
  sv_disk : disk;
  sv_topic_manager : TopicManager;
  sv_coordinator : GroupCoordinator;
  sv_offset_manager : OffsetManager;
  sv_cluster : ClusterMetadata;
  sv_replication_manager : ReplicationManager;
}.
Definition sv_set_topics (d : disk) (tm : TopicManager) (s : BrokerServer) : BrokerServer :=
  {| sv_config := sv_config s; sv_disk := d; sv_topic_manager := tm;
     sv_coordinator := sv_coordinator s; sv_offset_manager := sv_offset_manager s;
     sv_cluster := sv_cluster s; sv_replication_manager := sv_replication_manager s |}.
Definition sv_set_offsets (d : disk) (om : OffsetManager) (s : BrokerServer) : BrokerServer :=
  {| sv_config := sv_config s; sv_disk := d; sv_topic_manager := sv_topic_manager s;
     sv_coordinator := sv_coordinator s; sv_offset_manager := om;
     sv_cluster := sv_cluster s; sv_replication_manager := sv_replication_manager s |}.
Definition sv_set_coordinator (c : GroupCoordinator) (s : BrokerServer) : BrokerServer :=
  {| sv_config := sv_config s; sv_disk := sv_disk s; sv_topic_manager := sv_topic_manager s;
     sv_coordinator := c; sv_offset_manager := sv_offset_manager s;
     sv_cluster := sv_cluster s; sv_replication_manager := sv_replication_manager s |}.
Definition sv_set_cluster (c : ClusterMetadata) (s : BrokerServer) : BrokerServer :=
  {| sv_config := sv_config s; sv_disk := sv_disk s; sv_topic_manager := sv_topic_manager s;
     sv_coordinator := sv_coordinator s; sv_offset_manager := sv_offset_manager s;
     sv_cluster := c; sv_replication_manager := sv_replication_manager s |}.

Record env : Type := { env_now : Z; env_uuid : string }.

(** A method of a component, its errors as values. *)
Definition on_topics {A} (m : Method (disk * TopicManager) A) : Method BrokerServer (Result A) := λ s,
  match m (sv_disk s, sv_topic_manager s) with
  | ((d, tm), Panic) => (sv_set_topics d tm s, Panic)
  | ((d, tm), r) => (sv_set_topics d tm s, Ok r)
  end.
Definition on_offsets {A} (m : Method (disk * OffsetManager) A) : Method BrokerServer (Result A) := λ s,
  match m (sv_disk s, sv_offset_manager s) with
  | ((d, om), Panic) => (sv_set_offsets d om s, Panic)
  | ((d, om), r) => (sv_set_offsets d om s, Ok r)
  end.
Definition on_coordinator {A} (m : Method GroupCoordinator A) : Method BrokerServer (Result A) := λ s,
  match m (sv_coordinator s) with
  | (c, Panic) => (sv_set_coordinator c s, Panic)
  | (c, r) => (sv_set_coordinator c s, Ok r)
  end.
Definition update_cluster (f : ClusterMetadata → ClusterMetadata) : Method BrokerServer unit :=
  eff_modify (λ s, sv_set_cluster (f (sv_cluster s)) s).
Definition update_coordinator (f : GroupCoordinator → GroupCoordinator) : Method BrokerServer unit :=
  eff_modify (λ s, sv_set_coordinator (f (sv_coordinator s)) s).

(** The components of [data_dir] as a path: empty ones and [.] do not count. *)
Fixpoint path_parts (cur s : string) : list string :=
  match s with
  | EmptyString => [cur]
  | String c s =>
      if Ascii.eqb c "/" then cur :: path_parts EmptyString s
      else path_parts (cur +:+ String c EmptyString) s
  end.
Definition path_of_string (s : string) : path :=
  filter (λ part, part ≠ EmptyString ∧ part ≠ "."%string) (path_parts EmptyString s).

Definition secs (n : Z) : Z := n * 1000000000.

Section server.
Context `{Crc32} `{CompressionLib} `{HashIter}.

(** [BrokerServer::new]. *)
Definition BrokerServer_new (now : Z) (config : BrokerConfig) (d : disk) : disk * Result BrokerServer :=
  let data_dir := path_of_string (cfg_data_dir config) in
  let '(d, r) :=
    match TopicManager_open data_dir d with
    | (d, Err _) => TopicManager_new data_dir d
    | r => r
    end in
  match r with
  | Ok topic_manager =>
      let coordinator := GroupCoordinator_new (secs 30) in
      let '(d, r) := OffsetManager_new data_dir d in
      match r with
      | Ok offset_manager =>
          let cluster := ClusterMetadata_new (cfg_broker_id config) (secs 30) (cfg_max_isr_lag config) in
          let cluster :=
            register_broker (BrokerInfo_new now (cfg_broker_id config) (cfg_host config) (cfg_port config))
              cluster in
          let replication_manager :=
            ReplicationManager_new (cfg_replication_factor config) (cfg_max_isr_lag config) in
          (d, Ok {| sv_config := config; sv_disk := d; sv_topic_manager := topic_manager;
                    sv_coordinator := coordinator; sv_offset_manager := offset_manager;
                    sv_cluster := cluster; sv_replication_manager := replication_manager |})
      | Err e => (d, Err e)
      | Panic => (d, Panic)
      end
  | Err e => (d, Err e)
  | Panic => (d, Panic)
  end.

(** What [run] does before it accepts connections: a failure to load is only logged. *)
Definition BrokerServer_load : Method BrokerServer unit := λ s,
  match OffsetManager_load (sv_disk s) (sv_offset_manager s) with
  | (om, Panic) => (sv_set_offsets (sv_disk s) om s, Panic)
  | (om, _) => (sv_set_offsets (sv_disk s) om s, Ok tt)
  end.

(** The two background tasks. *)
Definition heartbeat_tick (clock : string → Z) (s : BrokerServer) : BrokerServer :=
  sv_set_coordinator (check_heartbeats clock (sv_coordinator s)) s.
Definition health_tick (now : Z) (s : BrokerServer) : BrokerServer :=
  sv_set_cluster (check_broker_health now (sv_cluster s)) s.

(** The loop [for partition_id in 0..partitions] of a topic creation; [n] turns are left. *)
Fixpoint assign_replicas (n : nat) (partition_id : Z) (now : Z) (name : string)
    : Method BrokerServer unit :=
  match n with
  | O => mret tt
  | S n =>
      s ← eff_get;
      '(leader, replicas) ← eff_lift (assign_partition_replicas now partition_id (sv_cluster s)
                                        (sv_replication_manager s));
      _ ← update_cluster (set_partition_replicas name partition_id leader replicas);
      assign_replicas n (partition_id + 1) now name
  end.

Definition process_create_topic (e : env) (name : string) (partitions : Z)
    : Method BrokerServer Response :=
  r ← on_topics (TopicManager_create_topic name partitions);
  match r with
  | Ok _ =>
      _ ← assign_replicas (Z.to_nat partitions) 0 (env_now e) name;
      mret (CreateTopicSuccess name partitions)
  | Err err => mret (CreateTopicError (GaffaError_to_string err))
  | Panic => eff_lift Panic
  end.

Definition process_produce (topic : string) (partition : Z) (messages : list Message)
    : Method BrokerServer Response :=
  s ← eff_get;
  match TopicManager_get_topic (sv_topic_manager s) topic with
  | Ok _ =>
      r ← on_topics (on_topic topic (Topic_append partition messages));
      match r with
      | Ok base_offset =>
          let count := w32 (Z.of_nat (length messages)) in
          let final_offset := w64 (base_offset + count) in
          _ ← update_cluster (update_leader_offset topic partition final_offset);
          mret (ProduceSuccess topic partition base_offset count)
      | Err err => mret (ProduceError (GaffaError_to_string err))
      | Panic => eff_lift Panic
      end
  | Err err => mret (ProduceError (GaffaError_to_string err))
  | Panic => eff_lift Panic
  end.

Definition process_fetch (topic : string) (partition offset max_messages : Z)
    : Method BrokerServer Response :=
  s ← eff_get;
  match TopicManager_get_topic (sv_topic_manager s) topic with
  | Ok topic_obj =>
      match Topic_fetch topic_obj partition offset max_messages with
      | Ok records => mret (FetchSuccess topic partition records)
      | Err err => mret (FetchError (GaffaError_to_string err))
      | Panic => eff_lift Panic
      end
  | Err err => mret (FetchError (GaffaError_to_string err))
  | Panic => eff_lift Panic
  end.

Definition process_get_metadata (topics : list string) : Method BrokerServer Response :=
  s ← eff_get;
  let tm := sv_topic_manager s in
  let topic_names := if decide (topics = []) then TopicManager_list_topics tm else topics in
  mret (Metadata (omap (λ topic_name,
    match TopicManager_get_topic tm topic_name with
    | Ok topic => Some (TopicMetadata_new topic_name (Topic_num_partitions topic))
    | _ => None
    end) topic_names)).

Definition process_get_partitions (topic : string) : Method BrokerServer Response :=
  s ← eff_get;
  match TopicManager_get_topic (sv_topic_manager s) topic with
  | Ok topic_obj => mret (Partitions topic (Topic_num_partitions topic_obj))
  | Err err => mret (PartitionsError (GaffaError_to_string err))
  | Panic => eff_lift Panic
  end.

(** A join, after it has learned the numbers of partitions. *)
Definition join_step (e : env) (group_id : string) (member_id : option string) (topics : list string)
    : Method BrokerServer Response :=
  r ← on_coordinator (join_group (env_now e) (env_uuid e) group_id member_id topics);
  match r with
  | Ok (member_id, assignments) => mret (JoinGroupSuccess group_id member_id assignments)
  | Err err => mret (JoinGroupError (GaffaError_to_string err))
  | Panic => eff_lift Panic
  end.

Definition process_join_group (e : env) (group_id : string) (member_id : option string)
    (topics : list string) : Method BrokerServer Response :=
  s ← eff_get;
  _ ← update_coordinator (λ c, foldl (λ c topic,
        match TopicManager_get_topic (sv_topic_manager s) topic with
        | Ok topic_obj => update_topic_partitions topic (Topic_num_partitions topic_obj) c
        | _ => c
        end) c topics);
  join_step e group_id member_id topics.

Definition process_leave_group (group_id member_id : string) : Method BrokerServer Response :=
  r ← on_coordinator (leave_group group_id member_id);
  match r with
  | Ok _ => mret (LeaveGroupSuccess group_id)
  | Err err => mret (LeaveGroupError (GaffaError_to_string err))
  | Panic => eff_lift Panic
  end.

Definition process_heartbeat (e : env) (group_id member_id : string) : Method BrokerServer Response :=
  r ← on_coordinator (GroupCoordinator_heartbeat (env_now e) group_id member_id);
  match r with
  | Ok needs_rejoin =>
      if (needs_rejoin : bool) then mret (HeartbeatError "Rebalance in progress" true)
      else mret HeartbeatSuccess
  | Err err => mret (HeartbeatError (GaffaError_to_string err) false)
  | Panic => eff_lift Panic
  end.

Definition process_commit_offset (group_id topic : string) (partition offset : Z)
    : Method BrokerServer Response :=
  r ← on_offsets (commit_offset group_id topic partition offset);
  match r with
  | Ok _ => mret (CommitOffsetSuccess group_id topic partition offset)
  | Err err => mret (CommitOffsetError (GaffaError_to_string err))
  | Panic => eff_lift Panic
  end.

Definition process_fetch_offset (group_id topic : string) (partition : Z)
    : Method BrokerServer Response :=
  s ← eff_get;
  match fetch_offset group_id topic partition (sv_offset_manager s) with
  | Ok (Some offset) => mret (FetchOffsetSuccess group_id topic partition offset)
  | Ok None => mret (FetchOffsetSuccess group_id topic partition 0)
  | Err err => mret (FetchOffsetError (GaffaError_to_string err))
  | Panic => eff_lift Panic
  end.

Definition process_register_broker (e : env) (broker_id : Z) (host : string) (port : Z)
    : Method BrokerServer Response :=
  _ ← update_cluster (register_broker (BrokerInfo_new (env_now e) broker_id host port));
  mret (RegisterBrokerSuccess broker_id).

Definition process_get_cluster_metadata (e : env) : Method BrokerServer Response :=
  s ← eff_get;
  let brokers :=
    (λ b, {| bm_id := bi_id b; bm_host := bi_host b; bm_port := bi_port b |}) <$>
      get_alive_brokers (env_now e) (sv_cluster s) in
  let topic_partitions :=
    (λ state, {| tpm_topic := prs_topic state; tpm_partition := prs_partition state;
                 tpm_leader := prs_leader state; tpm_replicas := prs_replicas state;
                 tpm_isr := set_iter (prs_isr state) |}) <$>
      get_all_partition_states (sv_cluster s) in
  mret (ClusterMetadataResponse brokers topic_partitions).

Definition process_replication_fetch (topic : string) (partition offset : Z)
    : Method BrokerServer Response :=
  s ← eff_get;
  let request := {| rq_topic := topic; rq_partition := partition; rq_offset := offset;
                    rq_max_records := 1000 |} in
  r ← eff_lift (handle_replication_fetch request (sv_topic_manager s) (sv_cluster s));
  match r with
  | Some response =>
      mret (ReplicationFetchSuccess (rr_records response) (rr_high_watermark response)
              (rr_leader_epoch response))
  | None => mret (ReplicationFetchError "Not the leader for this partition")
  end.

Definition process_request (e : env) (request : Request) : Method BrokerServer Response :=
  match request with
  | CreateTopic name partitions => process_create_topic e name partitions
  | Produce topic partition messages => process_produce topic partition messages
  | Fetch topic partition offset max_messages => process_fetch topic partition offset max_messages
  | GetMetadata topics => process_get_metadata topics
  | GetPartitions topic => process_get_partitions topic
  | ListTopics => λ s, (s, Ok (Topics (TopicManager_list_topics (sv_topic_manager s))))
  | JoinGroup group_id member_id topics => process_join_group e group_id member_id topics
  | LeaveGroup group_id member_id => process_leave_group group_id member_id
  | Heartbeat group_id member_id => process_heartbeat e group_id member_id
  | CommitOffset group_id topic partition offset =>
      process_commit_offset group_id topic partition offset
  | FetchOffset group_id topic partition => process_fetch_offset group_id topic partition
  | RegisterBroker broker_id host port => process_register_broker e broker_id host port
  | GetClusterMetadata => process_get_cluster_metadata e
  | ReplicationFetch _ topic partition offset => process_replication_fetch topic partition offset
  end.

(** One connection: what the framed stream yields is handled in order; each response is
    encoded into the bytes that are sent.  An error ends the connection. *)
Fixpoint handle_connection `{Bincode Response} (stream : list (env * Result Request))
    : Method (BrokerServer * bytes) unit :=
  match stream with
  | [] => mret tt
  | (e, request_result) :: stream => λ '(s, out),
      match request_result with
      | Ok request =>
          match process_request e request s with
          | (s, Ok response) =>
              match GaffaCodec_encode response out with
              | (out, Ok _) => handle_connection stream (s, out)
              | (out, Err err) => ((s, out), Err err)
              | (out, Panic) => ((s, out), Panic)
              end
          | (s, Err err) => ((s, out), Err err)
          | (s, Panic) => ((s, out), Panic)
          end
      | Err err => ((s, out), Err err)
      | Panic => ((s, out), Panic)
      end
  end.

End server.

(** ** The abstract broker

    What a client relies on: for every topic a list of messages per partition, and the
    committed offsets. *)
Record broker_spec : Type := {
  bs_topics : gmap string topic_logs;
  bs_offsets : gmap OffsetKey Z;
}.

(** The log of a partition, and the number of its messages: none when there is no log. *)
Definition log_of (b : broker_spec) (k : string * Z) : option (list Message) :=
  logs ← bs_topics b !! k.1; logs !! Z.to_nat k.2.
Definition log_end (b : broker_spec) (k : string * Z) : Z := Z.of_nat (length (default [] (log_of b k))).
Definition partition_count (b : broker_spec) (topic : string) (n : Z) : Prop :=
  ∃ logs, bs_topics b !! topic = Some logs ∧ n = Z.of_nat (length logs).

(** What a request changes. *)
Definition spec_step (b : broker_spec) (request : Request) : broker_spec :=
  match request with
  | CreateTopic name partitions =>
      match bs_topics b !! name with
      | Some _ => b
      | None => {| bs_topics := <[name := replicate (Z.to_nat partitions) []]> (bs_topics b);
                   bs_offsets := bs_offsets b |}
      end
  | Produce topic partition messages =>
      {| bs_topics := alter (λ logs, alter (λ ms, ms ++ messages) (Z.to_nat partition) logs) topic
                        (bs_topics b);
         bs_offsets := bs_offsets b |}
  | CommitOffset group_id topic partition offset =>
      {| bs_topics := bs_topics b;
         bs_offsets := <[(group_id, topic, partition) := offset]> (bs_offsets b) |}
  | _ => b
  end.

(** What a request is answered.  The abstract broker leaves the groups and the cluster open,
    except that an assignment is a partition of the broker, that a leader is in sync or has
    no replicas, and that a high watermark is within the log. *)
Definition response_ok (b : broker_spec) (request : Request) (response : Response) : Prop :=
  match request with
  | CreateTopic name partitions =>
      response =
        match bs_topics b !! name with
        | Some _ => CreateTopicError
            (GaffaError_to_string (InvalidMessage ("Topic '" +:+ name +:+ "' already exists")))
        | None => CreateTopicSuccess name partitions
        end
  | Produce topic partition messages =>
      response =
        match bs_topics b !! topic with
        | None => ProduceError (GaffaError_to_string (TopicNotFound topic))
        | Some logs =>
            match logs !! Z.to_nat partition with
            | None => ProduceError (GaffaError_to_string (PartitionNotFound topic partition))
            | Some ms =>
                if decide (messages = [])
                then ProduceError (GaffaError_to_string (InvalidMessage "No messages to append"))
                else ProduceSuccess topic partition (Z.of_nat (length ms)) (Z.of_nat (length messages))
            end
        end
  | Fetch topic partition offset max_messages =>
      response =
        match bs_topics b !! topic with
        | None => FetchError (GaffaError_to_string (TopicNotFound topic))
        | Some logs =>
            match logs !! Z.to_nat partition with
            | None => FetchError (GaffaError_to_string (PartitionNotFound topic partition))
            | Some ms => FetchSuccess topic partition (records_at topic partition offset
                           (take (Z.to_nat max_messages) (drop (Z.to_nat offset) ms)))
            end
        end
  | GetMetadata topics =>
      ∃ names, (if decide (topics = []) then names ≡ₚ (map_to_list (bs_topics b)).*1 else names = topics) ∧
        response = Metadata (omap (λ name,
          (λ logs : topic_logs, TopicMetadata_new name (Z.of_nat (length logs))) <$> bs_topics b !! name)
          names)
  | GetPartitions topic =>
      response =
        match bs_topics b !! topic with
        | None => PartitionsError (GaffaError_to_string (TopicNotFound topic))
        | Some logs => Partitions topic (Z.of_nat (length logs))
        end
  | ListTopics => ∃ names, names ≡ₚ (map_to_list (bs_topics b)).*1 ∧ response = Topics names
  | CommitOffset group_id topic partition offset =>
      response = CommitOffsetSuccess group_id topic partition offset
  | FetchOffset group_id topic partition =>
      response = FetchOffsetSuccess group_id topic partition
                   (default 0 (bs_offsets b !! (group_id, topic, partition)))
  | JoinGroup group_id member_id topics =>
      ∃ id assignments, response = JoinGroupSuccess group_id id assignments ∧
        (∀ m, member_id = Some m → id = m) ∧ NoDup assignments ∧
        Forall (counted (partition_count b)) assignments
  | LeaveGroup group_id member_id =>
      response = LeaveGroupSuccess group_id ∨
      response = LeaveGroupError (GaffaError_to_string (GroupNotFound group_id)) ∨
      response = LeaveGroupError (GaffaError_to_string (ConsumerNotFound member_id))
  | Heartbeat group_id member_id =>
      response = HeartbeatSuccess ∨
      response = HeartbeatError (GaffaError_to_string (GroupNotFound group_id)) false ∨
      response = HeartbeatError (GaffaError_to_string (ConsumerNotFound member_id)) false
  | RegisterBroker broker_id _ _ => response = RegisterBrokerSuccess broker_id
  | GetClusterMetadata =>
      ∃ brokers topic_partitions, response = ClusterMetadataResponse brokers topic_partitions ∧
        Forall (λ t, tpm_leader t ∈ tpm_isr t) topic_partitions
  | ReplicationFetch _ topic partition offset =>
      response = ReplicationFetchError "Not the leader for this partition" ∨
      ∃ high_watermark epoch, 0 ≤ high_watermark ≤ log_end b (topic, partition) ∧
        response = ReplicationFetchSuccess
          (records_at topic partition offset
             (take (Z.to_nat 1000) (drop (Z.to_nat offset) (default [] (log_of b (topic, partition))))))
          high_watermark epoch
  end.

(** The invariant of the cluster. *)
Record cluster_ok (lag : Z) (c : ClusterMetadata) : Prop := {
  co_leaders : leader_in_sync c;
  co_states : states_filed c;
  co_brokers : brokers_filed c;
  co_lag : cm_isr_lag_threshold c = lag ∧ is_u64 lag;
}.

Section server_spec.
Context `{Crc32} `{CompressionLib}.

Definition server_lag (s : BrokerServer) : Z := cfg_max_isr_lag (sv_config s).
Definition server_dir (s : BrokerServer) : path := path_of_string (cfg_data_dir (sv_config s)).

(** The server holds the abstract broker; [room] messages can still be appended before an
    index is full. *)
Record Server_holds (s : BrokerServer) (b : broker_spec) (room : nat) : Prop := {
  sh_topics : Manager_holds (sv_disk s) (sv_topic_manager s) (bs_topics b) room;
  sh_topics_dir : tm_data_dir (sv_topic_manager s) = server_dir s;
  sh_offsets : Offsets_ok (sv_disk s) (sv_offset_manager s);
  sh_offsets_dir : om_data_dir (sv_offset_manager s) = path_join (server_dir s) "offsets";
  sh_offsets_map : om_offsets (sv_offset_manager s) = bs_offsets b;
  sh_groups : coordinator_inv (sv_coordinator s);
  sh_cluster : cluster_ok (cfg_max_isr_lag (sv_config s)) (sv_cluster s);
  sh_factor : 1 ≤ rp_replication_factor (sv_replication_manager s);
  sh_assigned : assigned_within (partition_count b) (sv_coordinator s);
  sh_marks : marks_within (log_end b) (sv_cluster s);
}.

(** The requests whose data is in range; [lag] is the lag threshold of the broker. *)
Definition request_ok (lag : Z) (b : broker_spec) (room : nat) (request : Request) : Prop :=
  match request with
  | CreateTopic _ partitions => is_u32 partitions
  | Produce topic partition messages =>
      is_u32 partition ∧ Forall (message_fits SegmentConfig_default) messages ∧
      (length messages ≤ room)%nat ∧ is_u32 (Z.of_nat (length messages)) ∧
      ∀ logs ms, bs_topics b !! topic = Some logs → logs !! Z.to_nat partition = Some ms →
        Z.of_nat (length (ms ++ messages)) + lag < 2 ^ 64 ∧
        encoded_size SegmentConfig_default 0 (ms ++ messages) < 2 ^ 64
  | Fetch _ partition offset max_messages => is_u32 partition ∧ is_u64 offset ∧ is_u32 max_messages
  | CommitOffset group_id topic partition offset =>
      clean_group group_id ∧ clean_entry (topic, partition, offset)
  | ReplicationFetch _ _ partition offset => is_u32 partition ∧ is_u64 offset
  | _ => True
  end.

Definition produced (request : Request) : nat :=
  match request with Produce _ _ messages => length messages | _ => O end.

End server_spec.

(** ** Lemmas *)
(** A broker whose topics have only grown. *)
Definition broker_extends (b b' : broker_spec) : Prop :=
  ∀ t logs, bs_topics b !! t = Some logs → ∃ logs', bs_topics b' !! t = Some logs' ∧
    length logs' = length logs ∧ ∀ i log, logs !! i = Some log → ∃ more, logs' !! i = Some (log ++ more).

Lemma extends_topics b b' : bs_topics b' = bs_topics b → broker_extends b b'.
Proof.
  intros Heq t logs Hl. exists logs. rewrite Heq. split_and!; [done|done|]. intros i log Hi. exists [].
  by rewrite app_nil_r.
Qed.
#[export] Instance broker_extends_preorder : PreOrder broker_extends.
Proof.
  split; [intros b; by apply extends_topics|].
  intros b1 b2 b3 H12 H23 t logs Hl. destruct (H12 t logs Hl) as (logs2 & Hl2 & Hn2 & Hi2).
  destruct (H23 t logs2 Hl2) as (logs3 & Hl3 & Hn3 & Hi3). exists logs3. split_and!; [done|congruence|].
  intros i log Hi. destruct (Hi2 i log Hi) as [m2 Hm2]. destruct (Hi3 _ _ Hm2) as [m3 Hm3].
  exists (m2 ++ m3). by rewrite app_assoc.
Qed.

Lemma spec_step_extends b request : broker_extends b (spec_step b request).
Proof.
  destruct request as [name n|topic p messages| | | | | | | | | | | |]; try done; [| |by apply extends_topics].
  - intros t logs Hl. cbn [spec_step]. destruct (bs_topics b !! name) eqn:Hn; [by apply (extends_topics b b)|].
    cbn [bs_topics]. rewrite lookup_insert_ne by congruence. by apply (extends_topics b b).
  - intros t logs Hl. cbn [spec_step bs_topics]. destruct (decide (t = topic)) as [->|Hne].
    2: { rewrite lookup_alter_ne by done. by apply (extends_topics b b). }
    rewrite lookup_alter_eq, Hl. eexists. split; [done|]. split; [by rewrite length_alter|].
    intros i log Hi. destruct (decide (i = Z.to_nat p)) as [->|Hip].
    + rewrite list_lookup_alter_eq, Hi. by exists messages.
    + rewrite list_lookup_alter_ne by done. exists []. by rewrite app_nil_r.
Qed.

Lemma extends_count b b' t n : broker_extends b b' → partition_count b t n → partition_count b' t n.
Proof.
  intros He (logs & Hl & ->). destruct (He _ _ Hl) as (logs' & Hl' & Hn & _). exists logs'. by rewrite Hn.
Qed.
Lemma log_of_Some b k log :
  log_of b k = Some log ↔ ∃ logs, bs_topics b !! k.1 = Some logs ∧ logs !! Z.to_nat k.2 = Some log.
Proof. unfold log_of. rewrite bind_Some. naive_solver. Qed.
Lemma extends_log b b' k log : broker_extends b b' → log_of b k = Some log → ∃ more, log_of b' k = Some (log ++ more).
Proof.
  intros He (logs & Hl & Hk)%log_of_Some. destruct (He _ _ Hl) as (logs' & Hl' & _ & Hi).
  destruct (Hi _ _ Hk) as [more Hm]. exists more. apply log_of_Some. by exists logs'.
Qed.
Lemma extends_log_end b b' k : broker_extends b b' → log_end b k ≤ log_end b' k.
Proof.
  intros He. unfold log_end. destruct (log_of b k) as [log|] eqn:Hl; [|cbn; lia].
  destruct (extends_log _ _ _ _ He Hl) as [more ->]. cbn. rewrite length_app. lia.
Qed.

Lemma assigned_within_extends b b' c :
  broker_extends b b' → assigned_within (partition_count b) c → assigned_within (partition_count b') c.
Proof. intros He. apply assigned_within_mono. intros t n. by apply extends_count. Qed.
Lemma marks_within_extends b b' c :
  broker_extends b b' → marks_within (log_end b) c → marks_within (log_end b') c.
Proof. intros He. apply marks_within_mono. intros k. by apply extends_log_end. Qed.

Lemma marks_within_health `{HashIterLaws} len now c :
  marks_within len c → marks_within len (check_broker_health now c).
Proof.
  intros Hc. unfold check_broker_health.
  generalize (bi_id <$> get_alive_brokers now c), (get_all_partition_states c). intros ids l.
  revert c Hc. induction l as [|s l IH]; intros c Hc; [done|]. cbn [foldl]. apply IH.
  case_decide; [done|by apply marks_within_failure].
Qed.

Section cluster_ok.
Context `{HashIterLaws}.

Lemma states_filed_set topic partition leader replicas c :
  states_filed c → states_filed (set_partition_replicas topic partition leader replicas c).
Proof.
  intros Hf k s. cbn [set_partition_replicas cm_set_states cm_partition_states].
  intros [[<- <-]|[_ Hs]]%lookup_insert_Some; [|by apply Hf].
  destruct (cm_partition_states c !! (topic, partition)) as [s0|] eqn:Hs; [|done].
  exact (Hf _ _ Hs).
Qed.

Lemma states_filed_update topic partition b o c :
  states_filed c → states_filed (ClusterMetadata_update_replica_offset topic partition b o c).
Proof.
  intros Hf. unfold ClusterMetadata_update_replica_offset.
  destruct (cm_partition_states c !! (topic, partition)) as [s0|] eqn:Hs0; [|done].
  intros k s. cbn [cm_set_states cm_partition_states].
  intros [[<- <-]|[_ Hs]]%lookup_insert_Some; [|by apply Hf].
  unfold PartitionReplicaState_update_replica_offset.
  match goal with |- (prs_topic (update_high_watermark ?x), _) = _ =>
    destruct (update_high_watermark_keeps x) as (-> & -> & _) end.
  exact (Hf _ _ Hs0).
Qed.

Lemma states_filed_failure b c : states_filed c → states_filed (handle_broker_failure b c).1.
Proof.
  intros Hf k s'. cbn [handle_broker_failure fst cm_set_states cm_partition_states].
  rewrite lookup_fmap. intros (s & Hs & ->)%fmap_Some. rewrite <-(Hf _ _ Hs). cbn [compose].
  unfold fail_broker. destruct (_ =? _); [|done].
  match goal with |- context [elect_new_leader ?x] => pose proof (elect_new_leader_aux x) as He;
    destruct (elect_new_leader x) as [s1 [l|]] end; cbn [fst].
  - by destruct He as [_ ->].
  - by destruct He as [-> _].
Qed.

Lemma cluster_ok_set lag c topic partition leader replicas :
  cluster_ok lag c → leader ∈ replicas → cluster_ok lag (set_partition_replicas topic partition leader replicas c).
Proof.
  intros [Hl Hs Hb Hlag] Hin. split; [|by apply states_filed_set|done|done].
  by apply leader_in_sync_replicas.
Qed.
Lemma cluster_ok_update lag c topic partition b o :
  cluster_ok lag c → offset_in_range c o →
  cluster_ok lag (ClusterMetadata_update_replica_offset topic partition b o c).
Proof.
  intros [Hl Hs Hb Hlag] Ho.
  split; [by apply leader_in_sync_update|by apply states_filed_update|..];
    unfold ClusterMetadata_update_replica_offset; by case_match.
Qed.
Lemma cluster_ok_failure lag c b : cluster_ok lag c → cluster_ok lag (handle_broker_failure b c).1.
Proof.
  intros [Hl Hs Hb Hlag]. by split; [apply leader_in_sync_failure|apply states_filed_failure|..].
Qed.
Lemma cluster_ok_register lag c b : cluster_ok lag c → cluster_ok lag (register_broker b c).
Proof.
  intros [Hl Hs Hb Hlag]. split; [exact Hl|exact Hs| |exact Hlag].
  intros id b'. cbn [register_broker cm_set_brokers cm_brokers].
  intros [[<- <-]|[_ Hk]]%lookup_insert_Some; [done|by apply Hb].
Qed.
Lemma cluster_ok_health lag now c : cluster_ok lag c → cluster_ok lag (check_broker_health now c).
Proof.
  intros Hc. unfold check_broker_health.
  generalize (bi_id <$> get_alive_brokers now c), (get_all_partition_states c). intros ids l.
  revert c Hc. induction l as [|s l IH]; intros c Hc; [done|]. cbn [foldl]. apply IH.
  case_decide; [done|by apply cluster_ok_failure].
Qed.

(** The leader of an assignment is one of its replicas. *)
Lemma assign_replicas_Ok now p c rm :
  1 ≤ rp_replication_factor rm →
  ∃ leader rs, assign_partition_replicas now p c rm = Ok (leader, leader :: rs).
Proof.
  intros Hrf. rewrite assign_picked. case_decide as Hne; [by eexists _, _|].
  pose proof (length_picked (bi_id <$> get_alive_brokers now c) p (rp_replication_factor rm) ltac:(lia)) as Hl.
  destruct (picked_replicas _ _ _) as [|l rs]; [|by eexists _, _].
  destruct (bi_id <$> get_alive_brokers now c); [done|]. simpl in Hl. lia.
Qed.
End cluster_ok.

(** Runs a request up to the calls of the components. *)
Ltac run_request :=
  cbn [process_request];
  unfold process_get_metadata, process_get_partitions, process_join_group, join_step, process_leave_group,
    process_heartbeat, process_commit_offset, process_fetch_offset, process_register_broker,
    process_replication_fetch, process_get_cluster_metadata, process_fetch,
    update_coordinator, update_cluster, on_coordinator, on_offsets,
    eff_get, eff_lift, eff_modify, mbind, eff_bind, mret, eff_ret.

Section server_facts.
Context `{Crc32Laws} `{CompressionLaws} `{HashIterLaws}.

Lemma Offsets_ok_topics_frame data_dir d d' om :
  om_data_dir om = path_join data_dir "offsets" → topics_frame data_dir d d' →
  Offsets_ok d om → Offsets_ok d' om.
Proof.
  intros Hdir [Hd Hf Hn] [Hod Hoc Hof Hon]. split; [auto|done| |].
  - intros g Hg. rewrite Hf; [by apply Hof|]. unfold group_file. rewrite Hdir, !length_path_join. lia.
  - intros g Hin. unfold group_file in *. rewrite Hdir in *.
    apply Hn in Hin as [Hin|(id & Hid & Heq)]; [by apply (Hon g)|].
    apply (f_equal (string_in ".")) in Heq. rewrite !string_in_app in Heq.
    rewrite fmt_dec_no_char in Heq by (done || by apply is_u32_u64).
    cbn in Heq. by rewrite orb_true_r in Heq.
Qed.

(** Writing the files of the offsets does not concern the topics. *)
Lemma Manager_holds_offsets_frame d d' tm spec room :
  dir_frame (path_join (tm_data_dir tm) "offsets") d d' →
  Manager_holds d tm spec room → Manager_holds d' tm spec room.
Proof.
  intros [Hd Hf]. apply Manager_holds_frame; rewrite ?Hd; [done|done|].
  intros q Hq. apply Hf. intros Heq. apply (f_equal length) in Heq.
  unfold parent in Heq. rewrite length_take, length_path_join in Heq. lia.
Qed.

(** Changing one component. *)
Lemma Server_holds_topics s b room d tm topics room' :
  Server_holds s b room → Manager_holds d tm topics room' →
  tm_data_dir tm = tm_data_dir (sv_topic_manager s) →
  topics_frame (tm_data_dir (sv_topic_manager s)) (sv_disk s) d →
  broker_extends b {| bs_topics := topics; bs_offsets := bs_offsets b |} →
  Server_holds (sv_set_topics d tm s) {| bs_topics := topics; bs_offsets := bs_offsets b |} room'.
Proof.
  intros [] Hm Hdir Hfr He.
  split; try done; [| |by eapply assigned_within_extends|by eapply marks_within_extends].
  - cbn [sv_set_topics sv_topic_manager]. by rewrite Hdir.
  - eapply Offsets_ok_topics_frame; [|exact Hfr|done]. by rewrite sh_topics_dir0.
Qed.
Lemma Server_holds_cluster s b room c :
  Server_holds s b room → cluster_ok (server_lag s) c → marks_within (log_end b) c →
  Server_holds (sv_set_cluster c s) b room.
Proof. by intros [] Hc Hm. Qed.
Lemma Server_holds_coordinator s b room c :
  Server_holds s b room → coordinator_inv c → assigned_within (partition_count b) c →
  Server_holds (sv_set_coordinator c s) b room.
Proof. by intros [] Hc Ha. Qed.
Lemma Server_holds_offsets s b room d om :
  Server_holds s b room → dir_frame (om_data_dir (sv_offset_manager s)) (sv_disk s) d →
  om_data_dir om = om_data_dir (sv_offset_manager s) → Offsets_ok d om →
  Server_holds (sv_set_offsets d om s) {| bs_topics := bs_topics b; bs_offsets := om_offsets om |} room.
Proof.
  intros [] Hfr Hdir Hok.
  split; try done.
  - rewrite sh_offsets_dir0, <-sh_topics_dir0 in Hfr. by eapply Manager_holds_offsets_frame.
  - cbn [sv_set_offsets sv_offset_manager]. by rewrite Hdir.
Qed.

Lemma Server_holds_room s b room room' :
  (room' ≤ room)%nat → Server_holds s b room → Server_holds s b room'.
Proof. intros Hr []. split; try done. by eapply Manager_holds_room. Qed.

(** ** Requests *)
(** What is proved of a request: the answer, and the state after it. *)
Definition request_served (e : env) (request : Request) (s : BrokerServer) (b : broker_spec)
    (room : nat) : Prop :=
  ∃ s' response, process_request e request s = (s', Ok response) ∧
    response_ok b request response ∧ sv_config s' = sv_config s ∧
    Server_holds s' (spec_step b request) (room - produced request).

Lemma assign_replicas_loop n i now name s b room :
  Server_holds s b room →
  ∃ c, assign_replicas n i now name s = (sv_set_cluster c s, Ok tt) ∧ cluster_ok (server_lag s) c ∧
    marks_within (log_end b) c.
Proof.
  revert i s. induction n as [|n IH]; intros i s Hs.
  { exists (sv_cluster s). split; [by destruct s|]. split; apply Hs. }
  destruct (assign_replicas_Ok now i (sv_cluster s) (sv_replication_manager s)) as (l & rs & Ha);
    [apply Hs|].
  set (c1 := set_partition_replicas name i l (l :: rs) (sv_cluster s)).
  assert (cluster_ok (server_lag s) c1) as Hc1 by (apply cluster_ok_set; [apply Hs|by left]).
  assert (marks_within (log_end b) c1) as Hm1 by (apply marks_within_set; [unfold log_end; lia|apply Hs]).
  destruct (IH (i + 1) (sv_set_cluster c1 s)) as (c & Hc & Hok); [by apply Server_holds_cluster|].
  exists c. split; [|done]. cbn [assign_replicas].
  unfold eff_get, eff_lift, update_cluster, eff_modify, mbind, eff_bind. rewrite Ha.
  fold c1. exact Hc.
Qed.

Lemma create_topic_served e name n s b room :
  Server_holds s b room → is_u32 n → request_served e (CreateTopic name n) s b room.
Proof.
  intros Hs Hn. unfold request_served. cbn [process_request response_ok spec_step produced].
  rewrite Nat.sub_0_r. unfold process_create_topic, on_topics, mbind, eff_bind.
  destruct (bs_topics b !! name) as [logs|] eqn:Hl.
  - destruct (Manager_lookup _ _ _ _ _ _ (sh_topics _ _ _ Hs) Hl) as (t & Ht & _).
    assert (TopicManager_create_topic name n (sv_disk s, sv_topic_manager s) =
      ((sv_disk s, sv_topic_manager s), Err (InvalidMessage ("Topic '" +:+ name +:+ "' already exists")))) as ->.
    { unfold TopicManager_create_topic, eff_get, mbind, eff_bind. by rewrite Ht. }
    eexists _, _. split; [reflexivity|]. split; [done|]. split; [done|]. by destruct s.
  - destruct (Manager_create _ _ _ _ name n (sh_topics _ _ _ Hs) Hl Hn)
      as (d' & tm' & -> & Hdir & Hm & Hfr).
    pose proof (spec_step_extends b (CreateTopic name n)) as He. cbn [spec_step] in He. rewrite Hl in He.
    pose proof (Server_holds_topics _ _ _ _ _ _ _ Hs Hm Hdir Hfr He) as Hs1.
    destruct (assign_replicas_loop (Z.to_nat n) 0 (env_now e) name _ _ _ Hs1) as (c & -> & Hc & Hmk).
    eexists _, _. split; [reflexivity|]. split; [done|]. split; [done|].
    by apply Server_holds_cluster.
Qed.

Lemma offset_range_update s b room o :
  Server_holds s b room → 0 ≤ o → o + server_lag s < 2 ^ 64 → offset_in_range (sv_cluster s) o.
Proof.
  intros Hs Ho Hb. destruct (co_lag _ _ (sh_cluster _ _ _ Hs)) as [Hl Hu].
  unfold offset_in_range, server_lag, is_u64 in *. lia.
Qed.

Lemma alter_None {K A} `{Countable K} (f : A → A) (m : gmap K A) k :
  m !! k = None → alter f k m = m.
Proof.
  intros Hm. apply map_eq. intros k'. destruct (decide (k' = k)) as [->|Hne].
  - by rewrite lookup_alter_eq, Hm.
  - by rewrite lookup_alter_ne.
Qed.

(** The abstract append of a partition that exists, of one that does not, and of nothing. *)
Lemma spec_append_some b topic logs (partition : Z) ms messages :
  bs_topics b !! topic = Some logs → logs !! Z.to_nat partition = Some ms →
  spec_step b (Produce topic partition messages) =
    {| bs_topics := <[topic := <[Z.to_nat partition := ms ++ messages]> logs]> (bs_topics b);
       bs_offsets := bs_offsets b |}.
Proof.
  intros Hl Hms. cbn [spec_step]. f_equal. apply map_eq. intros k. destruct (decide (k = topic)) as [->|Hk].
  - rewrite lookup_alter_eq, lookup_insert_eq, Hl. cbn. f_equal. by rewrite (list_alter_Some _ _ _ _ Hms).
  - by rewrite lookup_alter_ne, lookup_insert_ne.
Qed.
Lemma spec_append_none b topic logs (partition : Z) messages :
  bs_topics b !! topic = Some logs → logs !! Z.to_nat partition = None →
  spec_step b (Produce topic partition messages) = b.
Proof.
  intros Hl Hms. destruct b as [m o]. cbn [spec_step bs_topics bs_offsets] in *. f_equal.
  apply map_eq. intros k. destruct (decide (k = topic)) as [->|Hk].
  - rewrite lookup_alter_eq, Hl. cbn. f_equal. by apply list_alter_None.
  - by rewrite lookup_alter_ne.
Qed.
Lemma spec_append_no_topic b topic partition messages :
  bs_topics b !! topic = None → spec_step b (Produce topic partition messages) = b.
Proof. intros Hl. destruct b. cbn [spec_step bs_topics bs_offsets] in *. by rewrite alter_None. Qed.
Lemma spec_append_nil b topic partition : spec_step b (Produce topic partition []) = b.
Proof.
  destruct b as [m o]. cbn [spec_step bs_topics bs_offsets]. f_equal. apply alter_id.
  intros logs _. destruct (logs !! Z.to_nat partition) as [ms|] eqn:Hms.
  - rewrite (list_alter_Some _ _ _ _ Hms), app_nil_r. by apply list_insert_id.
  - by apply list_alter_None.
Qed.

(** The append of a produce to a topic that exists: the response is settled there. *)
Definition append_answer (topic : string) (partition : Z) (messages : list Message)
    (r : Result Z) : Response :=
  match r with
  | Ok base_offset => ProduceSuccess topic partition base_offset (w32 (Z.of_nat (length messages)))
  | Err err => ProduceError (GaffaError_to_string err)
  | Panic => ProduceError EmptyString
  end.

Lemma append_served topic partition messages s b room logs :
  Server_holds s b room → request_ok (server_lag s) b room (Produce topic partition messages) →
  bs_topics b !! topic = Some logs →
  ∃ d tm r, on_topics (on_topic topic (Topic_append partition messages)) s = (sv_set_topics d tm s, Ok r) ∧
    r ≠ Panic ∧ response_ok b (Produce topic partition messages) (append_answer topic partition messages r) ∧
    Server_holds (sv_set_topics d tm s) (spec_step b (Produce topic partition messages))
      (room - length messages) ∧
    ∀ base, r = Ok base → is_u32 (Z.of_nat (length messages)) ∧ 0 ≤ base ∧
      base + Z.of_nat (length messages) + server_lag s < 2 ^ 64 ∧
      log_end (spec_step b (Produce topic partition messages)) (topic, partition) =
        base + Z.of_nat (length messages).
Proof.
  intros Hs (Hp & Hfit & Hroom & Hlen & Hbig) Hl. unfold is_u32 in Hp. cbn [response_ok]. rewrite Hl.
  pose proof (Manager_get_topic _ _ _ _ topic (sh_topics _ _ _ Hs)) as Hget. rewrite Hl in Hget.
  destruct Hget as (t & Hgt & Ht). unfold on_topics.
  destruct (logs !! Z.to_nat partition) as [ms|] eqn:Hms.
  2: { rewrite (on_topic_no_partition _ _ _ _ _ _ _ _ Hgt Ht), (spec_append_none _ _ _ _ _ Hl Hms) by (done || lia).
       eexists _, _, _. split_and!; [reflexivity|done|done| |done].
       destruct s. by apply (Server_holds_room _ _ room); [lia|]. }
  destruct (decide (messages = [])) as [->|Hne].
  { rewrite (on_topic_empty _ _ _ _ _ _ _ _ Hgt Ht), spec_append_nil by (done || lia).
    eexists _, _, _. split_and!; [reflexivity|done|done| |done].
    destruct s. by apply (Server_holds_room _ _ room); [lia|]. }
  destruct (Hbig logs ms Hl Hms) as [Hb1 Hb2].
  destruct (co_lag _ _ (sh_cluster _ _ _ Hs)) as [_ Hlag]. unfold is_u64 in Hlag. fold (server_lag s) in Hlag.
  destruct (Manager_append _ _ _ _ topic logs partition ms messages (sh_topics _ _ _ Hs) Hl)
    as (d' & tm' & -> & Hdir & Hm & Hfr); [lia|done|done|done|lia|done|done|].
  pose proof (spec_step_extends b (Produce topic partition messages)) as He.
  rewrite (spec_append_some _ _ _ _ _ _ Hl Hms) in He.
  pose proof (Server_holds_topics _ _ _ _ _ _ _ Hs Hm Hdir Hfr He) as Hs1.
  rewrite (spec_append_some _ _ _ _ _ _ Hl Hms).
  eexists _, _, _. split_and!; [reflexivity|done|cbn; by rewrite w32_small|done|].
  rewrite length_app, Nat2Z.inj_add in Hb1. intros base [= <-]. split_and!; [done|lia|lia|].
  unfold log_end. rewrite (proj2 (log_of_Some _ _ (ms ++ messages))).
  - cbn [default]. unfold id. rewrite length_app. lia.
  - eexists. cbn [fst snd bs_topics]. rewrite lookup_insert_eq. split; [done|].
    apply list_lookup_insert_eq. by eapply lookup_lt_Some.
Qed.

Lemma produce_served e topic partition messages s b room :
  Server_holds s b room → request_ok (server_lag s) b room (Produce topic partition messages) →
  request_served e (Produce topic partition messages) s b room.
Proof.
  intros Hs Hok. unfold request_served. cbn [process_request produced].
  unfold process_produce, eff_get, mbind, eff_bind.
  pose proof (Manager_get_topic _ _ _ _ topic (sh_topics _ _ _ Hs)) as Hget.
  destruct (bs_topics b !! topic) as [logs|] eqn:Hl.
  2: { rewrite Hget, spec_append_no_topic by done. eexists _, _. split; [reflexivity|].
       split_and!; [cbn [response_ok]; by rewrite Hl|done|]. by apply (Server_holds_room _ _ room); [lia|]. }
  destruct Hget as (t & -> & _).
  destruct (append_served _ _ _ _ _ _ _ Hs Hok Hl) as (d & tm & r & -> & Hr & Hresp & Hs1 & Hbase).
  destruct r as [base|err|]; [|by eexists _, _|done].
  destruct (Hbase base eq_refl) as (Hlen & Hpos & Hb & Hend).
  destruct (co_lag _ _ (sh_cluster _ _ _ Hs)) as [_ Hlag]. unfold is_u64 in Hlag. fold (server_lag s) in Hlag.
  unfold update_cluster, eff_modify, mret, eff_ret. rewrite w32_small by done.
  cbn [append_answer] in Hresp. rewrite w32_small in Hresp by done.
  rewrite w64_small by (unfold is_u64, is_u32 in *; lia).
  eexists _, _. split; [reflexivity|]. split_and!; [done|done|].
  apply Server_holds_cluster; [done| |].
  - apply cluster_ok_update; [apply Hs1|].
    eapply offset_range_update; [exact Hs1|unfold is_u32 in Hlen; lia|exact Hb].
  - apply marks_within_update; [|apply Hs1]. rewrite Hend. unfold is_u32 in Hlen. lia.
Qed.

(** A request that only reads. *)
Lemma read_served e request s b room response :
  process_request e request s = (s, Ok response) → response_ok b request response →
  spec_step b request = b → produced request = O → Server_holds s b room →
  request_served e request s b room.
Proof.
  intros Hp Hr Hb Hpr Hs. exists s, response. rewrite Hb, Hpr, Nat.sub_0_r. done.
Qed.

(** The requests that only read, on a server whose topics and offsets can be read. *)
Definition reads (request : Request) : Prop :=
  match request with
  | Fetch _ _ _ _ | GetMetadata _ | GetPartitions _ | ListTopics | FetchOffset _ _ _ => True
  | _ => False
  end.
Record Server_reads (s : BrokerServer) (b : broker_spec) : Prop := {
  sr_topics : Manager_serves (sv_topic_manager s) (bs_topics b);
  sr_offsets : om_offsets (sv_offset_manager s) = bs_offsets b;
}.

Lemma Server_holds_reads s b room : Server_holds s b room → Server_reads s b.
Proof. intros Hs. split; [eapply Manager_holds_serves|]; apply Hs. Qed.

Lemma topic_names_read s b :
  Server_reads s b →
  TopicManager_list_topics (sv_topic_manager s) ≡ₚ (map_to_list (bs_topics b)).*1.
Proof.
  intros Hs. unfold TopicManager_list_topics. rewrite map_iter_perm.
  apply NoDup_Permutation; [apply NoDup_fst_map_to_list..|]. intros name.
  assert (∀ {A} (m : gmap string A), name ∈ (map_to_list m).*1 ↔ is_Some (m !! name)) as Hk.
  { intros A m. rewrite list_elem_of_fmap. split.
    - intros ([k x] & -> & Hin%elem_of_map_to_list). by eexists.
    - intros [x Hx]. exists (name, x). split; [done|]. by apply elem_of_map_to_list. }
  rewrite !Hk. pose proof (ms_topics _ _ (sr_topics _ _ Hs) name) as Hr.
  destruct (tm_topics _ !! name), (bs_topics b !! name); try done.
Qed.

Lemma fetch_read e topic partition offset max s b :
  Server_reads s b → is_u32 partition → is_u64 offset → is_u32 max →
  ∃ response, process_request e (Fetch topic partition offset max) s = (s, Ok response) ∧
    response_ok b (Fetch topic partition offset max) response.
Proof.
  intros Hs Hp Ho Hm. unfold is_u32 in Hp.
  pose proof (serves_get_topic _ _ topic (sr_topics _ _ Hs)) as Hget.
  eexists. split; [|reflexivity].
  cbn [process_request]. unfold process_fetch, eff_get, mbind, eff_bind.
  destruct (bs_topics b !! topic) as [logs|]; [|by rewrite Hget].
  destruct Hget as (t & -> & Ht & _).
  rewrite (Topic_serves_fetch _ _ _ partition offset max Ht) by (done || lia).
  by destruct (logs !! Z.to_nat partition).
Qed.

Lemma get_metadata_read e topics s b :
  Server_reads s b →
  ∃ response, process_request e (GetMetadata topics) s = (s, Ok response) ∧
    response_ok b (GetMetadata topics) response.
Proof.
  intros Hs. eexists. split; [run_request; reflexivity|]. cbn [response_ok].
  eexists. split.
  2: { f_equal. apply list_omap_ext, Forall_Forall2_diag, Forall_forall. intros name _.
       pose proof (serves_get_topic _ _ name (sr_topics _ _ Hs)) as Hget.
       destruct (bs_topics b !! name) as [logs|] eqn:Hl; [|by rewrite Hget].
       destruct Hget as (t & -> & Ht & Hu). cbn. by rewrite (Topic_serves_count _ _ _ Ht Hu). }
  case_decide; [|done]. by apply topic_names_read.
Qed.

Lemma get_partitions_read e topic s b :
  Server_reads s b →
  ∃ response, process_request e (GetPartitions topic) s = (s, Ok response) ∧
    response_ok b (GetPartitions topic) response.
Proof.
  intros Hs. pose proof (serves_get_topic _ _ topic (sr_topics _ _ Hs)) as Hget.
  eexists. split; [|reflexivity]. run_request.
  destruct (bs_topics b !! topic) as [logs|] eqn:Hl; [|by rewrite Hget].
  destruct Hget as (t & -> & Ht & Hu). by rewrite (Topic_serves_count _ _ _ Ht Hu).
Qed.

Lemma fetch_offset_read e group_id topic partition s b :
  Server_reads s b →
  ∃ response, process_request e (FetchOffset group_id topic partition) s = (s, Ok response) ∧
    response_ok b (FetchOffset group_id topic partition) response.
Proof.
  intros Hs. eexists. split; [|reflexivity].
  run_request. unfold fetch_offset. rewrite (sr_offsets _ _ Hs). by destruct (bs_offsets b !! _).
Qed.

Lemma process_read e request s b lag room :
  Server_reads s b → reads request → request_ok lag b room request →
  ∃ response, process_request e request s = (s, Ok response) ∧ response_ok b request response.
Proof.
  intros Hs Hr Hok. destruct request; try destruct Hr.
  - destruct Hok as (? & ? & ?). by apply fetch_read.
  - by apply get_metadata_read.
  - by apply get_partitions_read.
  - eexists. split; [run_request; reflexivity|]. cbn [response_ok].
    eexists. split; [|reflexivity]. by apply topic_names_read.
  - by apply fetch_offset_read.
Qed.

Lemma reads_served e request s b room :
  Server_holds s b room → reads request → request_ok (server_lag s) b room request →
  request_served e request s b room.
Proof.
  intros Hs Hr Hok.
  destruct (process_read e request s b _ _ (Server_holds_reads _ _ _ Hs) Hr Hok) as (response & Hp & Hresp).
  eapply read_served; [exact Hp|done| | |done]; by destruct request.
Qed.

Lemma num_partitions_holds d data_dir name t logs room :
  Topic_holds d data_dir name t logs room → is_u32 (Z.of_nat (length logs)) →
  Topic_num_partitions t = Z.of_nat (length logs).
Proof. intros Ht. eapply Topic_serves_count, Topic_holds_serves, Ht. Qed.
Lemma topic_names_holds s b room :
  Server_holds s b room →
  TopicManager_list_topics (sv_topic_manager s) ≡ₚ (map_to_list (bs_topics b)).*1.
Proof. intros Hs. eapply topic_names_read, Server_holds_reads, Hs. Qed.

(** Requests to the coordinator. *)
Definition coordinator_effect (m : Method BrokerServer Response) (request : Request) (s : BrokerServer)
    (b : broker_spec) : Prop :=
  ∃ c response, m s = (sv_set_coordinator c s, Ok response) ∧ coordinator_inv c ∧
    assigned_within (partition_count b) c ∧ response_ok b request response.

Lemma coordinator_served e request m s b room c :
  coordinator_effect m request (sv_set_coordinator c s) b →
  process_request e request s = m (sv_set_coordinator c s) →
  spec_step b request = b → produced request = O →
  Server_holds s b room → request_served e request s b room.
Proof.
  intros (c' & response & Hm & Hc & Ha & Hr) Hp Hb Hpr Hs. exists (sv_set_coordinator c' s), response.
  rewrite Hp, Hm, Hb, Hpr, Nat.sub_0_r. split_and!; [done|done|done|]. by apply Server_holds_coordinator.
Qed.
Lemma sv_set_coordinator_id s : sv_set_coordinator (sv_coordinator s) s = s.
Proof. by destruct s. Qed.

Lemma join_effect e group_id member_id topics s b :
  coordinator_inv (sv_coordinator s) → assigned_within (partition_count b) (sv_coordinator s) →
  coordinator_effect (join_step e group_id member_id topics) (JoinGroup group_id member_id topics) s b.
Proof.
  set (c := sv_coordinator s). intros Hc Ha.
  destruct (join_within _ (env_now e) (env_uuid e) group_id member_id topics c Ha) as [Ha' Hl].
  pose proof (join_group_inv (env_now e) (env_uuid e) group_id member_id topics c Hc) as Hc'.
  pose proof (join_group_nodup (env_now e) (env_uuid e) group_id member_id topics c Hc) as Hnd.
  destruct (join_group (env_now e) (env_uuid e) group_id member_id topics c) as [c' r] eqn:Hj.
  assert (∃ l, r = Ok (default (group_id +:+ "-" +:+ env_uuid e) member_id, l)) as [l ->].
  { unfold join_group in Hj. injection Hj as _ <-. by eexists. }
  eexists c', _. split; [unfold join_step; run_request; fold c; rewrite Hj; reflexivity|]. split; [done|]. split; [done|].
  eexists _, _. split_and!; [done|by intros m ->|by eapply Hnd|by eapply Hl].
Qed.

Lemma leave_effect group_id member_id s b :
  coordinator_inv (sv_coordinator s) → assigned_within (partition_count b) (sv_coordinator s) →
  coordinator_effect (process_leave_group group_id member_id) (LeaveGroup group_id member_id) s b.
Proof.
  intros Hc Ha. pose proof (leave_group_inv group_id member_id _ Hc) as Hc'.
  pose proof (leave_within _ group_id member_id _ Ha) as Ha'.
  pose proof (leave_group_errors group_id member_id (sv_coordinator s)) as He.
  destruct (leave_group group_id member_id (sv_coordinator s)) as [c [[]|err|]] eqn:Hl; [| |done];
    (eexists c, _; split; [run_request; rewrite Hl; reflexivity|]; split; [done|]; split; [done|]).
  - by left.
  - right. destruct He as [->| ->]; [by left|by right].
Qed.

Lemma heartbeat_effect e group_id member_id s b :
  coordinator_inv (sv_coordinator s) → assigned_within (partition_count b) (sv_coordinator s) →
  coordinator_effect (process_heartbeat e group_id member_id) (Heartbeat group_id member_id) s b.
Proof.
  intros Hc Ha. pose proof (heartbeat_inv (env_now e) group_id member_id _ Hc) as Hc'.
  pose proof (heartbeat_within _ (env_now e) group_id member_id _ Ha) as Ha'.
  pose proof (heartbeat_errors (env_now e) group_id member_id (sv_coordinator s)) as He.
  destruct (GroupCoordinator_heartbeat (env_now e) group_id member_id (sv_coordinator s))
    as [c [r|err|]] eqn:Hh; [| |done].
  - cbn [snd] in He. subst r. eexists c, _. split; [run_request; rewrite Hh; reflexivity|]. by split_and!; [..|left].
  - eexists c, _. split; [run_request; rewrite Hh; reflexivity|]. split; [done|]. split; [done|].
    right. destruct He as [->| ->]; [by left|by right].
Qed.

(** The first part of a join: the numbers of partitions of the topics that exist. *)
Definition learn_topics (tm : TopicManager) (topics : list string) (c : GroupCoordinator) : GroupCoordinator :=
  foldl (λ c topic,
    match TopicManager_get_topic tm topic with
    | Ok topic_obj => update_topic_partitions topic (Topic_num_partitions topic_obj) c
    | _ => c
    end) c topics.

Lemma learn_topics_inv tm topics c : coordinator_inv c → coordinator_inv (learn_topics tm topics c).
Proof.
  revert c. induction topics as [|topic topics IH]; intros c Hc; [done|]. apply IH. by case_match.
Qed.

Lemma learn_topics_groups tm topics c : gc_groups (learn_topics tm topics c) = gc_groups c.
Proof.
  revert c. induction topics as [|topic topics IH]; intros c; [done|].
  etrans; [apply IH|]. cbv beta. by case_match.
Qed.

Lemma num_partitions_count s b room topic t :
  Server_holds s b room → TopicManager_get_topic (sv_topic_manager s) topic = Ok t →
  partition_count b topic (Topic_num_partitions t).
Proof.
  intros Hs Hg. pose proof (Manager_get_topic _ _ _ _ topic (sh_topics _ _ _ Hs)) as Hget.
  destruct (bs_topics b !! topic) as [logs|] eqn:Hl; [|by rewrite Hget in Hg].
  destruct Hget as (t' & Hg' & Ht). rewrite Hg in Hg'. injection Hg' as <-. exists logs. split; [done|].
  eapply num_partitions_holds; [done|]. by eapply (mh_u32 _ _ _ _ (sh_topics _ _ _ Hs)).
Qed.

Lemma learn_topics_within s b room topics c :
  Server_holds s b room → assigned_within (partition_count b) c →
  assigned_within (partition_count b) (learn_topics (sv_topic_manager s) topics c).
Proof.
  intros Hs. revert c. induction topics as [|topic topics IH]; intros c Hc; [done|]. apply IH.
  destruct (TopicManager_get_topic _ topic) as [t| |] eqn:Hg; [|done|done].
  apply within_counts; [|done]. by eapply num_partitions_count.
Qed.

Lemma join_group_served e group_id member_id topics s b room :
  Server_holds s b room → request_served e (JoinGroup group_id member_id topics) s b room.
Proof.
  intros Hs. set (c := learn_topics (sv_topic_manager s) topics (sv_coordinator s)).
  apply (coordinator_served _ _ (join_step e group_id member_id topics) _ _ _ c); [|done..].
  apply join_effect; [by apply learn_topics_inv, Hs|by eapply learn_topics_within, Hs].
Qed.

Lemma leave_group_served e group_id member_id s b room :
  Server_holds s b room → request_served e (LeaveGroup group_id member_id) s b room.
Proof.
  intros Hs. eapply (coordinator_served _ _ _ _ _ _ (sv_coordinator s)); [| |done..].
  - apply leave_effect; apply Hs.
  - by rewrite sv_set_coordinator_id.
Qed.

Lemma heartbeat_served e group_id member_id s b room :
  Server_holds s b room → request_served e (Heartbeat group_id member_id) s b room.
Proof.
  intros Hs. eapply (coordinator_served _ _ _ _ _ _ (sv_coordinator s)); [| |done..].
  - apply (heartbeat_effect e); apply Hs.
  - by rewrite sv_set_coordinator_id.
Qed.

(** Requests to the offsets. *)
Lemma commit_offset_served e group_id topic partition offset s b room :
  Server_holds s b room → clean_group group_id → clean_entry (topic, partition, offset) →
  request_served e (CommitOffset group_id topic partition offset) s b room.
Proof.
  intros Hs Hg He.
  destruct (commit_offset_aux _ _ group_id topic partition offset (sh_offsets _ _ _ Hs) Hg He)
    as (d' & Hc & Hfr & Hok).
  unfold request_served. cbn [response_ok spec_step produced]. rewrite Nat.sub_0_r.
  run_request. rewrite Hc.
  eexists _, _. split; [reflexivity|]. split_and!; [done|done|].
  rewrite <-(sh_offsets_map _ _ _ Hs).
  exact (Server_holds_offsets s b room d' (committed group_id topic partition offset _) Hs Hfr eq_refl Hok).
Qed.

(** Requests to the cluster. *)
Lemma register_served e id host port s b room :
  Server_holds s b room → request_served e (RegisterBroker id host port) s b room.
Proof.
  intros Hs. unfold request_served. cbn [spec_step produced]. rewrite Nat.sub_0_r.
  eexists _, _. split; [run_request; reflexivity|]. split_and!; [done|done|].
  apply Server_holds_cluster; [done|apply cluster_ok_register, Hs|apply Hs].
Qed.

Lemma bind_log_of b topic partition offset n :
  default [] (logs ← bs_topics b !! topic; ms ← logs !! Z.to_nat partition;
    Some (records_at topic partition offset (take n (drop (Z.to_nat offset) ms)))) =
  records_at topic partition offset (take n (drop (Z.to_nat offset) (default [] (log_of b (topic, partition))))).
Proof.
  unfold log_of. cbn [fst snd]. destruct (bs_topics b !! topic) as [logs|]; cbn;
    [|by rewrite drop_nil, take_nil].
  destruct (logs !! Z.to_nat partition); cbn; [done|by rewrite drop_nil, take_nil].
Qed.

(** A replication fetch reads the log of a partition that this broker leads. *)
Lemma handle_replication_fetch_aux s b room topic partition offset max :
  Server_holds s b room → 0 ≤ partition → is_u64 offset → is_u32 max →
  handle_replication_fetch {| rq_topic := topic; rq_partition := partition; rq_offset := offset;
      rq_max_records := max |} (sv_topic_manager s) (sv_cluster s) =
    Ok (st ← cm_partition_states (sv_cluster s) !! (topic, partition);
        if prs_leader st =? cm_broker_id (sv_cluster s) then
          Some {| rr_records :=
                    default [] (logs ← bs_topics b !! topic; ms ← logs !! Z.to_nat partition;
                      Some (records_at topic partition offset
                              (take (Z.to_nat max) (drop (Z.to_nat offset) ms))));
                  rr_high_watermark := prs_high_watermark st;
                  rr_leader_epoch := prs_leader_epoch st |}
        else None).
Proof.
  intros Hs Hp Ho Hm. unfold handle_replication_fetch. cbn [rq_topic rq_partition rq_offset rq_max_records].
  rewrite find_state_lookup by apply (sh_cluster _ _ _ Hs).
  unfold is_partition_leader, get_partition_leader, get_high_watermark.
  destruct (cm_partition_states (sv_cluster s) !! (topic, partition)) as [st|]; [|done].
  cbn [fmap option_fmap option_map mbind option_bind default].
  destruct (prs_leader st =? cm_broker_id (sv_cluster s)); [|done]. cbn [negb].
  pose proof (Manager_get_topic _ _ _ _ topic (sh_topics _ _ _ Hs)) as Hget.
  destruct (bs_topics b !! topic) as [logs|]; [|by rewrite Hget].
  destruct Hget as (t & -> & Ht). cbn [mbind option_bind].
  pose proof (Topic_get _ _ _ _ _ _ partition Ht Hp) as Hg.
  pose proof (Topic_fetch_aux _ _ _ _ _ partition _ offset max Ht Hp Ho Hm) as Hf.
  destruct (logs !! Z.to_nat partition) as [ms|]; [|by rewrite Hg].
  destruct Hg as (p & Hgp & _). unfold Topic_fetch in Hf. rewrite Hgp, outcome_bind_Ok in Hf.
  by rewrite Hgp, Hf.
Qed.

Lemma replication_fetch_served e broker_id topic partition offset s b room :
  Server_holds s b room → is_u32 partition → is_u64 offset →
  request_served e (ReplicationFetch broker_id topic partition offset) s b room.
Proof.
  intros Hs Hp Ho. unfold is_u32 in Hp.
  pose proof (handle_replication_fetch_aux s b room topic partition offset 1000 Hs) as Hf.
  rewrite bind_log_of in Hf. specialize (Hf ltac:(lia) Ho ltac:(unfold is_u32; lia)).
  destruct (cm_partition_states (sv_cluster s) !! (topic, partition)) as [st|] eqn:Hst; cbn [mbind option_bind] in Hf.
  2: { eapply read_served; [run_request; by rewrite Hf|by left|done..]. }
  destruct (prs_leader st =? cm_broker_id (sv_cluster s)).
  2: { eapply read_served; [run_request; by rewrite Hf|by left|done..]. }
  eapply read_served; [run_request; rewrite Hf; reflexivity| |done..].
  right. eexists _, _. split; [|reflexivity]. by apply (sh_marks _ _ _ Hs _ _ Hst).
Qed.

Lemma states_served lag c :
  cluster_ok lag c →
  Forall (λ t, tpm_leader t ∈ tpm_isr t)
    ((λ state, {| tpm_topic := prs_topic state; tpm_partition := prs_partition state;
                  tpm_leader := prs_leader state; tpm_replicas := prs_replicas state;
                  tpm_isr := set_iter (prs_isr state) |}) <$> get_all_partition_states c).
Proof.
  intros Hc. apply Forall_fmap, Forall_forall. intros st Hst.
  apply list_elem_of_fmap in Hst as ([k st'] & -> & Hst). apply elem_of_map_iter in Hst. cbn.
  destruct (co_leaders _ _ Hc _ _ Hst) as [Hl _]. by apply elem_of_set_iter.
Qed.

Lemma cluster_metadata_served e s b room :
  Server_holds s b room → request_served e GetClusterMetadata s b room.
Proof.
  intros Hs. eapply read_served; [run_request; reflexivity| |done..]. eexists _, _. split; [done|].
  by eapply states_served, Hs.
Qed.

Lemma process_request_served e request s b room :
  Server_holds s b room → request_ok (server_lag s) b room request → request_served e request s b room.
Proof.
  intros Hs Hok. destruct request; try by apply reads_served.
  - by apply create_topic_served.
  - by apply produce_served.
  - by apply join_group_served.
  - by apply leave_group_served.
  - by apply heartbeat_served.
  - destruct Hok. by apply commit_offset_served.
  - by apply register_served.
  - by apply cluster_metadata_served.
  - destruct Hok. by apply replication_fetch_served.
Qed.

End server_facts.
