(* ===== verification/ServerRuns.v ===== *)
(** * ServerRuns: the life of a broker

    A broker starts on a disk, serves the requests of its connections while its background
    tasks tick, stops, and starts again on the disk it left.  The requests of different
    connections and the ticks are interleaved in any order: an event is one of them. *)
From S2P Require Import Prelude Bytes Text Common Messages Codec Compression DiskRecord.
From S2P Require Import FileSystem OffsetIndex Retention Segment Partition Topic.
From S2P Require Import OffsetManager Cluster Replication Coordinator Server.

Inductive broker_event : Type :=
  | Serve (e : env) (request : Request)
  | HeartbeatTick (clock : string → Z)
  | HealthTick (now : Z).

Section runs.
Context `{Crc32} `{CompressionLib} `{HashIter}.

Definition run_event (ev : broker_event) : Method BrokerServer (option Response) :=
  match ev with
  | Serve e request => response ← process_request e request; mret (Some response)
  | HeartbeatTick clock => λ s, (heartbeat_tick clock s, Ok None)
  | HealthTick now => λ s, (health_tick now s, Ok None)
  end.
Fixpoint run_events (evs : list broker_event) : Method BrokerServer (list (option Response)) :=
  match evs with
  | [] => mret []
  | ev :: evs => r ← run_event ev; rs ← run_events evs; mret (r :: rs)
  end.

(** Starting a broker on a disk: [BrokerServer::new], then what [run] does first. *)
Definition start_broker (now : Z) (config : BrokerConfig) (d : disk) : Result BrokerServer :=
  match BrokerServer_new now config d with
  | (_, Ok s) => match BrokerServer_load s with (s, Ok _) => Ok s | (_, Err e) => Err e | (_, Panic) => Panic end
  | (_, Err e) => Err e
  | (_, Panic) => Panic
  end.
End runs.

(** ** The abstract run *)
Definition spec_event (b : broker_spec) (ev : broker_event) : broker_spec :=
  match ev with Serve _ request => spec_step b request | _ => b end.
Definition event_produced (ev : broker_event) : nat :=
  match ev with Serve _ request => produced request | _ => O end.
Definition event_response_ok (b : broker_spec) (ev : broker_event) (r : option Response) : Prop :=
  match ev with
  | Serve _ request => ∃ response, r = Some response ∧ response_ok b request response
  | _ => r = None
  end.
Fixpoint responses_ok (b : broker_spec) (evs : list broker_event) (rs : list (option Response)) : Prop :=
  match evs, rs with
  | [], [] => True
  | ev :: evs, r :: rs => event_response_ok b ev r ∧ responses_ok (spec_event b ev) evs rs
  | _, _ => False
  end.
Definition all_produced (evs : list broker_event) : nat := sum_list (event_produced <$> evs).

Section run_spec.
Context `{Crc32} `{CompressionLib}.

Definition event_ok (lag : Z) (b : broker_spec) (room : nat) (ev : broker_event) : Prop :=
  match ev with Serve _ request => request_ok lag b room request | _ => True end.
Fixpoint events_ok (lag : Z) (b : broker_spec) (room : nat) (evs : list broker_event) : Prop :=
  match evs with
  | [] => True
  | ev :: evs => event_ok lag b room ev ∧ events_ok lag (spec_event b ev) (room - event_produced ev) evs
  end.
End run_spec.

(** A configuration a broker can work with. *)
Definition config_ok (config : BrokerConfig) : Prop :=
  1 ≤ cfg_replication_factor config ∧ is_u64 (cfg_max_isr_lag config).

(** A disk that holds nothing below the data directory. *)
Definition unused_dir (d : disk) (data_dir : path) : Prop :=
  files d !! data_dir = None ∧
  ∀ q, (length data_dir < length q)%nat → take (length data_dir) q = data_dir →
    files d !! q = None ∧ q ∉ dirs d.

Definition empty_broker : broker_spec := {| bs_topics := ∅; bs_offsets := ∅ |}.
(** What a restart keeps: a topic without partitions has no directory. *)
Definition restarted (b : broker_spec) : broker_spec :=
  {| bs_topics := filter (λ '(_, logs), logs ≠ []) (bs_topics b); bs_offsets := bs_offsets b |}.

(** ** Lemmas *)
Lemma responses_ok_cons b ev evs rs :
  responses_ok b (ev :: evs) rs → ∃ r rs', rs = r :: rs' ∧ event_response_ok b ev r ∧
    responses_ok (spec_event b ev) evs rs'.
Proof. destruct rs as [|r rs]; [done|]. intros [? ?]. by exists r, rs. Qed.
Lemma responses_ok_nil b rs : responses_ok b [] rs → rs = [].
Proof. by destruct rs. Qed.

Section run_facts.
Context `{Crc32Laws} `{CompressionLaws} `{HashIterLaws}.

Lemma run_event_served ev s b room :
  Server_holds s b room → event_ok (server_lag s) b room ev →
  ∃ s' r, run_event ev s = (s', Ok r) ∧ event_response_ok b ev r ∧ sv_config s' = sv_config s ∧
    Server_holds s' (spec_event b ev) (room - event_produced ev).
Proof.
  intros Hs Hok. destruct ev as [e request|clock|now]; cbn [run_event spec_event event_produced].
  - destruct (process_request_served e request s b room Hs Hok) as (s' & response & Hp & Hr & Hc & Hs').
    exists s', (Some response). unfold mbind, eff_bind, mret, eff_ret. rewrite Hp.
    split_and!; [done|by exists response|done|done].
  - rewrite Nat.sub_0_r. eexists _, _. split_and!; [done|done|done|].
    apply Server_holds_coordinator; [done|apply check_heartbeats_inv, Hs|apply check_within, Hs].
  - rewrite Nat.sub_0_r. eexists _, _. split_and!; [done|done|done|].
    apply Server_holds_cluster; [done|apply cluster_ok_health, Hs|apply marks_within_health, Hs].
Qed.

Lemma run_events_served evs s b room :
  Server_holds s b room → events_ok (server_lag s) b room evs →
  ∃ s' rs, run_events evs s = (s', Ok rs) ∧ responses_ok b evs rs ∧ sv_config s' = sv_config s ∧
    Server_holds s' (foldl spec_event b evs) (room - all_produced evs).
Proof.
  revert s b room. induction evs as [|ev evs IH]; intros s b room Hs Hok.
  { exists s, []. unfold all_produced. cbn. rewrite Nat.sub_0_r. done. }
  destruct Hok as [Hok Hoks].
  destruct (run_event_served ev s b room Hs Hok) as (s1 & r & Hr & Hresp & Hc & Hs1).
  destruct (IH s1 _ _ Hs1) as (s2 & rs & Hrs & Hresps & Hc2 & Hs2).
  { unfold server_lag. by rewrite Hc. }
  exists s2, (r :: rs). cbn [run_events responses_ok foldl].
  unfold mbind, eff_bind, mret, eff_ret. rewrite Hr, Hrs.
  split_and!; [done|done|done|congruence|].
  unfold all_produced in *. cbn [fmap list_fmap sum_list]. by rewrite Nat.sub_add_distr.
Qed.

(** ** Starting *)
Lemma new_cluster_ok now config lag :
  lag = cfg_max_isr_lag config → is_u64 lag →
  cluster_ok lag (register_broker (BrokerInfo_new now (cfg_broker_id config) (cfg_host config) (cfg_port config))
    (ClusterMetadata_new (cfg_broker_id config) (secs 30) (cfg_max_isr_lag config))).
Proof.
  intros -> Hl. apply cluster_ok_register. split; [by intros ???|by intros ???| |done].
  intros id b. cbn [ClusterMetadata_new cm_brokers]. by rewrite lookup_empty.
Qed.

Lemma Manager_holds_create_offsets_dir d tm spec room :
  Manager_holds d tm spec room →
  Manager_holds (create_dir_all d (path_join (tm_data_dir tm) "offsets")) tm spec room.
Proof.
  apply Manager_holds_frame; [|intros q Hq|done].
  - intros q Hq. apply elem_of_create_dir_all. by right.
  - rewrite create_dir_all_below; [done|]. by rewrite length_path_join.
Qed.

(** From the topics and the offsets on a disk to a started broker. *)
Lemma start_broker_aux now config d tm om topics room :
  let data_dir := path_of_string (cfg_data_dir config) in
  config_ok config → TopicManager_open data_dir d = (d, Ok tm) →
  tm_data_dir tm = data_dir →
  Manager_holds (create_dir_all d (path_join data_dir "offsets")) tm topics room →
  Offsets_ok (create_dir_all d (path_join data_dir "offsets")) om →
  om_data_dir om = path_join data_dir "offsets" →
  ∃ s, start_broker now config d = Ok s ∧ sv_config s = config ∧
    cm_partition_states (sv_cluster s) = ∅ ∧
    Server_holds s {| bs_topics := topics; bs_offsets := om_offsets om |} room.
Proof.
  intros data_dir [Hrf Hlag] Hopen Hdir Hm Hok Hom.
  unfold start_broker, BrokerServer_new. fold data_dir. rewrite Hopen.
  unfold OffsetManager_new, eff_modify, mbind, eff_bind, mret, eff_ret, BrokerServer_load.
  cbn [sv_disk sv_offset_manager].
  rewrite (OffsetManager_load_ok _ om); [|done|done|apply map_empty_subseteq].
  eexists. split; [reflexivity|]. split; [done|]. split; [done|].
  split; cbn [sv_set_offsets sv_config sv_disk sv_topic_manager sv_coordinator sv_offset_manager
    sv_cluster sv_replication_manager bs_topics bs_offsets]; try done.
  by apply new_cluster_ok.
Qed.

Lemma unused_dir_below d data_dir q :
  unused_dir d data_dir → (length data_dir < length q)%nat → take (length data_dir) q = data_dir →
  files d !! q = None ∧ q ∉ dirs d.
Proof. intros [_ Hu]. apply Hu. Qed.

Lemma take_join2 (p : path) a b : take (length p) (path_join (path_join p a) b) = p.
Proof. unfold path_join. rewrite <-app_assoc. by apply take_app_length. Qed.
Lemma take_join3 (p : path) a b c : take (length p) (path_join (path_join (path_join p a) b) c) = p.
Proof. unfold path_join. rewrite <-!app_assoc. by apply take_app_length. Qed.

(** Opening the topics of an unused directory finds none. *)
Lemma TopicManager_open_unused d data_dir :
  unused_dir d data_dir →
  TopicManager_open data_dir d = (d, Ok {| tm_topics := ∅; tm_data_dir := data_dir |}).
Proof.
  intros [Hf Hu]. unfold TopicManager_open, eff_get, eff_lift, mbind, eff_bind, mret, eff_ret.
  unfold is_dir at 1. rewrite Hf, (bool_decide_false (is_Some None)), orb_false_r by apply is_Some_None.
  case_bool_decide as Hd; [|done].
  destruct (read_dir d data_dir) as [names|e|] eqn:Hn;
    [|by unfold read_dir in Hn; rewrite decide_True in Hn..].
  assert (names = []) as ->; [|done]. apply elem_of_nil_inv. intros name Hin.
  apply (elem_of_read_dir _ _ _ _ Hn) in Hin.
  destruct (Hu (path_join data_dir name)) as [Hf' Hd'].
  - rewrite length_path_join. lia.
  - by apply take_path_join.
  - rewrite Hf' in Hin. destruct Hin as [[? ?]|?]; done.
Qed.

Lemma first_start_aux now config d room :
  config_ok config → unused_dir d (path_of_string (cfg_data_dir config)) →
  ∃ s, start_broker now config d = Ok s ∧ sv_config s = config ∧ Server_holds s empty_broker room.
Proof.
  set (data_dir := path_of_string (cfg_data_dir config)). intros Hc Hu.
  pose proof (TopicManager_open_unused d data_dir Hu) as Hopen.
  assert (∀ q, (length data_dir < length q)%nat → take (length data_dir) q = data_dir →
    files d !! q = None ∧ q ∉ dirs d) as Hbelow by (intros; by eapply unused_dir_below).
  destruct (TopicManager_new_aux d data_dir) as (d1 & tm & Hnew & Hdir & Hm).
  { intros name entry id Hin _. eapply Hbelow; [|apply (take_join2 data_dir name entry)|done].
    rewrite !length_path_join. lia. }
  { intros name id entry. apply Hbelow; [|apply take_join3].
    unfold partition_dir. rewrite !length_path_join. lia. }
  injection Hnew as <- <-. cbn [tm_data_dir] in Hm.
  destruct (OffsetManager_new_aux d data_dir) as (d2 & om & Hnew & He & Hom & Hok).
  { intros name. apply Hbelow; [|apply take_join2]. rewrite !length_path_join. lia. }
  injection Hnew as <- <-.
  destruct (start_broker_aux now config d {| tm_topics := ∅; tm_data_dir := data_dir |}
    {| om_offsets := ∅; om_data_dir := path_join data_dir "offsets" |} ∅ room)
    as (s & Hs & Hcfg & _ & Hholds); [done|done|done| |done|done|by exists s].
  eapply Manager_holds_frame; [| | |apply (Hm room)]; cbn [tm_data_dir].
  - intros q [[n ->]|Hq]%elem_of_create_dir_all; apply elem_of_create_dir_all; [left|by right].
    exists (n `min` length data_dir)%nat. unfold path_join.
    rewrite <-take_take. by rewrite take_app_length.
  - intros q Hq. fold data_dir. rewrite !create_dir_all_below by (rewrite ?length_path_join; lia). done.
  - done.
Qed.

Lemma restart_aux now config s b room :
  Server_holds s b room → config_ok config → cfg_data_dir config = cfg_data_dir (sv_config s) →
  ∃ s', start_broker now config (sv_disk s) = Ok s' ∧ sv_config s' = config ∧
    cm_partition_states (sv_cluster s') = ∅ ∧ Server_holds s' (restarted b) reopen_room.
Proof.
  intros Hs Hc Hdir.
  destruct (Manager_reopen _ _ _ _ (sh_topics _ _ _ Hs)) as (tm' & Hopen & Hd & Hm).
  rewrite (sh_topics_dir _ _ _ Hs) in *. unfold server_dir in *. rewrite <-Hdir in *.
  destruct (start_broker_aux now config (sv_disk s) tm' (sv_offset_manager s)
    (filter (λ '(_, logs), logs ≠ []) (bs_topics b)) reopen_room)
    as (s' & Hs' & Hcfg & Hcl & Hholds); [done|done|done| | | |].
  - rewrite <-Hd. by apply Manager_holds_create_offsets_dir.
  - rewrite Hdir. fold (server_dir s). rewrite <-(sh_offsets_dir _ _ _ Hs).
    apply Offsets_ok_create_dir, Hs.
  - rewrite Hdir. apply (sh_offsets_dir _ _ _ Hs).
  - exists s'. rewrite (sh_offsets_map _ _ _ Hs) in Hholds. done.
Qed.

End run_facts.

(** ** Connections *)
(** The requests of one connection, one after the other. *)
Fixpoint process_all `{Crc32} `{CompressionLib} `{HashIter} (reqs : list (env * Request))
    : Method BrokerServer (list Response) :=
  match reqs with
  | [] => mret []
  | (e, request) :: reqs =>
      response ← process_request e request; responses ← process_all reqs; mret (response :: responses)
  end.

Section connection_facts.
Context `{Crc32} `{CompressionLib} `{HashIter} `{BincodeLaws Response}.

Lemma handle_connection_aux reqs s s' responses out out' :
  process_all reqs s = (s', Ok responses) → encode_all responses out = (out', Ok tt) →
  handle_connection ((λ '(e, r), (e, Ok r)) <$> reqs) (s, out) = ((s', out'), Ok tt).
Proof.
  revert s responses out. induction reqs as [|[e r] reqs IH]; intros s responses out; cbn [process_all].
  { intros [= <- <-] [= <-]. done. }
  rewrite fmap_cons. cbn [handle_connection]. unfold mbind, eff_bind, mret, eff_ret.
  destruct (process_request e r s) as [s1 [response|err|]]; [|done|done].
  destruct (process_all reqs s1) as [s2 [rs|err|]] eqn:Hrs; [|done|done].
  intros [= <- <-]. cbn [encode_all]. unfold mbind, eff_bind, GaffaCodec_encode.
  destruct (frame_encode response out) as [out1 [[]|err|]]; [|done|done].
  by apply IH.
Qed.
End connection_facts.

(** ** Properties *)
Section server_properties.
Context `{Crc32Laws} `{CompressionLaws} `{HashIterLaws}.



(** Durability.  A broker that starts on the disk another one left answers like the
    abstract broker at the time of the stop, except that topics without partitions are
    gone: every message that was acknowledged can be fetched, every committed offset is
    still there.  As many messages as one index interval can be produced before the
    reopened index is written again. *)
Theorem broker_restart now config s b room evs :
  Server_holds s b room → config_ok config → cfg_data_dir config = cfg_data_dir (sv_config s) →
  events_ok (cfg_max_isr_lag config) (restarted b) reopen_room evs →
  ∃ s0 s1 rs, start_broker now config (sv_disk s) = Ok s0 ∧ run_events evs s0 = (s1, Ok rs) ∧
    responses_ok (restarted b) evs rs ∧
    Server_holds s1 (foldl spec_event (restarted b) evs) (reopen_room - all_produced evs).
Proof.
  intros Hs Hc Hdir Hok.
  destruct (restart_aux now config s b room Hs Hc Hdir) as (s0 & Hs0 & Hcfg & _ & Hh).
  destruct (run_events_served evs s0 (restarted b) reopen_room Hh) as (s1 & rs & Hr & Hrs & _ & Hh1).
  { unfold server_lag. by rewrite Hcfg. }
  by exists s0, s1, rs.
Qed.

(** A restart forgets who leads: the partition states are not rebuilt from the topics
    on disk, so that the broker refuses every replication fetch, also for the partitions it
    led and whose messages it still serves. *)
Theorem restart_forgets_leaders now config s b room e broker_id topic partition offset :
  Server_holds s b room → config_ok config → cfg_data_dir config = cfg_data_dir (sv_config s) →
  ∃ s', start_broker now config (sv_disk s) = Ok s' ∧
    get_partition_leader topic partition (sv_cluster s') = None ∧
    (process_request e (ReplicationFetch broker_id topic partition offset) s').2 =
      Ok (ReplicationFetchError "Not the leader for this partition").
Proof.
  intros Hs Hc Hdir. destruct (restart_aux now config s b room Hs Hc Hdir) as (s' & Hs' & _ & Hcl & _).
  assert (get_partition_leader topic partition (sv_cluster s') = None) as Hl.
  { unfold get_partition_leader. by rewrite Hcl, lookup_empty. }
  exists s'. split; [done|]. split; [done|].
  run_request. unfold handle_replication_fetch, is_partition_leader.
  cbn [rq_topic rq_partition]. by rewrite Hl.
Qed.

(** C34: Fault: nobody tells the leader how far its followers are.  A replication fetch drops the
    id of the broker that sends it, so that for the leader every follower stays at offset
    zero and in sync: messages are acknowledged, and the high watermark that the
    followers are told stays at zero, for as long as one of them is in sync. *)
Theorem replication_never_confirms e topic partition messages s b room logs ms st follower :
  Server_holds s b room → request_ok (server_lag s) b room (Produce topic partition messages) →
  bs_topics b !! topic = Some logs → logs !! Z.to_nat partition = Some ms → messages ≠ [] →
  cm_partition_states (sv_cluster s) !! (topic, partition) = Some st →
  follower ∈ prs_isr st → follower ≠ cm_broker_id (sv_cluster s) → is_Some (prs_replica_offsets st !! follower) →
  ∃ s' st', process_request e (Produce topic partition messages) s =
      (s', Ok (ProduceSuccess topic partition (Z.of_nat (length ms)) (Z.of_nat (length messages)))) ∧
    cm_partition_states (sv_cluster s') !! (topic, partition) = Some st' ∧
    follower ∈ prs_isr st' ∧ is_Some (prs_replica_offsets st' !! follower) ∧ prs_high_watermark st' = 0.
Proof.
  intros Hs Hok Hl Hms Hne Hst Hin Hme [o Ho].
  destruct (process_request_served e _ s b room Hs Hok) as (s' & response & Hp & Hr & _ & Hs').
  cbn [response_ok] in Hr. rewrite Hl, Hms, decide_False in Hr by done. subst response.
  assert (∃ off, sv_cluster s' = update_leader_offset topic partition off (sv_cluster s)) as [off Hc].
  { revert Hp. cbn [process_request]. unfold process_produce, eff_get, mbind, eff_bind.
    pose proof (Manager_get_topic _ _ _ _ topic (sh_topics _ _ _ Hs)) as Hget. rewrite Hl in Hget.
    destruct Hget as (t & -> & _).
    destruct (append_served _ _ _ _ _ _ _ Hs Hok Hl) as (d & tm & r & -> & _ & _ & _ & _).
    destruct r as [base|err|]; [|done|done]. unfold update_cluster, eff_modify, mret, eff_ret.
    intros [= <- _]. by eexists. }
  set (st' := PartitionReplicaState_update_replica_offset (cm_broker_id (sv_cluster s)) off
    (cm_isr_lag_threshold (sv_cluster s)) st).
  assert (cm_partition_states (sv_cluster s') !! (topic, partition) = Some st') as Hst'.
  { rewrite Hc. unfold update_leader_offset, ClusterMetadata_update_replica_offset. rewrite Hst.
    apply lookup_insert_eq. }
  destruct (update_replica_offset_aux (cm_broker_id (sv_cluster s)) off (cm_isr_lag_threshold (sv_cluster s)) st)
    as (_ & _ & _ & Hoffs & _ & Hisr & Hmin). fold st' in Hoffs, Hisr, Hmin.
  apply (Hisr follower Hme) in Hin.
  assert (prs_replica_offsets st' !! follower = Some o) as Ho' by (by rewrite Hoffs, lookup_insert_ne).
  exists s', st'. split_and!; [exact Hp|done|done|by eexists|].
  destruct (sh_marks _ _ _ Hs _ _ Hst) as [_ _ Hz]. specialize (Hz _ _ Ho Hme). subst o.
  destruct (sh_marks _ _ _ Hs' _ _ Hst') as [_ Hm _].
  destruct Hmin as [Hle _]; [intros He; by rewrite He in Hin|]. specialize (Hle _ _ Hin Ho'). lia.
Qed.

(** With a replication factor of zero the creation of a topic stores the topic and
    then panics while it assigns the replicas: no answer is sent, and the topic exists. *)
Theorem zero_factor_create_panics e name n s topics room :
  Manager_holds (sv_disk s) (sv_topic_manager s) topics room →
  topics !! name = None → is_u32 n → 1 ≤ n →
  get_alive_brokers (env_now e) (sv_cluster s) ≠ [] →
  rp_replication_factor (sv_replication_manager s) = 0 →
  ∃ s', process_request e (CreateTopic name n) s = (s', Panic) ∧
    Manager_holds (sv_disk s') (sv_topic_manager s')
      (<[name := replicate (Z.to_nat n) []]> topics) room.
Proof.
  intros Hm Hl Hn Hpos Ha Hrf.
  destruct (Manager_create _ _ _ _ name n Hm Hl Hn) as (d' & tm' & Hc & _ & Hm' & _).
  exists (sv_set_topics d' tm' s). split; [|done].
  cbn [process_request]. unfold process_create_topic, on_topics, mbind, eff_bind. rewrite Hc.
  replace (Z.to_nat n) with (S (Z.to_nat (n - 1))) by lia. cbn [assign_replicas].
  unfold eff_get, eff_lift, mbind, eff_bind. rewrite assign_picked. cbn [sv_set_topics sv_cluster sv_replication_manager].
  rewrite decide_False by by intros ?%fmap_nil_inv.
  unfold picked_replicas. by rewrite Hrf, Z.min_l by lia.
Qed.

(** C30: a connection whose responses fit their frames sends exactly the responses of its
    requests, in order: a client that decodes the bytes, however they are cut, gets them. *)
Theorem handle_connection_spec `{BincodeLaws Response} reqs s s' responses out chunks :
  process_all reqs s = (s', Ok responses) → encode_all responses [] = (out, Ok tt) →
  concat chunks = out →
  handle_connection ((λ '(e, r), (e, Ok r)) <$> reqs) (s, []) = ((s', out), Ok tt) ∧
  decode_stream chunks [] = ([], Ok responses).
Proof.
  intros Hp He Hc. split; [by eapply handle_connection_aux|].
  apply encode_all_frames in He as (fs & Hfs & ->).
  rewrite <-(take_0 (concat fs)). apply (decode_stream_aux chunks responses fs 0 Hfs); [|done].
  split; [lia|]. intros f Hf. destruct Hfs as [|r f' ?? Hr]; [done|]. injection Hf as <-.
  pose proof (frame_length _ _ Hr). lia.
Qed.
End server_properties.
