(* ===== verification/Process.v ===== *)
(** * Process: the program from its start to its stop

    [broker/src/main.rs] and the start of [BrokerServer::run].  A process makes a broker on
    the disk it finds, loads the offsets, binds its socket and serves; when it stops, only
    the disk is left, and the next process starts on it.  Binding a socket belongs to the
    operating system: it is an argument, whose errors [anyhow] passes on.  The
    initialisation of the logging has no effect that the program reads. *)
From S2P Require Import Prelude Bytes Text Common Messages Codec Compression DiskRecord.
From S2P Require Import FileSystem OffsetIndex Retention Segment Partition Topic.
From S2P Require Import OffsetManager Cluster Replication Coordinator Server ServerRuns.

(** [format!("{}:{}", self.config.host, self.config.port)]. *)
Definition listen_addr (config : BrokerConfig) : string :=
  cfg_host config +:+ ":" +:+ fmt_dec (cfg_port config).

Section process.
Context `{Crc32} `{CompressionLib} `{HashIter}.

(** [BrokerServer::run] until the process is stopped, after the events [evs]. *)
Definition BrokerServer_run (bind : string → Result unit) (evs : list broker_event)
    : Method BrokerServer (list (option Response)) :=
  _ ← BrokerServer_load;
  s ← eff_get;
  _ ← eff_lift (bind (listen_addr (sv_config s)));
  run_events evs.

(** A process with a configuration, and what it leaves on the disk. *)
Definition run_process (config : BrokerConfig) (bind : string → Result unit) (now : Z)
    (evs : list broker_event) : Method disk (list (option Response)) := λ d,
  match BrokerServer_new now config d with
  | (_, Ok server) => let '(server, r) := BrokerServer_run bind evs server in (sv_disk server, r)
  | (d, Err e) => (d, Err e)
  | (d, Panic) => (d, Panic)
  end.

Definition main (bind : string → Result unit) (now : Z) (evs : list broker_event)
    : Method disk (list (option Response)) :=
  let config := BrokerConfig_default in
  run_process config bind now evs.

(** Processes one after the other, each with its time of start and its events. *)
Fixpoint run_processes (config : BrokerConfig) (bind : string → Result unit)
    (lives : list (Z * list broker_event)) : Method disk (list (list (option Response))) :=
  match lives with
  | [] => mret []
  | (now, evs) :: lives =>
      rs ← run_process config bind now evs;
      rss ← run_processes config bind lives;
      mret (rs :: rss)
  end.
End process.

(** ** The abstract processes *)
(** Each process answers as the abstract broker that the ones before it left. *)
Fixpoint lives_answered (b : broker_spec) (lives : list (Z * list broker_event))
    (rss : list (list (option Response))) : Prop :=
  match lives, rss with
  | [], [] => True
  | (_, evs) :: lives, rs :: rss =>
      responses_ok b evs rs ∧ lives_answered (restarted (foldl spec_event b evs)) lives rss
  | _, _ => False
  end.

Section lives_ok.
Context `{Crc32} `{CompressionLib}.
Fixpoint lives_ok (lag : Z) (b : broker_spec) (room : nat) (lives : list (Z * list broker_event)) : Prop :=
  match lives with
  | [] => True
  | (_, evs) :: lives =>
      events_ok lag b room evs ∧ lives_ok lag (restarted (foldl spec_event b evs)) reopen_room lives
  end.
End lives_ok.

(** ** Lemmas *)
Section process_facts.
Context `{Crc32Laws} `{CompressionLaws} `{HashIterLaws}.

(** A process is a start, a bind and a run. *)
Lemma run_process_start config bind now evs d s :
  start_broker now config d = Ok s → sv_config s = config →
  run_process config bind now evs d =
    match bind (listen_addr config) with
    | Ok _ => let '(s', r) := run_events evs s in (sv_disk s', r)
    | Err e => (sv_disk s, Err e)
    | Panic => (sv_disk s, Panic)
    end.
Proof.
  unfold start_broker, run_process, BrokerServer_run, eff_get, eff_lift, mbind, eff_bind.
  destruct (BrokerServer_new now config d) as [d' [s0|e|]]; [|done|done].
  destruct (BrokerServer_load s0) as [s1 [[]|e|]]; [|done|done].
  intros [= ->] ->. by destruct (bind _).
Qed.

Lemma run_process_served config bind now evs d s b room :
  start_broker now config d = Ok s → sv_config s = config → bind (listen_addr config) = Ok tt →
  Server_holds s b room → events_ok (cfg_max_isr_lag config) b room evs →
  ∃ s' rs, run_process config bind now evs d = (sv_disk s', Ok rs) ∧ responses_ok b evs rs ∧
    sv_config s' = config ∧
    Server_holds s' (foldl spec_event b evs) (room - all_produced evs).
Proof.
  intros Hs Hc Hb Hh Hok. rewrite (run_process_start _ _ _ _ _ _ Hs Hc), Hb.
  destruct (run_events_served evs s b room Hh) as (s' & rs & -> & Hrs & Hc' & Hh').
  { unfold server_lag. by rewrite Hc. }
  exists s', rs. split; [done|]. split; [done|]. split; [congruence|done].
Qed.

Lemma run_processes_restarted config bind lives s b room :
  config_ok config → bind (listen_addr config) = Ok tt → sv_config s = config →
  Server_holds s b room → lives_ok (cfg_max_isr_lag config) (restarted b) reopen_room lives →
  ∃ d rss, run_processes config bind lives (sv_disk s) = (d, Ok rss) ∧
    lives_answered (restarted b) lives rss.
Proof.
  intros Hc Hb. revert s b room. induction lives as [|[now evs] lives IH]; intros s b room Hsc Hs Hok.
  { by exists (sv_disk s), []. }
  destruct Hok as [Hok Hoks].
  destruct (restart_aux now config s b room Hs Hc) as (s0 & Hs0 & Hc0 & _ & Hh); [congruence|].
  destruct (run_process_served config bind now evs (sv_disk s) s0 _ _ Hs0 Hc0 Hb Hh Hok)
    as (s1 & rs & Hr & Hrs & Hc1 & Hh1).
  destruct (IH s1 _ _ Hc1 Hh1 Hoks) as (d & rss & Hrss & Ha).
  exists d, (rs :: rss). split; [|done]. cbn [run_processes]. unfold mbind, eff_bind, mret, eff_ret.
  by rewrite Hr, Hrss.
Qed.

Lemma config_ok_default : config_ok BrokerConfig_default.
Proof. split; [vm_compute; discriminate|]. split; [discriminate|reflexivity]. Qed.
Lemma restarted_empty : restarted empty_broker = empty_broker.
Proof. unfold restarted, empty_broker. cbn [bs_topics bs_offsets]. by rewrite map_filter_empty. Qed.

(** A first start makes directories only. *)
Lemma first_start_files now config d s :
  unused_dir d (path_of_string (cfg_data_dir config)) → start_broker now config d = Ok s →
  files (sv_disk s) = files d.
Proof.
  intros Hu. unfold start_broker, BrokerServer_new. rewrite (TopicManager_open_unused d _ Hu).
  unfold OffsetManager_new, eff_modify, mbind, eff_bind, mret, eff_ret, BrokerServer_load.
  destruct (OffsetManager_load _ _) as [om [[]|e|]]; intros [= <-]; done.
Qed.
End process_facts.

(** ** Properties *)
Section process_properties.
Context `{Crc32Laws} `{CompressionLaws} `{HashIterLaws}.


(** When the address is taken, the program reports it and serves nothing: no file has
    changed, and a later process on the same disk serves like a first one. *)
Theorem main_address_taken bind bind' now now' evs evs' d e :
  unused_dir d (path_of_string (cfg_data_dir BrokerConfig_default)) →
  bind "127.0.0.1:9092"%string = Err e → bind' "127.0.0.1:9092"%string = Ok tt →
  events_ok (cfg_max_isr_lag BrokerConfig_default) empty_broker reopen_room evs' →
  ∃ d1 d2 rs, main bind now evs d = (d1, Err e) ∧ files d1 = files d ∧
    main bind' now' evs' d1 = (d2, Ok rs) ∧ responses_ok empty_broker evs' rs.
Proof.
  intros Hu Hb Hb' Hok. pose proof config_ok_default as Hc.
  destruct (first_start_aux now BrokerConfig_default d reopen_room Hc Hu) as (s0 & Hs0 & Hc0 & Hh).
  change "127.0.0.1:9092"%string with (listen_addr BrokerConfig_default) in Hb, Hb'.
  destruct (restart_aux now' BrokerConfig_default s0 _ _ Hh Hc) as (s1 & Hs1 & Hc1 & _ & Hh1); [by rewrite Hc0|].
  rewrite restarted_empty in Hh1.
  destruct (run_process_served BrokerConfig_default bind' now' evs' (sv_disk s0) s1 _ _ Hs1 Hc1 Hb' Hh1 Hok)
    as (s2 & rs & Hr & Hrs & _).
  exists (sv_disk s0), (sv_disk s2), rs. unfold main.
  rewrite (run_process_start _ _ _ _ _ _ Hs0 Hc0), Hb. split; [done|].
  split; [by eapply first_start_files|done].
Qed.
End process_properties.
