(* ===== verification/Crashes.v ===== *)
(** * Crashes: a broker that dies while it writes

    What the next broker finds when the process stops in the middle of a request: after any
    byte of the records and index entries of a produce, and between the two files of a
    rotation.  The state of the process is lost; the disk is what [Recovery] leaves of the
    partition. *)
From S2P Require Import Prelude Bytes Text Common Messages Codec Compression DiskRecord.
From S2P Require Import FileSystem OffsetIndex Retention Segment Partition Recovery Topic.
From S2P Require Import OffsetManager Cluster Replication Coordinator Server ServerRuns.

Section crashes.
Context `{Crc32} `{CompressionLib} `{HashIter}.

(** The disk after a write to a partition that was looked up. *)
Definition crash_in (topic : string) (partition : Z) (stop : disk * Partition → disk)
    (s : BrokerServer) : disk :=
  match (t ← TopicManager_get_topic (sv_topic_manager s) topic; Topic_get_partition t partition) with
  | Ok p => stop (sv_disk s, p)
  | _ => sv_disk s
  end.

(** A produce that stops [n] bytes into the message [m], after the messages [ms1]. *)
Definition produce_crash (topic : string) (partition : Z) (ms1 : list Message) (m : Message) (n : nat)
    : BrokerServer → disk :=
  crash_in topic partition (Partition_crash ms1 m n).

(** A produce that stops between the two files of a rotation. *)
Definition produce_rotation_crash (topic : string) (partition : Z) : BrokerServer → disk :=
  crash_in topic partition (λ '(d, p), rotation_crash p d).

(** The segment that the next produce to the partition replaces. *)
Definition rotates (topic : string) (partition : Z) (s : BrokerServer) : Prop :=
  match (t ← TopicManager_get_topic (sv_topic_manager s) topic; Topic_get_partition t partition) with
  | Ok p => ∃ seg, last (pt_segments p) = Some seg ∧ LogSegment_should_rotate seg = true
  | _ => False
  end.
End crashes.

(** What is left of the broker after a start that does not find the topic. *)
Definition without_topic (topic : string) (b : broker_spec) : broker_spec :=
  {| bs_topics := delete topic (bs_topics b); bs_offsets := bs_offsets b |}.

Section crash_lemmas.
Context `{Crc32Laws} `{CompressionLaws} `{HashIterLaws}.

Lemma crash_in_partition topic partition stop s b room logs ms :
  Server_holds s b room → bs_topics b !! topic = Some logs → logs !! Z.to_nat partition = Some ms →
  0 ≤ partition →
  ∃ p, partition_ok (sv_disk s) (tm_data_dir (sv_topic_manager s)) topic partition p ms room ∧
    crash_in topic partition stop s = stop (sv_disk s, p) ∧
    (rotates topic partition s →
      ∃ seg, last (pt_segments p) = Some seg ∧ LogSegment_should_rotate seg = true).
Proof.
  intros Hs Hl Hms Hp. pose proof (Manager_get_topic _ _ _ _ topic (sh_topics _ _ _ Hs)) as Hget.
  rewrite Hl in Hget. destruct Hget as (t & Ht & Hh).
  pose proof (Topic_get _ _ _ _ _ _ partition Hh Hp) as Hg. rewrite Hms in Hg.
  destruct Hg as (p & Hpt & _ & Hok). exists p. unfold crash_in, rotates.
  rewrite Ht, outcome_bind_Ok, Hpt. done.
Qed.

(** Where nothing was written, the partitions open as they were. *)
Lemma open_other_partition d d' data_dir name id topic j p ms room :
  dir_frame (partition_dir data_dir topic j) d d' → is_u32 id → is_u32 j → (name ≠ topic ∨ id ≠ j) →
  partition_ok d data_dir name id p ms room →
  ∃ p', Partition_open name id data_dir d' = (d', Ok p') ∧ partition_serves name id p' ms.
Proof.
  intros Hfr Hid Hj Hne Hok.
  assert (partition_ok d' data_dir name id p ms room) as Hok'.
  { eapply partition_ok_same; [|done]. eapply dir_frame_same; [|done].
    intros Heq. apply partition_dir_inj in Heq as [-> ->]; [|done..]. by destruct Hne. }
  destruct (Partition_reopen _ _ _ _ _ _ _ Hok') as (p' & Ho & Hp'). exists p'. split; [done|].
  by eapply partition_ok_serves.
Qed.

(** The manager that a start opens, when some of the topics do not open. *)
Lemma open_serves d data_dir spec opened :
  Manager_layout d data_dir spec →
  (∀ name ms logs, spec !! name = Some (ms :: logs) →
    match opened !! name with
    | Some logs' => logs' = ms :: logs ∧
        ∃ t, Topic_open name data_dir d = (d, Ok t) ∧ Topic_serves name t logs'
    | None => ∃ e, Topic_open name data_dir d = (d, Err e)
    end) →
  (∀ name, spec !! name = None ∨ spec !! name = Some [] → opened !! name = None) →
  ∃ tm, TopicManager_open data_dir d = (d, Ok tm) ∧ Manager_serves tm opened.
Proof.
  intros Hlay Hopen Hnone.
  destruct (TopicManager_open_layout d data_dir spec Hlay) as (tm & Ho & _ & Hlk).
  { intros name ms logs Hl. specialize (Hopen _ _ _ Hl).
    destruct (opened !! name); [left|by right]. destruct Hopen as (_ & t & Ht & _). by exists t. }
  exists tm. split; [done|]. split.
  - intros name. rewrite Hlk. specialize (Hopen name). specialize (Hnone name).
    destruct (spec !! name) as [[|ms logs]|]; [by rewrite Hnone by (by right)| |by rewrite Hnone by (by left)].
    specialize (Hopen _ _ eq_refl). destruct (opened !! name) as [logs'|].
    + by destruct Hopen as (_ & t & -> & Ht).
    + by destruct Hopen as (e & ->).
  - intros name logs Hl. specialize (Hopen name). specialize (Hnone name).
    destruct (spec !! name) as [[|ms logs']|] eqn:Hsp;
      [by rewrite Hnone in Hl by (by right)| |by rewrite Hnone in Hl by (by left)].
    specialize (Hopen _ _ eq_refl). rewrite Hl in Hopen. destruct Hopen as (-> & _).
    by eapply (ml_u32 _ _ _ Hlay).
Qed.

(** A start on a disk whose topics open and whose offsets are those of a broker. *)
Lemma start_reads now config s b room d tm topics :
  Server_holds s b room → cfg_data_dir config = cfg_data_dir (sv_config s) →
  topics_frame (tm_data_dir (sv_topic_manager s)) (sv_disk s) d →
  TopicManager_open (tm_data_dir (sv_topic_manager s)) d = (d, Ok tm) → Manager_serves tm topics →
  ∃ s', start_broker now config d = Ok s' ∧
    Server_reads s' {| bs_topics := topics; bs_offsets := bs_offsets b |}.
Proof.
  intros Hs Hdir Hfr Hopen Hm. pose proof (sh_offsets_dir _ _ _ Hs) as Hod.
  rewrite (sh_topics_dir _ _ _ Hs) in *. unfold server_dir in *. rewrite <-Hdir in *.
  pose proof (Offsets_ok_topics_frame _ _ _ _ Hod Hfr (sh_offsets _ _ _ Hs)) as Hok.
  apply Offsets_ok_create_dir in Hok. rewrite Hod in Hok.
  unfold start_broker, BrokerServer_new. rewrite Hopen.
  unfold OffsetManager_new, eff_modify, mbind, eff_bind, mret, eff_ret, BrokerServer_load.
  cbn [sv_disk sv_offset_manager].
  rewrite (OffsetManager_load_ok _ (sv_offset_manager s)); [|done|by rewrite Hod|apply map_empty_subseteq].
  eexists. split; [reflexivity|]. split; [done|]. apply (sh_offsets_map _ _ _ Hs).
Qed.

(** The topics on a disk where one partition was written. *)
Lemma written_topics_open d d' tm spec room topic logs j ms kept p' :
  Manager_holds d tm spec room → spec !! topic = Some logs → logs !! j = Some ms →
  dir_frame (partition_dir (tm_data_dir tm) topic (Z.of_nat j)) d d' →
  Partition_open topic (Z.of_nat j) (tm_data_dir tm) d' = (d', Ok p') →
  partition_serves topic (Z.of_nat j) p' (ms ++ kept) →
  ∃ tm', TopicManager_open (tm_data_dir tm) d' = (d', Ok tm') ∧
    Manager_serves tm' (filter (λ '(_, logs), logs ≠ [])
      (alter (λ logs, alter (λ ms, ms ++ kept) j logs) topic spec)).
Proof.
  intros Hm Hl Hms Hfr Hop Hp'. set (spec' := alter _ topic spec).
  assert (∀ name, length <$> spec' !! name = length <$> spec !! name) as Hlen.
  { intros name. unfold spec'. destruct (decide (name = topic)) as [->|Hne].
    - rewrite lookup_alter_eq, Hl. simpl. by rewrite length_alter.
    - by rewrite lookup_alter_ne. }
  assert (∀ name logs' k, spec !! name = Some logs' → (k < length logs')%nat → is_u32 (Z.of_nat k)) as Hu.
  { intros name logs' k Hl' Hk. pose proof (mh_u32 _ _ _ _ Hm _ _ Hl') as Hu. unfold is_u32 in *. lia. }
  assert (Manager_layout d' (tm_data_dir tm) spec') as Hlay.
  { eapply Manager_layout_same; [apply Hfr|done|by eapply Manager_holds_layout]. }
  apply (open_serves d' _ spec'); [done| |].
  - intros name m0 logs0 Hn. rewrite map_lookup_filter, Hn. cbn [mbind option_bind].
    rewrite option_guard_True by done. split; [done|].
    unshelve eapply (Topic_open_all d' _ spec' Hlay); [done|]. intros k ms' Hms'.
    assert (∃ logs1, spec !! name = Some logs1 ∧ (k < length logs1)%nat) as (logs1 & Hl1 & Hk1).
    { apply lookup_lt_Some in Hms'. specialize (Hlen name). rewrite Hn in Hlen.
      destruct (spec !! name) as [logs1|]; simplify_eq/=. exists logs1. split; [done|lia]. }
    destruct (decide (name = topic ∧ k = j)) as [[-> ->]|Hne].
    + unfold spec' in Hn. rewrite lookup_alter_eq, Hl in Hn. injection Hn as Hn. rewrite <-Hn in Hms'.
      rewrite list_lookup_alter_eq, Hms in Hms'. injection Hms' as <-. by exists p'.
    + assert (logs1 !! k = Some ms') as Hk.
      { unfold spec' in Hn. destruct (decide (name = topic)) as [->|Hnt].
        - rewrite lookup_alter_eq, Hl1 in Hn. injection Hn as Hn. rewrite <-Hn in Hms'.
          rewrite list_lookup_alter_ne in Hms'; [done|]. intros ->. by apply Hne.
        - rewrite lookup_alter_ne in Hn by done. by simplify_eq. }
      destruct (Manager_partition _ _ _ _ _ _ _ _ Hm Hl1 Hk) as (q & Hq).
      eapply open_other_partition; [exact Hfr|by eapply Hu| |..|exact Hq].
      * eapply Hu; [exact Hl|by eapply lookup_lt_Some].
      * destruct (decide (name = topic)) as [->|]; [right|by left]. intros Heq. apply Hne. split; [done|lia].
  - intros name [Hn|Hn]; rewrite map_lookup_filter, Hn; done.
Qed.

(** The topics on a disk where one partition does not open: its topic is gone. *)
Lemma locked_topics_open d d' tm spec room topic logs j e :
  Manager_holds d tm spec room → spec !! topic = Some logs → (j < length logs)%nat →
  dir_frame (partition_dir (tm_data_dir tm) topic (Z.of_nat j)) d d' →
  Partition_open topic (Z.of_nat j) (tm_data_dir tm) d' = (d', Err e) →
  ∃ tm', TopicManager_open (tm_data_dir tm) d' = (d', Ok tm') ∧
    Manager_serves tm' (delete topic (filter (λ '(_, logs), logs ≠ []) spec)).
Proof.
  intros Hm Hl Hj Hfr Hop.
  assert (∀ name logs' k, spec !! name = Some logs' → (k < length logs')%nat → is_u32 (Z.of_nat k)) as Hu.
  { intros name logs' k Hl' Hk. pose proof (mh_u32 _ _ _ _ Hm _ _ Hl') as Hu. unfold is_u32 in *. lia. }
  assert (∀ name logs' k ms, spec !! name = Some logs' → logs' !! k = Some ms → name ≠ topic ∨ k ≠ j →
    ∃ p', Partition_open name (Z.of_nat k) (tm_data_dir tm) d' = (d', Ok p') ∧
      partition_serves name (Z.of_nat k) p' ms) as Hother.
  { intros name logs' k ms Hl' Hk Hne. destruct (Manager_partition _ _ _ _ _ _ _ _ Hm Hl' Hk) as (q & Hq).
    pose proof (lookup_lt_Some _ _ _ Hk) as Hlt.
    eapply open_other_partition; [exact Hfr|by apply (Hu name logs')|by apply (Hu topic logs)| |exact Hq].
    destruct Hne as [?|?]; [by left|right; lia]. }
  assert (Manager_layout d' (tm_data_dir tm) spec) as Hlay.
  { eapply Manager_layout_same; [apply Hfr|done|by eapply Manager_holds_layout]. }
  apply (open_serves d' _ spec); [done| |].
  - intros name m0 logs0 Hn. destruct (decide (name = topic)) as [->|Hne].
    + rewrite lookup_delete_eq. simplify_eq. exists e.
      pose proof (ml_topic_dir _ _ _ Hlay topic 0) as Hdir.
      pose proof (Topic_open_layout d' _ spec Hlay topic) as Ho. rewrite Hl in Ho.
      rewrite Ho by (apply Hdir; exists (m0 :: logs0); split; [done|simpl; lia]).
      unfold mbind, eff_bind, mret, eff_ret.
      rewrite (open_partitions_fails d' _ _ e _ _ (Z.of_nat j)); [done|lia| |done].
      intros k Hk. destruct (lookup_lt_is_Some_2 (m0 :: logs0) (Z.to_nat k)) as [ms Hms]; [lia|].
      destruct (Hother topic _ (Z.to_nat k) ms Hl Hms) as (q & Hq & _); [right; lia|].
      rewrite Z2Nat.id in Hq by lia. by exists q.
    + rewrite lookup_delete_ne, map_lookup_filter, Hn by done. cbn [mbind option_bind].
      rewrite option_guard_True by done. split; [done|].
      unshelve eapply (Topic_open_all d' _ spec Hlay); [done|]. intros k ms' Hms'.
      eapply Hother; [done|done|by left].
  - intros name Hn. destruct (decide (name = topic)) as [->|Hne]; [by rewrite lookup_delete_eq|].
    rewrite lookup_delete_ne by done. destruct Hn as [Hn|Hn]; rewrite map_lookup_filter, Hn; done.
Qed.
End crash_lemmas.

(** ** Properties *)
Section crash_properties.
Context `{Crc32Laws} `{CompressionLaws} `{HashIterLaws}.

(** The produce up to the message it stops in. *)
Lemma produce_prefix_ok lag b room topic partition ms1 m ms2 :
  request_ok lag b room (Produce topic partition (ms1 ++ m :: ms2)) → 0 ≤ lag →
  is_u32 partition ∧ Forall (message_fits SegmentConfig_default) (ms1 ++ [m]) ∧ (length ms1 < room)%nat ∧
  ∀ logs ms, bs_topics b !! topic = Some logs → logs !! Z.to_nat partition = Some ms →
    0 + Z.of_nat (length ((ms ++ ms1) ++ [m])) < 2 ^ 64 ∧
    encoded_size SegmentConfig_default 0 ((ms ++ ms1) ++ [m]) < 2 ^ 64.
Proof.
  intros (Hp & Hfit & Hroom & _ & Hall) Hlag. rewrite cons_middle, app_assoc in Hfit, Hroom, Hall.
  split; [done|]. split; [by apply Forall_app in Hfit as [? _]|].
  rewrite !length_app in Hroom. cbn [length] in Hroom. split; [lia|].
  intros logs ms Hl Hms. destruct (Hall _ _ Hl Hms) as [Hlen Hsize].
  rewrite <-!app_assoc in Hlen, Hsize. rewrite <-app_assoc. split.
  - rewrite !length_app in *. lia.
  - rewrite !app_assoc in Hsize. rewrite !app_assoc. unfold encoded_size in *.
    rewrite new_records_app, encode_log_app, length_app in Hsize. lia.
Qed.

(** C12: A broker that dies in the middle of a produce loses nothing that was acknowledged.
    Whichever message it stops in, and after however many bytes of its record and of its
    index entry, the next broker starts, and answers every request that reads, its data in
    range, as the abstract broker after a produce of those messages whose records were
    complete: the other partitions and the committed offsets are untouched, no torn record
    is served. The produce is one that the broker could have served: its messages fit, and
    the indexes have room for them. *)
Theorem produce_crash_recovers now config s b room topic partition ms1 m ms2 n logs ms :
  Server_holds s b room → cfg_data_dir config = cfg_data_dir (sv_config s) →
  request_ok (server_lag s) b room (Produce topic partition (ms1 ++ m :: ms2)) →
  bs_topics b !! topic = Some logs → logs !! Z.to_nat partition = Some ms →
  let r := make_record SegmentConfig_default (Z.of_nat (length (ms ++ ms1))) m in
  let kept := ms1 ++ survives n (length (encoded r)) m in
  let b' := restarted (spec_step b (Produce topic partition kept)) in
  ∃ s', start_broker now config (produce_crash topic partition ms1 m n s) = Ok s' ∧
    ∀ e request, reads request → request_ok (server_lag s) b' room request →
      ∃ response, process_request e request s' = (s', Ok response) ∧ response_ok b' request response.
Proof.
  intros Hs Hdir Hreq Hl Hms r kept b'.
  destruct (produce_prefix_ok _ _ _ _ _ _ _ _ Hreq) as (Hp & Hfit & Hroom & Hall); [apply Hs|].
  destruct (Hall _ _ Hl Hms) as [Hlen Hsize]. unfold is_u32 in Hp.
  destruct (crash_in_partition topic partition (Partition_crash ms1 m n) s b room logs ms)
    as (p & Hok & Hcrash & _); [done..|lia|].
  unfold produce_crash. rewrite Hcrash. destruct Hok as [Hid Hname Hpd Hcfg Hh].
  set (dd := tm_data_dir (sv_topic_manager s)) in *.
  destruct (Partition_crash_aux (sv_disk s) p 0 ms room ms1 m n dd) as (Hfr & p' & Hop & (Hid' & Hn' & _) & Hfetch);
    rewrite ?Hname, ?Hid, ?Hcfg; try done.
  rewrite Hpd, Hname, Hid, Hcfg in *. set (d' := Partition_crash ms1 m n (sv_disk s, p)) in *.
  rewrite <-(Z2Nat.id partition) in Hfr, Hop by lia.
  destruct (written_topics_open (sv_disk s) d' (sv_topic_manager s) (bs_topics b) room topic logs
    (Z.to_nat partition) ms kept p') as (tm' & Hopen & Hserves); [apply Hs|done..| |].
  { intros offset max Ho Hmax. rewrite Hfetch, decide_True by (done || apply Ho).
    rewrite Z.sub_0_r, Z.add_0_l, <-app_assoc. f_equal. apply records_from_at; [done|].
    rewrite Z2Nat.id by lia. congruence. }
  destruct (start_reads now config s b room d' tm' _ Hs Hdir
    (dir_frame_topics _ _ _ _ _ Hfr) Hopen Hserves) as (s' & Hs' & Hr).
  exists s'. split; [done|]. intros e request Hre Hrok. by eapply process_read.
Qed.

(** A produce that stops before a message leaves the disk of the shorter produce. *)
Lemma produce_crash_between s b room e topic partition ms1 m ms2 logs ms s' response :
  Server_holds s b room → request_ok (server_lag s) b room (Produce topic partition (ms1 ++ m :: ms2)) →
  bs_topics b !! topic = Some logs → logs !! Z.to_nat partition = Some ms → ms1 ≠ [] →
  process_request e (Produce topic partition ms1) s = (s', Ok response) →
  produce_crash topic partition ms1 m 0 s = sv_disk s'.
Proof.
  intros Hs Hreq Hl Hms Hne.
  destruct (produce_prefix_ok _ _ _ _ _ _ _ _ Hreq) as (Hp & Hfit & Hroom & Hall); [apply Hs|].
  destruct (Hall _ _ Hl Hms) as [Hlen Hsize]. unfold is_u32 in Hp.
  apply Forall_app in Hfit as [Hfit [Hm _]%Forall_cons].
  pose proof (Manager_get_topic _ _ _ _ topic (sh_topics _ _ _ Hs)) as Hget.
  rewrite Hl in Hget. destruct Hget as (t & Ht & Hh).
  pose proof (Topic_get _ _ _ _ _ _ partition Hh) as Hg. rewrite Hms in Hg.
  destruct Hg as (p & Hpt & _ & [_ _ _ Hcfg Hpi]); [lia|].
  unfold produce_crash, crash_in. rewrite Ht, outcome_bind_Ok, Hpt.
  unfold Partition_holds in Hpi. rewrite !length_app in Hlen. cbn [length] in Hlen.
  unfold encoded_size in Hsize. rewrite !new_records_app, encode_log_app, length_app in Hsize.
  rewrite (Partition_crash_nothing _ _ _ _ _ _ _ Hne Hpi); rewrite ?Hcfg, ?length_new_records; try done.
  - cbn [process_request]. unfold process_produce, on_topics, on_topic, Topic_append, on_partition.
    unfold eff_get, mbind, eff_bind. rewrite !Ht. cbn beta iota. rewrite ?Ht, Hpt.
    destruct (Partition_append ms1 (sv_disk s, p)) as [[d' p'] [o|err|]]; by intros [= <- _].
  - apply Forall_message_fits; [done|lia|lia].
  - apply Hm. rewrite length_app, !length_new_records. unfold is_u64. lia.
  - unfold log_fits. rewrite !length_app, !length_new_records. split; [lia|]. split; lia.
Qed.

(** C10: A broker that dies between two messages of a produce is, for the next one, a
    broker that was given the messages before: the next broker starts, answers the events
    that follow as the abstract broker with those messages does, and holds what the
    abstract broker becomes. The events are those that a reopened broker can serve
    ([events_ok] with [reopen_room]): their data is in range, commits name groups and
    topics that survive the text file, and they produce at most ten messages in all, one
    interval of the index; with more, the index that was opened again would be written over
    ([OffsetIndex_reopen_append_panics]). The replication factor of the next broker is at
    least one. *)
Theorem produce_crash_resumes now config s b room topic partition ms1 m ms2 logs ms evs :
  Server_holds s b room → config_ok config → cfg_data_dir config = cfg_data_dir (sv_config s) →
  request_ok (server_lag s) b room (Produce topic partition (ms1 ++ m :: ms2)) →
  bs_topics b !! topic = Some logs → logs !! Z.to_nat partition = Some ms → ms1 ≠ [] →
  let b' := restarted (spec_step b (Produce topic partition ms1)) in
  events_ok (cfg_max_isr_lag config) b' reopen_room evs →
  ∃ s0 s1 rs, start_broker now config (produce_crash topic partition ms1 m 0 s) = Ok s0 ∧
    run_events evs s0 = (s1, Ok rs) ∧ responses_ok b' evs rs ∧
    Server_holds s1 (foldl spec_event b' evs) (reopen_room - all_produced evs).
Proof.
  intros Hs Hc Hdir Hreq Hl Hms Hne b' Hok.
  assert (request_ok (server_lag s) b room (Produce topic partition ms1)) as Hreq1.
  { destruct (produce_prefix_ok _ _ _ _ _ _ _ _ Hreq) as (Hp & Hfit & Hroom & Hall); [apply Hs|].
    destruct Hreq as (_ & _ & _ & Hu & Hbig). apply Forall_app in Hfit as [Hfit _].
    rewrite length_app in Hu. unfold is_u32 in *. split; [done|]. split; [done|]. split; [lia|].
    split; [unfold is_u32; lia|]. intros logs' ms' Hl' Hms'.
    destruct (Hbig _ _ Hl' Hms') as [Hlen _], (Hall _ _ Hl' Hms') as [_ Hsize].
    rewrite !length_app in *. cbn [length] in *. unfold encoded_size in *.
    rewrite new_records_app, encode_log_app, length_app in Hsize. split; lia. }
  set (e := {| env_now := 0; env_uuid := "" |}).
  destruct (process_request_served e _ _ _ _ Hs Hreq1) as (s' & response & Hp & _ & Hc' & Hs').
  rewrite (produce_crash_between _ _ _ _ _ _ _ _ _ _ _ _ _ Hs Hreq Hl Hms Hne Hp).
  destruct (restart_aux now config s' _ _ Hs' Hc) as (s0 & Hs0 & Hcfg & _ & Hh); [congruence|].
  destruct (run_events_served evs s0 b' reopen_room Hh) as (s1 & rs & Hr & Hrs & _ & Hh1).
  { unfold server_lag. by rewrite Hcfg. }
  by exists s0, s1, rs.
Qed.

(** C35: A broker that dies in the middle of a rotation loses the whole topic: the partition
    does not open again, so that the topic is skipped by the next start, and the messages
    of all its partitions, acknowledged or not, are answered with "topic not found"; the
    other topics and the committed offsets are served as before. *)
Theorem rotation_crash_loses_topic now config s b room topic partition logs ms :
  Server_holds s b room → cfg_data_dir config = cfg_data_dir (sv_config s) →
  bs_topics b !! topic = Some logs → logs !! Z.to_nat partition = Some ms → 0 ≤ partition →
  rotates topic partition s →
  let b' := without_topic topic (restarted b) in
  ∃ s', start_broker now config (produce_rotation_crash topic partition s) = Ok s' ∧
    (∀ e request, reads request → request_ok (server_lag s) b' room request →
      ∃ response, process_request e request s' = (s', Ok response) ∧ response_ok b' request response) ∧
    ∀ e id offset max, is_u32 id → is_u64 offset → is_u32 max →
      process_request e (Fetch topic id offset max) s' =
        (s', Ok (FetchError (GaffaError_to_string (TopicNotFound topic)))).
Proof.
  intros Hs Hdir Hl Hms Hp Hrot b'.
  destruct (crash_in_partition topic partition (λ '(d, p), rotation_crash p d) s b room logs ms)
    as (p & Hok & Hcrash & Hseg); [done..|].
  destruct (Hseg Hrot) as (seg & Hlast & Hfull). unfold produce_rotation_crash. rewrite Hcrash.
  destruct Hok as [Hid Hname Hpd Hcfg Hh]. set (dd := tm_data_dir (sv_topic_manager s)) in *.
  destruct (rotation_crash_aux (sv_disk s) p 0 ms room seg dd) as [Hfr Hop];
    rewrite ?Hname, ?Hid; try done.
  rewrite Hpd, Hname, Hid, Hcfg in *. rewrite <-(Z2Nat.id partition) in Hfr, Hop by lia.
  destruct (locked_topics_open (sv_disk s) (rotation_crash p (sv_disk s)) (sv_topic_manager s)
    (bs_topics b) room topic logs (Z.to_nat partition) io_not_found) as (tm' & Hopen & Hserves);
    [apply Hs|done|by eapply lookup_lt_Some|done|done|].
  destruct (start_reads now config s b room _ tm' _ Hs Hdir
    (dir_frame_topics _ _ _ _ _ Hfr) Hopen Hserves) as (s' & Hs' & Hr).
  exists s'. split; [done|]. split.
  - intros e request Hre Hrok. by eapply process_read.
  - intros e id offset max Hi Ho Hmax. destruct (fetch_read e topic id offset max s' _ Hr Hi Ho Hmax)
      as (response & -> & Hresp).
    cbn [response_ok bs_topics] in Hresp. rewrite lookup_delete_eq in Hresp. by rewrite Hresp.
Qed.
End crash_properties.
