(* ===== verification/ServerGroups.v ===== *)
(** * ServerGroups: what a broker tells the members of a group

    The coordinator of [Coordinator] behind the requests of [Server]: a join learns the
    numbers of partitions of its topics from the topics of the broker, so that what is
    assigned can be stated of the abstract broker. *)
From S2P Require Import Prelude Bytes Text Common Messages Codec Compression DiskRecord.
From S2P Require Import FileSystem OffsetIndex Retention Segment Partition Topic.
From S2P Require Import OffsetManager Cluster Replication Coordinator Server.

Section server_groups.
Context `{Crc32Laws} `{CompressionLaws} `{HashIterLaws}.

(** The id that a join answers with. *)
Definition joining_id (e : env) (group_id : string) (member_id : option string) : string :=
  default (group_id +:+ "-" +:+ env_uuid e) member_id.

(** The coordinator and the group after a join. *)
Definition coordinator_for (s : BrokerServer) (topics : list string) : GroupCoordinator :=
  learn_topics (sv_topic_manager s) topics (sv_coordinator s).
Definition group_for (e : env) (group_id : string) (member_id : option string) (topics : list string)
    (s : BrokerServer) : ConsumerGroup :=
  let c := coordinator_for s topics in
  rebalance (gc_topic_partitions c) (joined_group (env_now e) (env_uuid e) group_id member_id topics c).

Lemma learned_count s b room topics t :
  Server_holds s b room →
  gc_topic_partitions (coordinator_for s topics) !! t =
    (if decide (t ∈ topics) then
       match bs_topics b !! t with
       | Some logs => Some (Z.of_nat (length logs))
       | None => gc_topic_partitions (sv_coordinator s) !! t
       end
     else gc_topic_partitions (sv_coordinator s) !! t).
Proof.
  intros Hs. unfold coordinator_for. generalize (sv_coordinator s).
  induction topics as [|t0 topics IH]; intros c.
  { by rewrite decide_False by apply not_elem_of_nil. }
  etrans; [apply IH|]. cbv beta. clear IH.
  pose proof (Manager_get_topic _ _ _ _ t0 (sh_topics _ _ _ Hs)) as Hget.
  destruct (decide (t = t0)) as [->|Hne].
  - rewrite (decide_True (P := t0 ∈ t0 :: topics)) by (by left).
    destruct (bs_topics b !! t0) as [logs|] eqn:Hl; [|rewrite Hget; by case_decide].
    destruct Hget as (t' & Hg & _). rewrite Hg.
    destruct (num_partitions_count s b room t0 t' Hs Hg) as (logs' & Hl' & ->). rewrite Hl in Hl'.
    injection Hl' as <-. cbn [update_topic_partitions gc_topic_partitions]. rewrite lookup_insert_eq. by case_decide.
  - assert (t ∈ t0 :: topics ↔ t ∈ topics) as Hiff by (rewrite elem_of_cons; split; [by intros [?|?]|by right]).
    rewrite (decide_ext _ _ _ _ Hiff).
    assert (∀ n, gc_topic_partitions (update_topic_partitions t0 n c) !! t = gc_topic_partitions c !! t) as Hins
      by (intros n; by apply lookup_insert_ne).
    by destruct (TopicManager_get_topic _ t0); rewrite ?Hins.
Qed.

Lemma join_request_eq e gid mid topics s :
  let c := coordinator_for s topics in let g := group_for e gid mid topics s in
  ∃ m, cg_members g !! joining_id e gid mid = Some m ∧ gm_topics m = topics ∧
    process_request e (JoinGroup gid mid topics) s =
      (sv_set_coordinator (gc_set_groups (<[gid := g]> (gc_groups c)) c) s,
       Ok (JoinGroupSuccess gid (joining_id e gid mid) (gm_assignments m))).
Proof.
  intros c g. set (c0 := joined_group (env_now e) (env_uuid e) gid mid topics c).
  assert (cg_members c0 !! joining_id e gid mid = Some {| gm_member_id := joining_id e gid mid;
    gm_topics := topics; gm_last_heartbeat := env_now e; gm_assignments := [] |}) as Hm.
  { unfold c0, joined_group, add_member. cbn [cg_set_members cg_members gm_member_id]. apply lookup_insert_eq. }
  destruct (rebalance_member (gc_topic_partitions c) c0 _ _ Hm) as (j & _ & _ & Hr).
  eexists. split; [exact Hr|]. split; [done|]. run_request.
  fold (learn_topics (sv_topic_manager s) topics (sv_coordinator s)). fold (coordinator_for s topics). fold c.
  cbn [sv_set_coordinator sv_coordinator]. unfold join_group.
  fold (joining_id e gid mid).
  match goal with |- context [add_member ?m ?g0] => change (add_member m g0) with c0 end. by rewrite Hr.
Qed.

(** The members of the group of a join: the others keep their topics. *)
Lemma group_for_members e gid mid topics s id m :
  cg_members (group_for e gid mid topics s) !! id = Some m →
  (id = joining_id e gid mid ∧ gm_topics m = topics) ∨
  (id ≠ joining_id e gid mid ∧ ∃ g m', gc_groups (sv_coordinator s) !! gid = Some g ∧
    cg_members g !! id = Some m' ∧ gm_topics m = gm_topics m').
Proof.
  intros Hm. unfold group_for in Hm. cbv zeta in Hm. set (c := coordinator_for s topics) in *.
  set (c0 := joined_group _ _ _ _ _ c) in *.
  assert (is_Some (cg_members c0 !! id)) as [m0 Hm0] by (apply (rebalance_dom (gc_topic_partitions c)); by eexists).
  destruct (rebalance_member (gc_topic_partitions c) c0 id m0 Hm0) as (j & _ & _ & Hr).
  rewrite Hm in Hr. injection Hr as ->. cbn [gm_set_assignments gm_topics].
  unfold c0, joined_group, add_member in Hm0. cbn [cg_set_members cg_members gm_member_id] in Hm0.
  fold (joining_id e gid mid) in Hm0. apply lookup_insert_Some in Hm0 as [[<- <-]|[Hne Hm0]]; [by left|].
  right. split; [done|]. unfold c, coordinator_for in Hm0. rewrite learn_topics_groups in Hm0.
  destruct (gc_groups (sv_coordinator s) !! gid) as [g|]; [eauto|].
  cbn in Hm0. by rewrite lookup_empty in Hm0.
Qed.

(** A partition is assigned in the group of a join when it exists and a member wants it. *)
Lemma elem_of_group_for e gid mid topics s b room t p :
  Server_holds s b room → t ∈ topics →
  PartitionAssignment_new t p ∈ group_assignments (group_for e gid mid topics s) ↔
    ∃ n, match bs_topics b !! t with
         | Some logs => n = Z.of_nat (length logs)
         | None => gc_topic_partitions (sv_coordinator s) !! t = Some n
         end ∧ 0 ≤ p < n.
Proof.
  intros Hs Ht. unfold group_for. cbv zeta. set (c := coordinator_for s topics).
  set (c0 := joined_group _ _ _ _ _ c).
  assert (cg_members c0 !! joining_id e gid mid = Some {| gm_member_id := joining_id e gid mid;
    gm_topics := topics; gm_last_heartbeat := env_now e; gm_assignments := [] |}) as Hm.
  { unfold c0, joined_group, add_member. cbn [cg_set_members cg_members gm_member_id]. apply lookup_insert_eq. }
  rewrite (rebalance_covers_aux _ c0) by (intros He; by rewrite He, lookup_empty in Hm).
  rewrite elem_of_all_partitions. unfold subscribed. cbn [PartitionAssignment_new pa_topic pa_partition].
  unfold c at 1. rewrite (learned_count s b room) by done. rewrite decide_True by done. split.
  - intros (_ & n & Hn & Hp). exists n. split; [|done].
    destruct (bs_topics b !! t); [congruence|done].
  - intros (n & Hn & Hp). split; [by eexists _, _|]. exists n. split; [|done].
    destruct (bs_topics b !! t); [by rewrite Hn|done].
Qed.

Lemma group_for_nodup e gid mid topics s b room :
  Server_holds s b room →
  cg_members (group_for e gid mid topics s) ≠ ∅ ∧ NoDup (group_assignments (group_for e gid mid topics s)).
Proof.
  intros Hs. set (c := coordinator_for s topics).
  assert (coordinator_inv c) as Hc by (apply learn_topics_inv, Hs).
  destruct (joined_group_members (env_now e) (env_uuid e) gid mid topics c Hc) as [Hne Hids].
  destruct (rebalance_ok (gc_topic_partitions c) _ Hne Hids) as [? _ ?]. done.
Qed.

Lemma group_for_counted e gid mid topics s b room :
  Server_holds s b room → Forall (counted (partition_count b)) (group_assignments (group_for e gid mid topics s)).
Proof.
  intros Hs. pose proof (learn_topics_within s b room topics _ Hs (sh_assigned _ _ _ Hs)) as Ha.
  pose proof (rebalance_within (partition_count b) _
    (joined_group (env_now e) (env_uuid e) gid mid topics (coordinator_for s topics)) (aw_counts _ _ Ha)) as Hw.
  apply Forall_forall. intros a ([id m] & Hin & Hm)%list_elem_of_bind. apply elem_of_map_to_list in Hm.
  exact (proj1 (Forall_forall _ _) (Hw id m Hm) a Hin).
Qed.

(** C17: a join settles who reads what.  The broker answers a join with the id of the member
    and its partitions, records the member with the topics it named, and leaves the group so
    that every partition of these topics that exists is assigned to exactly one member; no
    partition that does not exist is assigned, no partition is assigned twice, and the other
    groups are as they were. *)
Theorem join_covers e gid mid topics s b room :
  Server_holds s b room →
  ∃ s' l g m, process_request e (JoinGroup gid mid topics) s =
      (s', Ok (JoinGroupSuccess gid (joining_id e gid mid) l)) ∧
    Server_holds s' b room ∧
    gc_groups (sv_coordinator s') !! gid = Some g ∧
    cg_members g !! joining_id e gid mid = Some m ∧ gm_topics m = topics ∧ gm_assignments m = l ∧
    NoDup (group_assignments g) ∧ Forall (counted (partition_count b)) (group_assignments g) ∧
    (∀ t logs p, t ∈ topics → bs_topics b !! t = Some logs → 0 ≤ p < Z.of_nat (length logs) →
      PartitionAssignment_new t p ∈ group_assignments g) ∧
    ∀ gid', gid' ≠ gid → gc_groups (sv_coordinator s') !! gid' = gc_groups (sv_coordinator s) !! gid'.
Proof.
  intros Hs. destruct (join_request_eq e gid mid topics s) as (m & Hm & Ht & Hp).
  destruct (join_group_served e gid mid topics s b room Hs) as (s' & r & Hp' & _ & _ & Hs').
  cbn [spec_step produced] in Hs'. rewrite Nat.sub_0_r in Hs'.
  rewrite Hp in Hp'. injection Hp' as Heq _. rewrite <-Heq in Hs'.
  eexists _, _, _, m. split; [exact Hp|]. split; [exact Hs'|].
  cbn [sv_set_coordinator sv_coordinator gc_set_groups gc_groups].
  split; [apply lookup_insert_eq|]. split; [done|]. split; [done|]. split; [done|].
  split; [by eapply group_for_nodup|]. split; [by eapply group_for_counted|]. split.
  - intros t logs p Hin Hl Hb. apply (elem_of_group_for e gid mid topics s b room t p Hs Hin).
    rewrite Hl. by eexists.
  - intros gid' Hne. rewrite lookup_insert_ne by done. unfold coordinator_for. by rewrite learn_topics_groups.
Qed.

(** A group with no more members than partitions leaves no member without one. *)
Lemma rebalance_size tp g : size (cg_members (rebalance tp g)) = size (cg_members g).
Proof. rewrite <-!size_dom. apply set_size_proper. intros id. rewrite !elem_of_dom. apply rebalance_dom. Qed.

Lemma rebalance_share_nonempty tp g id m :
  cg_members (rebalance tp g) !! id = Some m → (size (cg_members g) ≤ length (all_partitions tp g))%nat →
  gm_assignments m ≠ [].
Proof.
  intros Hm Hlen Hnil.
  assert (is_Some (cg_members g !! id)) as [m0 Hm0] by (apply (rebalance_dom tp); by eexists).
  destruct (rebalance_member tp g id m0 Hm0) as (j & Hj & _ & Hr). rewrite Hm in Hr. injection Hr as ->.
  cbn [gm_set_assignments gm_assignments] in Hnil.
  pose proof (share_balanced (size (cg_members g)) j (all_partitions tp g) Hj) as [Hb _].
  rewrite Hnil in Hb. cbn [length] in Hb. apply (Nat.Div0.div_le_mono _ _ (size (cg_members g))) in Hlen.
  rewrite Nat.div_same in Hlen by lia. lia.
Qed.

(** The topics of what is assigned in the group of a join. *)
Lemma group_for_topics e gid mid topics s a :
  a ∈ all_partitions (gc_topic_partitions (coordinator_for s topics))
        (joined_group (env_now e) (env_uuid e) gid mid topics (coordinator_for s topics)) →
  pa_topic a ∈ topics ∨ ∃ g id m, gc_groups (sv_coordinator s) !! gid = Some g ∧
    cg_members g !! id = Some m ∧ pa_topic a ∈ gm_topics m.
Proof.
  intros [(id & m & Hm & Ht) _]%elem_of_all_partitions. unfold joined_group, add_member in Hm.
  cbn [cg_set_members cg_members gm_member_id] in Hm.
  apply lookup_insert_Some in Hm as [[_ <-]|[_ Hm]]; [by left|]. right.
  unfold coordinator_for in Hm. rewrite learn_topics_groups in Hm.
  destruct (gc_groups (sv_coordinator s) !! gid) as [g|]; [by eauto 8|]. cbn in Hm. by rewrite lookup_empty in Hm.
Qed.

(** The first member of a group has all the partitions of its topics. *)
Lemma first_member_all e gid mid topics s b room t logs p m :
  Server_holds s b room → gc_groups (sv_coordinator s) !! gid = None →
  cg_members (group_for e gid mid topics s) !! joining_id e gid mid = Some m →
  t ∈ topics → bs_topics b !! t = Some logs → 0 ≤ p < Z.of_nat (length logs) →
  PartitionAssignment_new t p ∈ gm_assignments m.
Proof.
  intros Hs Hn Hm Ht Hl Hp.
  assert (PartitionAssignment_new t p ∈ group_assignments (group_for e gid mid topics s)) as Hin.
  { apply (elem_of_group_for e gid mid topics s b room t p Hs Ht). rewrite Hl. by eexists. }
  apply list_elem_of_bind in Hin as ([id m'] & Hin & Hm'%elem_of_map_to_list).
  destruct (group_for_members e gid mid topics s id m' Hm') as [[-> _]|(_ & g & _ & Hg & _)]; [|by rewrite Hn in Hg].
  rewrite Hm in Hm'. by injection Hm' as ->.
Qed.

(** The second member of a group on a topic with two partitions or more has one of them. *)
Lemma second_member_some e1 e2 gid m1 m2 topic s s1 b room logs x2 :
  Server_holds s1 b room → gc_groups (sv_coordinator s) !! gid = None →
  gc_groups (sv_coordinator s1) !! gid = Some (group_for e1 gid m1 [topic] s) →
  bs_topics b !! topic = Some logs → (2 ≤ length logs)%nat →
  cg_members (group_for e2 gid m2 [topic] s1) !! joining_id e2 gid m2 = Some x2 →
  ∃ p, 0 ≤ p < Z.of_nat (length logs) ∧ PartitionAssignment_new topic p ∈ gm_assignments x2.
Proof.
  intros Hs1 Hn Hg1 Hl Hlen Hx2. unfold group_for in Hx2. cbv zeta in Hx2.
  set (c := coordinator_for s1 [topic]) in *. set (c0 := joined_group _ _ _ _ _ c) in *.
  set (ps := all_partitions (gc_topic_partitions c) c0).
  assert (∀ a, a ∈ ps → pa_topic a = topic) as Htopic.
  { intros a [->%list_elem_of_singleton|(g & id & m & Hg & Hm & Ha)]%group_for_topics; [done|].
    rewrite Hg1 in Hg. injection Hg as <-.
    destruct (group_for_members _ _ _ _ _ _ _ Hm) as [[_ Ht]|(_ & g & _ & Hg & _)]; [|by rewrite Hn in Hg].
    rewrite Ht in Ha. by apply list_elem_of_singleton in Ha. }
  assert (group_assignments (group_for e2 gid m2 [topic] s1) ≡ₚ ps) as Hga.
  { apply rebalance_covers_aux. apply insert_non_empty. }
  assert (∀ p, PartitionAssignment_new topic p ∈ ps ↔ 0 ≤ p < Z.of_nat (length logs)) as Hps.
  { intros p. rewrite <-Hga, (elem_of_group_for e2 gid m2 [topic] s1 b room topic p Hs1) by (by left).
    rewrite Hl. split; [by intros (? & -> & ?)|by eexists]. }
  assert (gm_assignments x2 ≠ []) as Hne.
  { apply (rebalance_share_nonempty _ _ _ _ Hx2). fold ps. transitivity 2%nat.
    - unfold c0, joined_group, add_member. cbn [cg_set_members cg_members].
      unfold c, coordinator_for. rewrite learn_topics_groups, Hg1. cbn [default]. unfold id, group_for.
      rewrite map_size_insert, rebalance_size. unfold joined_group, add_member. cbn [cg_set_members cg_members].
      unfold coordinator_for. rewrite learn_topics_groups, Hn. cbn [default ConsumerGroup_new cg_members].
      rewrite map_size_insert, lookup_empty, map_size_empty. case_match; cbn; lia.
    - assert ([PartitionAssignment_new topic 0; PartitionAssignment_new topic 1] ⊆+ ps) as Hsub; [|by apply submseteq_length in Hsub].
      apply NoDup_submseteq; [apply NoDup_cons; split; [by rewrite list_elem_of_singleton|apply NoDup_singleton]|].
      intros a [->| ->%list_elem_of_singleton]%elem_of_cons; apply Hps; lia. }
  destruct (gm_assignments x2) as [|a l] eqn:Ha; [done|].
  assert (a ∈ ps) as Hin.
  { rewrite <-Hga. apply list_elem_of_bind. exists (joining_id e2 gid m2, x2).
    split; [rewrite Ha; by left|by apply elem_of_map_to_list]. }
  pose proof (Htopic a Hin) as Ht. destruct a as [t p]. cbn in Ht. subst t.
  exists p. split; [by apply Hps|by left].
Qed.

(** C33: Fault: a rebalance is not announced.  When a second consumer joins a group whose only
    member has read all the partitions of a topic, it is given partitions that the first
    still holds, and the next heartbeat of the first is answered with success: both read
    these partitions from then on. *)
Theorem rebalance_not_announced e1 e2 e3 gid m1 m2 topic s b room logs :
  Server_holds s b room → gc_groups (sv_coordinator s) !! gid = None →
  bs_topics b !! topic = Some logs → (2 ≤ length logs)%nat →
  joining_id e1 gid m1 ≠ joining_id e2 gid m2 →
  ∃ s1 l1 s2 l2 s3 a,
    process_request e1 (JoinGroup gid m1 [topic]) s = (s1, Ok (JoinGroupSuccess gid (joining_id e1 gid m1) l1)) ∧
    process_request e2 (JoinGroup gid m2 [topic]) s1 = (s2, Ok (JoinGroupSuccess gid (joining_id e2 gid m2) l2)) ∧
    process_request e3 (Heartbeat gid (joining_id e1 gid m1)) s2 = (s3, Ok HeartbeatSuccess) ∧
    a ∈ l1 ∧ a ∈ l2.
Proof.
  intros Hs Hn Hl Hlen Hid.
  destruct (join_request_eq e1 gid m1 [topic] s) as (x1 & Hx1 & _ & Hp1).
  destruct (join_group_served e1 gid m1 [topic] s b room Hs) as (s1 & r1 & Hp1' & _ & _ & Hs1).
  cbn [spec_step produced] in Hs1. rewrite Nat.sub_0_r in Hs1. rewrite Hp1 in Hp1'. injection Hp1' as Heq1 _.
  set (g1 := group_for e1 gid m1 [topic] s) in *.
  assert (gc_groups (sv_coordinator s1) !! gid = Some g1) as Hg1 by (rewrite <-Heq1; apply lookup_insert_eq).
  rewrite Heq1 in Hp1.
  destruct (join_request_eq e2 gid m2 [topic] s1) as (x2 & Hx2 & _ & Hp2).
  set (s2 := sv_set_coordinator _ s1) in Hp2. set (g2 := group_for e2 gid m2 [topic] s1) in *.
  destruct (second_member_some e1 e2 gid m1 m2 topic s s1 b room logs x2) as (p & Hp & Hin); try done.
  assert (is_Some (cg_members g2 !! joining_id e1 gid m1)) as [x Hx].
  { apply rebalance_dom. unfold joined_group, add_member. cbn [cg_set_members cg_members gm_member_id].
    fold (joining_id e2 gid m2). rewrite lookup_insert_ne by done.
    unfold coordinator_for. rewrite learn_topics_groups, Hg1. by eexists. }
  eexists s1, _, s2, _, _, (PartitionAssignment_new topic p). split; [exact Hp1|]. split; [exact Hp2|].
  split; [|split; [|exact Hin]].
  - run_request. unfold GroupCoordinator_heartbeat, ConsumerGroup_heartbeat.
    cbn [s2 sv_set_coordinator sv_coordinator gc_set_groups gc_groups]. rewrite lookup_insert_eq.
    rewrite Hx. reflexivity.
  - eapply first_member_all; [exact Hs|done|exact Hx1|by left|done|done].
Qed.
End server_groups.
