(* ===== verification/Tasks.v ===== *)
(** * Tasks: requests that interleave

    The broker runs one task per connection, and the tasks share the topics, the offsets and
    the cluster behind locks: a request is a sequence of steps, one per critical section, and
    the steps of the requests of different connections interleave.  The replicas of one
    partition are assigned in one step, and the names of the topics are listed in one;
    [process_request] of [Server] runs the steps of a request without a break.

    A task that has looked a topic up holds an [Arc] of it.  A handle is the name of the
    topic and the number of times the name was inserted again before: an insertion over a
    topic leaves the old one to the tasks that hold it, in [wd_replaced]. *)
From S2P Require Import Prelude Bytes Text Common Messages Codec Compression DiskRecord.
From S2P Require Import FileSystem OffsetIndex Retention Segment Partition Topic.
From S2P Require Import OffsetManager Cluster Replication Coordinator Server.

Abbreviation handle := (string * nat)%type.

Record World : Type := {
  wd_server : BrokerServer;
  wd_generation : gmap string nat;
  wd_replaced : gmap handle Topic;
}.
Definition wd_set_server (s : BrokerServer) (w : World) : World :=
  {| wd_server := s; wd_generation := wd_generation w; wd_replaced := wd_replaced w |}.
Definition generation (w : World) (name : string) : nat := default O (wd_generation w !! name).

(** The map insertion of [create_topic]. *)
Definition insert_topic (name : string) (topic : Topic) (w : World) : World :=
  let s := wd_server w in
  let tm := sv_topic_manager s in
  let s' := sv_set_topics (sv_disk s)
              {| tm_topics := <[name := topic]> (tm_topics tm); tm_data_dir := tm_data_dir tm |} s in
  match tm_topics tm !! name with
  | Some old =>
      {| wd_server := s'; wd_generation := <[name := S (generation w name)]> (wd_generation w);
         wd_replaced := <[(name, generation w name) := old]> (wd_replaced w) |}
  | None => wd_set_server s' w
  end.

(** [get_topic]: a handle of the topic that the map holds now. *)
Definition get_handle (name : string) (w : World) : Result handle :=
  _ ← TopicManager_get_topic (sv_topic_manager (wd_server w)) name;
  mret (name, generation w name).

(** The topic of a handle. *)
Definition handle_topic (h : handle) (w : World) : option Topic :=
  if decide (h.2 = generation w h.1) then tm_topics (sv_topic_manager (wd_server w)) !! h.1
  else wd_replaced w !! h.

(** A step of a request. *)
Inductive task : Type :=
  | CreateCheck (name : string) (partitions : Z)
  | CreateInsert (name : string) (partitions : Z)
  | CreateAssign (name : string) (partitions i : Z)
  | ProduceLookup (topic : string) (partition : Z) (messages : list Message)
  | ProduceAppend (topic : string) (partition : Z) (messages : list Message) (h : handle)
  | ProduceUpdate (topic : string) (partition base_offset count : Z)
  | FetchLookup (topic : string) (partition offset max_messages : Z)
  | FetchRead (topic : string) (partition offset max_messages : Z) (h : handle)
  | PartitionsLookup (topic : string)
  | CommitMemory (group_id topic : string) (partition offset : Z)
  | CommitFile (group_id topic : string) (partition offset : Z)
  | OffsetRead (group_id topic : string) (partition : Z)
  | MetadataList (topics : list string)
  | MetadataLookup (topic_names : list string) (metadata_list : list TopicMetadata)
  | TopicsList
  | JoinLookup (group_id : string) (member_id : option string) (topics remaining : list string)
  | JoinLearn (group_id : string) (member_id : option string) (topics remaining : list string)
      (topic : string) (partition_count : Z)
  | LeaveRemove (group_id member_id : string)
  | HeartbeatTouch (group_id member_id : string)
  | BrokerRegister (broker_id : Z) (host : string) (port : Z)
  | ClusterBrokers
  | ClusterStates (brokers : list BrokerMetadata)
  | ReplicaCheck (topic : string) (partition offset : Z)
  | ReplicaLookup (topic : string) (partition offset : Z)
  | ReplicaRead (topic : string) (partition offset : Z) (h : handle)
  | ReplicaMark (topic : string) (partition : Z) (records : list Record_)
  | ReplicaEpoch (topic : string) (partition : Z) (records : list Record_) (high_watermark : Z)
  | Answered (response : Response)
  | Panicked.

(** The first step of a request. *)
Definition start_task (request : Request) : task :=
  match request with
  | CreateTopic name partitions => CreateCheck name partitions
  | Produce topic partition messages => ProduceLookup topic partition messages
  | Fetch topic partition offset max_messages => FetchLookup topic partition offset max_messages
  | GetMetadata topics => MetadataList topics
  | GetPartitions topic => PartitionsLookup topic
  | ListTopics => TopicsList
  | JoinGroup group_id member_id topics => JoinLookup group_id member_id topics topics
  | LeaveGroup group_id member_id => LeaveRemove group_id member_id
  | Heartbeat group_id member_id => HeartbeatTouch group_id member_id
  | CommitOffset group_id topic partition offset => CommitMemory group_id topic partition offset
  | FetchOffset group_id topic partition => OffsetRead group_id topic partition
  | RegisterBroker broker_id host port => BrokerRegister broker_id host port
  | GetClusterMetadata => ClusterBrokers
  | ReplicationFetch _ topic partition offset => ReplicaCheck topic partition offset
  end.

Section tasks.
Context `{Crc32} `{CompressionLib} `{HashIter}.

(** A method of a topic that a task holds; the [Arc] keeps the topic alive. *)
Definition on_handle {A} (h : handle) (m : Method (disk * Topic) A) (w : World) : World * Result (Result A) :=
  let s := wd_server w in
  if decide (h.2 = generation w h.1) then
    let '(s, r) := on_topics (on_topic h.1 m) s in (wd_set_server s w, r)
  else
    match wd_replaced w !! h with
    | Some t =>
        let '((d, t), r) := m (sv_disk s, t) in
        ({| wd_server := sv_set_topics d (sv_topic_manager s) s; wd_generation := wd_generation w;
            wd_replaced := <[h := t]> (wd_replaced w) |},
         match r with Panic => Panic | _ => Ok r end)
    | None => (w, Panic)
    end.

Definition create_insert (name : string) (partitions : Z) (w : World) : World * task :=
  let s := wd_server w in
  match Topic_new name partitions (tm_data_dir (sv_topic_manager s)) (sv_disk s) with
  | (d, Ok topic) =>
      (insert_topic name topic (wd_set_server (sv_set_topics d (sv_topic_manager s) s) w),
       CreateAssign name partitions 0)
  | (d, Err err) =>
      (wd_set_server (sv_set_topics d (sv_topic_manager s) s) w,
       Answered (CreateTopicError (GaffaError_to_string err)))
  | (d, Panic) => (wd_set_server (sv_set_topics d (sv_topic_manager s) s) w, Panicked)
  end.

Definition create_assign (e : env) (name : string) (partitions i : Z) (w : World) : World * task :=
  if i <? partitions then
    match assign_replicas 1 i (env_now e) name (wd_server w) with
    | (s, Ok _) => (wd_set_server s w, CreateAssign name partitions (i + 1))
    | (s, _) => (wd_set_server s w, Panicked)
    end
  else (w, Answered (CreateTopicSuccess name partitions)).

Definition produce_append (topic : string) (partition : Z) (messages : list Message) (h : handle)
    (w : World) : World * task :=
  match on_handle h (Topic_append partition messages) w with
  | (w, Ok (Ok base_offset)) =>
      (w, ProduceUpdate topic partition base_offset (w32 (Z.of_nat (length messages))))
  | (w, Ok (Err err)) => (w, Answered (ProduceError (GaffaError_to_string err)))
  | (w, _) => (w, Panicked)
  end.

Definition fetch_read (topic : string) (partition offset max_messages : Z) (h : handle) (w : World) : task :=
  match handle_topic h w with
  | Some t =>
      match Topic_fetch t partition offset max_messages with
      | Ok records => Answered (FetchSuccess topic partition records)
      | Err err => Answered (FetchError (GaffaError_to_string err))
      | Panic => Panicked
      end
  | None => Panicked
  end.

(** The two critical sections of [commit_offset]. *)
Definition commit_memory (group_id topic : string) (partition offset : Z) (s : BrokerServer) : BrokerServer :=
  sv_set_offsets (sv_disk s) (committed group_id topic partition offset (sv_offset_manager s)) s.
Definition commit_file (group_id : string) (s : BrokerServer) : BrokerServer * Result unit :=
  let '(d, r) := persist_group group_id (sv_offset_manager s) (sv_disk s) in
  (sv_set_offsets d (sv_offset_manager s) s, r).

(** A request, or the rest of one, that is one critical section. *)
Definition in_one_step (m : Method BrokerServer Response) (w : World) : World * task :=
  match m (wd_server w) with
  | (s, Ok response) => (wd_set_server s w, Answered response)
  | (s, _) => (wd_set_server s w, Panicked)
  end.

Definition metadata_lookup (topic_names : list string) (metadata_list : list TopicMetadata) (w : World) : task :=
  match topic_names with
  | [] => Answered (Metadata metadata_list)
  | topic_name :: topic_names =>
      match TopicManager_get_topic (sv_topic_manager (wd_server w)) topic_name with
      | Ok topic =>
          MetadataLookup topic_names (metadata_list ++ [TopicMetadata_new topic_name (Topic_num_partitions topic)])
      | _ => MetadataLookup topic_names metadata_list
      end
  end.

Definition join_lookup (e : env) (group_id : string) (member_id : option string)
    (topics remaining : list string) (w : World) : World * task :=
  match remaining with
  | [] => in_one_step (join_step e group_id member_id topics) w
  | topic :: remaining =>
      match TopicManager_get_topic (sv_topic_manager (wd_server w)) topic with
      | Ok topic_obj => (w, JoinLearn group_id member_id topics remaining topic (Topic_num_partitions topic_obj))
      | _ => (w, JoinLookup group_id member_id topics remaining)
      end
  end.

(** The records that [handle_replication_fetch] reads. *)
Definition replica_read (topic : string) (partition offset : Z) (h : handle) (w : World) : task :=
  match handle_topic h w with
  | Some t =>
      match Topic_get_partition t partition with
      | Ok p =>
          match Partition_fetch p offset 1000 with
          | Ok records => ReplicaMark topic partition records
          | Err _ => ReplicaMark topic partition []
          | Panic => Panicked
          end
      | _ => ReplicaMark topic partition []
      end
  | None => Panicked
  end.

(** One step of a task. *)
Definition task_step (e : env) (t : task) (w : World) : World * task :=
  let s := wd_server w in
  match t with
  | CreateCheck name partitions =>
      match tm_topics (sv_topic_manager s) !! name with
      | Some _ => (w, Answered (CreateTopicError
          (GaffaError_to_string (InvalidMessage ("Topic '" +:+ name +:+ "' already exists")))))
      | None => (w, CreateInsert name partitions)
      end
  | CreateInsert name partitions => create_insert name partitions w
  | CreateAssign name partitions i => create_assign e name partitions i w
  | ProduceLookup topic partition messages =>
      match get_handle topic w with
      | Ok h => (w, ProduceAppend topic partition messages h)
      | Err err => (w, Answered (ProduceError (GaffaError_to_string err)))
      | Panic => (w, Panicked)
      end
  | ProduceAppend topic partition messages h => produce_append topic partition messages h w
  | ProduceUpdate topic partition base_offset count =>
      (wd_set_server (sv_set_cluster
         (update_leader_offset topic partition (w64 (base_offset + count)) (sv_cluster s)) s) w,
       Answered (ProduceSuccess topic partition base_offset count))
  | FetchLookup topic partition offset max_messages =>
      match get_handle topic w with
      | Ok h => (w, FetchRead topic partition offset max_messages h)
      | Err err => (w, Answered (FetchError (GaffaError_to_string err)))
      | Panic => (w, Panicked)
      end
  | FetchRead topic partition offset max_messages h =>
      (w, fetch_read topic partition offset max_messages h w)
  | PartitionsLookup topic =>
      match TopicManager_get_topic (sv_topic_manager s) topic with
      | Ok t => (w, Answered (Partitions topic (Topic_num_partitions t)))
      | Err err => (w, Answered (PartitionsError (GaffaError_to_string err)))
      | Panic => (w, Panicked)
      end
  | CommitMemory group_id topic partition offset =>
      (wd_set_server (commit_memory group_id topic partition offset s) w,
       CommitFile group_id topic partition offset)
  | CommitFile group_id topic partition offset =>
      match commit_file group_id s with
      | (s, Ok _) => (wd_set_server s w, Answered (CommitOffsetSuccess group_id topic partition offset))
      | (s, Err err) => (wd_set_server s w, Answered (CommitOffsetError (GaffaError_to_string err)))
      | (s, Panic) => (wd_set_server s w, Panicked)
      end
  | OffsetRead group_id topic partition =>
      match fetch_offset group_id topic partition (sv_offset_manager s) with
      | Ok o => (w, Answered (FetchOffsetSuccess group_id topic partition (default 0 o)))
      | Err err => (w, Answered (FetchOffsetError (GaffaError_to_string err)))
      | Panic => (w, Panicked)
      end
  | MetadataList topics =>
      (w, MetadataLookup (if decide (topics = []) then TopicManager_list_topics (sv_topic_manager s) else topics) [])
  | MetadataLookup topic_names metadata_list => (w, metadata_lookup topic_names metadata_list w)
  | TopicsList => (w, Answered (Topics (TopicManager_list_topics (sv_topic_manager s))))
  | JoinLookup group_id member_id topics remaining => join_lookup e group_id member_id topics remaining w
  | JoinLearn group_id member_id topics remaining topic partition_count =>
      (wd_set_server (sv_set_coordinator (update_topic_partitions topic partition_count (sv_coordinator s)) s) w,
       JoinLookup group_id member_id topics remaining)
  | LeaveRemove group_id member_id => in_one_step (process_leave_group group_id member_id) w
  | HeartbeatTouch group_id member_id => in_one_step (process_heartbeat e group_id member_id) w
  | BrokerRegister broker_id host port => in_one_step (process_register_broker e broker_id host port) w
  | ClusterBrokers =>
      (w, ClusterStates ((λ b, {| bm_id := bi_id b; bm_host := bi_host b; bm_port := bi_port b |}) <$>
                           get_alive_brokers (env_now e) (sv_cluster s)))
  | ClusterStates brokers =>
      (w, Answered (ClusterMetadataResponse brokers
        ((λ state, {| tpm_topic := prs_topic state; tpm_partition := prs_partition state;
                      tpm_leader := prs_leader state; tpm_replicas := prs_replicas state;
                      tpm_isr := set_iter (prs_isr state) |}) <$> get_all_partition_states (sv_cluster s))))
  | ReplicaCheck topic partition offset =>
      if is_partition_leader topic partition (sv_cluster s) then (w, ReplicaLookup topic partition offset)
      else (w, Answered (ReplicationFetchError "Not the leader for this partition"))
  | ReplicaLookup topic partition offset =>
      match get_handle topic w with
      | Ok h => (w, ReplicaRead topic partition offset h)
      | _ => (w, ReplicaMark topic partition [])
      end
  | ReplicaRead topic partition offset h => (w, replica_read topic partition offset h w)
  | ReplicaMark topic partition records =>
      (w, ReplicaEpoch topic partition records (get_high_watermark topic partition (sv_cluster s)))
  | ReplicaEpoch topic partition records high_watermark =>
      (w, Answered (ReplicationFetchSuccess records high_watermark
            (default 0 (prs_leader_epoch <$> find_state topic partition (sv_cluster s)))))
  | Answered _ | Panicked => (w, t)
  end.

(** The tasks of the connections, by connection. *)
Inductive tasks_step : World * gmap nat task → World * gmap nat task → Prop :=
  | tasks_step_one e i t w w' t' ts :
      ts !! i = Some t → task_step e t w = (w', t') →
      tasks_step (w, ts) (w', <[i := t']> ts).

(** A task that runs alone, for [n] steps. *)
Fixpoint run_alone (n : nat) (e : env) (wt : World * task) : World * task :=
  match n with
  | O => wt
  | S n => run_alone n e (task_step e wt.2 wt.1)
  end.

End tasks.

(** ** A task alone *)
Lemma wd_set_server_id w : wd_set_server (wd_server w) w = w.
Proof. by destruct w. Qed.
Lemma wd_set_server_twice s s' w : wd_set_server s (wd_set_server s' w) = wd_set_server s w.
Proof. done. Qed.
Lemma sv_set_topics_id s : sv_set_topics (sv_disk s) (sv_topic_manager s) s = s.
Proof. by destruct s. Qed.
Lemma sv_set_offsets_id s : sv_set_offsets (sv_disk s) (sv_offset_manager s) s = s.
Proof. by destruct s. Qed.

Section alone.
Context `{Crc32} `{CompressionLib} `{HashIter}.

Lemma run_alone_add n m e wt : run_alone (n + m) e wt = run_alone m e (run_alone n e wt).
Proof. revert wt. induction n as [|n IH]; intros wt; [done|apply IH]. Qed.

Lemma assign_replicas_S n i now name s :
  assign_replicas (S n) i now name s =
    match assign_replicas 1 i now name s with
    | (s, Ok _) => assign_replicas n (i + 1) now name s
    | (s, Err err) => (s, Err err)
    | (s, Panic) => (s, Panic)
    end.
Proof.
  cbn [assign_replicas]. unfold eff_get, eff_lift, update_cluster, eff_modify, mbind, eff_bind, mret, eff_ret.
  by destruct (assign_partition_replicas _ _ _ _) as [[leader rs]| |].
Qed.

Lemma create_assign_alone e name partitions n i w s' :
  n = Z.to_nat (partitions - i) → assign_replicas n i (env_now e) name (wd_server w) = (s', Ok tt) →
  ∃ k, run_alone k e (w, CreateAssign name partitions i) =
    (wd_set_server s' w, Answered (CreateTopicSuccess name partitions)).
Proof.
  revert i w. induction n as [|n IH]; intros i w Hn Ha.
  - injection Ha as <-. exists 1%nat. cbn [run_alone task_step fst snd]. unfold create_assign.
    rewrite (proj2 (Z.ltb_ge _ _)) by lia. by rewrite wd_set_server_id.
  - rewrite assign_replicas_S in Ha.
    destruct (assign_replicas 1 i (env_now e) name (wd_server w)) as [s1 [[]| |]] eqn:Hone; [|done|done].
    destruct (IH (i + 1) (wd_set_server s1 w)) as [k Hk]; [lia|exact Ha|].
    exists (S k). cbn [run_alone task_step fst snd]. unfold create_assign.
    rewrite (proj2 (Z.ltb_lt _ _)), Hone by lia. exact Hk.
Qed.

Lemma create_alone e name partitions w s' response :
  process_create_topic e name partitions (wd_server w) = (s', Ok response) →
  ∃ k, run_alone k e (w, CreateCheck name partitions) = (wd_set_server s' w, Answered response).
Proof.
  set (s := wd_server w). unfold process_create_topic, on_topics, TopicManager_create_topic, eff_get,
    eff_lift, eff_modify, mbind, eff_bind, mret, eff_ret.
  destruct (tm_topics (sv_topic_manager s) !! name) as [t|] eqn:Ht.
  { intros [= <- <-]. exists 1%nat. cbn [run_alone task_step fst snd]. fold s. rewrite Ht.
    rewrite sv_set_topics_id. unfold s. by rewrite wd_set_server_id. }
  unfold on_disk. destruct (Topic_new name partitions (tm_data_dir (sv_topic_manager s)) (sv_disk s))
    as [d [topic|err|]] eqn:Hnew; [| |done].
  2: { intros [= <- <-]. exists 2%nat. cbn [run_alone task_step fst snd]. fold s. rewrite Ht. cbn [fst snd task_step].
       unfold create_insert. fold s. by rewrite Hnew. }
  destruct (assign_replicas _ 0 _ _ _) as [s1 [[]| |]] eqn:Ha; [|done|done]. intros [= <- <-].
  set (s2 := sv_set_topics d {| tm_topics := <[name := topic]> (tm_topics (sv_topic_manager s));
    tm_data_dir := tm_data_dir (sv_topic_manager s) |} s) in *.
  destruct (create_assign_alone e name partitions _ 0 (wd_set_server s2 w) s1 eq_refl) as [k Hk].
  { by rewrite Z.sub_0_r. }
  exists (S (S k)). cbn [run_alone task_step fst snd]. fold s. rewrite Ht. cbn [fst snd task_step].
  unfold create_insert. fold s. rewrite Hnew. unfold insert_topic.
  cbn [wd_set_server wd_server sv_set_topics sv_topic_manager tm_topics sv_disk tm_data_dir]. rewrite Ht. exact Hk.
Qed.

Lemma produce_alone topic partition messages e w s' response :
  process_produce topic partition messages (wd_server w) = (s', Ok response) →
  ∃ k, run_alone k e (w, ProduceLookup topic partition messages) = (wd_set_server s' w, Answered response).
Proof.
  set (s := wd_server w). unfold process_produce, update_cluster, eff_get, eff_lift, eff_modify, mbind, eff_bind,
    mret, eff_ret.
  destruct (TopicManager_get_topic (sv_topic_manager s) topic) as [t|err|] eqn:Hg; [| |done].
  2: { intros [= <- <-]. exists 1%nat. cbn [run_alone task_step fst snd]. unfold get_handle, s in *. rewrite Hg.
       by rewrite wd_set_server_id. }
  destruct (on_topics (on_topic topic (Topic_append partition messages)) s) as [s1 [r| |]] eqn:Ha; [|done|done].
  intros Hr.
  assert (∀ n, run_alone (S (S n)) e (w, ProduceLookup topic partition messages) =
    run_alone n e (match r with
      | Ok base_offset => (wd_set_server s1 w, ProduceUpdate topic partition base_offset (w32 (Z.of_nat (length messages))))
      | Err err => (wd_set_server s1 w, Answered (ProduceError (GaffaError_to_string err)))
      | Panic => (wd_set_server s1 w, Panicked) end)) as Hrun.
  { intros n. cbn [run_alone task_step fst snd]. unfold get_handle. fold s. rewrite Hg, outcome_bind_Ok.
    cbn [fst snd task_step mret outcome_ret]. unfold produce_append, on_handle. cbn [fst snd].
    rewrite decide_True by done. fold s. rewrite Ha. by destruct r. }
  destruct r as [base|err|]; [| |done]; injection Hr as <- <-.
  - exists 3%nat. rewrite Hrun. reflexivity.
  - exists 2%nat. rewrite Hrun. reflexivity.
Qed.

Lemma fetch_alone topic partition offset max e w s' response :
  process_fetch topic partition offset max (wd_server w) = (s', Ok response) →
  ∃ k, run_alone k e (w, FetchLookup topic partition offset max) = (wd_set_server s' w, Answered response).
Proof.
  set (s := wd_server w). unfold process_fetch, eff_get, eff_lift, mbind, eff_bind, mret, eff_ret.
  destruct (TopicManager_get_topic (sv_topic_manager s) topic) as [t|err|] eqn:Hg; [| |done].
  2: { intros [= <- <-]. exists 1%nat. cbn [run_alone task_step fst snd]. unfold get_handle, s in *. rewrite Hg.
       by rewrite wd_set_server_id. }
  intros Hr. exists 2%nat. cbn [run_alone task_step fst snd]. unfold get_handle. fold s.
  rewrite Hg, outcome_bind_Ok. cbn [fst snd task_step mret outcome_ret]. unfold fetch_read, handle_topic. cbn [fst snd].
  rewrite decide_True by done. fold s. unfold TopicManager_get_topic, ok_or in Hg.
  destruct (tm_topics (sv_topic_manager s) !! topic) as [t'|]; [|done]. injection Hg as ->.
  destruct (Topic_fetch t partition offset max); [| |done]; injection Hr as <- <-; unfold s; by rewrite wd_set_server_id.
Qed.

Lemma partitions_alone topic e w s' response :
  process_get_partitions topic (wd_server w) = (s', Ok response) →
  run_alone 1 e (w, PartitionsLookup topic) = (wd_set_server s' w, Answered response).
Proof.
  unfold process_get_partitions, eff_get, eff_lift, mbind, eff_bind, mret, eff_ret.
  cbn [run_alone task_step fst snd].
  destruct (TopicManager_get_topic _ topic); [| |done]; intros [= <- <-]; by rewrite wd_set_server_id.
Qed.

Lemma commit_alone group_id topic partition offset e w s' response :
  process_commit_offset group_id topic partition offset (wd_server w) = (s', Ok response) →
  run_alone 2 e (w, CommitMemory group_id topic partition offset) = (wd_set_server s' w, Answered response).
Proof.
  unfold process_commit_offset, on_offsets, commit_offset, eff_lift, mbind, eff_bind, mret, eff_ret.
  cbn [run_alone task_step fst snd]. unfold commit_file, commit_memory.
  cbn [wd_set_server wd_server sv_set_offsets sv_offset_manager sv_disk]. unfold committed.
  destruct (persist_group _ _ _) as [d [[]|err|]]; [| |done]; by intros [= <- <-].
Qed.

Lemma offset_read_alone group_id topic partition e w s' response :
  process_fetch_offset group_id topic partition (wd_server w) = (s', Ok response) →
  run_alone 1 e (w, OffsetRead group_id topic partition) = (wd_set_server s' w, Answered response).
Proof.
  unfold process_fetch_offset, eff_get, eff_lift, mbind, eff_bind, mret, eff_ret.
  cbn [run_alone task_step fst snd]. unfold fetch_offset.
  destruct (om_offsets _ !! _); intros [= <- <-]; by rewrite wd_set_server_id.
Qed.

Lemma metadata_alone names found e w :
  ∃ k, run_alone k e (w, MetadataLookup names found) =
    (w, Answered (Metadata (found ++ omap (λ name,
      match TopicManager_get_topic (sv_topic_manager (wd_server w)) name with
      | Ok topic => Some (TopicMetadata_new name (Topic_num_partitions topic)) | _ => None end) names))).
Proof.
  revert found. induction names as [|name names IH]; intros found.
  { exists 1%nat. cbn. by rewrite app_nil_r. }
  cbn [omap list_omap]. destruct (TopicManager_get_topic _ name) as [t| |] eqn:Hg.
  - destruct (IH (found ++ [TopicMetadata_new name (Topic_num_partitions t)])) as [k Hk]. exists (S k).
    cbn [run_alone task_step fst snd metadata_lookup]. rewrite Hg, Hk. by rewrite <-app_assoc.
  - destruct (IH found) as [k Hk]. exists (S k). cbn [run_alone task_step fst snd metadata_lookup]. by rewrite Hg.
  - destruct (IH found) as [k Hk]. exists (S k). cbn [run_alone task_step fst snd metadata_lookup]. by rewrite Hg.
Qed.

Lemma join_alone g m topics remaining e w s' response :
  join_step e g m topics (sv_set_coordinator
    (learn_topics (sv_topic_manager (wd_server w)) remaining (sv_coordinator (wd_server w))) (wd_server w)) =
    (s', Ok response) →
  ∃ k, run_alone k e (w, JoinLookup g m topics remaining) = (wd_set_server s' w, Answered response).
Proof.
  revert w. induction remaining as [|topic remaining IH]; intros w Hj.
  { exists 1%nat. cbn [run_alone task_step fst snd join_lookup]. unfold in_one_step.
    cbn [learn_topics foldl] in Hj. assert (sv_set_coordinator (sv_coordinator (wd_server w)) (wd_server w) = wd_server w) as Heq
      by (by destruct (wd_server w)).
    rewrite Heq in Hj. by rewrite Hj. }
  unfold learn_topics in Hj. cbn [foldl] in Hj.
  destruct (TopicManager_get_topic (sv_topic_manager (wd_server w)) topic) as [t| |] eqn:Hg;
    [destruct (IH (wd_set_server (sv_set_coordinator (update_topic_partitions topic (Topic_num_partitions t)
       (sv_coordinator (wd_server w))) (wd_server w)) w) Hj) as [k Hk]; exists (S (S k))
    |destruct (IH w Hj) as [k Hk]; exists (S k)..];
    cbn [run_alone task_step fst snd join_lookup]; rewrite Hg; exact Hk.
Qed.

Lemma one_step_alone (m : Method BrokerServer Response) e w s' response t :
  task_step e t w = in_one_step m w → m (wd_server w) = (s', Ok response) →
  run_alone 1 e (w, t) = (wd_set_server s' w, Answered response).
Proof. intros Ht Hm. cbn [run_alone fst snd]. rewrite Ht. unfold in_one_step. by rewrite Hm. Qed.

Lemma replica_alone topic partition offset e w s' response :
  process_replication_fetch topic partition offset (wd_server w) = (s', Ok response) →
  ∃ k, run_alone k e (w, ReplicaCheck topic partition offset) = (wd_set_server s' w, Answered response).
Proof.
  set (s := wd_server w). unfold process_replication_fetch, handle_replication_fetch, eff_get, eff_lift,
    mbind, eff_bind, mret, eff_ret. cbn [rq_topic rq_partition rq_offset rq_max_records].
  destruct (is_partition_leader topic partition (sv_cluster s)) eqn:Hlead; cbn [negb].
  2: { intros [= <- <-]. exists 1%nat. cbn [run_alone task_step fst snd]. fold s. rewrite Hlead.
       unfold s. by rewrite wd_set_server_id. }
  match goal with |- context [outcome_bind _ _ _ ?r] => set (fetched := r) end.
  assert (∀ records, fetched = Ok records →
    ∃ k, run_alone k e (w, ReplicaLookup topic partition offset) = (w, ReplicaMark topic partition records)) as Hf.
  { intros records. unfold fetched. destruct (TopicManager_get_topic (sv_topic_manager s) topic) as [t|err|] eqn:Hg.
    2, 3: intros [= <-]; exists 1%nat; cbn [run_alone task_step fst snd]; unfold get_handle; fold s; by rewrite Hg.
    intros Hr. exists 2%nat. cbn [run_alone task_step fst snd]. unfold get_handle. fold s.
    rewrite Hg, outcome_bind_Ok. cbn [fst snd task_step mret outcome_ret]. unfold replica_read, handle_topic. cbn [fst snd].
    rewrite decide_True by done. fold s. unfold TopicManager_get_topic, ok_or in Hg.
    destruct (tm_topics (sv_topic_manager s) !! topic) as [t'|]; [|done]. injection Hg as ->.
    destruct (Topic_get_partition t partition) as [p| |]; [|by injection Hr as <-..].
    destruct (Partition_fetch p offset 1000); [by injection Hr as <-..|done]. }
  destruct fetched as [records|err|]; [|done|done]. destruct (Hf records eq_refl) as [k Hk].
  cbn [outcome_bind rr_records rr_high_watermark rr_leader_epoch]. intros [= <- <-].
  exists (S (k + 2)). cbn [run_alone task_step fst snd]. fold s. rewrite Hlead, run_alone_add, Hk.
  unfold s. by rewrite wd_set_server_id.
Qed.

(** The two models of a request agree: a task that runs without interference answers what
    [process_request] answers, and leaves the broker [process_request] leaves. *)
Lemma task_alone e request w s' response :
  process_request e request (wd_server w) = (s', Ok response) →
  ∃ n, run_alone n e (w, start_task request) = (wd_set_server s' w, Answered response).
Proof.
  intros Hp. destruct request; cbn [process_request start_task] in *.
  - by apply create_alone.
  - by apply produce_alone.
  - by apply fetch_alone.
  - destruct (metadata_alone (if decide (topics = []) then
      TopicManager_list_topics (sv_topic_manager (wd_server w)) else topics) [] e w) as [k Hk].
    injection Hp as <- <-. exists (S k). rewrite wd_set_server_id. exact Hk.
  - exists 1%nat. by apply partitions_alone.
  - injection Hp as <- <-. exists 1%nat. by rewrite wd_set_server_id.
  - apply join_alone. exact Hp.
  - exists 1%nat. by eapply one_step_alone.
  - exists 1%nat. by eapply one_step_alone.
  - exists 2%nat. by apply commit_alone.
  - exists 1%nat. by apply offset_read_alone.
  - exists 1%nat. by eapply one_step_alone.
  - injection Hp as <- <-. exists 2%nat. by rewrite wd_set_server_id.
  - by apply replica_alone.
Qed.

End alone.
