(* ===== verification/Linear.v ===== *)
(** * Linear: interleaved requests behave like atomic ones

    The abstract broker as an atomic object: each connection has a request that is pending
    or answered, and answering one is a single step ([atomic_step]).  The tasks of [Tasks],
    interleaved in any way, refine it: each request takes effect in one of its own steps,
    so that the answers are those of some sequence of the requests in which a request comes
    before those that started after its answer.  Requests that create the same topic at the
    same time are excepted, and the last section shows why; so are the requests that read
    several times ([one_effect]), see [Races]. *)
From S2P Require Import Prelude Bytes Text Common Messages Codec Compression DiskRecord.
From S2P Require Import FileSystem OffsetIndex Retention Segment Partition Topic.
From S2P Require Import OffsetManager Cluster Replication Coordinator Server Tasks.

(** ** The atomic object *)
Abbreviation connections := (gmap nat (Request + Response)).
Abbreviation atomic_state := (broker_spec * nat * connections)%type.

Inductive atomic_step : atomic_state → atomic_state → Prop :=
  | atomic_answer b room cs i request response :
      cs !! i = Some (inl request) → response_ok b request response →
      atomic_step (b, room, cs)
        (spec_step b request, (room - produced request)%nat, <[i := inr response]> cs).

Section atomic.
Context `{Crc32} `{CompressionLib}.

(** The data of every request is in range whenever it can be answered. *)
Definition requests_ok (lag : Z) (a : atomic_state) : Prop :=
  ∀ b room cs i request, rtc atomic_step a (b, room, cs) → cs !! i = Some (inl request) →
    request_ok lag b room request.

Lemma requests_ok_steps lag a a' : requests_ok lag a → rtc atomic_step a a' → requests_ok lag a'.
Proof. intros Hok Ha b room cs i request Hr. apply (Hok b room cs i). by etrans. Qed.
End atomic.

(** ** The link between tasks and connections *)
(** The task may still insert the topic. *)
Definition creates (t : task) (name : string) : Prop :=
  match t with CreateCheck n _ | CreateInsert n _ => n = name | _ => False end.

(** A task that has still to write the file of a group. *)
Definition writes_file (t : task) (g : string) : Prop :=
  match t with CommitFile g' _ _ _ => g' = g | _ => False end.
Definition file_pending (ts : gmap nat task) (g : string) : Prop :=
  ∃ i t, ts !! i = Some t ∧ writes_file t g.

(** The requests that take effect in one step.  The metadata of several topics are looked up
    one by one, and a replication fetch reads the log and the high watermark in turn. *)
Definition one_effect (request : Request) : Prop :=
  match request with
  | GetMetadata [_] => True
  | GetMetadata _ | ReplicationFetch _ _ _ _ => False
  | _ => True
  end.

(** A task is pending until the step in which its request takes effect. *)
Definition task_linked (lag : Z) (w : World) (b : broker_spec) (t : task) (c : Request + Response) : Prop :=
  match t, c with
  | CreateCheck name n, inl r => r = CreateTopic name n
  | CreateInsert name n, inl r => r = CreateTopic name n ∧ bs_topics b !! name = None
  | CreateAssign name n _, inr r => r = CreateTopicSuccess name n
  | ProduceLookup topic p ms, inl r => r = Produce topic p ms
  | ProduceAppend topic p ms h, inl r =>
      r = Produce topic p ms ∧ h = (topic, generation w topic) ∧ is_Some (bs_topics b !! topic)
  | ProduceUpdate topic p base count, inr r =>
      r = ProduceSuccess topic p base count ∧ 0 ≤ base ∧ 0 ≤ count ∧ base + count + lag < 2 ^ 64 ∧
      base + count ≤ log_end b (topic, p)
  | FetchLookup topic p o max, inl r => r = Fetch topic p o max
  | FetchRead topic p o max h, inl r =>
      r = Fetch topic p o max ∧ h = (topic, generation w topic) ∧ is_Some (bs_topics b !! topic)
  | PartitionsLookup topic, inl r => r = GetPartitions topic
  | CommitMemory g topic p o, inl r => r = CommitOffset g topic p o
  | CommitFile g topic p o, inr r => r = CommitOffsetSuccess g topic p o
  | OffsetRead g topic p, inl r => r = FetchOffset g topic p
  | MetadataList topics, inl r => r = GetMetadata topics ∧ one_effect r
  | MetadataLookup names found, inl r => r = GetMetadata names ∧ found = [] ∧ one_effect r
  | MetadataLookup names found, inr r => names = [] ∧ r = Metadata found
  | TopicsList, inl r => r = ListTopics
  | JoinLookup g m topics _, inl r => r = JoinGroup g m topics
  | JoinLearn g m topics _ topic n, inl r => r = JoinGroup g m topics ∧ partition_count b topic n
  | LeaveRemove g m, inl r => r = LeaveGroup g m
  | HeartbeatTouch g m, inl r => r = Heartbeat g m
  | BrokerRegister id host port, inl r => r = RegisterBroker id host port
  | ClusterBrokers, inl r => r = GetClusterMetadata
  | ClusterStates _, inl r => r = GetClusterMetadata
  | Answered r, inr r' => r = r'
  | _, _ => False
  end.

(** What is left of [Server_holds] between the steps: a commit is in memory before it is in
    the file, so that the files hold the offsets of [om_disk]. *)
Section world.
Context `{Crc32} `{CompressionLib}.

Definition on_file (om_disk : OffsetManager) (s : BrokerServer) : BrokerServer :=
  sv_set_offsets (sv_disk s) om_disk s.
Definition filed_spec (om_disk : OffsetManager) (b : broker_spec) : broker_spec :=
  {| bs_topics := bs_topics b; bs_offsets := om_offsets om_disk |}.

Record world_ok (s : BrokerServer) (b : broker_spec) (room : nat) (pending : string → Prop) : Prop := {
  wo_holds : ∃ om_disk, Server_holds (on_file om_disk s) (filed_spec om_disk b) room ∧
    om_data_dir (sv_offset_manager s) = om_data_dir om_disk ∧
    ∀ g t p, ¬ pending g → om_offsets om_disk !! (g, t, p) = bs_offsets b !! (g, t, p);
  wo_offsets : om_offsets (sv_offset_manager s) = bs_offsets b;
  wo_clean : ∀ g t p o, bs_offsets b !! (g, t, p) = Some o → clean_group g ∧ clean_entry (t, p, o);
}.

Record linked (lag : Z) (wts : World * gmap nat task) (a : atomic_state) : Prop := {
  lk_world : world_ok (wd_server wts.1) a.1.1 a.1.2 (file_pending wts.2);
  lk_lag : server_lag (wd_server wts.1) = lag;
  lk_tasks : ∀ i, option_relation (task_linked lag wts.1 a.1.1) (λ _, False) (λ _, False)
    (wts.2 !! i) (a.2 !! i);
  lk_creates : ∀ i j ti tj name, wts.2 !! i = Some ti → wts.2 !! j = Some tj →
    creates ti name → creates tj name → i = j;
}.
End world.

(** The first steps of the requests of the connections. *)
Definition started (cs : connections) (ts : gmap nat task) : Prop :=
  ∀ i, option_relation (λ t c, ∃ request, c = inl request ∧ one_effect request ∧ t = start_task request)
    (λ _, False) (λ _, False) (ts !! i) (cs !! i).
(** No two connections create the same topic. *)
Definition distinct_creates (cs : connections) : Prop :=
  ∀ i j name n n', cs !! i = Some (inl (CreateTopic name n)) → cs !! j = Some (inl (CreateTopic name n')) →
    i = j.

(** ** Stability *)
Lemma file_pending_insert ts i t t' g :
  ts !! i = Some t → ¬ writes_file t g → file_pending ts g → file_pending (<[i := t']> ts) g.
Proof.
  intros Hi Ht (j & tj & Hj & Hg). exists j, tj. split; [|done]. rewrite lookup_insert_ne; [done|].
  intros ->. rewrite Hi in Hj. by injection Hj as ->.
Qed.

Lemma task_linked_stable lag s w b b' t c :
  broker_extends b b' →
  (∀ name, creates t name → bs_topics b !! name = None → bs_topics b' !! name = None) →
  task_linked lag w b t c → task_linked lag (wd_set_server s w) b' t c.
Proof.
  intros He Hn. assert (∀ name, is_Some (bs_topics b !! name) → is_Some (bs_topics b' !! name)) as Hs.
  { intros name [logs Hl]. destruct (He _ _ Hl) as (logs' & -> & _). by eexists. }
  destruct t, c; cbn [task_linked creates] in *; try done.
  - intros [-> Hb]. by split; [|apply Hn].
  - intros (-> & -> & Hb). split_and!; [done|done|by apply Hs].
  - intros (-> & ? & ? & ? & Hend). split_and!; [done..|].
    pose proof (extends_log_end b b' (topic, partition) He). lia.
  - intros (-> & -> & Hb). split_and!; [done|done|by apply Hs].
  - intros [-> Hn']. split; [done|]. by eapply extends_count.
Qed.

Section linking.
Context `{Crc32} `{CompressionLib}.

Lemma world_ok_pending s b room (P P' : string → Prop) :
  (∀ g, P g → P' g) → world_ok s b room P → world_ok s b room P'.
Proof.
  intros HP [(om & Hs & Hd & Hsame) Ho Hc]. split; [|done|done]. exists om. split_and!; [done|done|].
  intros g t p Hg. apply Hsame. auto.
Qed.

(** One task moves; the others stay linked. *)
Lemma linked_move lag w ts b room cs i t t' s' b' room' cs' :
  linked lag (w, ts) (b, room, cs) → ts !! i = Some t →
  world_ok s' b' room' (file_pending (<[i := t']> ts)) → server_lag s' = lag →
  (∀ j, j ≠ i → cs' !! j = cs !! j) →
  (∃ c, cs' !! i = Some c ∧ task_linked lag (wd_set_server s' w) b' t' c) →
  broker_extends b b' →
  (∀ name, bs_topics b !! name = None → bs_topics b' !! name = None ∨ creates t name) →
  (∀ name, creates t' name → creates t name) →
  linked lag (wd_set_server s' w, <[i := t']> ts) (b', room', cs').
Proof.
  intros [Hw Hlag Ht Hcr] Hi Hw' Hlag' Hcs (c & Hc & Htc) Hmono Hnone Hcreate.
  cbn [fst snd] in *. split; cbn [fst snd]; [done|done| |].
  - intros j. destruct (decide (j = i)) as [->|Hne].
    + rewrite lookup_insert_eq, Hc. exact Htc.
    + rewrite lookup_insert_ne, Hcs by done. specialize (Ht j).
      destruct (ts !! j) as [tj|] eqn:Hj, (cs !! j) as [cj|]; try done. cbn [option_relation] in *.
      eapply task_linked_stable; [done| |exact Ht]. intros name Hcn Hb.
      destruct (Hnone name Hb) as [?|Hci]; [done|]. destruct Hne. by apply (Hcr j i tj t name).
  - intros j k tj tk name [[<- <-]|[Hj Htj]]%lookup_insert_Some [[<- <-]|[Hk Htk]]%lookup_insert_Some Hcj Hck.
    + done.
    + by apply (Hcr i k t tk name); auto.
    + by apply (Hcr j i tj t name); auto.
    + by apply (Hcr j k tj tk name).
Qed.

End linking.

(** ** The state between the steps *)
Section world_steps.
Context `{Crc32Laws} `{CompressionLaws} `{HashIterLaws}.

Lemma world_ok_room s b room room' P :
  (room' ≤ room)%nat → world_ok s b room P → world_ok s b room' P.
Proof.
  intros Hr [(om & Hs & Hd & Hsame) Ho Hc]. split; [|done|done]. exists om.
  split_and!; [by eapply Server_holds_room|done|done].
Qed.

Lemma world_ok_cluster s b room P : world_ok s b room P → cluster_ok (server_lag s) (sv_cluster s).
Proof. by intros [(om & [] & _) _ _]. Qed.
Lemma world_ok_marks s b room P : world_ok s b room P → marks_within (log_end b) (sv_cluster s).
Proof. by intros [(om & [] & _) _ _]. Qed.
Lemma world_ok_set_cluster s b room P c :
  world_ok s b room P → cluster_ok (server_lag s) c → marks_within (log_end b) c →
  world_ok (sv_set_cluster c s) b room P.
Proof.
  intros [(om & Hs & Hd & Hsame) Ho Hcl] Hc Hm. split; [|done|done]. exists om.
  split_and!; [|done|done]. exact (Server_holds_cluster _ _ _ c Hs Hc Hm).
Qed.

Lemma world_ok_groups s b room P :
  world_ok s b room P →
  coordinator_inv (sv_coordinator s) ∧ assigned_within (partition_count b) (sv_coordinator s).
Proof. by intros [(om & [] & _) _ _]. Qed.
Lemma world_ok_set_coordinator s b room P c :
  world_ok s b room P → coordinator_inv c → assigned_within (partition_count b) c →
  world_ok (sv_set_coordinator c s) b room P.
Proof.
  intros [(om & Hs & Hd & Hsame) Ho Hcl] Hc Ha. split; [|done|done]. exists om.
  split_and!; [|done|done]. exact (Server_holds_coordinator _ _ _ c Hs Hc Ha).
Qed.
Lemma world_topic_names s b room P :
  world_ok s b room P → TopicManager_list_topics (sv_topic_manager s) ≡ₚ (map_to_list (bs_topics b)).*1.
Proof. intros [(om & Hs & _) _ _]. exact (topic_names_holds _ _ _ Hs). Qed.

(** The lookup of a topic. *)
Lemma world_get_topic s b room P topic :
  world_ok s b room P →
  match bs_topics b !! topic with
  | Some logs => ∃ t, tm_topics (sv_topic_manager s) !! topic = Some t ∧
      TopicManager_get_topic (sv_topic_manager s) topic = Ok t ∧
      Topic_num_partitions t = Z.of_nat (length logs) ∧
      ∀ p o max, is_u32 p → is_u64 o → is_u32 max → Topic_fetch t p o max =
        match logs !! Z.to_nat p with
        | Some ms => Ok (records_at topic p o (take (Z.to_nat max) (drop (Z.to_nat o) ms)))
        | None => Err (PartitionNotFound topic p)
        end
  | None => tm_topics (sv_topic_manager s) !! topic = None ∧
      TopicManager_get_topic (sv_topic_manager s) topic = Err (TopicNotFound topic)
  end.
Proof.
  intros [(om & Hs & _) _ _]. pose proof (sh_topics _ _ _ Hs) as Hm.
  cbn [on_file sv_set_offsets sv_disk sv_topic_manager filed_spec bs_topics] in Hm.
  pose proof (Manager_get_topic _ _ _ _ topic Hm) as Hget.
  assert (∀ t, TopicManager_get_topic (sv_topic_manager s) topic = Ok t →
    tm_topics (sv_topic_manager s) !! topic = Some t) as Hget'.
  { unfold TopicManager_get_topic, ok_or. intros t Hg.
    destruct (tm_topics (sv_topic_manager s) !! topic); [by injection Hg as ->|done]. }
  destruct (bs_topics b !! topic) as [logs|] eqn:Hl.
  - destruct Hget as (t & Hg & Ht). exists t. split_and!; [by apply Hget'|done| |].
    + eapply num_partitions_holds; [done|]. by eapply (mh_u32 _ _ _ _ Hm).
    + intros p o max Hp Ho Hmax. unfold is_u32 in Hp. rewrite (Topic_fetch_aux _ _ _ _ _ p _ o max Ht) by (done || lia).
      by destruct (logs !! Z.to_nat p).
  - split; [|done]. destruct (tm_topics _ !! topic) eqn:Ht; [|done].
    unfold TopicManager_get_topic in Hget. by rewrite Ht in Hget.
Qed.

Lemma on_topics_on_file {A} (m : Method (disk * TopicManager) A) om s d tm r :
  on_topics m (on_file om s) = (sv_set_topics d tm (on_file om s), r) →
  on_topics m s = (sv_set_topics d tm s, r).
Proof.
  unfold on_topics. cbn [on_file sv_set_offsets sv_disk sv_topic_manager].
  destruct (m (sv_disk s, sv_topic_manager s)) as [[d' tm'] [a|e|]]; by intros [= -> -> <-].
Qed.

Lemma world_append topic partition messages s b room P logs :
  world_ok s b room P → request_ok (server_lag s) b room (Produce topic partition messages) →
  bs_topics b !! topic = Some logs →
  ∃ d tm r, on_topics (on_topic topic (Topic_append partition messages)) s = (sv_set_topics d tm s, Ok r) ∧
    r ≠ Panic ∧ response_ok b (Produce topic partition messages) (append_answer topic partition messages r) ∧
    world_ok (sv_set_topics d tm s) (spec_step b (Produce topic partition messages))
      (room - length messages) P ∧
    ∀ base, r = Ok base → is_u32 (Z.of_nat (length messages)) ∧ 0 ≤ base ∧
      base + Z.of_nat (length messages) + server_lag s < 2 ^ 64 ∧
      log_end (spec_step b (Produce topic partition messages)) (topic, partition) =
        base + Z.of_nat (length messages).
Proof.
  intros [(om & Hs & Hd & Hsame) Ho Hc] Hok Hl.
  destruct (append_served topic partition messages (on_file om s) (filed_spec om b) room logs Hs Hok Hl)
    as (d & tm & r & Hon & Hr & Hresp & Hs1 & Hbase).
  exists d, tm, r. split_and!; [by eapply on_topics_on_file|done|exact Hresp| |exact Hbase].
  split; [|exact Ho|exact Hc]. exists om. split_and!; [exact Hs1|done|done].
Qed.

Lemma world_create name n s b room P :
  world_ok s b room P → is_u32 n → bs_topics b !! name = None →
  ∃ d topic, Topic_new name n (tm_data_dir (sv_topic_manager s)) (sv_disk s) = (d, Ok topic) ∧
    world_ok (sv_set_topics d {| tm_topics := <[name := topic]> (tm_topics (sv_topic_manager s));
                                 tm_data_dir := tm_data_dir (sv_topic_manager s) |} s)
      (spec_step b (CreateTopic name n)) room P.
Proof.
  intros Hw Hn Hl. pose proof (world_get_topic s b room P name Hw) as Hget. rewrite Hl in Hget.
  destruct Hget as [Hnone _]. destruct Hw as [(om & Hs & Hd & Hsame) Ho Hc].
  destruct (Manager_create _ _ _ _ name n (sh_topics _ _ _ Hs) Hl Hn) as (d' & tm' & Hcr & Hdir & Hm & Hfr).
  pose proof (spec_step_extends b (CreateTopic name n)) as He. cbn [spec_step] in He. rewrite Hl in He.
  pose proof (Server_holds_topics _ _ _ _ _ _ _ Hs Hm Hdir Hfr He) as Hs1.
  revert Hcr. cbn [on_file sv_set_offsets sv_disk sv_topic_manager].
  unfold TopicManager_create_topic, on_disk, eff_get, eff_modify, mbind, eff_bind. rewrite Hnone.
  destruct (Topic_new _ _ _ _) as [d [topic|err|]]; [|done|done]. intros [= <- <-].
  exists d, topic. split; [done|]. split; cbn [spec_step]; rewrite Hl; [|exact Ho|exact Hc].
  exists om. split_and!; [exact Hs1|done|done].
Qed.

Lemma world_memory g t p o s b room P :
  world_ok s b room P → clean_group g → clean_entry (t, p, o) →
  world_ok (commit_memory g t p o s) (spec_step b (CommitOffset g t p o)) room (λ g', P g' ∨ g' = g).
Proof.
  intros [(om & Hs & Hd & Hsame) Ho Hc] Hg He. split.
  - exists om. split_and!; [exact Hs|done|]. intros g' t' p' Hno. cbn [spec_step bs_offsets].
    rewrite lookup_insert_ne by (intros [= <- _ _]; tauto). apply Hsame. tauto.
  - cbn. by rewrite Ho.
  - cbn [spec_step bs_offsets]. intros g' t' p' o' [[[= <- <- <-] <-]|[_ Hk]]%lookup_insert_Some; [done|].
    by apply Hc in Hk.
Qed.

Lemma world_file g s b room P :
  world_ok s b room P →
  ∃ s', commit_file g s = (s', Ok tt) ∧ server_lag s' = server_lag s ∧
    world_ok s' b room (λ g', P g' ∧ g' ≠ g).
Proof.
  intros [(om & Hs & Hd & Hsame) Ho Hc].
  destruct (persist_aux g (sv_offset_manager s) om (sv_disk s) (sh_offsets _ _ _ Hs) Hd) as (d & Hp & Hfr & Hok).
  { intros t p o. rewrite Ho. apply Hc. }
  unfold commit_file. rewrite Hp. eexists. split; [done|]. split; [done|].
  split; [|exact Ho|exact Hc]. exists (synced g (sv_offset_manager s) om). split_and!; [|done|].
  - rewrite Hd in Hfr.
    exact (Server_holds_offsets _ _ _ d (synced g (sv_offset_manager s) om) Hs Hfr Hd Hok).
  - intros g' t p Hno. rewrite synced_lookup. case_decide as Hg; [by rewrite Ho|]. apply Hsame. tauto.
Qed.

End world_steps.

(** ** The simulation *)
Lemma spec_step_no_topic b request name :
  bs_topics b !! name = None →
  bs_topics (spec_step b request) !! name = None ∨ ∃ n, request = CreateTopic name n.
Proof.
  intros Hl. destruct request; cbn [spec_step]; try (by left).
  - destruct (decide (name0 = name)) as [->|Hne]; [right; by eexists|left].
    destruct (bs_topics b !! name0); [done|]. cbn [bs_topics]. by rewrite lookup_insert_ne.
  - left. cbn [bs_topics]. destruct (decide (name = topic)) as [->|Hne].
    + by rewrite lookup_alter_eq, Hl.
    + by rewrite lookup_alter_ne.
Qed.

Section simulation.
Context `{Crc32Laws} `{CompressionLaws} `{HashIterLaws}.

(** The atomic object answers at most one request while a task takes a step. *)
Definition simulated (lag : Z) (a : atomic_state) (wts : World * gmap nat task) : Prop :=
  ∃ a', rtc atomic_step a a' ∧ linked lag wts a'.

Lemma silent_sim lag w ts b room cs i t t' s' c :
  linked lag (w, ts) (b, room, cs) → ts !! i = Some t → cs !! i = Some c →
  world_ok s' b room (file_pending (<[i := t']> ts)) → server_lag s' = lag →
  task_linked lag w b t' c → (∀ name, creates t' name → creates t name) →
  simulated lag (b, room, cs) (wd_set_server s' w, <[i := t']> ts).
Proof.
  intros Hlk Hi Hc Hw Hlag Ht Hcr. exists (b, room, cs). split; [done|].
  eapply linked_move; try done; [|by auto].
  exists c. split; [done|]. by eapply task_linked_stable; [|auto|exact Ht].
Qed.

Lemma answer_sim lag w ts b room cs i t t' s' request response :
  linked lag (w, ts) (b, room, cs) → ts !! i = Some t → cs !! i = Some (inl request) →
  response_ok b request response →
  world_ok s' (spec_step b request) (room - produced request) (file_pending (<[i := t']> ts)) →
  server_lag s' = lag → task_linked lag w (spec_step b request) t' (inr response) →
  (∀ name n, request = CreateTopic name n → creates t name) → (∀ name, creates t' name → creates t name) →
  simulated lag (b, room, cs) (wd_set_server s' w, <[i := t']> ts).
Proof.
  intros Hlk Hi Hc Hr Hw Hlag Ht Hreq Hcr.
  exists (spec_step b request, (room - produced request)%nat, <[i := inr response]> cs).
  split; [by apply rtc_once, atomic_answer|].
  eapply linked_move; try done.
  - intros j Hj. by rewrite lookup_insert_ne.
  - exists (inr response). rewrite lookup_insert_eq. split; [done|].
    by eapply task_linked_stable; [|auto|exact Ht].
  - apply spec_step_extends.
  - intros name Hn. destruct (spec_step_no_topic b request name Hn) as [?|[n ->]]; [by left|].
    right. by eapply Hreq.
Qed.

(** A request that reads the state takes effect without changing it. *)
Lemma read_sim lag w ts b room cs i t request response :
  linked lag (w, ts) (b, room, cs) → ts !! i = Some t → cs !! i = Some (inl request) →
  response_ok b request response → spec_step b request = b →
  (∀ g, ¬ writes_file t g) → (∀ name n, request = CreateTopic name n → creates t name) →
  simulated lag (b, room, cs) (w, <[i := Answered response]> ts).
Proof.
  intros Hlk Hi Hc Hr Hb Ht Hreq. rewrite <-(wd_set_server_id w) at 1.
  pose proof Hlk as [Hw Hlag _ _]. cbn [fst snd] in *.
  eapply answer_sim; try done; rewrite ?Hb.
  apply (world_ok_room _ _ room); [lia|]. eapply world_ok_pending; [|exact Hw].
  intros g. apply file_pending_insert with t; auto.
Qed.

Lemma effect_sim lag w ts b room cs i t t' request response :
  linked lag (w, ts) (b, room, cs) → ts !! i = Some t → cs !! i = Some (inl request) →
  response_ok b request response → spec_step b request = b →
  (∀ g, ¬ writes_file t g) → (∀ name, creates t' name → creates t name) →
  (∀ name n, request = CreateTopic name n → creates t name) → task_linked lag w b t' (inr response) →
  simulated lag (b, room, cs) (w, <[i := t']> ts).
Proof.
  intros Hlk Hi Hc Hr Hb Ht Hcr Hreq Ht'. rewrite <-(wd_set_server_id w) at 1.
  pose proof Hlk as [Hw Hlag _ _]. cbn [fst snd] in *.
  eapply answer_sim; try done; rewrite ?Hb; [|done].
  apply (world_ok_room _ _ room); [lia|]. eapply world_ok_pending; [|exact Hw].
  intros g. apply file_pending_insert with t; auto.
Qed.

(** A step that only moves the task on. *)
Lemma move_sim lag w ts b room cs i t t' c :
  linked lag (w, ts) (b, room, cs) → ts !! i = Some t → cs !! i = Some c →
  task_linked lag w b t' c → (∀ name, creates t' name → creates t name) →
  (∀ g, ¬ writes_file t g) →
  simulated lag (b, room, cs) (w, <[i := t']> ts).
Proof.
  intros Hlk Hi Hc Ht Hcr Hwf. rewrite <-(wd_set_server_id w) at 1.
  pose proof Hlk as [Hw Hlag _ _]. cbn [fst snd] in *.
  eapply silent_sim; try done. eapply world_ok_pending; [|exact Hw].
  intros g. apply file_pending_insert with t; auto.
Qed.

(** What is known of a task that steps. *)
Lemma linked_task lag w ts b room cs i t :
  linked lag (w, ts) (b, room, cs) → ts !! i = Some t →
  ∃ c, cs !! i = Some c ∧ task_linked lag w b t c.
Proof.
  intros [_ _ Ht _] Hi. specialize (Ht i). cbn [fst snd] in Ht. rewrite Hi in Ht.
  destruct (cs !! i) as [c|]; [|done]. by exists c.
Qed.

Lemma create_check_sim lag e w ts b room cs i name n :
  linked lag (w, ts) (b, room, cs) → ts !! i = Some (CreateCheck name n) →
  let '(w', t') := task_step e (CreateCheck name n) w in simulated lag (b, room, cs) (w', <[i := t']> ts).
Proof.
  intros Hlk Hi. destruct (linked_task _ _ _ _ _ _ _ _ Hlk Hi) as ([r|r] & Hc & Ht); [|done]. cbn in Ht. subst r.
  pose proof Hlk as [Hw Hlag _ _]. cbn [fst snd] in *.
  pose proof (world_get_topic _ _ _ _ name Hw) as Hg. cbn [task_step].
  destruct (bs_topics b !! name) as [logs|] eqn:Hl.
  - destruct Hg as (t & -> & _). eapply read_sim; try done.
    + cbn [response_ok]. by rewrite Hl.
    + cbn [spec_step]. by rewrite Hl.
    + auto.
    + intros name' n' [= -> _]. done.
  - destruct Hg as [-> _]. eapply move_sim; try done. auto.
Qed.

Lemma create_insert_sim lag e w ts b room cs i name n :
  linked lag (w, ts) (b, room, cs) → ts !! i = Some (CreateInsert name n) → requests_ok lag (b, room, cs) →
  let '(w', t') := task_step e (CreateInsert name n) w in simulated lag (b, room, cs) (w', <[i := t']> ts).
Proof.
  intros Hlk Hi Hok. destruct (linked_task _ _ _ _ _ _ _ _ Hlk Hi) as ([r|r] & Hc & Ht); [|done].
  destruct Ht as [-> Hl]. pose proof (Hok _ _ _ _ _ (rtc_refl _ _) Hc) as Hn. cbn [request_ok] in Hn.
  pose proof Hlk as [Hw Hlag _ _]. cbn [fst snd] in *.
  destruct (world_create name n _ _ _ _ Hw Hn Hl) as (d & topic & Hnew & Hw').
  pose proof (world_get_topic _ _ _ _ name Hw) as Hg. rewrite Hl in Hg. destruct Hg as [Hnone _].
  cbn [task_step]. unfold create_insert, insert_topic. rewrite Hnew.
  cbn [wd_set_server wd_server sv_set_topics sv_topic_manager tm_topics sv_disk tm_data_dir]. rewrite Hnone, wd_set_server_twice.
  apply answer_sim with (t := CreateInsert name n) (request := CreateTopic name n)
    (response := CreateTopicSuccess name n); try done.
  - cbn [response_ok]. by rewrite Hl.
  - cbn [produced]. rewrite Nat.sub_0_r. eapply world_ok_pending; [|exact Hw'].
    intros g. apply file_pending_insert with (CreateInsert name n); auto.
  - intros name' n' [= -> _]. done.
Qed.

Lemma create_assign_sim lag e w ts b room cs i name n k :
  linked lag (w, ts) (b, room, cs) → ts !! i = Some (CreateAssign name n k) →
  let '(w', t') := task_step e (CreateAssign name n k) w in simulated lag (b, room, cs) (w', <[i := t']> ts).
Proof.
  intros Hlk Hi. destruct (linked_task _ _ _ _ _ _ _ _ Hlk Hi) as ([r|r] & Hc & Ht); [done|]. cbn in Ht. subst r.
  pose proof Hlk as [Hw Hlag _ _]. cbn [fst snd] in *. cbn [task_step]. unfold create_assign.
  destruct (k <? n); [|by (eapply move_sim; try done; auto)].
  assert (1 ≤ rp_replication_factor (sv_replication_manager (wd_server w))) as Hrf.
  { destruct Hw as [(om & [] & _) _ _]. done. }
  destruct (assign_replicas_Ok (env_now e) k (sv_cluster (wd_server w)) _ Hrf) as (l & rs & Ha).
  cbn [assign_replicas]. unfold eff_get, eff_lift, update_cluster, eff_modify, mbind, eff_bind, mret, eff_ret.
  rewrite Ha. eapply silent_sim; try done.
  apply world_ok_set_cluster.
  - eapply world_ok_pending; [|exact Hw]. intros g. apply file_pending_insert with (CreateAssign name n k); auto.
  - apply cluster_ok_set; [by eapply world_ok_cluster|by left].
  - apply marks_within_set; [unfold log_end; lia|by eapply world_ok_marks].
Qed.

Lemma produce_lookup_sim lag e w ts b room cs i topic p ms :
  linked lag (w, ts) (b, room, cs) → ts !! i = Some (ProduceLookup topic p ms) →
  let '(w', t') := task_step e (ProduceLookup topic p ms) w in simulated lag (b, room, cs) (w', <[i := t']> ts).
Proof.
  intros Hlk Hi. destruct (linked_task _ _ _ _ _ _ _ _ Hlk Hi) as ([r|r] & Hc & Ht); [|done]. cbn in Ht. subst r.
  pose proof Hlk as [Hw Hlag _ _]. cbn [fst snd] in *.
  pose proof (world_get_topic _ _ _ _ topic Hw) as Hg. cbn [task_step]. unfold get_handle.
  destruct (bs_topics b !! topic) as [logs|] eqn:Hl.
  - destruct Hg as (t & _ & -> & _). eapply move_sim; try done; auto.
  - destruct Hg as [_ ->]. eapply read_sim; try done.
    + cbn [response_ok]. by rewrite Hl.
    + by apply spec_append_no_topic.
    + auto.
Qed.

Lemma produce_append_sim lag e w ts b room cs i topic p ms h :
  linked lag (w, ts) (b, room, cs) → ts !! i = Some (ProduceAppend topic p ms h) → requests_ok lag (b, room, cs) →
  let '(w', t') := task_step e (ProduceAppend topic p ms h) w in simulated lag (b, room, cs) (w', <[i := t']> ts).
Proof.
  intros Hlk Hi Hok. destruct (linked_task _ _ _ _ _ _ _ _ Hlk Hi) as ([r|r] & Hc & Ht); [|done].
  destruct Ht as (-> & -> & [logs Hl]). pose proof (Hok _ _ _ _ _ (rtc_refl _ _) Hc) as Hreq.
  pose proof Hlk as [Hw Hlag _ _]. cbn [fst snd] in *. rewrite <-Hlag in Hreq.
  destruct (world_append topic p ms _ _ _ _ logs Hw Hreq Hl) as (d & tm & r & Ha & Hr & Hresp & Hw' & Hbase).
  cbn [task_step]. unfold produce_append, on_handle. cbn [fst snd]. rewrite decide_True, Ha by done.
  assert (∀ t', (∀ g, ¬ writes_file (ProduceAppend topic p ms (topic, generation w topic)) g) →
    world_ok (sv_set_topics d tm (wd_server w)) (spec_step b (Produce topic p ms))
      (room - produced (Produce topic p ms)) (file_pending (<[i := t']> ts))) as Hw2.
  { intros t' Hwf. eapply world_ok_pending; [|exact Hw']. intros g. by apply file_pending_insert with (1 := Hi). }
  destruct r as [base|err|]; [| |done].
  - destruct (Hbase base eq_refl) as (Hlen & Hpos & Hb & Hend). eapply answer_sim; try done; [by apply Hw2; auto|].
    cbn [task_linked append_answer]. rewrite w32_small, Hend by done. unfold is_u32 in Hlen.
    split_and!; [done|lia..].
  - eapply answer_sim; try done. by apply Hw2; auto.
Qed.

Lemma produce_update_sim lag e w ts b room cs i topic p base count :
  linked lag (w, ts) (b, room, cs) → ts !! i = Some (ProduceUpdate topic p base count) →
  let '(w', t') := task_step e (ProduceUpdate topic p base count) w in
    simulated lag (b, room, cs) (w', <[i := t']> ts).
Proof.
  intros Hlk Hi. destruct (linked_task _ _ _ _ _ _ _ _ Hlk Hi) as ([r|r] & Hc & Ht); [done|].
  destruct Ht as (-> & Hb & Hcn & Hlt & Hend). pose proof Hlk as [Hw Hlag _ _]. cbn [fst snd task_step] in *.
  pose proof (world_ok_cluster _ _ _ _ Hw) as Hcl. destruct (co_lag _ _ Hcl) as [Hl Hu].
  rewrite Hlag in Hl, Hu. unfold is_u64 in Hu.
  eapply silent_sim; try done. apply world_ok_set_cluster.
  - eapply world_ok_pending; [|exact Hw].
    intros g. apply file_pending_insert with (ProduceUpdate topic p base count); auto.
  - rewrite w64_small by (unfold is_u64; lia). apply cluster_ok_update; [done|].
    unfold offset_in_range, is_u64. rewrite Hl. lia.
  - rewrite w64_small by (unfold is_u64; lia). apply marks_within_update; [lia|by eapply world_ok_marks].
Qed.

Lemma fetch_lookup_sim lag e w ts b room cs i topic p o max :
  linked lag (w, ts) (b, room, cs) → ts !! i = Some (FetchLookup topic p o max) →
  let '(w', t') := task_step e (FetchLookup topic p o max) w in simulated lag (b, room, cs) (w', <[i := t']> ts).
Proof.
  intros Hlk Hi. destruct (linked_task _ _ _ _ _ _ _ _ Hlk Hi) as ([r|r] & Hc & Ht); [|done]. cbn in Ht. subst r.
  pose proof Hlk as [Hw Hlag _ _]. cbn [fst snd] in *.
  pose proof (world_get_topic _ _ _ _ topic Hw) as Hg. cbn [task_step]. unfold get_handle.
  destruct (bs_topics b !! topic) as [logs|] eqn:Hl.
  - destruct Hg as (t & _ & -> & _). eapply move_sim; try done; auto.
  - destruct Hg as [_ ->]. eapply read_sim; try done; [|auto].
    cbn [response_ok]. by rewrite Hl.
Qed.

Lemma fetch_read_sim lag e w ts b room cs i topic p o max h :
  linked lag (w, ts) (b, room, cs) → ts !! i = Some (FetchRead topic p o max h) → requests_ok lag (b, room, cs) →
  let '(w', t') := task_step e (FetchRead topic p o max h) w in simulated lag (b, room, cs) (w', <[i := t']> ts).
Proof.
  intros Hlk Hi Hok. destruct (linked_task _ _ _ _ _ _ _ _ Hlk Hi) as ([r|r] & Hc & Ht); [|done].
  destruct Ht as (-> & -> & [logs Hl]). destruct (Hok _ _ _ _ _ (rtc_refl _ _) Hc) as (Hp & Ho & Hm).
  pose proof Hlk as [Hw Hlag _ _]. cbn [fst snd] in *.
  pose proof (world_get_topic _ _ _ _ topic Hw) as Hg. rewrite Hl in Hg. destruct Hg as (t & Ht & _ & _ & Hf).
  cbn [task_step]. unfold fetch_read, handle_topic. cbn [fst snd]. rewrite decide_True, Ht, Hf by done.
  destruct (logs !! Z.to_nat p) as [ms|] eqn:Hms; (eapply read_sim; try done; [|auto]);
    cbn [response_ok]; by rewrite Hl, Hms.
Qed.

Lemma partitions_sim lag e w ts b room cs i topic :
  linked lag (w, ts) (b, room, cs) → ts !! i = Some (PartitionsLookup topic) →
  let '(w', t') := task_step e (PartitionsLookup topic) w in simulated lag (b, room, cs) (w', <[i := t']> ts).
Proof.
  intros Hlk Hi. destruct (linked_task _ _ _ _ _ _ _ _ Hlk Hi) as ([r|r] & Hc & Ht); [|done]. cbn in Ht. subst r.
  pose proof Hlk as [Hw Hlag _ _]. cbn [fst snd] in *.
  pose proof (world_get_topic _ _ _ _ topic Hw) as Hg. cbn [task_step].
  destruct (bs_topics b !! topic) as [logs|] eqn:Hl.
  - destruct Hg as (t & _ & -> & Hn & _). rewrite Hn. eapply read_sim; try done; [|auto].
    cbn [response_ok]. by rewrite Hl.
  - destruct Hg as [_ ->]. eapply read_sim; try done; [|auto]. cbn [response_ok]. by rewrite Hl.
Qed.

Lemma commit_memory_sim lag e w ts b room cs i g t p o :
  linked lag (w, ts) (b, room, cs) → ts !! i = Some (CommitMemory g t p o) → requests_ok lag (b, room, cs) →
  let '(w', t') := task_step e (CommitMemory g t p o) w in simulated lag (b, room, cs) (w', <[i := t']> ts).
Proof.
  intros Hlk Hi Hok. destruct (linked_task _ _ _ _ _ _ _ _ Hlk Hi) as ([r|r] & Hc & Ht); [|done]. cbn in Ht. subst r.
  destruct (Hok _ _ _ _ _ (rtc_refl _ _) Hc) as [Hg He].
  pose proof Hlk as [Hw Hlag _ _]. cbn [fst snd task_step] in *.
  eapply answer_sim; try done. cbn [produced]. rewrite Nat.sub_0_r.
  eapply world_ok_pending; [|by apply world_memory]. intros g' [Hp|Heq].
  - apply file_pending_insert with (CommitMemory g t p o); auto.
  - subst g'. exists i, (CommitFile g t p o). by rewrite lookup_insert_eq.
Qed.

Lemma commit_file_sim lag e w ts b room cs i g t p o :
  linked lag (w, ts) (b, room, cs) → ts !! i = Some (CommitFile g t p o) →
  let '(w', t') := task_step e (CommitFile g t p o) w in simulated lag (b, room, cs) (w', <[i := t']> ts).
Proof.
  intros Hlk Hi. destruct (linked_task _ _ _ _ _ _ _ _ Hlk Hi) as ([r|r] & Hc & Ht); [done|]. cbn in Ht. subst r.
  pose proof Hlk as [Hw Hlag _ _]. cbn [fst snd task_step] in *.
  destruct (world_file g _ _ _ _ Hw) as (s' & -> & Hlag' & Hw'). rewrite Hlag in Hlag'.
  eapply silent_sim; try done. eapply world_ok_pending; [|exact Hw'].
  intros g' [Hp Hne]. apply file_pending_insert with (CommitFile g t p o); auto.
Qed.

Lemma offset_read_sim lag e w ts b room cs i g t p :
  linked lag (w, ts) (b, room, cs) → ts !! i = Some (OffsetRead g t p) →
  let '(w', t') := task_step e (OffsetRead g t p) w in simulated lag (b, room, cs) (w', <[i := t']> ts).
Proof.
  intros Hlk Hi. destruct (linked_task _ _ _ _ _ _ _ _ Hlk Hi) as ([r|r] & Hc & Ht); [|done]. cbn in Ht. subst r.
  pose proof Hlk as [Hw Hlag _ _]. cbn [fst snd task_step] in *. unfold fetch_offset.
  eapply read_sim; try done; [|auto]. cbn [response_ok]. by rewrite (wo_offsets _ _ _ _ Hw).
Qed.

Lemma metadata_list_sim lag e w ts b room cs i topics :
  linked lag (w, ts) (b, room, cs) → ts !! i = Some (MetadataList topics) →
  let '(w', t') := task_step e (MetadataList topics) w in simulated lag (b, room, cs) (w', <[i := t']> ts).
Proof.
  intros Hlk Hi. destruct (linked_task _ _ _ _ _ _ _ _ Hlk Hi) as ([r|r] & Hc & Ht); [|done]. destruct Ht as [-> Ho].
  cbn [task_step]. destruct topics as [|topic topics]; [done|]. rewrite decide_False by done.
  eapply move_sim; try done; auto.
Qed.

Lemma metadata_lookup_sim lag e w ts b room cs i names found :
  linked lag (w, ts) (b, room, cs) → ts !! i = Some (MetadataLookup names found) →
  let '(w', t') := task_step e (MetadataLookup names found) w in simulated lag (b, room, cs) (w', <[i := t']> ts).
Proof.
  intros Hlk Hi. pose proof Hlk as [Hw Hlag _ _]. cbn [fst snd] in *.
  destruct (linked_task _ _ _ _ _ _ _ _ Hlk Hi) as ([r|r] & Hc & Ht).
  - destruct Ht as (-> & -> & Ho). destruct names as [|topic [|? ?]]; [done| |done].
    pose proof (world_get_topic _ _ _ _ topic Hw) as Hg. cbn [task_step metadata_lookup].
    assert (response_ok b (GetMetadata [topic]) (Metadata (omap (λ name,
      (λ logs : topic_logs, TopicMetadata_new name (Z.of_nat (length logs))) <$> bs_topics b !! name) [topic]))) as Hr.
    { by exists [topic]. }
    cbn [omap list_omap] in Hr.
    destruct (bs_topics b !! topic) as [logs|] eqn:Hl; cbn [fmap option_fmap option_map] in Hr.
    + destruct Hg as (t & _ & -> & Hn & _). rewrite Hn. eapply effect_sim; try done; auto.
    + destruct Hg as [_ ->]. eapply effect_sim; try done; auto.
  - destruct Ht as [-> ->]. cbn [task_step metadata_lookup]. eapply move_sim; try done; auto.
Qed.

Lemma topics_list_sim lag e w ts b room cs i :
  linked lag (w, ts) (b, room, cs) → ts !! i = Some TopicsList →
  let '(w', t') := task_step e TopicsList w in simulated lag (b, room, cs) (w', <[i := t']> ts).
Proof.
  intros Hlk Hi. destruct (linked_task _ _ _ _ _ _ _ _ Hlk Hi) as ([r|r] & Hc & Ht); [|done]. cbn in Ht. subst r.
  pose proof Hlk as [Hw Hlag _ _]. cbn [fst snd task_step] in *. eapply read_sim; try done; [|auto].
  cbn [response_ok]. eexists. split; [by eapply world_topic_names|done].
Qed.

(** A step of the coordinator that answers its request. *)
Lemma coordinator_sim lag w ts b room cs i t request m :
  linked lag (w, ts) (b, room, cs) → ts !! i = Some t → cs !! i = Some (inl request) →
  (coordinator_inv (sv_coordinator (wd_server w)) →
   assigned_within (partition_count b) (sv_coordinator (wd_server w)) →
   coordinator_effect m request (wd_server w) b) →
  spec_step b request = b → produced request = O → (∀ g, ¬ writes_file t g) →
  (∀ name n, request = CreateTopic name n → creates t name) →
  let '(w', t') := in_one_step m w in simulated lag (b, room, cs) (w', <[i := t']> ts).
Proof.
  intros Hlk Hi Hc Heff Hb Hpr Hwf Hcr. pose proof Hlk as [Hw Hlag _ _]. cbn [fst snd] in *.
  destruct (world_ok_groups _ _ _ _ Hw) as [Hinv Ha].
  destruct (Heff Hinv Ha) as (c & response & Hm & Hinv' & Ha' & Hr). unfold in_one_step. rewrite Hm.
  eapply answer_sim; try done. rewrite Hb, Hpr, Nat.sub_0_r. apply world_ok_set_coordinator; [|done|done].
  eapply world_ok_pending; [|exact Hw]. intros g. apply file_pending_insert with t; auto.
Qed.

Lemma join_lookup_sim lag e w ts b room cs i g m topics remaining :
  linked lag (w, ts) (b, room, cs) → ts !! i = Some (JoinLookup g m topics remaining) →
  let '(w', t') := task_step e (JoinLookup g m topics remaining) w in
    simulated lag (b, room, cs) (w', <[i := t']> ts).
Proof.
  intros Hlk Hi. destruct (linked_task _ _ _ _ _ _ _ _ Hlk Hi) as ([r|r] & Hc & Ht); [|done]. cbn in Ht. subst r.
  pose proof Hlk as [Hw Hlag _ _]. cbn [fst snd task_step] in *. unfold join_lookup.
  destruct remaining as [|topic remaining].
  - eapply coordinator_sim; try done; [|auto]. by apply join_effect.
  - pose proof (world_get_topic _ _ _ _ topic Hw) as Hg.
    destruct (bs_topics b !! topic) as [logs|] eqn:Hl.
    + destruct Hg as (t & _ & -> & Hn & _). rewrite Hn. eapply move_sim; try done; [|auto].
      split; [done|]. by exists logs.
    + destruct Hg as [_ ->]. eapply move_sim; try done; auto.
Qed.

Lemma join_learn_sim lag e w ts b room cs i g m topics remaining topic n :
  linked lag (w, ts) (b, room, cs) → ts !! i = Some (JoinLearn g m topics remaining topic n) →
  let '(w', t') := task_step e (JoinLearn g m topics remaining topic n) w in
    simulated lag (b, room, cs) (w', <[i := t']> ts).
Proof.
  intros Hlk Hi. destruct (linked_task _ _ _ _ _ _ _ _ Hlk Hi) as ([r|r] & Hc & Ht); [|done].
  destruct Ht as [-> Hn]. pose proof Hlk as [Hw Hlag _ _]. cbn [fst snd task_step] in *.
  destruct (world_ok_groups _ _ _ _ Hw) as [Hinv Ha].
  eapply silent_sim; try done. apply world_ok_set_coordinator; [|done|by apply within_counts].
  eapply world_ok_pending; [|exact Hw].
  intros g'. apply file_pending_insert with (JoinLearn g m topics remaining topic n); auto.
Qed.

Lemma register_sim lag e w ts b room cs i id host port :
  linked lag (w, ts) (b, room, cs) → ts !! i = Some (BrokerRegister id host port) →
  let '(w', t') := task_step e (BrokerRegister id host port) w in simulated lag (b, room, cs) (w', <[i := t']> ts).
Proof.
  intros Hlk Hi. destruct (linked_task _ _ _ _ _ _ _ _ Hlk Hi) as ([r|r] & Hc & Ht); [|done]. cbn in Ht. subst r.
  pose proof Hlk as [Hw Hlag _ _]. cbn [fst snd task_step] in *. unfold in_one_step, process_register_broker,
    update_cluster, eff_modify, mbind, eff_bind, mret, eff_ret.
  eapply answer_sim; try done. cbn [spec_step produced]. rewrite Nat.sub_0_r. apply world_ok_set_cluster.
  - eapply world_ok_pending; [|exact Hw]. intros g. apply file_pending_insert with (BrokerRegister id host port); auto.
  - apply cluster_ok_register. by eapply world_ok_cluster.
  - by eapply world_ok_marks.
Qed.

Lemma cluster_states_sim lag e w ts b room cs i brokers :
  linked lag (w, ts) (b, room, cs) → ts !! i = Some (ClusterStates brokers) →
  let '(w', t') := task_step e (ClusterStates brokers) w in simulated lag (b, room, cs) (w', <[i := t']> ts).
Proof.
  intros Hlk Hi. destruct (linked_task _ _ _ _ _ _ _ _ Hlk Hi) as ([r|r] & Hc & Ht); [|done]. cbn in Ht. subst r.
  pose proof Hlk as [Hw Hlag _ _]. cbn [fst snd task_step] in *. eapply read_sim; try done; [|auto].
  cbn [response_ok]. eexists _, _. split; [done|]. eapply states_served. by eapply world_ok_cluster.
Qed.

Lemma task_sim lag e w ts b room cs i t :
  linked lag (w, ts) (b, room, cs) → ts !! i = Some t → requests_ok lag (b, room, cs) →
  let '(w', t') := task_step e t w in simulated lag (b, room, cs) (w', <[i := t']> ts).
Proof.
  intros Hlk Hi Hok. destruct t.
  - by apply create_check_sim.
  - by apply create_insert_sim.
  - by apply create_assign_sim.
  - by apply produce_lookup_sim.
  - by apply produce_append_sim.
  - by apply produce_update_sim.
  - by apply fetch_lookup_sim.
  - by apply fetch_read_sim.
  - by apply partitions_sim.
  - by apply commit_memory_sim.
  - by apply commit_file_sim.
  - by apply offset_read_sim.
  - by apply metadata_list_sim.
  - by apply metadata_lookup_sim.
  - by apply topics_list_sim.
  - by apply join_lookup_sim.
  - by apply join_learn_sim.
  - destruct (linked_task _ _ _ _ _ _ _ _ Hlk Hi) as ([r|r] & Hc & Ht); [|done]. cbn in Ht. subst r.
    eapply coordinator_sim; try done; [|auto]. by apply leave_effect.
  - destruct (linked_task _ _ _ _ _ _ _ _ Hlk Hi) as ([r|r] & Hc & Ht); [|done]. cbn in Ht. subst r.
    eapply coordinator_sim; try done; [|auto]. by apply heartbeat_effect.
  - by apply register_sim.
  - destruct (linked_task _ _ _ _ _ _ _ _ Hlk Hi) as ([r|r] & Hc & Ht); [|done]. cbn in Ht. subst r.
    eapply move_sim; try done; auto.
  - by apply cluster_states_sim.
  - by destruct (linked_task _ _ _ _ _ _ _ _ Hlk Hi) as ([r|r] & Hc & Ht).
  - by destruct (linked_task _ _ _ _ _ _ _ _ Hlk Hi) as ([r|r] & Hc & Ht).
  - by destruct (linked_task _ _ _ _ _ _ _ _ Hlk Hi) as ([r|r] & Hc & Ht).
  - by destruct (linked_task _ _ _ _ _ _ _ _ Hlk Hi) as ([r|r] & Hc & Ht).
  - by destruct (linked_task _ _ _ _ _ _ _ _ Hlk Hi) as ([r|r] & Hc & Ht).
  - cbn [task_step]. rewrite insert_id by done. by exists (b, room, cs).
  - cbn [task_step]. rewrite insert_id by done. by exists (b, room, cs).
Qed.

Lemma tasks_sim lag wts wts' a :
  rtc tasks_step wts wts' → linked lag wts a → requests_ok lag a → simulated lag a wts'.
Proof.
  intros Hrun. revert a. induction Hrun as [wts|wts wts1 wts' Hstep Hrun IH]; intros a Hlk Hok; [by exists a|].
  destruct Hstep as [e i t w w' t' ts Hi Hst]. destruct a as [[b room] cs].
  pose proof (task_sim lag e w ts b room cs i t Hlk Hi Hok) as Hsim. rewrite Hst in Hsim.
  destruct Hsim as (a1 & Ha1 & Hlk1).
  destruct (IH a1 Hlk1 (requests_ok_steps _ _ _ Hok Ha1)) as (a2 & Ha2 & Hlk2).
  exists a2. split; [by etrans|done].
Qed.

Lemma world_ok_idle s b room : Server_holds s b room → world_ok s b room (λ _, False).
Proof.
  intros Hs. pose proof (sh_offsets_map _ _ _ Hs) as Ho. split; [|done|].
  - exists (sv_offset_manager s). split_and!; [|done|by rewrite Ho].
    unfold on_file, filed_spec. rewrite sv_set_offsets_id, Ho. by destruct b.
  - intros g t p o Hk. apply (oo_clean _ _ (sh_offsets _ _ _ Hs)). by rewrite Ho.
Qed.

Lemma linked_start w b room cs ts :
  Server_holds (wd_server w) b room → started cs ts → distinct_creates cs →
  linked (server_lag (wd_server w)) (w, ts) (b, room, cs).
Proof.
  intros Hs Hst Hd.
  assert (∀ i t, ts !! i = Some t → ∃ request, cs !! i = Some (inl request) ∧ t = start_task request) as Hst'.
  { intros i t Hi. specialize (Hst i). rewrite Hi in Hst. destruct (cs !! i) as [c|]; [|done].
    destruct Hst as (request & -> & _ & Ht). by exists request. }
  split; cbn [fst snd]; [|done| |].
  - eapply world_ok_pending; [|by apply world_ok_idle]. done.
  - intros i. specialize (Hst i). destruct (ts !! i) as [t|], (cs !! i) as [c|]; try done.
    destruct Hst as (request & -> & Ho & ->). by destruct request.
  - intros i j ti tj name Hi Hj Hci Hcj.
    destruct (Hst' i ti Hi) as (ri & Hri & Hti), (Hst' j tj Hj) as (rj & Hrj & Htj).
    destruct ri; subst ti; try done. destruct rj; subst tj; try done.
    cbn [start_task creates] in *. subst. by eapply Hd.
Qed.

Lemma linked_idle lag w ts a :
  linked lag (w, ts) a → (∀ g, ¬ file_pending ts g) → Server_holds (wd_server w) a.1.1 a.1.2.
Proof.
  intros [[(om & Hs & Hd & Hsame) Ho _] _ _ _] Hidle. cbn [fst snd] in *.
  assert (sv_offset_manager (wd_server w) = om) as Heq.
  { assert (om_offsets om = bs_offsets a.1.1) as Hm.
    { apply map_eq. intros [[g t] p]. by apply Hsame. }
    rewrite <-Ho in Hm. destruct (sv_offset_manager (wd_server w)), om. cbn in Hm, Hd. by subst. }
  subst om. unfold on_file, filed_spec in Hs. rewrite sv_set_offsets_id, Ho in Hs. by destruct (a.1.1).
Qed.

Lemma linked_answered lag w ts b room cs i response :
  linked lag (w, ts) (b, room, cs) → ts !! i = Some (Answered response) → cs !! i = Some (inr response).
Proof.
  intros Hlk Hi. destruct (linked_task _ _ _ _ _ _ _ _ Hlk Hi) as ([r|r] & Hc & Ht); [done|].
  cbn in Ht. by subst r.
Qed.
Lemma linked_unstarted lag w ts b room cs i request :
  linked lag (w, ts) (b, room, cs) → ts !! i = Some (start_task request) → cs !! i = Some (inl request).
Proof.
  intros Hlk Hi. destruct (linked_task _ _ _ _ _ _ _ _ Hlk Hi) as (c & Hc & Hl).
  destruct request, c as [r|r]; try done; cbn [start_task task_linked] in Hl; try (by subst).
  by destruct Hl as [-> _].
Qed.

(** C4: linearizability. The requests of any number of connections, their steps interleaved
    in any way, are answered as an atomic broker answers them one at a time; at any moment
    of the run the atomic broker has answered the requests that were answered by then, and
    none that had not started; no task panics; and when no commit still has a file to
    write, the broker holds the abstract broker that the atomic one has become. This is so
    of all requests but those that read several times ([one_effect]), as long as no two
    connections create the same topic and, in whatever order the atomic broker takes them,
    the data of the requests is in range and the messages they produce fit the room of the
    indexes ([requests_ok]). *)
Theorem tasks_linearizable w b room cs ts w1 ts1 w2 ts2 :
  Server_holds (wd_server w) b room → started cs ts → distinct_creates cs →
  requests_ok (server_lag (wd_server w)) (b, room, cs) →
  rtc tasks_step (w, ts) (w1, ts1) → rtc tasks_step (w1, ts1) (w2, ts2) →
  ∃ b1 room1 cs1 b2 room2 cs2,
    rtc atomic_step (b, room, cs) (b1, room1, cs1) ∧ rtc atomic_step (b1, room1, cs1) (b2, room2, cs2) ∧
    (∀ i response, ts1 !! i = Some (Answered response) → cs1 !! i = Some (inr response)) ∧
    (∀ i request, ts1 !! i = Some (start_task request) → cs1 !! i = Some (inl request)) ∧
    (∀ i response, ts2 !! i = Some (Answered response) → cs2 !! i = Some (inr response)) ∧
    (∀ i, ts2 !! i ≠ Some Panicked) ∧
    ((∀ g, ¬ file_pending ts2 g) → Server_holds (wd_server w2) b2 room2).
Proof.
  intros Hs Hst Hd Hok Hrun1 Hrun2. pose proof (linked_start w b room cs ts Hs Hst Hd) as Hlk.
  destruct (tasks_sim _ _ _ _ Hrun1 Hlk Hok) as ([[b1 room1] cs1] & Ha1 & Hlk1).
  destruct (tasks_sim _ _ _ _ Hrun2 Hlk1 (requests_ok_steps _ _ _ Hok Ha1)) as ([[b2 room2] cs2] & Ha2 & Hlk2).
  exists b1, room1, cs1, b2, room2, cs2. split_and!; [done|done|..].
  - intros i response. by eapply linked_answered.
  - intros i request. by eapply linked_unstarted.
  - intros i response. by eapply linked_answered.
  - intros i Hi. by destruct (linked_task _ _ _ _ _ _ _ _ Hlk2 Hi) as ([r|r] & Hc & Ht).
  - intros Hidle. exact (linked_idle _ _ _ _ Hlk2 Hidle).
Qed.

End simulation.

(** ** Two creations of one topic *)
(** Steps of the tasks with the given numbers. *)
Definition step_of `{Crc32} `{CompressionLib} `{HashIter} (e : env) (i : nat) (wts : World * gmap nat task)
    : World * gmap nat task :=
  match wts.2 !! i with
  | Some t => let '(w, t) := task_step e t wts.1 in (w, <[i := t]> wts.2)
  | None => wts
  end.
Definition run_schedule `{Crc32} `{CompressionLib} `{HashIter} (e : env) (l : list nat)
    (wts : World * gmap nat task) : World * gmap nat task :=
  foldl (λ wts i, step_of e i wts) wts l.

Lemma run_schedule_steps `{Crc32} `{CompressionLib} `{HashIter} e l wts :
  rtc tasks_step wts (run_schedule e l wts).
Proof.
  revert wts. induction l as [|i l IH]; intros [w ts]; [done|]. cbn [run_schedule foldl].
  fold (run_schedule e l (step_of e i (w, ts))). unfold step_of at 1. cbn [fst snd].
  destruct (ts !! i) as [t|] eqn:Hi; [|apply IH].
  destruct (task_step e t w) as [w' t'] eqn:Ht. eapply rtc_l; [by econstructor|apply IH].
Qed.

Lemma run_schedule_cons `{Crc32} `{CompressionLib} `{HashIter} e i l w ts t w' t' :
  ts !! i = Some t → task_step e t w = (w', t') →
  run_schedule e (i :: l) (w, ts) = run_schedule e l (w', <[i := t']> ts).
Proof. intros Hi Ht. cbn [run_schedule foldl]. unfold step_of at 2. cbn [fst snd]. by rewrite Hi, Ht. Qed.

Section race.
Context `{Crc32Laws} `{CompressionLaws} `{HashIterLaws}.

(** A topic that was just made is empty, whatever is on the disk. *)
Definition empty_partition (p : Partition) : Prop := ∀ max, Partition_fetch p 0 max = Ok [].

Lemma Partition_new_empty name i data_dir d :
  ∃ d' p, Partition_new name i data_dir d = (d', Ok p) ∧ empty_partition p.
Proof.
  unfold Partition_new, Partition_with_config, LogSegment_create, OffsetIndex_create, eff_modify, mbind, eff_bind,
    mret, eff_ret.
  set (dir := partition_dir data_dir name i). set (d0 := create_dir_all d dir).
  assert (∀ d1 q, dirs d1 = dirs d0 → parent q = dir → ∃ d2, open_create q d1 =
    (d2, Ok {| f_path := q; f_pos := 0 |}) ∧ dirs d2 = dirs d0) as Hopen.
  { intros d1 q Hd Hq. unfold open_create. destruct (files d1 !! q); [by exists d1|].
    rewrite decide_True by (rewrite Hq, Hd; apply create_dir_all_self). by eexists. }
  destruct (Hopen d0 (LogSegment_log_path dir 0) eq_refl ltac:(apply parent_join)) as (d1 & -> & Hd1).
  destruct (Hopen d1 (LogSegment_index_path dir 0) Hd1 ltac:(apply parent_join)) as (d2 & -> & _).
  eexists _, _. split; [reflexivity|]. intros max. unfold Partition_fetch. cbn [pt_segments].
  change (Partition_find_segment_index [_] 0) with (Ok (E := GaffaError) 0%nat). rewrite outcome_bind_Ok.
  cbn [drop fetch_loop]. destruct (max =? 0); done.
Qed.

Lemma Topic_new_empty name n data_dir d :
  ∃ d' t, Topic_new name n data_dir d = (d', Ok t) ∧ length (tp_partitions t) = Z.to_nat n ∧
    Forall empty_partition (tp_partitions t).
Proof.
  assert (∀ k i d, ∃ d' ps, new_partitions k i name data_dir d = (d', Ok ps) ∧ length ps = k ∧
    Forall empty_partition ps) as Hnew.
  { clear. intros k. induction k as [|k IH]; intros i d; [by exists d, []|].
    destruct (Partition_new_empty name i data_dir d) as (d1 & p & Hp & He).
    destruct (IH (i + 1) d1) as (d2 & ps & Hps & Hl & Hall). exists d2, (p :: ps).
    cbn [new_partitions]. unfold mbind, eff_bind, mret, eff_ret. rewrite Hp, Hps.
    split_and!; [done|simpl; by rewrite Hl|by constructor]. }
  destruct (Hnew (Z.to_nat n) 0 d) as (d' & ps & Hps & Hl & Hall).
  exists d', {| tp_name := name; tp_partitions := ps |}. unfold Topic_new, mbind, eff_bind. by rewrite Hps.
Qed.

(** The four connections of the race. *)
Definition race_tasks (name : string) (n1 n2 : Z) (messages : list Message) (max : Z) : gmap nat task :=
  {[ 0%nat := CreateCheck name n1; 1%nat := CreateCheck name n2;
     2%nat := ProduceLookup name 0 messages; 3%nat := FetchLookup name 0 0 max ]}.

(** The first creation inserts the topic after both have checked. *)
Lemma race_created e w b room name n1 n2 :
  world_ok (wd_server w) b room (λ _, False) → bs_topics b !! name = None → is_u32 n1 →
  ∃ s, world_ok s (spec_step b (CreateTopic name n1)) room (λ _, False) ∧
    server_lag s = server_lag (wd_server w) ∧
    task_step e (CreateCheck name n1) w = (w, CreateInsert name n1) ∧
    task_step e (CreateCheck name n2) w = (w, CreateInsert name n2) ∧
    task_step e (CreateInsert name n1) w = (wd_set_server s w, CreateAssign name n1 0).
Proof.
  intros Hw Hl Hn. destruct (world_create name n1 _ _ _ _ Hw Hn Hl) as (d & topic & Hnew & Hw').
  pose proof (world_get_topic _ _ _ _ name Hw) as Hg. rewrite Hl in Hg. destruct Hg as [Hnone _].
  eexists. split; [exact Hw'|]. cbn [task_step]. rewrite Hnone. split_and!; [done|done|done|].
  unfold create_insert, insert_topic. rewrite Hnew.
  cbn [wd_set_server wd_server sv_set_topics sv_topic_manager tm_topics sv_disk tm_data_dir]. by rewrite Hnone.
Qed.

(** A produce to the first partition of the new topic is acknowledged. *)
Lemma race_produced e w s b room name n1 messages :
  world_ok s (spec_step b (CreateTopic name n1)) room (λ _, False) → bs_topics b !! name = None →
  is_u32 n1 → 1 ≤ n1 → messages ≠ [] →
  request_ok (server_lag s) (spec_step b (CreateTopic name n1)) room (Produce name 0 messages) →
  ∃ s1 s2, let h := (name, generation w name) in let count := Z.of_nat (length messages) in
    task_step e (ProduceLookup name 0 messages) (wd_set_server s w) =
      (wd_set_server s w, ProduceAppend name 0 messages h) ∧
    task_step e (ProduceAppend name 0 messages h) (wd_set_server s w) =
      (wd_set_server s1 w, ProduceUpdate name 0 0 count) ∧
    task_step e (ProduceUpdate name 0 0 count) (wd_set_server s1 w) =
      (wd_set_server s2 w, Answered (ProduceSuccess name 0 0 count)).
Proof.
  intros Hw Hl Hn Hpos Hne Hok. set (b1 := spec_step b (CreateTopic name n1)) in *.
  assert (bs_topics b1 !! name = Some (replicate (Z.to_nat n1) [])) as Hl1.
  { unfold b1. cbn [spec_step]. rewrite Hl. cbn [bs_topics]. by rewrite lookup_insert_eq. }
  pose proof (world_get_topic _ _ _ _ name Hw) as Hg. rewrite Hl1 in Hg. destruct Hg as (t & _ & Hg & _).
  destruct (world_append name 0 messages _ _ _ _ _ Hw Hok Hl1) as (d & tm & r & Ha & Hr & Hresp & Hw2 & Hbase).
  cbn [response_ok] in Hresp. rewrite Hl1, lookup_replicate_2, decide_False in Hresp by (done || lia).
  destruct r as [base|err|]; [|done|done]. cbn [append_answer] in Hresp. injection Hresp as -> Hcount.
  eexists _, _. cbn [task_step]. unfold get_handle, produce_append, on_handle.
  cbn [wd_set_server wd_server]. rewrite Hg, outcome_bind_Ok. cbn [fst snd mret outcome_ret].
  rewrite decide_True by done. rewrite Ha. split_and!; [done| |reflexivity]. rewrite Hcount. done.
Qed.

(** The second creation inserts its topic over the first. *)
Lemma race_replaced e w name n2 max :
  1 ≤ n2 →
  ∃ w', task_step e (CreateInsert name n2) w = (w', CreateAssign name n2 0) ∧
    ∃ h, task_step e (FetchLookup name 0 0 max) w' = (w', FetchRead name 0 0 max h) ∧
      task_step e (FetchRead name 0 0 max h) w' = (w', Answered (FetchSuccess name 0 [])).
Proof.
  intros Hn. destruct (Topic_new_empty name n2 (tm_data_dir (sv_topic_manager (wd_server w)))
    (sv_disk (wd_server w))) as (d & t & Hnew & Hlen & Hall).
  cbn [task_step]. unfold create_insert. rewrite Hnew. eexists. split; [reflexivity|].
  match goal with |- context [get_handle name ?x] => set (w' := x) end.
  assert (tm_topics (sv_topic_manager (wd_server w')) !! name = Some t) as Ht.
  { subst w'. unfold insert_topic. by case_match; cbn; rewrite lookup_insert_eq. }
  exists (name, generation w' name). unfold get_handle, fetch_read, handle_topic, TopicManager_get_topic.
  cbn [fst snd]. rewrite Ht, decide_True by done. split; [done|].
  unfold Topic_fetch, Topic_get_partition, get_index. change (Z.to_nat 0) with O.
  destruct (tp_partitions t) as [|p ps]; [simpl in Hlen; lia|]. apply Forall_cons in Hall as [Hp _].
  cbn [lookup list_lookup ok_or]. by rewrite outcome_bind_Ok, Hp.
Qed.

(** C31: a lost topic.  Two connections create one topic at the same time, and both pass the
    check before either inserts: messages that a third connection was told are stored in
    the first topic are gone once the second is inserted over it, and a fetch that starts
    after the acknowledgement returns nothing; both creations go on to succeed. *)
Theorem concurrent_creates_lose_messages w b room name n1 n2 messages max :
  Server_holds (wd_server w) b room → bs_topics b !! name = None →
  is_u32 n1 → 1 ≤ n1 → 1 ≤ n2 → messages ≠ [] →
  request_ok (server_lag (wd_server w)) (spec_step b (CreateTopic name n1)) room (Produce name 0 messages) →
  ∃ w1 ts1 w2 ts2,
    rtc tasks_step (w, race_tasks name n1 n2 messages max) (w1, ts1) ∧
    ts1 !! 2%nat = Some (Answered (ProduceSuccess name 0 0 (Z.of_nat (length messages)))) ∧
    ts1 !! 3%nat = Some (FetchLookup name 0 0 max) ∧
    rtc tasks_step (w1, ts1) (w2, ts2) ∧
    ts2 !! 3%nat = Some (Answered (FetchSuccess name 0 [])) ∧
    ts2 !! 0%nat = Some (CreateAssign name n1 0) ∧ ts2 !! 1%nat = Some (CreateAssign name n2 0).
Proof.
  intros Hs Hl Hn1 Hp1 Hp2 Hne Hok. set (e := {| env_now := 0; env_uuid := EmptyString |}).
  pose proof (world_ok_idle _ _ _ Hs) as Hw.
  destruct (race_created e w b room name n1 n2 Hw Hl Hn1) as (s & Hw1 & Hlag & Hc1 & Hc2 & Hins).
  rewrite <-Hlag in Hok.
  destruct (race_produced e w s b room name n1 messages Hw1 Hl Hn1 Hp1 Hne Hok) as (s1 & s2 & Hpr1 & Hpr2 & Hpr3).
  destruct (race_replaced e (wd_set_server s2 w) name n2 max Hp2) as (w2 & Hrep & h & Hf1 & Hf2).
  set (run1 := run_schedule e [0; 1; 0; 2; 2; 2]%nat (w, race_tasks name n1 n2 messages max)).
  set (run2 := run_schedule e [1; 3; 3]%nat run1).
  pose proof (run_schedule_steps e [0; 1; 0; 2; 2; 2]%nat (w, race_tasks name n1 n2 messages max)) as Hr1.
  pose proof (run_schedule_steps e [1; 3; 3]%nat run1) as Hr2.
  assert (run1 = (wd_set_server s2 w, {[ 0%nat := CreateAssign name n1 0; 1%nat := CreateInsert name n2;
    2%nat := Answered (ProduceSuccess name 0 0 (Z.of_nat (length messages)));
    3%nat := FetchLookup name 0 0 max ]})) as Hrun1.
  { unfold run1. do 6 (erewrite run_schedule_cons; [|reflexivity|eassumption]). reflexivity. }
  assert (run2 = (w2, {[ 0%nat := CreateAssign name n1 0; 1%nat := CreateAssign name n2 0;
    2%nat := Answered (ProduceSuccess name 0 0 (Z.of_nat (length messages)));
    3%nat := Answered (FetchSuccess name 0 []) ]})) as Hrun2.
  { unfold run2. rewrite Hrun1. do 3 (erewrite run_schedule_cons; [|reflexivity|eassumption]). reflexivity. }
  fold run1 in Hr1. fold run2 in Hr2. rewrite Hrun1 in Hr1. rewrite Hrun2, Hrun1 in Hr2.
  eexists _, _, _, _. split_and!; [exact Hr1|reflexivity|reflexivity|exact Hr2|reflexivity..].
Qed.

End race.
