(* ===== verification/Races.v ===== *)
(** * Races: what interleaved requests can do to each other

    Schedules of the tasks of [Tasks] that no order of whole requests explains. *)
From S2P Require Import Prelude Bytes Text Common Messages Codec Compression DiskRecord.
From S2P Require Import FileSystem OffsetIndex Retention Segment Partition Topic.
From S2P Require Import OffsetManager Cluster Replication Coordinator Server Tasks Linear.

(** ** Two produces to one partition *)
(** A leader without followers: the high watermark is what it reported last. *)
Definition sole_leader (me : Z) (st : PartitionReplicaState) : Prop :=
  prs_leader st = me ∧ prs_isr st = {[me]}.

Lemma sole_leader_update me o lag st :
  sole_leader me st → is_u64 o → 0 ≤ lag → o + lag < 2 ^ 64 →
  let st' := PartitionReplicaState_update_replica_offset me o lag st in
  sole_leader me st' ∧ prs_high_watermark st' = o.
Proof.
  intros [Hl Hi] Ho Hlag Hlt st'.
  destruct (update_replica_offset_aux me o lag st) as (Hl' & _ & _ & Hoffs & Hin & Hout & Hmin).
  fold st' in Hl', Hoffs, Hin, Hout, Hmin. rewrite Hl, lookup_insert_eq in Hin. cbn [default] in Hin.
  unfold is_u64 in Ho. rewrite w64_small in Hin by (unfold is_u64; lia).
  assert (prs_isr st' = {[me]}) as Hi'.
  { apply leibniz_equiv. intros x. rewrite elem_of_singleton. destruct (decide (x = me)) as [->|Hne].
    - split; [done|]. intros _. apply Hin. unfold id. lia.
    - rewrite (Hout x Hne), Hi, elem_of_singleton. done. }
  split; [split; [by rewrite Hl'|done]|].
  assert (prs_replica_offsets st' !! me = Some o) as Hme by (by rewrite Hoffs, lookup_insert_eq).
  destruct Hmin as [_ Hex]; [by rewrite Hi'; apply non_empty_singleton_L|].
  destruct Hex as (x & Hx & Hox); [exists me, o; split; [by rewrite Hi'; apply elem_of_singleton|done]|].
  rewrite Hi' in Hx. apply elem_of_singleton in Hx. subst x. rewrite Hme in Hox. by injection Hox.
Qed.

Section produces.
Context `{Crc32Laws} `{CompressionLaws} `{HashIterLaws}.

Lemma produce_log b topic p ms messages :
  log_of b (topic, p) = Some ms → log_of (spec_step b (Produce topic p messages)) (topic, p) = Some (ms ++ messages).
Proof.
  intros (logs & Hl & Hms)%log_of_Some. rewrite (spec_append_some _ _ _ _ _ _ Hl Hms). apply log_of_Some.
  eexists. cbn [fst snd bs_topics]. rewrite lookup_insert_eq. split; [done|].
  apply list_lookup_insert_eq. by eapply lookup_lt_Some.
Qed.

Lemma produce_fits lag b room topic p ms messages :
  request_ok lag b room (Produce topic p messages) → log_of b (topic, p) = Some ms →
  Z.of_nat (length ms + length messages) + lag < 2 ^ 64.
Proof.
  intros (_ & _ & _ & _ & Hbig) (logs & Hl & Hms)%log_of_Some.
  destruct (Hbig _ _ Hl Hms) as [Hb _]. by rewrite length_app in Hb.
Qed.

(** The steps of a produce up to the append. *)
Lemma produce_appended e topic p messages w b room ms :
  Server_holds (wd_server w) b room → request_ok (server_lag (wd_server w)) b room (Produce topic p messages) →
  log_of b (topic, p) = Some ms → messages ≠ [] →
  ∃ s1, let h := (topic, generation w topic) in let count := Z.of_nat (length messages) in
    task_step e (ProduceLookup topic p messages) w = (w, ProduceAppend topic p messages h) ∧
    task_step e (ProduceAppend topic p messages h) w =
      (wd_set_server s1 w, ProduceUpdate topic p (Z.of_nat (length ms)) count) ∧
    Server_holds s1 (spec_step b (Produce topic p messages)) (room - length messages) ∧
    sv_cluster s1 = sv_cluster (wd_server w) ∧ server_lag s1 = server_lag (wd_server w).
Proof.
  intros Hs Hok (logs & Hl & Hms)%log_of_Some Hne. cbn [fst snd] in Hl, Hms. set (s := wd_server w) in *.
  pose proof (Manager_get_topic _ _ _ _ topic (sh_topics _ _ _ Hs)) as Hget. rewrite Hl in Hget.
  destruct Hget as (t & Hg & _).
  destruct (append_served topic p messages s b room logs Hs Hok Hl) as (d & tm & r & Ha & Hr & Hresp & Hs1 & _).
  cbn [response_ok] in Hresp. rewrite Hl, Hms, decide_False in Hresp by done.
  destruct r as [base|err|]; [|done|done]. cbn [append_answer] in Hresp. injection Hresp as -> Hcount.
  eexists. cbn [task_step]. unfold get_handle, produce_append, on_handle. fold s.
  rewrite Hg, outcome_bind_Ok. cbn [fst snd mret outcome_ret]. rewrite decide_True by done.
  rewrite Ha, Hcount. split_and!; [done|done|exact Hs1|done|done].
Qed.

(** The last step: the broker reports the end of what it appended. *)
Lemma produce_updated e topic p base count w b room st :
  Server_holds (wd_server w) b room →
  cm_partition_states (sv_cluster (wd_server w)) !! (topic, p) = Some st →
  sole_leader (cm_broker_id (sv_cluster (wd_server w))) st →
  0 ≤ base → 0 ≤ count → base + count + server_lag (wd_server w) < 2 ^ 64 → base + count ≤ log_end b (topic, p) →
  ∃ s' st', task_step e (ProduceUpdate topic p base count) w =
      (wd_set_server s' w, Answered (ProduceSuccess topic p base count)) ∧
    Server_holds s' b room ∧ server_lag s' = server_lag (wd_server w) ∧
    cm_partition_states (sv_cluster s') !! (topic, p) = Some st' ∧
    sole_leader (cm_broker_id (sv_cluster s')) st' ∧ get_high_watermark topic p (sv_cluster s') = base + count.
Proof.
  intros Hs Hst Hsole Hb Hc Hlt Hend. set (s := wd_server w) in *.
  destruct (co_lag _ _ (sh_cluster _ _ _ Hs)) as [Hlag Hu]. unfold is_u64 in Hu. fold (server_lag s) in Hlag, Hu.
  cbn [task_step]. fold s. rewrite w64_small by (unfold is_u64; lia).
  set (c := update_leader_offset topic p (base + count) (sv_cluster s)).
  destruct (sole_leader_update (cm_broker_id (sv_cluster s)) (base + count) (cm_isr_lag_threshold (sv_cluster s)) st Hsole)
    as [Hsole' Hhw]; [unfold is_u64; lia|lia|lia|].
  assert (cm_partition_states c !! (topic, p) = Some (PartitionReplicaState_update_replica_offset
    (cm_broker_id (sv_cluster s)) (base + count) (cm_isr_lag_threshold (sv_cluster s)) st)) as Hst'.
  { unfold c, update_leader_offset, ClusterMetadata_update_replica_offset. rewrite Hst. apply lookup_insert_eq. }
  eexists _, _. split; [reflexivity|]. split; [|split; [done|split; [exact Hst'|split]]].
  - apply Server_holds_cluster; [done| |].
    + apply cluster_ok_update; [apply Hs|]. unfold offset_in_range. rewrite Hlag. lia.
    + apply marks_within_update; [lia|apply Hs].
  - replace (cm_broker_id (sv_cluster (sv_set_cluster c s))) with (cm_broker_id (sv_cluster s)); [done|].
    cbn [sv_set_cluster sv_cluster]. unfold c, update_leader_offset, ClusterMetadata_update_replica_offset. by case_match.
  - cbn [sv_set_cluster sv_cluster]. unfold get_high_watermark. rewrite Hst'. exact Hhw.
Qed.

(** C32: Fault: the reports of two produces overtake each other. Two connections produce to
    one partition whose leader, this broker, is the only replica in sync; the first to
    append reports last. Both are acknowledged, and the high watermark, which had reached
    the end of the log, goes back to before the messages of the second, where it stays
    until somebody produces again. *)
Theorem produce_reports_race w b room topic p ms messages1 messages2 st :
  let s := wd_server w in
  let n1 := Z.of_nat (length ms + length messages1) in
  let n2 := Z.of_nat (length ms + length messages1 + length messages2) in
  let b1 := spec_step b (Produce topic p messages1) in
  let b2 := spec_step b1 (Produce topic p messages2) in
  Server_holds s b room → request_ok (server_lag s) b room (Produce topic p messages1) →
  request_ok (server_lag s) b1 (room - length messages1) (Produce topic p messages2) →
  log_of b (topic, p) = Some ms → messages1 ≠ [] → messages2 ≠ [] →
  cm_partition_states (sv_cluster s) !! (topic, p) = Some st → sole_leader (cm_broker_id (sv_cluster s)) st →
  ∃ w1 ts1 w2 ts2,
    rtc tasks_step (w, {[ 0%nat := ProduceLookup topic p messages1; 1%nat := ProduceLookup topic p messages2 ]})
      (w1, ts1) ∧
    ts1 !! 1%nat = Some (Answered (ProduceSuccess topic p n1 (Z.of_nat (length messages2)))) ∧
    get_high_watermark topic p (sv_cluster (wd_server w1)) = n2 ∧
    rtc tasks_step (w1, ts1) (w2, ts2) ∧
    ts2 !! 0%nat = Some (Answered (ProduceSuccess topic p (Z.of_nat (length ms)) (Z.of_nat (length messages1)))) ∧
    ts2 !! 1%nat = ts1 !! 1%nat ∧
    Server_holds (wd_server w2) b2 (room - length messages1 - length messages2) ∧
    log_of b2 (topic, p) = Some (ms ++ messages1 ++ messages2) ∧
    get_high_watermark topic p (sv_cluster (wd_server w2)) = n1.
Proof.
  intros s n1 n2 b1 b2 Hs Hok1 Hok2 Hl Hne1 Hne2 Hst Hsole.
  set (e := {| env_now := 0; env_uuid := EmptyString |}).
  destruct (produce_appended e topic p messages1 w b room ms Hs Hok1 Hl Hne1)
    as (s1 & Ha1 & Ha2 & Hs1 & Hc1 & Hl1).
  pose proof (produce_log b topic p ms messages1 Hl) as Hlog1. fold b1 in Hs1, Hlog1.
  set (w1 := wd_set_server s1 w) in *. fold s in Hc1, Hl1.
  destruct (produce_appended e topic p messages2 w1 b1 (room - length messages1) (ms ++ messages1) Hs1)
    as (s2 & Hb1 & Hb2 & Hs2 & Hc2 & Hl2); [by rewrite <-Hl1 in Hok2|done|done|].
  pose proof (produce_log b1 topic p _ messages2 Hlog1) as Hlog2. fold b2 in Hs2, Hlog2.
  rewrite <-app_assoc in Hlog2. set (w2 := wd_set_server s2 w1) in *.
  change (wd_server w1) with s1 in *. rewrite Hc1 in Hc2. rewrite Hl1 in Hl2.
  assert (log_end b2 (topic, p) = n2) as Hend.
  { unfold log_end. rewrite Hlog2. cbn [default]. unfold id, n2. rewrite !length_app. lia. }
  pose proof (produce_fits _ _ _ _ _ _ _ Hok2 Hlog1) as Hlt.
  rewrite length_app in *. fold n1 in Hb2. cbn [wd_set_server wd_server] in *.
  destruct (produce_updated e topic p n1 (Z.of_nat (length messages2)) w2 b2
    (room - length messages1 - length messages2) st) as (s3 & st3 & Hu2 & Hs3 & Hl3 & Hst3 & Hsole3 & Hhw3);
    change (wd_server w2) with s2 in *; [done|by rewrite Hc2|by rewrite Hc2|lia..|].
  destruct (produce_updated e topic p (Z.of_nat (length ms)) (Z.of_nat (length messages1)) (wd_set_server s3 w2) b2
    (room - length messages1 - length messages2) st3) as (s4 & st4 & Hu1 & Hs4 & Hl4 & Hst4 & Hsole4 & Hhw4);
    change (wd_server (wd_set_server s3 w2)) with s3 in *; [done|done|done|lia..|].
  set (ts := {[ 0%nat := ProduceLookup topic p messages1; 1%nat := ProduceLookup topic p messages2 ]} : gmap nat task).
  pose proof (run_schedule_steps e [0; 0; 1; 1; 1]%nat (w, ts)) as Hr1.
  set (run1 := run_schedule e _ (w, ts)) in Hr1.
  pose proof (run_schedule_steps e [0]%nat run1) as Hr2.
  assert (run1 = (wd_set_server s3 w2, {[ 0%nat := ProduceUpdate topic p (Z.of_nat (length ms)) (Z.of_nat (length messages1));
    1%nat := Answered (ProduceSuccess topic p n1 (Z.of_nat (length messages2))) ]})) as Hrun1.
  { unfold run1. do 5 (erewrite run_schedule_cons; [|reflexivity|eassumption]). reflexivity. }
  rewrite Hrun1 in Hr1, Hr2. erewrite run_schedule_cons in Hr2; [|reflexivity|eassumption].
  eexists _, _, _, _. split; [exact Hr1|]. split; [reflexivity|]. split; [etrans; [exact Hhw3|]; lia|].
  split; [exact Hr2|]. split; [reflexivity|]. split; [reflexivity|]. split; [exact Hs4|]. split; [exact Hlog2|].
  etrans; [exact Hhw4|]. lia.
Qed.
End produces.

(** ** Metadata of several topics *)
Section metadata.
Context `{Crc32Laws} `{CompressionLaws} `{HashIterLaws}.

Lemma metadata_lookup_step e topic names found w b room P :
  world_ok (wd_server w) b room P →
  task_step e (MetadataLookup (topic :: names) found) w =
    (w, MetadataLookup names
          match bs_topics b !! topic with
          | Some logs => found ++ [TopicMetadata_new topic (Z.of_nat (length logs))]
          | None => found
          end).
Proof.
  intros Hw. pose proof (world_get_topic _ _ _ _ topic Hw) as Hg. cbn [task_step metadata_lookup].
  destruct (bs_topics b !! topic) as [logs|].
  - destruct Hg as (t & _ & -> & -> & _). done.
  - destruct Hg as [_ ->]. done.
Qed.

Lemma metadata_answer b topic topics l :
  response_ok b (GetMetadata (topic :: topics)) (Metadata l) →
  l = omap (λ name, (λ logs : topic_logs, TopicMetadata_new name (Z.of_nat (length logs))) <$> bs_topics b !! name)
    (topic :: topics).
Proof. intros (names & Hn & Heq). rewrite decide_False in Hn by done. subst names. by injection Heq. Qed.

(** The topics of a metadata request are looked up one by one: while others create two
    topics one after the other, the answer can name the second and not the first, which is
    what the broker holds at no time. *)
Theorem metadata_not_atomic w b room t1 t2 n1 n2 :
  let b1 := spec_step b (CreateTopic t1 n1) in
  let b2 := spec_step b1 (CreateTopic t2 n2) in
  let request := GetMetadata [t1; t2] in
  Server_holds (wd_server w) b room → t1 ≠ t2 → bs_topics b !! t1 = None → bs_topics b !! t2 = None →
  is_u32 n1 → is_u32 n2 →
  ∃ w1 ts1 w2 ts2 response,
    rtc tasks_step (w, {[ 0%nat := start_task request; 1%nat := CreateCheck t1 n1; 2%nat := CreateCheck t2 n2 ]})
      (w1, ts1) ∧
    ts1 !! 1%nat = Some (CreateAssign t1 n1 0) ∧ ts1 !! 2%nat = Some (CreateCheck t2 n2) ∧
    rtc tasks_step (w1, ts1) (w2, ts2) ∧ ts2 !! 0%nat = Some (Answered response) ∧
    ¬ response_ok b request response ∧ ¬ response_ok b1 request response ∧ ¬ response_ok b2 request response.
Proof.
  intros b1 b2 request Hs Hne Hn1 Hn2 Hu1 Hu2. set (e := {| env_now := 0; env_uuid := EmptyString |}).
  assert (world_ok (wd_server w) b room (λ _, False)) as Hw by (by apply world_ok_idle).
  destruct (race_created e w b room t1 n1 n1 Hw Hn1 Hu1) as (s1 & Hw1 & _ & Hc1 & _ & Hi1). fold b1 in Hw1.
  set (w1 := wd_set_server s1 w) in *.
  assert (bs_topics b1 !! t1 = Some (replicate (Z.to_nat n1) [])) as Hl1.
  { unfold b1. cbn [spec_step]. rewrite Hn1. apply lookup_insert_eq. }
  assert (bs_topics b1 !! t2 = None) as Hn2'.
  { unfold b1. cbn [spec_step]. rewrite Hn1. cbn [bs_topics]. by rewrite lookup_insert_ne. }
  destruct (race_created e w1 b1 room t2 n2 n2 Hw1 Hn2' Hu2) as (s2 & Hw2 & _ & Hc2 & _ & Hi2). fold b2 in Hw2.
  set (w2 := wd_set_server s2 w1) in *.
  assert (bs_topics b2 !! t2 = Some (replicate (Z.to_nat n2) [])) as Hl2.
  { unfold b2. cbn [spec_step]. rewrite Hn2'. apply lookup_insert_eq. }
  assert (task_step e (MetadataList [t1; t2]) w = (w, MetadataLookup [t1; t2] [])) as Hm0.
  { cbn [task_step]. by rewrite decide_False. }
  pose proof (metadata_lookup_step e t1 [t2] [] _ _ _ _ Hw) as Hm1. rewrite Hn1 in Hm1.
  pose proof (metadata_lookup_step e t2 [] [] w2 _ _ _ Hw2) as Hm2.
  unfold is_u32 in Hu2. rewrite Hl2, length_replicate, Z2Nat.id in Hm2 by lia. cbn [app] in Hm2.
  assert (task_step e (MetadataLookup [] [TopicMetadata_new t2 n2]) w2 =
    (w2, Answered (Metadata [TopicMetadata_new t2 n2]))) as Hm3 by done.
  set (ts := {[ 0%nat := start_task request; 1%nat := CreateCheck t1 n1; 2%nat := CreateCheck t2 n2 ]} : gmap nat task).
  pose proof (run_schedule_steps e [0; 0; 1; 1]%nat (w, ts)) as Hr1.
  assert (run_schedule e [0; 0; 1; 1]%nat (w, ts) = (w1, {[ 0%nat := MetadataLookup [t2] [];
    1%nat := CreateAssign t1 n1 0; 2%nat := CreateCheck t2 n2 ]})) as Hrun1.
  { do 4 (erewrite run_schedule_cons; [|reflexivity|eassumption]). reflexivity. }
  rewrite Hrun1 in Hr1.
  pose proof (run_schedule_steps e [2; 2; 0; 0]%nat (run_schedule e [0; 0; 1; 1]%nat (w, ts))) as Hr2.
  rewrite Hrun1 in Hr2. do 4 (erewrite run_schedule_cons in Hr2; [|reflexivity|eassumption]).
  eexists _, _, _, _, _. split; [exact Hr1|]. split; [reflexivity|]. split; [reflexivity|].
  split; [exact Hr2|]. split; [reflexivity|].
  assert (is_Some (bs_topics b2 !! t1)) as [logs Hlogs].
  { unfold b2. cbn [spec_step]. rewrite Hn2'. cbn [bs_topics]. rewrite lookup_insert_ne by done. by eexists. }
  split; [|split]; intros Heq%metadata_answer; cbn [omap list_omap] in Heq.
  - by rewrite Hn1, Hn2 in Heq.
  - rewrite Hl1, Hn2' in Heq. cbn in Heq. injection Heq. congruence.
  - by rewrite Hlogs, Hl2 in Heq.
Qed.
End metadata.
