(* ===== verification/Partitioner.v ===== *)
(** * Partitioner: which partition a message goes to

    [client/src/partitioner.rs].  The trait is a class over the state of a partitioner.
    The atomics of a partitioner are its state; a call reads and writes them in one step.
    The algorithm of the standard library's [DefaultHasher] is unspecified, so that the
    hash of a key is a parameter. *)
From S2P Require Import Prelude Bytes Common.

(** [hasher.finish()] of a fresh hasher after [bytes.hash(&mut hasher)]: a [u64]. *)
Class DefaultHasher : Type := hash_slice : bytes → Z.

Class Partitioner (St : Type) : Type :=
  partition : option bytes → Z → Method St Z.

(** What the trait promises its callers: a partition of the topic. *)
Class PartitionerLaws (St : Type) `{Partitioner St} (inv : Z → St → Prop) : Prop :=
  partition_range key n s : 0 < n < 2 ^ 32 → inv n s →
    ∃ s' p, partition key n s = (s', Ok p) ∧ 0 ≤ p < n ∧ inv n s'.

(** ** Round-robin *)
Record RoundRobinPartitioner : Type := { rr_counter : Z }.
Definition RoundRobinPartitioner_new : RoundRobinPartitioner := {| rr_counter := 0 |}.

Definition RoundRobinPartitioner_partition (_key : option bytes) (num_partitions : Z)
    : Method RoundRobinPartitioner Z := λ s,
  if num_partitions =? 0 then (s, Ok 0)
  else
    let count := rr_counter s in
    ({| rr_counter := w32 (count + 1) |}, Ok (count mod num_partitions)).
#[export] Instance RoundRobin_Partitioner : Partitioner RoundRobinPartitioner :=
  RoundRobinPartitioner_partition.

(** ** By the hash of the key *)
Record KeyHashPartitioner : Type := { }.
Definition KeyHashPartitioner_new : KeyHashPartitioner := Build_KeyHashPartitioner.

Definition hash_bytes `{DefaultHasher} (b : bytes) : Z := w32 (hash_slice b).

Definition KeyHashPartitioner_partition `{DefaultHasher} (key : option bytes) (num_partitions : Z)
    : Method KeyHashPartitioner Z := λ s,
  if num_partitions =? 0 then (s, Ok 0)
  else
    match key with
    | Some (_ :: _ as k) => (s, Ok (hash_bytes k mod num_partitions))
    | _ => (s, Ok 0)
    end.
#[export] Instance KeyHash_Partitioner `{DefaultHasher} : Partitioner KeyHashPartitioner :=
  KeyHashPartitioner_partition.

(** ** Sticky *)
Record StickyPartitioner : Type := {
  st_current_partition : Z;
  st_message_count : Z;
  st_batch_size : Z;
}.
Definition StickyPartitioner_new (batch_size : Z) : StickyPartitioner :=
  {| st_current_partition := 0; st_message_count := 0; st_batch_size := batch_size |}.
Definition StickyPartitioner_with_default_batch : StickyPartitioner := StickyPartitioner_new 100.

(** [count % batch_size] panics when the batch size is zero. *)
Definition StickyPartitioner_partition (_key : option bytes) (num_partitions : Z)
    : Method StickyPartitioner Z := λ s,
  if num_partitions =? 0 then (s, Ok 0)
  else
    let count := st_message_count s in
    let s := {| st_current_partition := st_current_partition s;
                st_message_count := w32 (count + 1); st_batch_size := st_batch_size s |} in
    if (0 <? count) && (st_batch_size s =? 0) then (s, Panic)
    else
      let s :=
        if (0 <? count) && (count mod st_batch_size s =? 0) then
          {| st_current_partition := w32 (st_current_partition s + 1) mod num_partitions;
             st_message_count := st_message_count s; st_batch_size := st_batch_size s |}
        else s in
      (s, Ok (st_current_partition s)).
#[export] Instance Sticky_Partitioner : Partitioner StickyPartitioner :=
  StickyPartitioner_partition.

(** The partitions of a number of messages, by their keys. *)
Fixpoint partition_all `{Partitioner St} (keys : list (option bytes)) (n : Z) : Method St (list Z) :=
  match keys with
  | [] => mret []
  | key :: keys => p ← partition key n; ps ← partition_all keys n; mret (p :: ps)
  end.

(** ** Lemmas *)
#[export] Instance RoundRobin_laws : PartitionerLaws RoundRobinPartitioner (λ _ s, is_u32 (rr_counter s)).
Proof.
  intros key n [c] Hn Hc. unfold partition, RoundRobin_Partitioner, RoundRobinPartitioner_partition.
  rewrite (proj2 (Z.eqb_neq _ _)) by lia. eexists _, _. split; [done|].
  split; [apply Z.mod_pos_bound; lia|]. apply w32_range.
Qed.

#[export] Instance KeyHash_laws `{DefaultHasher} : PartitionerLaws KeyHashPartitioner (λ _ _, True).
Proof.
  intros key n s Hn _. unfold partition, KeyHash_Partitioner, KeyHashPartitioner_partition.
  rewrite (proj2 (Z.eqb_neq _ _)) by lia.
  assert (∀ x, 0 ≤ x mod n < n) by (intros; apply Z.mod_pos_bound; lia).
  destruct key as [[|b k]|]; eexists _, _; (split; [done|]); auto with lia.
Qed.

(** The sticky partitioner keeps the law as long as the number of partitions is the same. *)
Definition sticky_inv (n : Z) (s : StickyPartitioner) : Prop :=
  0 ≤ st_current_partition s < n ∧ is_u32 (st_message_count s) ∧ 0 < st_batch_size s < 2 ^ 32.

#[export] Instance Sticky_laws : PartitionerLaws StickyPartitioner sticky_inv.
Proof.
  intros key n [p c b] Hn (Hp & Hc & Hb). cbn [st_current_partition st_message_count st_batch_size] in *.
  unfold partition, Sticky_Partitioner, StickyPartitioner_partition.
  cbn [st_current_partition st_message_count st_batch_size].
  rewrite (proj2 (Z.eqb_neq n 0)), (proj2 (Z.eqb_neq b 0)), andb_false_r by lia.
  assert (0 ≤ w32 (p + 1) mod n < n) by (apply Z.mod_pos_bound; lia).
  destruct ((0 <? c) && (c mod b =? 0)); eexists _, _; (split; [done|]);
    split; try done; repeat split; cbn; try lia; apply w32_range.
Qed.

Lemma partition_all_range `{PartitionerLaws St inv} keys n s :
  0 < n < 2 ^ 32 → inv n s →
  ∃ s' ps, partition_all keys n s = (s', Ok ps) ∧ inv n s' ∧ length ps = length keys ∧
    Forall (λ p, 0 ≤ p < n) ps.
Proof.
  intros Hn. revert s. induction keys as [|key keys IH]; intros s Hs.
  { by exists s, []. }
  destruct (partition_range key n s Hn Hs) as (s1 & p & Hp & Hr & Hs1).
  destruct (IH s1 Hs1) as (s2 & ps & Hps & Hs2 & Hl & Hall).
  exists s2, (p :: ps). cbn [partition_all]. unfold mbind, eff_bind, mret, eff_ret. rewrite Hp, Hps.
  split_and!; [done|done|simpl; by rewrite Hl|by constructor].
Qed.

Lemma round_robin_all keys n c :
  0 < n < 2 ^ 32 → 0 ≤ c → c + Z.of_nat (length keys) ≤ 2 ^ 32 →
  (partition_all keys n {| rr_counter := c |}).2 =
    Ok ((λ i, i mod n) <$> seqZ c (Z.of_nat (length keys))).
Proof.
  intros Hn. revert c. induction keys as [|key keys IH]; intros c Hc Hl; [done|].
  cbn [partition_all length]. unfold partition, RoundRobin_Partitioner, RoundRobinPartitioner_partition.
  rewrite (proj2 (Z.eqb_neq n 0)) by lia. unfold mbind, eff_bind, mret, eff_ret. cbn [rr_counter].
  rewrite seqZ_cons, Nat2Z.inj_succ, Z.pred_succ by lia. rewrite fmap_cons.
  destruct (decide (keys = [])) as [->|Hne]; [done|].
  assert (0 < length keys)%nat by (destruct keys; [done|simpl; lia]). cbn [length] in Hl.
  rewrite w32_small by (unfold is_u32; lia).
  specialize (IH (c + 1) ltac:(lia) ltac:(lia)).
  destruct (partition_all keys n {| rr_counter := c + 1 |}) as [s' r]. cbn [snd] in IH.
  subst r. done.
Qed.

(** The partition of the [i]th call of a sticky partitioner. *)
Definition sticky_at (batch n i : Z) : Z := i / batch mod n.

Lemma sticky_step batch n c key :
  0 < n < 2 ^ 32 → 0 < batch < 2 ^ 32 → 0 ≤ c < 2 ^ 32 →
  StickyPartitioner_partition key n {| st_current_partition := sticky_at batch n (Z.max 0 (c - 1));
      st_message_count := c; st_batch_size := batch |} =
    ({| st_current_partition := sticky_at batch n c; st_message_count := w32 (c + 1);
        st_batch_size := batch |}, Ok (sticky_at batch n c)).
Proof.
  intros Hn Hb Hc. unfold StickyPartitioner_partition.
  cbn [st_current_partition st_message_count st_batch_size].
  rewrite (proj2 (Z.eqb_neq n 0)), (proj2 (Z.eqb_neq batch 0)), andb_false_r by lia.
  unfold sticky_at. destruct (Z.ltb_spec 0 c) as [Hpos|Hz]; cbn [andb].
  2: { replace (Z.max 0 (c - 1)) with c by lia. done. }
  replace (Z.max 0 (c - 1)) with (c - 1) by lia.
  pose proof (Z.div_mod c batch ltac:(lia)) as Hdm. pose proof (Z.mod_pos_bound c batch ltac:(lia)).
  destruct (Z.eqb_spec (c mod batch) 0) as [Hm|Hm].
  - assert ((c - 1) / batch = c / batch - 1) as ->.
    { symmetry. apply (Z.div_unique _ _ _ (batch - 1)); lia. }
    pose proof (Z.mod_pos_bound (c / batch - 1) n ltac:(lia)).
    rewrite w32_small by (unfold is_u32; lia).
    rewrite Zplus_mod_idemp_l. by replace (c / batch - 1 + 1) with (c / batch) by lia.
  - assert ((c - 1) / batch = c / batch) as ->; [|done].
    symmetry. apply (Z.div_unique _ _ _ (c mod batch - 1)); lia.
Qed.

Lemma sticky_all batch n keys c :
  0 < n < 2 ^ 32 → 0 < batch < 2 ^ 32 → 0 ≤ c → c + Z.of_nat (length keys) ≤ 2 ^ 32 →
  (partition_all keys n {| st_current_partition := sticky_at batch n (Z.max 0 (c - 1));
      st_message_count := c; st_batch_size := batch |}).2 =
    Ok (sticky_at batch n <$> seqZ c (Z.of_nat (length keys))).
Proof.
  intros Hn Hb. revert c. induction keys as [|key keys IH]; intros c Hc Hl; [done|].
  cbn [partition_all length]. cbn [length] in Hl.
  change (partition key n) with (StickyPartitioner_partition key n). unfold mbind, eff_bind, mret, eff_ret.
  rewrite sticky_step by lia.
  rewrite seqZ_cons, Nat2Z.inj_succ, Z.pred_succ by lia. rewrite fmap_cons.
  destruct (decide (keys = [])) as [->|Hne]; [done|].
  assert (0 < length keys)%nat by (destruct keys; [done|simpl; lia]).
  rewrite w32_small by (unfold is_u32; lia).
  specialize (IH (c + 1) ltac:(lia) ltac:(lia)).
  replace (Z.max 0 (c + 1 - 1)) with c in IH by lia.
  destruct (partition_all keys n _) as [s' r]. cbn [snd] in IH. subst r. done.
Qed.

(** ** Properties *)
(** Every [n] consecutive messages of a round-robin partitioner go to the [n]
    partitions, one each, until its counter wraps. *)
Theorem round_robin_even keys n c s ps :
  0 < n < 2 ^ 32 → 0 ≤ c → c + n ≤ 2 ^ 32 → Z.of_nat (length keys) = n →
  partition_all keys n {| rr_counter := c |} = (s, Ok ps) → ps ≡ₚ seqZ 0 n.
Proof.
  intros Hn Hc Hb Hl Hp. pose proof (round_robin_all keys n c Hn Hc) as Ha. rewrite Hp, Hl in Ha.
  specialize (Ha ltac:(lia)). injection Ha as ->. apply NoDup_Permutation.
  - apply NoDup_fmap_2_strong; [|apply NoDup_seqZ]. intros x y Hx%elem_of_seqZ Hy%elem_of_seqZ Hm.
    pose proof (Z.div_mod x n ltac:(lia)) as Hdx. pose proof (Z.div_mod y n ltac:(lia)) as Hdy.
    rewrite Hm in Hdx. assert (x - y = n * (x / n - y / n)) as Hxy by lia.
    assert (x / n - y / n = 0 ∨ 1 ≤ x / n - y / n ∨ x / n - y / n ≤ -1) as [Hz|[Hz|Hz]] by lia;
      [|nia|nia]. rewrite Hz in Hxy. lia.
  - apply NoDup_seqZ.
  - intros x. rewrite elem_of_seqZ, list_elem_of_fmap. split.
    + intros (i & -> & _). pose proof (Z.mod_pos_bound i n ltac:(lia)). lia.
    + intros Hx. exists (c + (x - c) mod n). pose proof (Z.mod_pos_bound (x - c) n ltac:(lia)).
      split; [|apply elem_of_seqZ; lia].
      rewrite Zplus_mod_idemp_r. replace (c + (x - c)) with x by lia.
      rewrite Z.mod_small by lia. done.
Qed.

(** The sticky partitioner sends each batch of messages to one partition, and the
    batches to the partitions in turn from partition 0 on, while the number of partitions
    stays the same. *)
Theorem sticky_batches keys n batch s ps :
  0 < n < 2 ^ 32 → 0 < batch < 2 ^ 32 → Z.of_nat (length keys) ≤ 2 ^ 32 →
  partition_all keys n (StickyPartitioner_new batch) = (s, Ok ps) →
  ps = (λ i, i / batch mod n) <$> seqZ 0 (Z.of_nat (length keys)).
Proof.
  intros Hn Hb Hl Hp. pose proof (sticky_all batch n keys 0 Hn Hb ltac:(done) ltac:(lia)) as Ha.
  assert (sticky_at batch n (Z.max 0 (0 - 1)) = 0) as Hz.
  { unfold sticky_at. change (Z.max 0 (0 - 1)) with 0. rewrite Z.div_0_l by lia. apply Z.mod_0_l. lia. }
  rewrite Hz in Ha. unfold StickyPartitioner_new in Hp. rewrite Hp in Ha. by injection Ha.
Qed.

(** A sticky partitioner that serves topics with different numbers of partitions
    returns a partition that the topic does not have: the current partition is not reduced
    when the number is smaller. *)
Theorem sticky_out_of_range key n s :
  0 < n → 0 < st_batch_size s → 0 ≤ st_message_count s →
  st_message_count s mod st_batch_size s ≠ 0 → n ≤ st_current_partition s →
  ∃ s' p, StickyPartitioner_partition key n s = (s', Ok p) ∧ n ≤ p.
Proof.
  intros Hn Hb Hc Hm Hp. unfold StickyPartitioner_partition. cbn [st_batch_size].
  rewrite (proj2 (Z.eqb_neq n 0)), (proj2 (Z.eqb_neq (st_batch_size s) 0)), andb_false_r by lia.
  rewrite (proj2 (Z.eqb_neq (_ mod _) 0)), andb_false_r by done.
  by eexists _, _.
Qed.
