(* ===== verification/Client.v ===== *)
(** * Client: the connection of a client to a broker

    The producer and the consumer send a request over a framed connection and wait for its
    response.  [Connection] is that exchange, over a state [W] of everything behind it; a
    transport error is [Err (Connection e)].  [BrokerConnection] is what a broker promises
    its clients, and the server of [Server] keeps the promise. *)
From S2P Require Import Prelude Bytes Text Common Messages Codec Compression DiskRecord.
From S2P Require Import FileSystem OffsetIndex Retention Segment Partition Topic.
From S2P Require Import OffsetManager Cluster Replication Coordinator Server.

Class Connection (W : Type) : Type := call : Request → W → W * Result Response.

(** [lag] is the lag threshold of the broker, see [request_ok]. *)
Class BrokerConnection (W : Type) `{Connection W} `{Crc32} `{CompressionLib} (lag : Z) : Type := {
  serves : W → broker_spec → nat → Prop;
  call_served w b room request :
    serves w b room → request_ok lag b room request →
    ∃ w' response, call request w = (w', Ok response) ∧ response_ok b request response ∧
      serves w' (spec_step b request) (room - produced request);
}.

Definition unexpected {A} : Result A := Err (Protocol "Unexpected response").

(** The exchange that every method of a client makes. *)
Definition exchange `{Connection W} {A} (request : Request) (k : Response → Result A) : Method W A :=
  λ w, match call request w with
       | (w, Ok response) => (w, k response)
       | (w, Err e) => (w, Err e)
       | (w, Panic) => (w, Panic)
       end.

(** A method of the connection, or of the client, over both. *)
Definition on_connection {W C A} (m : Method W A) : Method (W * C) A := λ '(w, c),
  let '(w, r) := m w in ((w, c), r).
Definition update_client {W C} (f : C → C) : Method (W * C) unit := λ '(w, c), ((w, f c), Ok tt).

(** A broker in the same process, at one reading of the clock. *)
Definition server_connection `{Crc32} `{CompressionLib} `{HashIter} (e : env)
    : Connection BrokerServer := process_request e.

Section client_facts.
Context `{Crc32Laws} `{CompressionLaws} `{HashIterLaws}.

#[export] Instance server_broker_connection (e : env) (lag : Z) :
  @BrokerConnection BrokerServer (server_connection e) _ _ lag.
Proof.
  refine {| serves s b room := Server_holds s b room ∧ server_lag s = lag |}.
  intros s b room request [Hs <-] Hok.
  destruct (process_request_served e request s b room Hs Hok)
    as (s' & response & Hp & Hr & Hc & Hs').
  exists s', response. split_and!; [exact Hp|done|done|]. unfold server_lag. by rewrite Hc.
Defined.
End client_facts.

Section exchange_facts.
Context `{BrokerConnection W lag}.

Lemma exchange_served {A} w b room request (k : Response → Result A) :
  serves w b room → request_ok lag b room request →
  ∃ w' response, exchange request k w = (w', k response) ∧ response_ok b request response ∧
    serves w' (spec_step b request) (room - produced request).
Proof.
  intros Hs Hok. destruct (call_served w b room request Hs Hok) as (w' & response & Hc & Hr & Hs').
  exists w', response. unfold exchange. by rewrite Hc.
Qed.
End exchange_facts.
