(* ===== verification/Producer.v ===== *)
(** * Producer: the client that sends messages

    [client/src/producer.rs], over the interface of [Client] and with any partitioner of
    [Partitioner]. *)
From S2P Require Import Prelude Bytes Text Common Messages Codec Compression DiskRecord.
From S2P Require Import FileSystem OffsetIndex Retention Segment Partition Topic.
From S2P Require Import OffsetManager Cluster Replication Coordinator Server Client Partitioner.

(** The connection of the source's struct is the state [W] beside it. *)
Record Producer (Pt : Type) : Type := {
  pr_partitioner : Pt;
  pr_metadata_cache : gmap string Z;
}.
Arguments pr_partitioner {_} _.
Arguments pr_metadata_cache {_} _.
Arguments Build_Producer {_} _ _.

Definition connect_with_partitioner {Pt} (partitioner : Pt) : Producer Pt :=
  {| pr_partitioner := partitioner; pr_metadata_cache := ∅ |}.
Definition Producer_connect : Producer RoundRobinPartitioner :=
  connect_with_partitioner RoundRobinPartitioner_new.

Definition pr_cache {Pt} (topic : string) (count : Z) (pr : Producer Pt) : Producer Pt :=
  {| pr_partitioner := pr_partitioner pr;
     pr_metadata_cache := <[topic := count]> (pr_metadata_cache pr) |}.
Definition pr_set_partitioner {Pt} (p : Pt) (pr : Producer Pt) : Producer Pt :=
  {| pr_partitioner := p; pr_metadata_cache := pr_metadata_cache pr |}.

Section producer.
Context `{Connection W} `{Partitioner Pt} `{HashIter}.

Definition Producer_create_topic (name : string) (partitions : Z) : Method W unit :=
  exchange (CreateTopic name partitions) (λ response,
    match response with
    | CreateTopicSuccess _ _ => Ok tt
    | CreateTopicError error => Err (Protocol error)
    | _ => unexpected
    end).

Definition Producer_send (topic : string) (partition : Z) (messages : list Message) : Method W Z :=
  exchange (Produce topic partition messages) (λ response,
    match response with
    | ProduceSuccess _ _ base_offset _ => Ok base_offset
    | ProduceError error => Err (Protocol error)
    | _ => unexpected
    end).

Definition refresh_metadata (topic : string) : Method (W * Producer Pt) unit :=
  '(topic, count) ← on_connection (exchange (GetPartitions topic) (λ response,
    match response with
    | Partitions topic count => Ok (topic, count)
    | PartitionsError error => Err (Protocol error)
    | _ => unexpected
    end));
  update_client (pr_cache topic count).

(** The loop that groups the messages by partition. *)
Fixpoint group_messages (messages : list Message) (num_partitions : Z)
    (partition_batches : gmap Z (list Message)) : Method Pt (gmap Z (list Message)) :=
  match messages with
  | [] => mret partition_batches
  | message :: messages =>
      partition ← partition (msg_key message) num_partitions;
      group_messages messages num_partitions
        (<[partition := default [] (partition_batches !! partition) ++ [message]]> partition_batches)
  end.

(** The loop that sends the batches: the base offset is the first that is not zero. *)
Fixpoint send_batches (topic : string) (batches : list (Z * list Message)) (base_offset : Z)
    : Method W Z :=
  match batches with
  | [] => mret base_offset
  | (partition, batch) :: batches =>
      offset ← Producer_send topic partition batch;
      send_batches topic batches (if base_offset =? 0 then offset else base_offset)
  end.

Definition send_batch_auto (topic : string) (messages : list Message) : Method (W * Producer Pt) Z :=
  '(_, pr) ← eff_get;
  _ ← (match pr_metadata_cache pr !! topic with
       | Some _ => mret tt
       | None => refresh_metadata topic
       end);
  '(_, pr) ← eff_get;
  num_partitions ← eff_lift (ok_or (TopicNotFound topic) (pr_metadata_cache pr !! topic));
  partition_batches ← (λ '(w, pr),
    let '(p, r) := group_messages messages num_partitions ∅ (pr_partitioner pr) in
    ((w, pr_set_partitioner p pr), r));
  on_connection (send_batches topic (map_iter partition_batches) 0).

Definition send_auto (topic : string) (message : Message) : Method (W * Producer Pt) Z :=
  send_batch_auto topic [message].

Definition Producer_get_metadata (topics : list string) : Method (W * Producer Pt) (list TopicMetadata) :=
  topics ← on_connection (exchange (GetMetadata topics) (λ response,
    match response with
    | Metadata topics => Ok topics
    | MetadataError error => Err (Protocol error)
    | _ => unexpected
    end));
  _ ← update_client (λ pr, foldl (λ pr t,
        pr_cache (tm_name t) (w32 (Z.of_nat (length (tm_partitions t)))) pr) pr topics);
  mret topics.

Definition Producer_list_topics : Method W (list string) :=
  exchange ListTopics (λ response,
    match response with
    | Topics topics => Ok topics
    | TopicsError error => Err (Protocol error)
    | _ => unexpected
    end).

End producer.

(** ** Grouping *)
(** The messages that a list of partitions sends to partition [p]. *)
Definition assigned (ps : list Z) (messages : list Message) (p : Z) : list Message :=
  (filter (λ '(q, _), q = p) (zip ps messages)).*2.

(** The number of messages in the batches. *)
Definition batched (batches : gmap Z (list Message)) : nat :=
  sum_list (length <$> (map_to_list batches).*2).

Lemma sum_list_cons (n : nat) l : sum_list (n :: l) = (n + sum_list l)%nat.
Proof. done. Qed.

Lemma batched_perm (batches : gmap Z (list Message)) l :
  l ≡ₚ map_to_list batches → sum_list (length <$> l.*2) = batched batches.
Proof.
  intros Hp. unfold batched.
  assert (∀ l1 l2 : list nat, l1 ≡ₚ l2 → sum_list l1 = sum_list l2) as Hs.
  { induction 1; simpl; lia. }
  apply Hs. by rewrite Hp.
Qed.

Lemma batched_add (batches : gmap Z (list Message)) p m :
  batched (<[p := default [] (batches !! p) ++ [m]]> batches) = S (batched batches).
Proof.
  rewrite <-insert_delete_eq.
  rewrite <-(batched_perm _ _ (symmetry (map_to_list_insert _ p _ (lookup_delete_eq batches p)))).
  cbn [fmap list_fmap fst snd sum_list]. rewrite length_app. cbn [length].
  fold (batched (delete p batches)).
  change (sum_list (length <$> (map_to_list (delete p batches)).*2)) with (batched (delete p batches)).
  destruct (batches !! p) as [ms|] eqn:Hp; cbn [default].
  - rewrite <-(batched_perm _ _ (map_to_list_delete _ p _ Hp)).
    cbn [fmap list_fmap fst snd sum_list].
    change (sum_list (length <$> (map_to_list (delete p batches)).*2)) with (batched (delete p batches)).
    unfold id. lia.
  - rewrite delete_id by done. simpl. lia.
Qed.

Lemma group_messages_spec `{PartitionerLaws Pt inv} messages n batches s :
  0 < n < 2 ^ 32 → inv n s →
  ∃ s' ps batches', group_messages messages n batches s = (s', Ok batches') ∧
    partition_all (msg_key <$> messages) n s = (s', Ok ps) ∧ length ps = length messages ∧
    batched batches' = (batched batches + length messages)%nat ∧
    (∀ p, default [] (batches' !! p) = default [] (batches !! p) ++ assigned ps messages p) ∧
    ∀ p ms, batches' !! p = Some ms → batches !! p = Some ms ∨ 0 ≤ p < n ∧ ms ≠ [].
Proof.
  intros Hn. revert batches s. induction messages as [|m messages IH]; intros batches s Hs.
  { exists s, [], batches. split_and!; [done|done|done|simpl; lia|intros; by rewrite app_nil_r|by left]. }
  destruct (partition_range (msg_key m) n s Hn Hs) as (s1 & p & Hp & Hr & Hs1).
  destruct (IH (<[p := default [] (batches !! p) ++ [m]]> batches) s1 Hs1)
    as (s2 & ps & batches' & Hg & Hps & Hl & Hsum & Hd & Hne).
  exists s2, (p :: ps), batches'. rewrite fmap_cons. cbn [group_messages partition_all].
  unfold mbind, eff_bind, mret, eff_ret. rewrite Hp, Hg, Hps.
  split_and!; [done|done|simpl; by rewrite Hl| | |].
  - rewrite Hsum, batched_add. simpl. lia.
  - intros q. rewrite Hd. unfold assigned. cbn [zip zip_with].
    destruct (decide (p = q)) as [->|Hpq].
    + rewrite lookup_insert_eq, filter_cons_True by done. cbn. by rewrite <-app_assoc.
    + by rewrite lookup_insert_ne, filter_cons_False.
  - intros q ms Hq. destruct (Hne q ms Hq) as [Hin|?]; [|by right].
    apply lookup_insert_Some in Hin as [[<- <-]|[_ ?]]; [right|by left].
    split; [done|]. by destruct (default [] (batches !! p)).
Qed.

Lemma assigned_sublist ps messages p : assigned ps messages p `sublist_of` messages.
Proof.
  unfold assigned. revert ps. induction messages as [|m messages IH]; intros [|q ps];
    cbn [zip zip_with]; try apply sublist_nil_l.
  destruct (decide (q = p)) as [->|Hne].
  - rewrite filter_cons_True by done. cbn. apply sublist_skip, IH.
  - rewrite filter_cons_False by done. apply sublist_cons, IH.
Qed.

(** ** Sending *)
(** What sending batches does to the abstract broker. *)
Definition sent (topic : string) (l : list (Z * list Message)) (b : broker_spec) : broker_spec :=
  foldl (λ b '(p, ms), spec_step b (Produce topic p ms)) b l.

Lemma sent_topic topic l b logs :
  bs_topics b !! topic = Some logs → NoDup l.*1 → Forall (λ p, 0 ≤ p) l.*1 →
  bs_offsets (sent topic l b) = bs_offsets b ∧
  (∀ t, t ≠ topic → bs_topics (sent topic l b) !! t = bs_topics b !! t) ∧
  ∃ logs', bs_topics (sent topic l b) !! topic = Some logs' ∧
    ∀ i, logs' !! i = (λ log, log ++ default [] ((list_to_map l : gmap Z _) !! Z.of_nat i)) <$> logs !! i.
Proof.
  revert b logs. induction l as [|[p ms] l IH]; intros b logs Hl Hnd Hpos; cbn [sent foldl].
  { split_and!; [done|done|]. exists logs. split; [done|]. intros i.
    rewrite list_to_map_nil, lookup_empty. destruct (logs !! i); cbn; by rewrite ?app_nil_r. }
  rewrite fmap_cons in Hnd, Hpos. apply NoDup_cons in Hnd as [Hp Hnd].
  apply Forall_cons in Hpos as [Hp0 Hpos]. cbn [fst] in *.
  destruct (IH (spec_step b (Produce topic p ms)) (alter (λ log, log ++ ms) (Z.to_nat p) logs))
    as (Ho & Ht & logs' & Hl' & Hlk); [|done|done|].
  { cbn [spec_step bs_topics]. by rewrite lookup_alter_eq, Hl. }
  fold (sent topic l (spec_step b (Produce topic p ms))).
  split_and!; [by rewrite Ho| |].
  { intros t Hne. rewrite Ht by done. cbn [spec_step bs_topics]. by rewrite lookup_alter_ne. }
  exists logs'. split; [done|]. intros i. rewrite Hlk, list_to_map_cons.
  destruct (decide (p = Z.of_nat i)) as [->|Hne].
  - rewrite Nat2Z.id, list_lookup_alter_eq.
    rewrite lookup_insert_eq.
    assert ((list_to_map l : gmap Z (list Message)) !! Z.of_nat i = None) as ->.
    { by apply not_elem_of_list_to_map_1. }
    destruct (logs !! i); cbn; by rewrite ?app_nil_r.
  - rewrite list_lookup_alter_ne by lia. by rewrite lookup_insert_ne.
Qed.

(** The messages leave room in the logs, whatever partitions they go to. *)
Definition logs_have_room `{Crc32} `{CompressionLib} (lag : Z) (logs : topic_logs) (messages : list Message) : Prop :=
  ∀ i log sub, logs !! i = Some log → sub `sublist_of` messages →
    Z.of_nat (length (log ++ sub)) + lag < 2 ^ 64 ∧
    encoded_size SegmentConfig_default 0 (log ++ sub) < 2 ^ 64.

Section producer_facts.
Context `{BrokerConnection W lag} `{HashIterLaws}.

Lemma Producer_send_served w b room topic p ms logs log :
  serves w b room → bs_topics b !! topic = Some logs → logs !! Z.to_nat p = Some log → ms ≠ [] →
  request_ok lag b room (Produce topic p ms) →
  ∃ w', Producer_send topic p ms w = (w', Ok (Z.of_nat (length log))) ∧
    serves w' (spec_step b (Produce topic p ms)) (room - length ms).
Proof.
  intros Hs Hl Hlog Hne Hok. unfold Producer_send.
  match goal with |- context [exchange _ ?k] =>
    destruct (exchange_served w b room _ k Hs Hok) as (w' & response & He & Hr & Hs') end.
  cbn [response_ok] in Hr. rewrite Hl, Hlog, decide_False in Hr by done. subst response.
  exists w'. by split.
Qed.

Lemma send_batches_served w b room topic l logs base :
  serves w b room → bs_topics b !! topic = Some logs → NoDup l.*1 →
  Forall (λ '(p, ms), is_u32 p ∧ p < Z.of_nat (length logs) ∧ ms ≠ [] ∧
    Forall (message_fits SegmentConfig_default) ms ∧ is_u32 (Z.of_nat (length ms)) ∧
    ∀ log, logs !! Z.to_nat p = Some log → Z.of_nat (length (log ++ ms)) + lag < 2 ^ 64 ∧
      encoded_size SegmentConfig_default 0 (log ++ ms) < 2 ^ 64) l →
  (sum_list (length <$> l.*2) ≤ room)%nat →
  ∃ w' o, send_batches topic l base w = (w', Ok o) ∧
    serves w' (sent topic l b) (room - sum_list (length <$> l.*2)).
Proof.
  revert w b room logs base. induction l as [|[p ms] l IH]; intros w b room logs base Hs Hl Hnd Hall Hroom.
  { exists w, base. cbn. by rewrite Nat.sub_0_r. }
  rewrite fmap_cons in Hnd. apply NoDup_cons in Hnd as [Hp Hnd]. cbn [fst] in Hp.
  apply Forall_cons in Hall as [(Hu & Hlt & Hne & Hfit & Hlen & Hbig) Hall].
  rewrite !fmap_cons, sum_list_cons in Hroom |- *. cbn [snd] in Hroom |- *. unfold is_u32 in Hu.
  destruct (lookup_lt_is_Some_2 logs (Z.to_nat p)) as [log Hlog]; [lia|].
  destruct (Producer_send_served w b room topic p ms logs log Hs Hl Hlog Hne) as (w1 & Hw1 & Hs1).
  { split_and!; [done|done|lia|done|]. intros logs' log' Hl' Hlog'.
    rewrite Hl in Hl'. injection Hl' as <-. by apply Hbig. }
  set (b1 := spec_step b (Produce topic p ms)) in *.
  destruct (IH w1 b1 (room - length ms)%nat (alter (λ log, log ++ ms) (Z.to_nat p) logs)
    (if base =? 0 then Z.of_nat (length log) else base)) as (w2 & o & Hw2 & Hs2); [done| |done| |lia|].
  { unfold b1. cbn [spec_step bs_topics]. by rewrite lookup_alter_eq, Hl. }
  { rewrite length_alter. apply Forall_forall. intros [q qs] Hin.
    pose proof (proj1 (Forall_forall _ _) Hall _ Hin) as (Hu' & ? & ? & ? & ? & Hb). split_and!; try done.
    intros log'. rewrite list_lookup_alter_ne; [by apply Hb|]. unfold is_u32 in Hu'.
    intros Heq. apply Hp. apply list_elem_of_fmap. exists (q, qs). split; [simpl; lia|done]. }
  exists w2, o. cbn [send_batches]. unfold mbind, eff_bind. rewrite Hw1.
  split; [done|]. by rewrite Nat.sub_add_distr.
Qed.

End producer_facts.

(** ** Every message goes somewhere *)
Lemma assigned_nil ps p : assigned ps [] p = [].
Proof. by destruct ps. Qed.

Lemma assigned_cons q ps m messages p :
  assigned (q :: ps) (m :: messages) p =
    if decide (q = p) then m :: assigned ps messages p else assigned ps messages p.
Proof. unfold assigned. cbn [zip zip_with]. rewrite filter_cons. by destruct (decide (q = p)). Qed.

Lemma assigned_all ps messages n :
  length ps = length messages → Forall (λ p, 0 ≤ p < n) ps →
  mjoin (assigned ps messages <$> seqZ 0 n) ≡ₚ messages.
Proof.
  intros Hl Hall. revert messages Hl. induction Hall as [|q ps Hq Hall IH]; intros [|m messages] Hl; try done.
  { clear. induction (seqZ 0 n) as [|p l IH]; [done|]. by rewrite fmap_cons, assigned_nil. }
  injection Hl as Hl. rewrite <-(IH messages Hl) at 2. clear IH.
  assert (∀ l : list Z, q ∉ l → assigned (q :: ps) (m :: messages) <$> l = assigned ps messages <$> l) as Hout.
  { intros l Hin. apply list_fmap_ext. intros i p Hp. rewrite assigned_cons, decide_False; [done|].
    intros ->. by apply Hin, list_elem_of_lookup_2 with i. }
  destruct (list_elem_of_split (seqZ 0 n) q) as (l1 & l2 & Hs); [apply elem_of_seqZ; lia|].
  pose proof (NoDup_seqZ 0 n) as Hnd. rewrite Hs in Hnd |- *.
  apply NoDup_app in Hnd as (_ & Hd & Hnd). apply NoDup_cons in Hnd as [Hn2 _].
  rewrite !fmap_app, !fmap_cons, !Hout; [|done|].
  2: { intros Hin. apply (Hd q Hin). by left. }
  rewrite assigned_cons, decide_True, !join_app by done. cbn [mjoin list_join app].
  symmetry. apply Permutation_middle.
Qed.

Lemma sum_list_le (l : list nat) x : x ∈ l → (x ≤ sum_list l)%nat.
Proof.
  induction l as [|y l IH]; intros Hin; [by apply elem_of_nil in Hin|].
  rewrite sum_list_cons. apply elem_of_cons in Hin as [->|Hin]; [lia|]. specialize (IH Hin). lia.
Qed.

Section producer_auto.
Context `{BrokerConnection W lag} `{HashIterLaws} `{PartitionerLaws Pt inv}.

Lemma refresh_metadata_served w (pr : Producer Pt) b room topic logs :
  serves w b room → bs_topics b !! topic = Some logs →
  ∃ w', refresh_metadata topic (w, pr) = ((w', pr_cache topic (Z.of_nat (length logs)) pr), Ok tt) ∧
    serves w' b room.
Proof.
  intros Hs Hl. unfold refresh_metadata, on_connection, mbind, eff_bind.
  match goal with |- context [exchange _ ?k] =>
    destruct (exchange_served w b room (GetPartitions topic) k Hs I) as (w' & response & He & Hr & Hs') end.
  cbn [response_ok spec_step produced] in Hr, Hs'. rewrite Nat.sub_0_r in Hs'. rewrite Hl in Hr. subst response.
  exists w'. rewrite He. by split.
Qed.

(** The cache that a send leaves: it holds the number of partitions of the topic. *)
Definition cache_agrees (topic : string) (n : Z) (pr : Producer Pt) : Prop :=
  ∀ c, pr_metadata_cache pr !! topic = Some c → c = n.

Definition send_grouped (topic : string) (messages : list Message) (n : Z) : Method (W * Producer Pt) Z :=
  partition_batches ← (λ '(w, pr),
    let '(p, r) := group_messages messages n ∅ (pr_partitioner pr) in
    ((w, pr_set_partitioner p pr), r));
  on_connection (send_batches topic (map_iter partition_batches) 0).

Lemma send_batch_auto_cached w (pr : Producer Pt) b room topic logs messages :
  serves w b room → bs_topics b !! topic = Some logs → cache_agrees topic (Z.of_nat (length logs)) pr →
  ∃ w', serves w' b room ∧
    send_batch_auto topic messages (w, pr) =
      send_grouped topic messages (Z.of_nat (length logs))
        (w', pr_cache topic (Z.of_nat (length logs)) pr).
Proof.
  intros Hs Hl Hc. unfold send_batch_auto, eff_get, mbind, eff_bind.
  destruct (pr_metadata_cache pr !! topic) as [c|] eqn:Hcc.
  - pose proof (Hc _ Hcc) as ->. exists w. split; [done|].
    assert (pr_cache topic (Z.of_nat (length logs)) pr = pr) as ->.
    { unfold pr_cache. rewrite insert_id by done. by destruct pr. }
    unfold mret, eff_ret. rewrite Hcc. done.
  - destruct (refresh_metadata_served w pr b room topic logs Hs Hl) as (w' & -> & Hs').
    exists w'. split; [done|]. cbn [pr_cache pr_metadata_cache]. by rewrite lookup_insert_eq.
Qed.

End producer_auto.

Section producer_spec.
Context `{BrokerConnection W lag} `{HashIterLaws} `{PartitionerLaws Pt inv}.

(** Batches of a send, in the order they leave. *)
Lemma grouped_ready logs messages n ps batches :
  n = Z.of_nat (length logs) → n < 2 ^ 32 →
  Forall (message_fits SegmentConfig_default) messages → is_u32 (Z.of_nat (length messages)) →
  logs_have_room lag logs messages →
  (∀ p, default [] (batches !! p) = assigned ps messages p) →
  (∀ p ms, batches !! p = Some ms → 0 ≤ p < n ∧ ms ≠ []) →
  Forall (λ '(p, ms), is_u32 p ∧ p < Z.of_nat (length logs) ∧ ms ≠ [] ∧
    Forall (message_fits SegmentConfig_default) ms ∧ is_u32 (Z.of_nat (length ms)) ∧
    ∀ log, logs !! Z.to_nat p = Some log → Z.of_nat (length (log ++ ms)) + lag < 2 ^ 64 ∧
      encoded_size SegmentConfig_default 0 (log ++ ms) < 2 ^ 64) (map_iter batches).
Proof.
  intros -> Hn Hfit Hlen Hroom Hd Hne. apply Forall_forall. intros [p ms] Hin.
  apply elem_of_map_iter in Hin. destruct (Hne p ms Hin) as [Hp Hms].
  assert (ms `sublist_of` messages) as Hsub.
  { specialize (Hd p). rewrite Hin in Hd. cbn [default] in Hd. unfold id in Hd. rewrite Hd.
    apply assigned_sublist. }
  pose proof (sublist_length _ _ Hsub). unfold is_u32 in *. split_and!; try done; try lia.
  - apply Forall_forall. intros m Hm. apply (proj1 (Forall_forall _ _) Hfit).
    by eapply elem_of_submseteq, sublist_submseteq.
  - intros log Hlog. by apply (Hroom (Z.to_nat p)).
Qed.

Lemma send_batch_auto_served w (pr : Producer Pt) b room topic logs messages :
  let n := Z.of_nat (length logs) in
  serves w b room → bs_topics b !! topic = Some logs → 0 < n < 2 ^ 32 →
  inv n (pr_partitioner pr) → cache_agrees topic n pr →
  Forall (message_fits SegmentConfig_default) messages → (length messages ≤ room)%nat →
  is_u32 (Z.of_nat (length messages)) → logs_have_room lag logs messages →
  ∃ w' pr' base_offset ps b' logs',
    send_batch_auto topic messages (w, pr) = ((w', pr'), Ok base_offset) ∧
    partition_all (msg_key <$> messages) n (pr_partitioner pr) = (pr_partitioner pr', Ok ps) ∧
    inv n (pr_partitioner pr') ∧ pr_metadata_cache pr' !! topic = Some n ∧
    mjoin (assigned ps messages <$> seqZ 0 n) ≡ₚ messages ∧
    serves w' b' (room - length messages) ∧ bs_offsets b' = bs_offsets b ∧
    (∀ t, t ≠ topic → bs_topics b' !! t = bs_topics b !! t) ∧
    bs_topics b' !! topic = Some logs' ∧
    ∀ i, logs' !! i = (λ log, log ++ assigned ps messages (Z.of_nat i)) <$> logs !! i.
Proof.
  intros n Hs Hl Hn Hinv Hc Hfit Hroom Hlen Hbig.
  destruct (send_batch_auto_cached w pr b room topic logs messages Hs Hl Hc) as (w1 & Hs1 & ->).
  fold n. set (pr1 := pr_cache topic n pr).
  destruct (group_messages_spec messages n ∅ (pr_partitioner pr) Hn Hinv)
    as (s' & ps & batches & Hg & Hps & Hlps & Hsum & Hd & Hne).
  destruct (partition_all_range (msg_key <$> messages) n (pr_partitioner pr) Hn Hinv)
    as (s1 & ps1 & Hps1 & Hs1' & _ & Hrange).
  rewrite Hps in Hps1. injection Hps1 as <- <-.
  assert (∀ p, default [] (batches !! p) = assigned ps messages p) as Hd'.
  { intros p. rewrite Hd, lookup_empty. done. }
  assert (∀ p ms, batches !! p = Some ms → 0 ≤ p < n ∧ ms ≠ []) as Hne'.
  { intros p ms Hp. destruct (Hne p ms Hp) as [He|?]; [by rewrite lookup_empty in He|done]. }
  assert (sum_list (length <$> (map_iter batches).*2) = length messages) as Hcount.
  { rewrite (batched_perm batches) by apply map_iter_perm. rewrite Hsum. done. }
  pose proof (grouped_ready logs messages n ps batches eq_refl ltac:(lia) Hfit Hlen Hbig Hd' Hne') as Hready.
  destruct (send_batches_served w1 b room topic (map_iter batches) logs 0 Hs1 Hl
    (NoDup_map_iter _) Hready) as (w2 & o & Hw2 & Hs2); [by rewrite Hcount|].
  rewrite Hcount in Hs2.
  destruct (sent_topic topic (map_iter batches) b logs Hl (NoDup_map_iter _)) as (Ho & Ht & logs' & Hl' & Hlk).
  { apply Forall_forall. intros p Hp. apply elem_of_map_iter_keys in Hp as [ms Hp].
    apply (Hne' p ms Hp). }
  exists w2, (pr_set_partitioner s' pr1), o, ps, (sent topic (map_iter batches) b), logs'.
  unfold send_grouped, mbind, eff_bind. cbn [pr1 pr_cache pr_partitioner]. rewrite Hg.
  unfold on_connection. rewrite Hw2.
  split_and!; try done.
  - cbn. by rewrite lookup_insert_eq.
  - by apply assigned_all.
  - intros i. rewrite Hlk. f_equal.
    assert (list_to_map (map_iter batches) = batches) as ->.
    { rewrite <-(list_to_map_to_list batches) at 2.
      apply list_to_map_proper; [apply NoDup_map_iter|apply map_iter_perm]. }
    by rewrite Hd'.
Qed.

(** C14: [send_batch_auto] against a broker that keeps its contract, with a partitioner that
    keeps its law: every partition of the topic gets the messages that the partitioner
    sends there, in their order, after those it had, and no other topic and no committed
    offset changes. *)
Theorem send_batch_auto_spec w (pr : Producer Pt) b room topic logs messages :
  let n := Z.of_nat (length logs) in
  serves w b room → bs_topics b !! topic = Some logs → 0 < n < 2 ^ 32 →
  inv n (pr_partitioner pr) → cache_agrees topic n pr →
  Forall (message_fits SegmentConfig_default) messages → (length messages ≤ room)%nat →
  is_u32 (Z.of_nat (length messages)) → logs_have_room lag logs messages →
  ∃ w' pr' base_offset ps b' logs',
    send_batch_auto topic messages (w, pr) = ((w', pr'), Ok base_offset) ∧
    partition_all (msg_key <$> messages) n (pr_partitioner pr) = (pr_partitioner pr', Ok ps) ∧
    inv n (pr_partitioner pr') ∧ pr_metadata_cache pr' !! topic = Some n ∧
    mjoin (assigned ps messages <$> seqZ 0 n) ≡ₚ messages ∧
    serves w' b' (room - length messages) ∧ bs_offsets b' = bs_offsets b ∧
    (∀ t, t ≠ topic → bs_topics b' !! t = bs_topics b !! t) ∧
    bs_topics b' !! topic = Some logs' ∧
    ∀ i, logs' !! i = (λ log, log ++ assigned ps messages (Z.of_nat i)) <$> logs !! i.
Proof. exact (send_batch_auto_served w pr b room topic logs messages). Qed.

End producer_spec.
