(* ===== verification/Consumer.v ===== *)
(** * Consumer: the client that reads messages

    [client/src/consumer.rs], over the interface of [Client].  A consumer in a group starts
    a task that sends heartbeats; the tasks that run are the table [pc_tasks], and a
    [JoinHandle] is a key of it. *)
From S2P Require Import Prelude Bytes Text Common Messages Codec Compression DiskRecord.
From S2P Require Import FileSystem OffsetIndex Retention Segment Partition Topic.
From S2P Require Import OffsetManager Cluster Replication Coordinator Server Client.

Record Consumer : Type := {
  cn_subscriptions : gmap string (list Z);
  cn_offsets : gmap (string * Z) Z;
  cn_group_id : option string;
  cn_member_id : option string;
  cn_assignments : list PartitionAssignment;
  cn_auto_commit : bool;
  cn_auto_commit_interval : Z;
  cn_heartbeat_task : option nat;
}.

Definition Consumer_connect : Consumer :=
  {| cn_subscriptions := ∅; cn_offsets := ∅; cn_group_id := None; cn_member_id := None;
     cn_assignments := []; cn_auto_commit := false; cn_auto_commit_interval := 5000;
     cn_heartbeat_task := None |}.

Definition cn_set_subscriptions f (c : Consumer) : Consumer :=
  {| cn_subscriptions := f (cn_subscriptions c); cn_offsets := cn_offsets c;
     cn_group_id := cn_group_id c; cn_member_id := cn_member_id c;
     cn_assignments := cn_assignments c; cn_auto_commit := cn_auto_commit c;
     cn_auto_commit_interval := cn_auto_commit_interval c;
     cn_heartbeat_task := cn_heartbeat_task c |}.
Definition cn_set_offsets f (c : Consumer) : Consumer :=
  {| cn_subscriptions := cn_subscriptions c; cn_offsets := f (cn_offsets c);
     cn_group_id := cn_group_id c; cn_member_id := cn_member_id c;
     cn_assignments := cn_assignments c; cn_auto_commit := cn_auto_commit c;
     cn_auto_commit_interval := cn_auto_commit_interval c;
     cn_heartbeat_task := cn_heartbeat_task c |}.
Definition cn_set_group (g m : option string) (l : list PartitionAssignment) (c : Consumer) : Consumer :=
  {| cn_subscriptions := cn_subscriptions c; cn_offsets := cn_offsets c;
     cn_group_id := g; cn_member_id := m; cn_assignments := l;
     cn_auto_commit := cn_auto_commit c; cn_auto_commit_interval := cn_auto_commit_interval c;
     cn_heartbeat_task := cn_heartbeat_task c |}.
Definition cn_set_task (t : option nat) (c : Consumer) : Consumer :=
  {| cn_subscriptions := cn_subscriptions c; cn_offsets := cn_offsets c;
     cn_group_id := cn_group_id c; cn_member_id := cn_member_id c;
     cn_assignments := cn_assignments c; cn_auto_commit := cn_auto_commit c;
     cn_auto_commit_interval := cn_auto_commit_interval c; cn_heartbeat_task := t |}.

Definition with_group_id (group_id : string) (c : Consumer) : Consumer :=
  cn_set_group (Some group_id) (cn_member_id c) (cn_assignments c) c.

(** The interval is in milliseconds. *)
Definition with_auto_commit (interval : option Z) (c : Consumer) : Consumer :=
  {| cn_subscriptions := cn_subscriptions c; cn_offsets := cn_offsets c;
     cn_group_id := cn_group_id c; cn_member_id := cn_member_id c;
     cn_assignments := cn_assignments c; cn_auto_commit := true;
     cn_auto_commit_interval := default (cn_auto_commit_interval c) interval;
     cn_heartbeat_task := cn_heartbeat_task c |}.

Definition get_offset (topic : string) (partition : Z) (c : Consumer) : option Z :=
  cn_offsets c !! (topic, partition).
Definition seek (topic : string) (partition offset : Z) (c : Consumer) : Consumer :=
  cn_set_offsets (<[(topic, partition) := offset]>) c.
Definition Consumer_commit_offset (topic : string) (partition offset : Z) (c : Consumer) : Consumer :=
  cn_set_offsets (<[(topic, partition) := offset]>) c.

(** ** Heartbeat tasks *)
(** The program that holds a consumer: the group and member that each task reports. *)
Record Process : Type := {
  pc_consumer : Consumer;
  pc_tasks : gmap nat (string * string);
}.
Definition on_consumer (f : Consumer → Consumer) (pc : Process) : Process :=
  {| pc_consumer := f (pc_consumer pc); pc_tasks := pc_tasks pc |}.

Definition spawn (task : string * string) (pc : Process) : Process * nat :=
  let handle := fresh (dom (pc_tasks pc)) in
  ({| pc_consumer := pc_consumer pc; pc_tasks := <[handle := task]> (pc_tasks pc) |}, handle).

(** [if let Some(task) = self.heartbeat_task.take() { task.abort() }] *)
Definition abort_task (pc : Process) : Process :=
  match cn_heartbeat_task (pc_consumer pc) with
  | Some handle =>
      {| pc_consumer := cn_set_task None (pc_consumer pc); pc_tasks := delete handle (pc_tasks pc) |}
  | None => pc
  end.

(** The two [unwrap]s panic when the consumer is in no group.  A handle that is overwritten
    is dropped, which leaves its task running. *)
Definition start_heartbeat_task (pc : Process) : Process * Result unit :=
  match cn_group_id (pc_consumer pc), cn_member_id (pc_consumer pc) with
  | Some group_id, Some member_id =>
      let '(pc, handle) := spawn (group_id, member_id) pc in
      (on_consumer (cn_set_task (Some handle)) pc, Ok tt)
  | _, _ => (pc, Panic)
  end.

Definition Consumer_drop : Process → Process := abort_task.

Section consumer.
Context `{Connection W} `{HashIter}.

Abbreviation Session := (Method (W * Process)).

(** One round of the loop of a task: a transport error ends the loop. *)
Definition heartbeat_round (handle : nat) (s : W * Process) : W * Process :=
  let '(w, pc) := s in
  match pc_tasks pc !! handle with
  | None => (w, pc)
  | Some (group_id, member_id) =>
      match call (Heartbeat group_id member_id) w with
      | (w, Ok _) => (w, pc)
      | (w, _) => (w, {| pc_consumer := pc_consumer pc; pc_tasks := delete handle (pc_tasks pc) |})
      end
  end.

Definition the_consumer : Session Consumer := λ s, (s, Ok (pc_consumer s.2)).
Definition update_consumer (f : Consumer → Consumer) : Session unit := update_client (on_consumer f).

Definition in_process {A} (f : Process → Process * Result A) : Session A :=
  λ '(w, pc), let '(pc, r) := f pc in ((w, pc), r).

Definition fetch_committed_offset (topic : string) (partition : Z) : Session Z :=
  c ← the_consumer;
  match cn_group_id c with
  | None => eff_lift Panic
  | Some group_id =>
      on_connection (exchange (FetchOffset group_id topic partition) (λ response,
        match response with
        | FetchOffsetSuccess _ _ _ offset => Ok offset
        | FetchOffsetError error => Err (Protocol error)
        | _ => unexpected
        end))
  end.

(** The loop of [join_group] over the assignments. *)
Fixpoint init_offsets (assignments : list PartitionAssignment) : Session unit :=
  match assignments with
  | [] => mret tt
  | assignment :: assignments =>
      offset ← fetch_committed_offset (pa_topic assignment) (pa_partition assignment);
      _ ← update_consumer (cn_set_offsets
            (<[(pa_topic assignment, pa_partition assignment) := offset]>));
      init_offsets assignments
  end.

Definition Consumer_join_group (topics : list string) : Session unit :=
  c ← the_consumer;
  group_id ← eff_lift (ok_or (Protocol "Group ID not set") (cn_group_id c));
  '(member_id, assignments) ← on_connection
    (exchange (JoinGroup group_id (cn_member_id c) topics) (λ response,
      match response with
      | JoinGroupSuccess _ member_id assignments => Ok (member_id, assignments)
      | JoinGroupError error => Err (Protocol error)
      | _ => unexpected
      end));
  _ ← update_consumer (λ c, cn_set_group (cn_group_id c) (Some member_id) assignments c);
  _ ← init_offsets assignments;
  in_process start_heartbeat_task.

Definition Consumer_leave_group : Session unit :=
  c ← the_consumer;
  group_id ← eff_lift (ok_or (Protocol "Not in a group") (cn_group_id c));
  member_id ← eff_lift (ok_or (Protocol "Member ID not set") (cn_member_id c));
  _ ← update_client abort_task;
  _ ← on_connection (exchange (LeaveGroup group_id member_id) (λ response,
        match response with
        | LeaveGroupSuccess _ => Ok tt
        | LeaveGroupError error => Err (Protocol error)
        | _ => unexpected
        end));
  update_consumer (λ c, cn_set_group (cn_group_id c) None [] c).

(** The loop of [commit_offsets]. *)
Fixpoint commit_all (group_id : string) (offsets : list (string * Z * Z)) : Method W unit :=
  match offsets with
  | [] => mret tt
  | (topic, partition, offset) :: offsets =>
      _ ← exchange (CommitOffset group_id topic partition offset) (λ response,
            match response with
            | CommitOffsetSuccess _ _ _ _ => Ok tt
            | CommitOffsetError error => Err (Protocol error)
            | _ => unexpected
            end);
      commit_all group_id offsets
  end.

Definition commit_offsets : Session unit :=
  c ← the_consumer;
  group_id ← eff_lift (ok_or (Protocol "Not in a consumer group") (cn_group_id c));
  on_connection (commit_all group_id (map_iter (cn_offsets c))).

Definition get_topic_metadata (topic : string) : Method W TopicMetadata :=
  exchange (GetMetadata [topic]) (λ response,
    match response with
    | Metadata [] => Err (TopicNotFound topic)
    | Metadata (t :: _) => Ok t
    | MetadataError error => Err (Protocol error)
    | _ => unexpected
    end).

Fixpoint subscribe (topics : list string) : Session unit :=
  match topics with
  | [] => mret tt
  | topic :: topics =>
      metadata ← on_connection (get_topic_metadata topic);
      let partition_ids := seqZ 0 (w32 (Z.of_nat (length (tm_partitions metadata)))) in
      _ ← update_consumer (cn_set_subscriptions (<[topic := partition_ids]>));
      _ ← update_consumer (cn_set_offsets (λ offsets,
            foldl (λ offsets partition_id, <[(topic, partition_id) := 0]> offsets) offsets partition_ids));
      subscribe topics
  end.

Definition fetch (topic : string) (partition offset max_messages : Z) : Method W (list Record_) :=
  exchange (Fetch topic partition offset max_messages) (λ response,
    match response with
    | FetchSuccess _ _ records => Ok records
    | FetchError error => Err (Protocol error)
    | _ => unexpected
    end).

(** The body of the loops of [poll] and [poll_group]. *)
Definition poll_partition (topic : string) (partition max_messages : Z) (all_records : list Record_)
    : Session (list Record_) :=
  c ← the_consumer;
  let current_offset := default 0 (cn_offsets c !! (topic, partition)) in
  records ← on_connection (fetch topic partition current_offset max_messages);
  _ ← (match last records with
       | Some last_record =>
           update_consumer (cn_set_offsets (<[(topic, partition) := w64 (rec_offset last_record + 1)]>))
       | None => mret tt
       end);
  mret (all_records ++ records).

Fixpoint poll_partitions (topic : string) (partitions : list Z) (max_messages : Z)
    (all_records : list Record_) : Session (list Record_) :=
  match partitions with
  | [] => mret all_records
  | partition :: partitions =>
      all_records ← poll_partition topic partition max_messages all_records;
      poll_partitions topic partitions max_messages all_records
  end.

Fixpoint poll_topics (subscriptions : list (string * list Z)) (max_messages : Z)
    (all_records : list Record_) : Session (list Record_) :=
  match subscriptions with
  | [] => mret all_records
  | (topic, partitions) :: subscriptions =>
      all_records ← poll_partitions topic partitions max_messages all_records;
      poll_topics subscriptions max_messages all_records
  end.

Definition poll (max_messages : Z) : Session (list Record_) :=
  c ← the_consumer;
  poll_topics (map_iter (cn_subscriptions c)) max_messages [].

Fixpoint poll_assignments (assignments : list PartitionAssignment) (max_messages : Z)
    (all_records : list Record_) : Session (list Record_) :=
  match assignments with
  | [] => mret all_records
  | assignment :: assignments =>
      all_records ← poll_partition (pa_topic assignment) (pa_partition assignment) max_messages all_records;
      poll_assignments assignments max_messages all_records
  end.

(** [if let Err(e) = ... { warn!(...) }] *)
Definition logged (m : Session unit) : Session unit := λ s,
  match m s with
  | (s, Err _) => (s, Ok tt)
  | (s, r) => (s, r)
  end.

Definition poll_group (max_messages : Z) : Session (list Record_) :=
  c ← the_consumer;
  match cn_assignments c with
  | [] => mret []
  | assignments =>
      all_records ← poll_assignments assignments max_messages [];
      _ ← (if cn_auto_commit c && negb (bool_decide (all_records = [])) then
             logged commit_offsets
           else mret tt);
      mret all_records
  end.

End consumer.

(** ** Positions and what a poll reads *)
Definition position (offsets : gmap (string * Z) Z) (k : string * Z) : Z := default 0 (offsets !! k).

(** What one fetch of a partition returns. *)
Definition fetched (b : broker_spec) (offsets : gmap (string * Z) Z) (max_messages : Z)
    (k : string * Z) : list Record_ :=
  let o := position offsets k in
  records_at k.1 k.2 o (take (Z.to_nat max_messages) (drop (Z.to_nat o) (default [] (log_of b k)))).

(** The pairs that a list of subscriptions visits. *)
Definition pairs_of (subscriptions : list (string * list Z)) : list (string * Z) :=
  mjoin ((λ '(t, ps), (λ p, (t, p)) <$> ps) <$> subscriptions).

Definition record_key (r : Record_) : string * Z := (rec_topic r, rec_partition r).

(** The partition exists and its offsets fit their type; the position is an offset. *)
Definition readable (b : broker_spec) (offsets : gmap (string * Z) Z) (k : string * Z) : Prop :=
  is_u32 k.2 ∧ is_u64 (position offsets k) ∧
  ∃ log, log_of b k = Some log ∧ Z.of_nat (length log) < 2 ^ 64.

Lemma mjoin_cons {A} (l : list A) ls : mjoin (l :: ls) = l ++ mjoin ls.
Proof. done. Qed.

Lemma length_records_at t p o ms : length (records_at t p o ms) = length ms.
Proof. revert o. induction ms as [|m ms IH]; intros o; [done|]. cbn. by rewrite IH. Qed.

Lemma records_at_app t p o ms1 ms2 :
  records_at t p o (ms1 ++ ms2) =
    records_at t p o ms1 ++ records_at t p (o + Z.of_nat (length ms1)) ms2.
Proof.
  revert o. induction ms1 as [|m ms1 IH]; intros o; cbn [app records_at length].
  { by rewrite Z.add_0_r. }
  rewrite IH. do 2 f_equal. f_equal. lia.
Qed.

Lemma records_at_key t p o ms r : r ∈ records_at t p o ms → record_key r = (t, p).
Proof.
  revert o. induction ms as [|m ms IH]; intros o; cbn [records_at]; [by intros ?%elem_of_nil|].
  intros [->|Hin]%elem_of_cons; [done|by apply (IH (o + 1))].
Qed.

Lemma last_records_at t p o ms :
  rec_offset <$> last (records_at t p o ms) =
    if decide (ms = []) then None else Some (o + Z.of_nat (length ms) - 1).
Proof.
  destruct ms as [|m ms _] using rev_ind; [done|].
  rewrite records_at_app, decide_False by (by destruct ms). cbn [records_at].
  rewrite last_snoc, length_app. cbn [fmap option_fmap option_map rec_offset length]. f_equal. lia.
Qed.

Lemma filter_key_fetched b offsets max k k' :
  filter (λ r, record_key r = k) (fetched b offsets max k') =
    if decide (k' = k) then fetched b offsets max k' else [].
Proof.
  assert (Forall (λ r, record_key r = k') (fetched b offsets max k')) as Hall.
  { apply Forall_forall. intros r Hr. unfold fetched in Hr. apply records_at_key in Hr as ->.
    by destruct k'. }
  destruct (decide (k' = k)) as [<-|Hne].
  - by apply list_filter_all.
  - apply list_filter_none. eapply Forall_impl; [exact Hall|]. cbn. congruence.
Qed.

Lemma filter_key_all b offsets max k ks :
  NoDup ks →
  filter (λ r, record_key r = k) (mjoin (fetched b offsets max <$> ks)) =
    if decide (k ∈ ks) then fetched b offsets max k else [].
Proof.
  induction 1 as [|k' ks Hk Hnd IH].
  { by rewrite decide_False by apply not_elem_of_nil. }
  rewrite fmap_cons, mjoin_cons, filter_app, filter_key_fetched, IH.
  destruct (decide (k' = k)) as [->|Hne].
  - rewrite (decide_False (P := k ∈ ks)), decide_True by (done || by left). by rewrite app_nil_r.
  - cbn [app]. destruct (decide (k ∈ ks)) as [Hin|Hin].
    + by rewrite decide_True by (by right).
    + rewrite decide_False; [done|]. intros [?|?]%elem_of_cons; congruence.
Qed.

Lemma NoDup_pairs_of l :
  NoDup l.*1 → Forall (λ '(_, ps), NoDup ps) l → NoDup (pairs_of l).
Proof.
  unfold pairs_of. induction l as [|[t ps] l IH]; intros Hnd Hall; [constructor|].
  rewrite fmap_cons in Hnd. apply NoDup_cons in Hnd as [Ht Hnd]. apply Forall_cons in Hall as [Hps Hall].
  rewrite fmap_cons, mjoin_cons. apply NoDup_app. split_and!.
  - apply NoDup_fmap_2; [intros ???; congruence|done].
  - intros k (p & -> & Hp)%list_elem_of_fmap (x & Hin & Hx)%list_elem_of_join. apply Ht.
    apply list_elem_of_fmap in Hx as ([t' ps'] & -> & Hx). apply list_elem_of_fmap in Hin as (p' & [= <- <-] & _).
    apply list_elem_of_fmap. by exists (t, ps').
  - by apply IH.
Qed.

Lemma elem_of_pairs_of l t p : (t, p) ∈ pairs_of l ↔ ∃ ps, (t, ps) ∈ l ∧ p ∈ ps.
Proof.
  unfold pairs_of. rewrite list_elem_of_join. split.
  - intros (x & Hin & ([t' ps] & -> & Hx)%list_elem_of_fmap).
    apply list_elem_of_fmap in Hin as (p' & [= -> ->] & Hp). by exists ps.
  - intros (ps & Hl & Hp). exists ((λ p, (t, p)) <$> ps). split.
    + apply list_elem_of_fmap. by exists p.
    + apply list_elem_of_fmap. by exists (t, ps).
Qed.

Section consumer_facts.
Context `{BrokerConnection W lag} `{HashIterLaws}.
Implicit Types (w : W) (pc : Process).

Lemma Consumer_fetch_served w b room t p o max log :
  serves w b room → log_of b (t, p) = Some log → is_u32 p → is_u64 o → is_u32 max →
  ∃ w', fetch t p o max w = (w', Ok (records_at t p o (take (Z.to_nat max) (drop (Z.to_nat o) log)))) ∧
    serves w' b room.
Proof.
  intros Hs Hlog Hp Ho Hmax. unfold fetch, log_of in *. cbn [fst snd] in Hlog.
  match goal with |- context [exchange _ ?k] =>
    destruct (exchange_served w b room (Fetch t p o max) k Hs) as (w' & response & He & Hr & Hs') end.
  { by split_and!. }
  cbn [response_ok spec_step produced] in Hr, Hs'. rewrite Nat.sub_0_r in Hs'.
  destruct (bs_topics b !! t) as [logs|]; [|done]. cbn in Hlog. rewrite Hlog in Hr. subst response.
  exists w'. by split.
Qed.

(** The offsets after the partitions [ks] were polled. *)
Record advanced (b : broker_spec) (offsets offsets' : gmap (string * Z) Z) (max : Z)
    (ks : list (string * Z)) : Prop := {
  adv_others : ∀ k, k ∉ ks → offsets' !! k = offsets !! k;
  adv_position : ∀ k, position offsets' k =
    position offsets k + (if decide (k ∈ ks) then Z.of_nat (length (fetched b offsets max k)) else 0);
}.

Lemma poll_partition_served w pc b room max k acc :
  serves w b room → readable b (cn_offsets (pc_consumer pc)) k → is_u32 max →
  ∃ w' offsets', poll_partition k.1 k.2 max acc (w, pc) =
      ((w', on_consumer (cn_set_offsets (λ _, offsets')) pc),
       Ok (acc ++ fetched b (cn_offsets (pc_consumer pc)) max k)) ∧
    serves w' b room ∧ advanced b (cn_offsets (pc_consumer pc)) offsets' max [k].
Proof.
  destruct k as [t p]. cbn [fst snd]. set (offs := cn_offsets (pc_consumer pc)).
  intros Hs (Hp & Ho & log & Hlog & Hlen) Hmax. cbn [snd] in Hp.
  set (o := position offs (t, p)) in *.
  destruct (Consumer_fetch_served w b room t p o max log Hs Hlog Hp Ho Hmax) as (w' & Hf & Hs').
  assert (fetched b offs max (t, p) =
    records_at t p o (take (Z.to_nat max) (drop (Z.to_nat o) log))) as Hfe.
  { unfold fetched. by rewrite Hlog. }
  set (ms := take (Z.to_nat max) (drop (Z.to_nat o) log)) in *.
  unfold poll_partition, the_consumer, on_connection, mbind, eff_bind. cbn [snd].
  fold offs. fold (position offs (t, p)). fold o. rewrite Hf.
  pose proof (last_records_at t p o ms) as Hlast.
  destruct (decide (ms = [])) as [Hms|Hms].
  - destruct (last (records_at t p o ms)); [done|].
    exists w', offs. unfold mret, eff_ret. rewrite Hfe. split_and!; [|done|].
    + unfold on_consumer, cn_set_offsets. subst offs. destruct pc as [[] ?]; done.
    + split; [done|]. intros k'. rewrite Hms in Hfe. destruct (decide (k' ∈ [(t, p)])) as [->%list_elem_of_singleton|]; [|lia].
      rewrite Hfe. simpl. lia.
  - destruct (last (records_at t p o ms)) as [r|]; [|done]. injection Hlast as Hr.
    assert (Z.of_nat (length ms) + o ≤ Z.of_nat (length log)) as Hle.
    { assert (0 < length ms)%nat by (destruct ms; [done|simpl; lia]).
      subst ms. rewrite length_take, length_drop in *. unfold is_u64 in Ho. lia. }
    exists w', (<[(t, p) := o + Z.of_nat (length ms)]> offs).
    unfold update_consumer, update_client, mret, eff_ret. rewrite Hr, Hfe.
    rewrite w64_small by (unfold is_u64 in *; lia).
    replace (o + Z.of_nat (length ms) - 1 + 1) with (o + Z.of_nat (length ms)) by lia.
    split_and!; [done|done|]. split.
    { intros k' Hk. apply lookup_insert_ne. intros <-. apply Hk. by left. }
    intros k'. unfold position at 1.
    destruct (decide (k' ∈ [(t, p)])) as [->%list_elem_of_singleton|Hk].
    + rewrite lookup_insert_eq, Hfe, length_records_at. done.
    + rewrite lookup_insert_ne; [unfold position; lia|]. intros Heq. apply Hk. rewrite Heq. by left.
Qed.

(** Both loops are this one over the pairs they visit. *)
Fixpoint poll_pairs (ks : list (string * Z)) (max : Z) (acc : list Record_)
    : Method (W * Process) (list Record_) :=
  match ks with
  | [] => mret acc
  | k :: ks => acc ← poll_partition k.1 k.2 max acc; poll_pairs ks max acc
  end.

Lemma poll_pairs_app ks ks' max acc s :
  poll_pairs (ks ++ ks') max acc s = (acc ← poll_pairs ks max acc; poll_pairs ks' max acc) s.
Proof.
  revert acc s. induction ks as [|k ks IH]; intros acc s; [done|].
  cbn [app poll_pairs]. unfold mbind, eff_bind.
  destruct (poll_partition k.1 k.2 max acc s) as [s' [acc'|e|]]; [apply IH|done|done].
Qed.

Lemma poll_partitions_pairs t ps max acc s :
  poll_partitions t ps max acc s = poll_pairs ((λ p, (t, p)) <$> ps) max acc s.
Proof.
  revert acc s. induction ps as [|p ps IH]; intros acc s; [done|].
  rewrite fmap_cons. cbn [poll_partitions poll_pairs fst snd]. unfold mbind, eff_bind.
  destruct (poll_partition t p max acc s) as [s' [acc'|e|]]; [apply IH|done|done].
Qed.

Lemma poll_topics_pairs l max acc s : poll_topics l max acc s = poll_pairs (pairs_of l) max acc s.
Proof.
  revert acc s. induction l as [|[t ps] l IH]; intros acc s; [done|].
  unfold pairs_of. rewrite fmap_cons, mjoin_cons, poll_pairs_app. cbn [poll_topics].
  unfold mbind, eff_bind. rewrite poll_partitions_pairs.
  destruct (poll_pairs _ max acc s) as [s' [acc'|e|]]; [apply IH|done|done].
Qed.

Lemma poll_assignments_pairs l max acc s :
  poll_assignments l max acc s = poll_pairs ((λ a, (pa_topic a, pa_partition a)) <$> l) max acc s.
Proof.
  revert acc s. induction l as [|a l IH]; intros acc s; [done|].
  rewrite fmap_cons. cbn [poll_assignments poll_pairs fst snd]. unfold mbind, eff_bind.
  destruct (poll_partition _ _ max acc s) as [s' [acc'|e|]]; [apply IH|done|done].
Qed.

Lemma fetched_position b offsets offsets' max k :
  position offsets' k = position offsets k → fetched b offsets' max k = fetched b offsets max k.
Proof. intros Hp. unfold fetched. by rewrite Hp. Qed.

Lemma poll_pairs_served w pc b room max ks acc :
  serves w b room → Forall (readable b (cn_offsets (pc_consumer pc))) ks → NoDup ks → is_u32 max →
  ∃ w' offsets', poll_pairs ks max acc (w, pc) =
      ((w', on_consumer (cn_set_offsets (λ _, offsets')) pc),
       Ok (acc ++ mjoin (fetched b (cn_offsets (pc_consumer pc)) max <$> ks))) ∧
    serves w' b room ∧ advanced b (cn_offsets (pc_consumer pc)) offsets' max ks.
Proof.
  intros Hs Hall Hnd Hmax. revert w pc acc Hs Hall.
  induction Hnd as [|k ks Hk Hnd IH]; intros w pc acc Hs Hall.
  { exists w, (cn_offsets (pc_consumer pc)). cbn [poll_pairs fmap list_fmap]. rewrite app_nil_r.
    split_and!; [|done|]; [by destruct pc as [[] ?]|]. split; [done|].
    intros k. rewrite decide_False by apply not_elem_of_nil. lia. }
  apply Forall_cons in Hall as [Hr Hall].
  destruct (poll_partition_served w pc b room max k acc Hs Hr Hmax) as (w1 & offs1 & Hp & Hs1 & [Hkeep1 Hadv1]).
  set (offs := cn_offsets (pc_consumer pc)) in *.
  set (pc1 := on_consumer (cn_set_offsets (λ _, offs1)) pc) in *.
  assert (∀ k', k' ≠ k → position offs1 k' = position offs k') as Hsame.
  { intros k' Hne. rewrite Hadv1, decide_False by (by rewrite list_elem_of_singleton). lia. }
  destruct (IH w1 pc1 (acc ++ fetched b offs max k) Hs1) as (w2 & offs2 & Hp2 & Hs2 & [Hkeep2 Hadv2]).
  { rewrite Forall_forall in Hall |- *. intros k' Hin. destruct (Hall k' Hin) as (Hu & Ho & Hlog). cbn [pc1 on_consumer cn_set_offsets
      pc_consumer cn_offsets]. split_and!; [done| |done]. rewrite Hsame; [done|]. congruence. }
  change (cn_offsets (pc_consumer pc1)) with offs1 in *.
  assert (fetched b offs1 max <$> ks = fetched b offs max <$> ks) as Hfe.
  { apply list_fmap_ext. intros i k' Hi. apply fetched_position, Hsame.
    apply list_elem_of_lookup_2 in Hi. congruence. }
  exists w2, offs2. cbn [poll_pairs]. unfold mbind, eff_bind. rewrite Hp, Hp2, Hfe.
  rewrite fmap_cons, mjoin_cons, app_assoc. split_and!; [done|done|]. split.
  { intros k' [Hne Hk']%not_elem_of_cons. rewrite Hkeep2 by done.
    apply Hkeep1. by rewrite list_elem_of_singleton. }
  intros k'. rewrite Hadv2. destruct (decide (k' = k)) as [->|Hne].
  - rewrite (decide_False (P := k ∈ ks)), (decide_True (P := k ∈ k :: ks)) by (done || by left).
    rewrite Hadv1, decide_True by (by left). lia.
  - rewrite Hsame, (fetched_position b offs offs1) by (done || by apply Hsame).
    assert (k' ∈ k :: ks ↔ k' ∈ ks) as Hiff by (rewrite elem_of_cons; split; [by intros [?|?]|by right]).
    by rewrite (decide_ext _ _ _ _ Hiff).
Qed.

End consumer_facts.

(** ** Polling *)
Definition subscribed_pairs (c : Consumer) (ks : list (string * Z)) : Prop :=
  NoDup ks ∧ ∀ t p, (t, p) ∈ ks ↔ ∃ ps, cn_subscriptions c !! t = Some ps ∧ p ∈ ps.

Record subscriptions_ok (b : broker_spec) (c : Consumer) : Prop := {
  su_nodup : ∀ t ps, cn_subscriptions c !! t = Some ps → NoDup ps;
  su_readable : ∀ t ps p, cn_subscriptions c !! t = Some ps → p ∈ ps →
    readable b (cn_offsets c) (t, p);
}.

(** A broker whose logs have only grown. *)
Definition logs_extend (b b' : broker_spec) : Prop :=
  ∀ k log, log_of b k = Some log → ∃ more, log_of b' k = Some (log ++ more) ∧
    Z.of_nat (length (log ++ more)) < 2 ^ 64.

(** A run of a consumer: it polls, and in between others use the broker. *)
Inductive poll_run `{BrokerConnection W lag} `{HashIter} (max : Z) (s0 : W * Process) (b0 : broker_spec) :
    list Record_ → W * Process → broker_spec → Prop :=
  | poll_run_start : poll_run max s0 b0 [] s0 b0
  | poll_run_poll rs s b s' rs' :
      poll_run max s0 b0 rs s b → poll max s = (s', Ok rs') → poll_run max s0 b0 (rs ++ rs') s' b
  | poll_run_others rs w pc b w' b' room' :
      poll_run max s0 b0 rs (w, pc) b → serves w' b' room' → logs_extend b b' →
      poll_run max s0 b0 rs (w', pc) b'.

Lemma subscribed_map_iter `{HashIterLaws} b c :
  subscriptions_ok b c →
  subscribed_pairs c (pairs_of (map_iter (cn_subscriptions c))) ∧
  Forall (readable b (cn_offsets c)) (pairs_of (map_iter (cn_subscriptions c))).
Proof.
  intros [Hnd Hr].
  assert (∀ t p, (t, p) ∈ pairs_of (map_iter (cn_subscriptions c)) ↔
    ∃ ps, cn_subscriptions c !! t = Some ps ∧ p ∈ ps) as Hin.
  { intros t p. rewrite elem_of_pairs_of. by setoid_rewrite elem_of_map_iter. }
  split; [split|]; [|exact Hin|].
  - apply NoDup_pairs_of; [apply NoDup_map_iter|]. apply Forall_forall. intros [t ps] Hi.
    apply elem_of_map_iter in Hi. by apply (Hnd t).
  - apply Forall_forall. intros [t p] (ps & Hl & Hp)%Hin. by apply (Hr t ps).
Qed.

Section polling.
Context `{BrokerConnection W lag} `{HashIterLaws}.

Lemma poll_served w pc b room max :
  serves w b room → subscriptions_ok b (pc_consumer pc) → is_u32 max →
  ∃ w' offsets' ks rs, poll max (w, pc) = ((w', on_consumer (cn_set_offsets (λ _, offsets')) pc), Ok rs) ∧
    serves w' b room ∧ subscribed_pairs (pc_consumer pc) ks ∧
    advanced b (cn_offsets (pc_consumer pc)) offsets' max ks ∧
    ∀ k, k ∈ ks → filter (λ r, record_key r = k) rs = fetched b (cn_offsets (pc_consumer pc)) max k.
Proof.
  intros Hs Hsub Hmax. destruct (subscribed_map_iter b (pc_consumer pc) Hsub) as [Hks Hall].
  set (ks := pairs_of (map_iter (cn_subscriptions (pc_consumer pc)))) in *.
  destruct (poll_pairs_served w pc b room max ks [] Hs Hall (proj1 Hks) Hmax)
    as (w' & offs' & Hp & Hs' & Hadv).
  exists w', offs', ks, (mjoin (fetched b (cn_offsets (pc_consumer pc)) max <$> ks)).
  split_and!; try done.
  - unfold poll, the_consumer, mbind, eff_bind. cbn [snd]. by rewrite poll_topics_pairs.
  - intros k Hk. by rewrite filter_key_all, decide_True by (done || apply Hks).
Qed.

Lemma fetched_length b offsets max k :
  (length (fetched b offsets max k) =
    Z.to_nat max `min` (length (default [] (log_of b k)) - Z.to_nat (position offsets k)))%nat.
Proof. unfold fetched. by rewrite length_records_at, length_take, length_drop. Qed.

Lemma advanced_subscribed b c offsets' max ks :
  subscriptions_ok b c → advanced b (cn_offsets c) offsets' max ks →
  subscriptions_ok b (cn_set_offsets (λ _, offsets') c).
Proof.
  intros [Hnd Hr] [_ Hadv]. split; [exact Hnd|]. intros t ps p Hl Hp.
  destruct (Hr t ps p Hl Hp) as (Hu & Ho & log & Hlog & Hlen).
  cbn [cn_set_offsets cn_offsets]. split_and!; [done| |by exists log].
  rewrite Hadv, fetched_length, Hlog. cbn [default]. unfold id, is_u64 in *.
  destruct (decide _); lia.
Qed.

Lemma extend_subscribed b b' c : subscriptions_ok b c → logs_extend b b' → subscriptions_ok b' c.
Proof.
  intros [Hnd Hr] Hext. split; [exact Hnd|]. intros t ps p Hl Hp.
  destruct (Hr t ps p Hl Hp) as (Hu & Ho & log & Hlog & Hlen).
  destruct (Hext _ _ Hlog) as (more & Hlog' & Hlen'). split_and!; [done..|]. by exists (log ++ more).
Qed.

(** What a run has delivered of a partition, from the position it started at. *)
Definition delivered (b : broker_spec) (k : string * Z) (from to : Z) : list Record_ :=
  records_at k.1 k.2 from
    (take (Z.to_nat (to - from)) (drop (Z.to_nat from) (default [] (log_of b k)))).

Lemma delivered_extend b b' k log from to :
  log_of b k = Some log → logs_extend b b' → 0 ≤ from ≤ to →
  to = from ∨ to ≤ Z.of_nat (length log) →
  delivered b' k from to = delivered b k from to.
Proof.
  intros Hlog Hext Hft Hto. destruct (Hext _ _ Hlog) as (more & Hlog' & _).
  unfold delivered. rewrite Hlog, Hlog'. cbn [default]. unfold id. f_equal.
  destruct Hto as [->|Hto]; [by rewrite Z.sub_diag|].
  rewrite drop_app_le, take_app_le; [done| |lia]. rewrite length_drop. lia.
Qed.

Lemma delivered_fetched b k offsets max from :
  0 ≤ from ≤ position offsets k →
  position offsets k = from ∨ position offsets k ≤ Z.of_nat (length (default [] (log_of b k))) →
  delivered b k from (position offsets k) ++ fetched b offsets max k =
    delivered b k from (position offsets k + Z.of_nat (length (fetched b offsets max k))).
Proof.
  intros Hf Hp. set (log := default [] (log_of b k)) in *. set (o := position offsets k) in *.
  assert (length (take (Z.to_nat (o - from)) (drop (Z.to_nat from) log)) = Z.to_nat (o - from)) as Hl.
  { rewrite length_take, length_drop. lia. }
  rewrite fetched_length. fold log o. unfold delivered, fetched. fold log o.
  replace o with (from + Z.of_nat (length (take (Z.to_nat (o - from)) (drop (Z.to_nat from) log))))
    at 2 by (rewrite Hl; lia).
  rewrite <-records_at_app. f_equal.
  replace (drop (Z.to_nat o) log) with (drop (Z.to_nat (o - from)) (drop (Z.to_nat from) log))
    by (rewrite drop_drop; f_equal; lia).
  rewrite take_take_drop. set (l := drop (Z.to_nat from) log).
  destruct (decide (Z.to_nat max ≤ length log - Z.to_nat o)%nat).
  - f_equal. lia.
  - rewrite (take_ge l) by (subst l; rewrite length_drop; lia).
    symmetry. apply take_ge. subst l. rewrite length_drop. lia.
Qed.

End polling.

Section poll_runs.
Context `{BrokerConnection W lag} `{HashIterLaws}.

(** The invariant of a run from [s0]. *)
Record run_ok (max : Z) (pc0 : Process) (rs : list Record_) (s : W * Process) (b : broker_spec) : Prop := {
  ro_serves : ∃ room, serves s.1 b room;
  ro_same : cn_subscriptions (pc_consumer s.2) = cn_subscriptions (pc_consumer pc0);
  ro_subscribed : subscriptions_ok b (pc_consumer s.2);
  ro_delivered : ∀ t ps p, cn_subscriptions (pc_consumer pc0) !! t = Some ps → p ∈ ps →
    let from := position (cn_offsets (pc_consumer pc0)) (t, p) in
    let to := position (cn_offsets (pc_consumer s.2)) (t, p) in
    0 ≤ from ≤ to ∧ (to = from ∨ to ≤ Z.of_nat (length (default [] (log_of b (t, p))))) ∧
    filter (λ r, record_key r = (t, p)) rs = delivered b (t, p) from to;
}.

Lemma run_ok_start max w pc b room :
  serves w b room → subscriptions_ok b (pc_consumer pc) → run_ok max pc [] (w, pc) b.
Proof.
  intros Hs Hsub. split; [by exists room|done|done|]. intros t ps p Hl Hp from to.
  destruct (su_readable _ _ Hsub t ps p Hl Hp) as (_ & Ho & _). unfold is_u64 in Ho.
  subst from to. cbn [snd]. unfold delivered. rewrite Z.sub_diag. cbn. split_and!; [lia|lia|by left|done].
Qed.

Lemma run_ok_others max pc0 rs w pc b w' b' room' :
  run_ok max pc0 rs (w, pc) b → serves w' b' room' → logs_extend b b' → run_ok max pc0 rs (w', pc) b'.
Proof.
  intros [_ Hsame Hsub Hd] Hs Hext. cbn [snd fst] in *. split; cbn [snd fst];
    [by exists room'|done|by eapply extend_subscribed|].
  intros t ps p Hl Hp. destruct (Hd t ps p Hl Hp) as (Hft & Hto & Hf). rewrite <-Hsame in Hl.
  destruct (su_readable _ _ Hsub t ps p Hl Hp) as (_ & _ & log & Hlog & _).
  destruct (Hext _ _ Hlog) as (more & Hlog' & _).
  rewrite Hlog in Hto. split_and!; [lia|lia| |].
  - rewrite Hlog'. cbn [default] in *. unfold id in *. rewrite length_app. lia.
  - rewrite Hf. symmetry. by eapply delivered_extend.
Qed.

Lemma run_ok_poll max pc0 rs w pc b :
  is_u32 max → run_ok max pc0 rs (w, pc) b →
  ∃ s' rs', poll max (w, pc) = (s', Ok rs') ∧ run_ok max pc0 (rs ++ rs') s' b ∧
    ∀ t ps p, cn_subscriptions (pc_consumer pc0) !! t = Some ps → p ∈ ps →
      filter (λ r, record_key r = (t, p)) rs' = fetched b (cn_offsets (pc_consumer pc)) max (t, p).
Proof.
  intros Hmax [[room Hs] Hsame Hsub Hd]. cbn [fst snd] in *.
  destruct (poll_served w pc b room max Hs Hsub Hmax)
    as (w' & offs' & ks & rs' & Hp & Hs' & [Hnd Hks] & Hadvd & Hrs). rewrite Hsame in Hks.
  eexists _, _. split; [exact Hp|]. split; [|intros t ps p Hl Hin; apply Hrs, Hks; by exists ps].
  split; cbn [fst snd]; [by exists room|done|by eapply advanced_subscribed|].
  intros t ps p Hl Hin. destruct (Hd t ps p Hl Hin) as (Hft & Hto & Hf).
  assert ((t, p) ∈ ks) as Hk by (apply Hks; by exists ps).
  assert (position offs' (t, p) = position (cn_offsets (pc_consumer pc)) (t, p) +
    Z.of_nat (length (fetched b (cn_offsets (pc_consumer pc)) max (t, p)))) as Hto'.
  { by rewrite (adv_position _ _ _ _ _ Hadvd), decide_True. }
  cbn [on_consumer cn_set_offsets pc_consumer cn_offsets]. rewrite Hto'.
  split_and!; [lia|lia| |].
  - rewrite fetched_length. lia.
  - rewrite filter_app, Hf, (Hrs _ Hk). by apply delivered_fetched.
Qed.


End poll_runs.

(** ** Subscribing *)
Lemma foldl_insert_zero (t : string) (ps : list Z) (m : gmap (string * Z) Z) k :
  foldl (λ m p, <[(t, p) := 0]> m) m ps !! k =
    if decide (k ∈ (λ p, (t, p)) <$> ps) then Some 0 else m !! k.
Proof.
  induction ps as [|p ps IH] using rev_ind.
  { by rewrite decide_False by apply not_elem_of_nil. }
  rewrite foldl_app, fmap_app. cbn [foldl fmap list_fmap].
  destruct (decide (k = (t, p))) as [->|Hne].
  - rewrite lookup_insert_eq, decide_True; [done|]. apply elem_of_app. right. by left.
  - rewrite lookup_insert_ne, IH by congruence.
    assert (k ∈ ((λ p, (t, p)) <$> ps) ++ [(t, p)] ↔ k ∈ (λ p, (t, p)) <$> ps) as Hiff.
    { rewrite elem_of_app, list_elem_of_singleton. split; [by intros [?|?]|by left]. }
    by rewrite (decide_ext _ _ _ _ Hiff).
Qed.

Lemma foldl_insert_partitions (b : broker_spec) (t0 : string) (logs : topic_logs)
    (m : gmap (string * Z) Z) (t : string) (p : Z) :
  bs_topics b !! t0 = Some logs →
  foldl (λ m p, <[(t0, p) := 0]> m) m (seqZ 0 (Z.of_nat (length logs))) !! (t, p) =
    if decide (t = t0 ∧ 0 ≤ p ∧ is_Some (log_of b (t, p))) then Some 0 else m !! (t, p).
Proof.
  intros Hl. rewrite foldl_insert_zero.
  assert (((t, p) ∈ (λ p, (t0, p)) <$> seqZ 0 (Z.of_nat (length logs))) ↔
    t = t0 ∧ 0 ≤ p ∧ is_Some (log_of b (t, p))) as Hin; [|by rewrite (decide_ext _ _ _ _ Hin)].
  rewrite list_elem_of_fmap. unfold log_of. cbn [fst snd]. split.
  - intros (p' & [= -> ->] & Hp%elem_of_seqZ). rewrite Hl. split_and!; [done|lia|].
    apply lookup_lt_is_Some_2. lia.
  - intros (-> & Hp & Hlt). rewrite Hl in Hlt. apply lookup_lt_is_Some_1 in Hlt.
    exists p. split; [done|]. apply elem_of_seqZ. lia.
Qed.

(** The topic exists, and its logs fit their types. *)
Definition topic_readable (b : broker_spec) (t : string) : Prop :=
  ∃ logs, bs_topics b !! t = Some logs ∧ is_u32 (Z.of_nat (length logs)) ∧
    Forall (λ log, Z.of_nat (length log) < 2 ^ 64) logs.

Definition subscribe_one (t : string) (n : Z) (c : Consumer) : Consumer :=
  cn_set_offsets (λ offsets, foldl (λ offsets p, <[(t, p) := 0]> offsets) offsets (seqZ 0 n))
    (cn_set_subscriptions (<[t := seqZ 0 n]>) c).

Lemma subscribe_one_ok b t logs c :
  bs_topics b !! t = Some logs → is_u32 (Z.of_nat (length logs)) →
  Forall (λ log, Z.of_nat (length log) < 2 ^ 64) logs →
  subscriptions_ok b c → subscriptions_ok b (subscribe_one t (Z.of_nat (length logs)) c).
Proof.
  intros Hl Hn Hlogs [Hnd Hr]. unfold subscribe_one.
  split; cbn [cn_set_offsets cn_set_subscriptions cn_subscriptions cn_offsets].
  - intros t' ps. destruct (decide (t = t')) as [<-|Hne].
    + rewrite lookup_insert_eq. intros [= <-]. apply NoDup_seqZ.
    + rewrite lookup_insert_ne by done. apply Hnd.
  - intros t' ps p. destruct (decide (t = t')) as [<-|Hne].
    + rewrite lookup_insert_eq. intros [= <-] Hp. pose proof Hp as Hp'. apply elem_of_seqZ in Hp'.
      unfold is_u32 in *. unfold readable, position. cbn [snd].
      rewrite foldl_insert_zero, decide_True by (apply list_elem_of_fmap; by exists p). split_and!; [split; lia|done|].
      destruct (lookup_lt_is_Some_2 logs (Z.to_nat p)) as [log Hlog]; [lia|].
      exists log. unfold log_of. cbn [fst snd]. rewrite Hl. split; [done|].
      by apply (Forall_lookup_1 _ _ _ _ Hlogs Hlog).
    + rewrite lookup_insert_ne by done. intros Hps Hp. destruct (Hr t' ps p Hps Hp) as (Hu & Ho & Hlog).
      split_and!; [done| |done]. unfold position in *. rewrite foldl_insert_zero, decide_False; [done|].
      intros (p' & ? & _)%list_elem_of_fmap. congruence.
Qed.

Section subscribing.
Context `{BrokerConnection W lag}.

Lemma get_topic_metadata_served w b room t logs :
  serves w b room → bs_topics b !! t = Some logs →
  ∃ w', get_topic_metadata t w = (w', Ok (TopicMetadata_new t (Z.of_nat (length logs)))) ∧
    serves w' b room.
Proof.
  intros Hs Hl. unfold get_topic_metadata.
  match goal with |- context [exchange _ ?k] =>
    destruct (exchange_served w b room (GetMetadata [t]) k Hs I) as (w' & response & He & Hr & Hs') end.
  cbn [response_ok spec_step produced] in Hr, Hs'. rewrite Nat.sub_0_r in Hs'.
  destruct Hr as (names & Hnames & ->). destruct (decide ([t] = [])) as [?|_]; [done|]. subst names.
  exists w'. rewrite He. cbn [omap list_omap]. rewrite Hl. by split.
Qed.

Lemma subscribe_served topics w pc b room :
  serves w b room → subscriptions_ok b (pc_consumer pc) → Forall (topic_readable b) topics →
  ∃ w' c', subscribe topics (w, pc) = ((w', on_consumer (λ _, c') pc), Ok tt) ∧
    serves w' b room ∧ subscriptions_ok b c' ∧
    ∀ t, cn_subscriptions c' !! t =
        (if decide (t ∈ topics) then (λ logs : topic_logs, seqZ 0 (Z.of_nat (length logs))) <$> bs_topics b !! t
         else cn_subscriptions (pc_consumer pc) !! t) ∧
      ∀ p, cn_offsets c' !! (t, p) =
        if decide (t ∈ topics ∧ 0 ≤ p ∧ is_Some (log_of b (t, p)))
        then Some 0 else cn_offsets (pc_consumer pc) !! (t, p).
Proof.
  revert w pc. induction topics as [|t0 topics IH]; intros w pc Hs Hsub Hall.
  { exists w, (pc_consumer pc). split_and!; [by destruct pc|done|done|]. intros t.
    rewrite decide_False by apply not_elem_of_nil. split; [done|]. intros p.
    rewrite decide_False; [done|]. by intros [?%elem_of_nil _]. }
  apply Forall_cons in Hall as [(logs & Hl & Hn & Hlogs) Hall].
  destruct (get_topic_metadata_served w b room t0 logs Hs Hl) as (w1 & Hg & Hs1).
  set (pc1 := on_consumer (subscribe_one t0 (Z.of_nat (length logs))) pc).
  destruct (IH w1 pc1 Hs1) as (w2 & c2 & Hs2 & Hsv & Hsub2 & Hc2); [by apply subscribe_one_ok|done|].
  exists w2, c2. cbn [subscribe]. unfold mbind, eff_bind, on_connection. rewrite Hg.
  cbn [TopicMetadata_new tm_partitions]. rewrite length_fmap, length_seqZ, Nat2Z.id, w32_small by done.
  split_and!; [exact Hs2|done|done|]. intros t. destruct (Hc2 t) as [Hsubs Hoffs]. split.
  - rewrite Hsubs. unfold pc1, subscribe_one. cbn [on_consumer pc_consumer cn_set_offsets cn_set_subscriptions cn_subscriptions].
    destruct (decide (t ∈ topics)) as [Hin|Hin].
    { by rewrite decide_True by (by right). }
    destruct (decide (t = t0)) as [->|Hne].
    + by rewrite lookup_insert_eq, decide_True, Hl by (by left).
    + rewrite lookup_insert_ne, decide_False; [done| |done]. by intros [?|?]%elem_of_cons.
  - intros p. rewrite Hoffs. unfold pc1, subscribe_one.
    cbn [on_consumer pc_consumer cn_set_offsets cn_set_subscriptions cn_offsets].
    rewrite (foldl_insert_partitions b t0 logs _ t p Hl).
    destruct (decide (t ∈ topics ∧ 0 ≤ p ∧ is_Some (log_of b (t, p)))) as [[Ht Hr]|Hno].
    { rewrite decide_True; [done|]. split; [by right|done]. }
    destruct (decide (t = t0 ∧ 0 ≤ p ∧ is_Some (log_of b (t, p)))) as [[-> Hr]|Hno'].
    { rewrite decide_True; [done|]. split; [by left|done]. }
    rewrite decide_False; [done|]. intros [[?|?]%elem_of_cons ?]; [by apply Hno'|by apply Hno].
Qed.

(** [subscribe] subscribes to every partition of every topic named, from offset zero,
    leaves the other subscriptions and positions as they were, and establishes what
    [polls_exactly_once] needs. *)
Theorem subscribe_spec topics w pc b room :
  serves w b room → subscriptions_ok b (pc_consumer pc) → Forall (topic_readable b) topics →
  ∃ w' c', subscribe topics (w, pc) = ((w', on_consumer (λ _, c') pc), Ok tt) ∧
    serves w' b room ∧ subscriptions_ok b c' ∧
    ∀ t, cn_subscriptions c' !! t =
        (if decide (t ∈ topics) then (λ logs : topic_logs, seqZ 0 (Z.of_nat (length logs))) <$> bs_topics b !! t
         else cn_subscriptions (pc_consumer pc) !! t) ∧
      ∀ p, cn_offsets c' !! (t, p) =
        if decide (t ∈ topics ∧ 0 ≤ p ∧ is_Some (log_of b (t, p)))
        then Some 0 else cn_offsets (pc_consumer pc) !! (t, p).
Proof. exact (subscribe_served topics w pc b room). Qed.

End subscribing.

(** ** Committing and resuming *)
(** What committing offsets does to the abstract broker. *)
Definition committed_all (g : string) (l : list (string * Z * Z)) (b : broker_spec) : broker_spec :=
  foldl (λ b '(t, p, o), spec_step b (CommitOffset g t p o)) b l.

Lemma committed_all_spec g l b :
  NoDup l.*1 →
  bs_topics (committed_all g l b) = bs_topics b ∧
  (∀ t p, bs_offsets (committed_all g l b) !! (g, t, p) =
    match (list_to_map l : gmap (string * Z) Z) !! (t, p) with
    | Some o => Some o | None => bs_offsets b !! (g, t, p) end) ∧
  ∀ g' t p, g' ≠ g → bs_offsets (committed_all g l b) !! (g', t, p) = bs_offsets b !! (g', t, p).
Proof.
  revert b. induction l as [|[[t0 p0] o0] l IH]; intros b Hnd; [done|].
  rewrite fmap_cons in Hnd. apply NoDup_cons in Hnd as [Hk Hnd]. cbn [fst] in Hk.
  destruct (IH (spec_step b (CommitOffset g t0 p0 o0)) Hnd) as (Ht & Ho & Hg).
  cbn [committed_all foldl]. fold (committed_all g l (spec_step b (CommitOffset g t0 p0 o0))).
  cbn [spec_step bs_topics bs_offsets] in *. split_and!; [done| |].
  - intros t p. rewrite Ho, list_to_map_cons. destruct (decide ((t, p) = (t0, p0))) as [[= -> ->]|Hne].
    + rewrite lookup_insert_eq, lookup_insert_eq.
      by rewrite (proj1 (not_elem_of_list_to_map _ _) Hk).
    + rewrite !lookup_insert_ne by congruence. done.
  - intros g' t p Hne. rewrite Hg by done. rewrite lookup_insert_ne by congruence. done.
Qed.

Section committing.
Context `{BrokerConnection W lag} `{HashIterLaws}.

Lemma commit_all_served g l w b room :
  serves w b room → clean_group g → Forall clean_entry l →
  ∃ w', commit_all g l w = (w', Ok tt) ∧ serves w' (committed_all g l b) room.
Proof.
  intros Hs Hg Hall. revert w b Hs. induction Hall as [|[[t p] o] l He Hall IH]; intros w b Hs; [by exists w|].
  cbn [commit_all]. unfold mbind, eff_bind.
  match goal with |- context [exchange _ ?k] =>
    destruct (exchange_served w b room (CommitOffset g t p o) k Hs (conj Hg He)) as (w1 & response & Hx & Hr & Hs1) end.
  cbn [response_ok produced] in Hr, Hs1. rewrite Nat.sub_0_r in Hs1. subst response.
  destruct (IH w1 _ Hs1) as (w2 & Hw2 & Hs2). exists w2. by rewrite Hx.
Qed.

(** The abstract broker after [commit_offsets] of a consumer at [offsets]. *)
Definition offsets_committed (g : string) (offsets : gmap (string * Z) Z) (b : broker_spec) : broker_spec :=
  committed_all g (map_iter offsets) b.

Lemma offsets_committed_spec g offsets b :
  bs_topics (offsets_committed g offsets b) = bs_topics b ∧
  (∀ t p, bs_offsets (offsets_committed g offsets b) !! (g, t, p) =
    match offsets !! (t, p) with Some o => Some o | None => bs_offsets b !! (g, t, p) end) ∧
  ∀ g' t p, g' ≠ g → bs_offsets (offsets_committed g offsets b) !! (g', t, p) = bs_offsets b !! (g', t, p).
Proof.
  destruct (committed_all_spec g (map_iter offsets) b (NoDup_map_iter _)) as (Ht & Ho & Hother).
  split_and!; [done| |done]. intros t p. unfold offsets_committed. rewrite Ho.
  assert (list_to_map (map_iter offsets) = offsets) as ->; [|done].
  rewrite <-(list_to_map_to_list offsets) at 2.
  apply list_to_map_proper; [apply NoDup_map_iter|apply map_iter_perm].
Qed.

Lemma commit_offsets_served w pc b room g :
  serves w b room → cn_group_id (pc_consumer pc) = Some g → clean_group g →
  map_Forall (λ '(t, p) o, clean_entry (t, p, o)) (cn_offsets (pc_consumer pc)) →
  ∃ w', commit_offsets (w, pc) = ((w', pc), Ok tt) ∧
    serves w' (offsets_committed g (cn_offsets (pc_consumer pc)) b) room.
Proof.
  intros Hs Hg Hcl Hall. set (l := map_iter (cn_offsets (pc_consumer pc))).
  destruct (commit_all_served g l w b room Hs Hcl) as (w' & Hw & Hs').
  { apply Forall_forall. intros [[t p] o] Hin. apply elem_of_map_iter in Hin.
    exact (map_Forall_lookup_1 _ _ _ _ Hall Hin). }
  exists w'. unfold commit_offsets, the_consumer, eff_lift, mbind, eff_bind. cbn [snd].
  rewrite Hg. cbn [ok_or]. unfold on_connection. fold l. rewrite Hw. by split.
Qed.

Lemma fetch_committed_served w pc b room g t p :
  serves w b room → cn_group_id (pc_consumer pc) = Some g →
  ∃ w', fetch_committed_offset t p (w, pc) =
    ((w', pc), Ok (default 0 (bs_offsets b !! (g, t, p)))) ∧ serves w' b room.
Proof.
  intros Hs Hg. unfold fetch_committed_offset, the_consumer, on_connection, mbind, eff_bind. cbn [snd].
  rewrite Hg.
  match goal with |- context [exchange _ ?k] =>
    destruct (exchange_served w b room (FetchOffset g t p) k Hs I) as (w' & response & Hx & Hr & Hs') end.
  cbn [response_ok spec_step produced] in Hr, Hs'. rewrite Nat.sub_0_r in Hs'. subst response.
  exists w'. rewrite Hx. by split.
Qed.

Lemma init_offsets_served l w pc b room g :
  serves w b room → cn_group_id (pc_consumer pc) = Some g →
  ∃ w' offsets', init_offsets l (w, pc) =
      ((w', on_consumer (cn_set_offsets (λ _, offsets')) pc), Ok tt) ∧ serves w' b room ∧
    ∀ t p, offsets' !! (t, p) =
      if decide (PartitionAssignment_new t p ∈ l) then Some (default 0 (bs_offsets b !! (g, t, p)))
      else cn_offsets (pc_consumer pc) !! (t, p).
Proof.
  revert w pc. induction l as [|[t0 p0] l IH]; intros w pc Hs Hg.
  { exists w, (cn_offsets (pc_consumer pc)). split_and!; [by destruct pc as [[] ?]|done|].
    intros t p. by rewrite decide_False by apply not_elem_of_nil. }
  destruct (fetch_committed_served w pc b room g t0 p0 Hs Hg) as (w1 & Hf & Hs1).
  set (o := default 0 (bs_offsets b !! (g, t0, p0))) in *.
  set (pc1 := on_consumer (cn_set_offsets (<[(t0, p0) := o]>)) pc).
  destruct (IH w1 pc1 Hs1 Hg) as (w2 & offs2 & Hi & Hs2 & Ho2).
  exists w2, offs2. cbn [init_offsets pa_topic pa_partition]. unfold mbind, eff_bind. rewrite Hf.
  unfold update_consumer, update_client. split_and!; [exact Hi|done|].
  intros t p. rewrite Ho2. destruct (decide (PartitionAssignment_new t p ∈ l)) as [Hin|Hin].
  { by rewrite decide_True by (by right). }
  unfold pc1. cbn [on_consumer pc_consumer cn_set_offsets cn_offsets].
  destruct (decide ((t, p) = (t0, p0))) as [[= -> ->]|Hne].
  - rewrite lookup_insert_eq, decide_True; [done|]. by left.
  - rewrite lookup_insert_ne, decide_False; [done| |congruence].
    intros [Heq|?]%elem_of_cons; [|done]. injection Heq. congruence.
Qed.

(** C16: a member that takes over partitions of a group resumes where the member before it
    committed: after [commit_offsets] of one member, what [join_group] reads for its
    assignments ([init_offsets]) is the positions of that member, and what the group had
    committed before where it had none. The broker answers by its contract ([serves]), no
    other group is touched, and the positions are ones that can be committed
    ([clean_group], [clean_entry]). *)
Theorem group_resumes w pc1 pc2 b room g assignments :
  serves w b room → clean_group g →
  cn_group_id (pc_consumer pc1) = Some g → cn_group_id (pc_consumer pc2) = Some g →
  map_Forall (λ '(t, p) o, clean_entry (t, p, o)) (cn_offsets (pc_consumer pc1)) →
  ∃ w1 w2 b' offsets, commit_offsets (w, pc1) = ((w1, pc1), Ok tt) ∧
    init_offsets assignments (w1, pc2) =
      ((w2, on_consumer (cn_set_offsets (λ _, offsets)) pc2), Ok tt) ∧
    serves w2 b' room ∧ bs_topics b' = bs_topics b ∧
    (∀ g' t p, g' ≠ g → bs_offsets b' !! (g', t, p) = bs_offsets b !! (g', t, p)) ∧
    ∀ a, a ∈ assignments → offsets !! (pa_topic a, pa_partition a) =
      Some (match cn_offsets (pc_consumer pc1) !! (pa_topic a, pa_partition a) with
            | Some o => o
            | None => default 0 (bs_offsets b !! (g, pa_topic a, pa_partition a))
            end).
Proof.
  intros Hs Hcl Hg1 Hg2 Hall.
  destruct (commit_offsets_served w pc1 b room g Hs Hg1 Hcl Hall) as (w1 & Hc & Hs1).
  set (b' := offsets_committed g (cn_offsets (pc_consumer pc1)) b) in *.
  destruct (offsets_committed_spec g (cn_offsets (pc_consumer pc1)) b) as (Ht & Ho & Hother). fold b' in Ht, Ho, Hother.
  destruct (init_offsets_served assignments w1 pc2 b' room g Hs1 Hg2) as (w2 & offs & Hi & Hs2 & Hoffs).
  exists w1, w2, b', offs. split_and!; try done.
  intros [t p] Ha. cbn [pa_topic pa_partition]. rewrite Hoffs, decide_True by done. rewrite Ho.
  by destruct (cn_offsets (pc_consumer pc1) !! (t, p)).
Qed.

End committing.

(** ** Progress *)
(** [n] polls one after the other. *)
Fixpoint poll_times `{Connection W} `{HashIter} (n : nat) (max : Z) : Method (W * Process) (list Record_) :=
  match n with
  | O => mret []
  | S n => rs ← poll max; rs' ← poll_times n max; mret (rs ++ rs')
  end.

Section progress.
Context `{BrokerConnection W lag} `{HashIterLaws}.

(** [n] more polls reach the end of every log. *)
Lemma poll_times_reach n max pc0 rs w pc b :
  is_u32 max → run_ok max pc0 rs (w, pc) b →
  ∃ s' rs', poll_times n max (w, pc) = (s', Ok rs') ∧ run_ok max pc0 (rs ++ rs') s' b ∧
    ∀ t ps p, cn_subscriptions (pc_consumer pc0) !! t = Some ps → p ∈ ps →
      position (cn_offsets (pc_consumer s'.2)) (t, p) =
        position (cn_offsets (pc_consumer pc)) (t, p) +
        Z.max 0 (Z.min (Z.of_nat n * max)
          (Z.of_nat (length (default [] (log_of b (t, p)))) - position (cn_offsets (pc_consumer pc)) (t, p))).
Proof.
  intros Hmax. revert rs w pc. induction n as [|n IH]; intros rs w pc Hok.
  { exists (w, pc), []. rewrite app_nil_r. split_and!; [done|done|]. intros. cbn [snd]. lia. }
  pose proof Hok as [[room Hs] Hsame Hsub _]. cbn [fst snd] in Hs, Hsame, Hsub.
  destruct (run_ok_poll max pc0 rs w pc b Hmax Hok) as (s1 & rs1 & Hp & Hok1 & _).
  destruct (poll_served w pc b room max Hs Hsub Hmax)
    as (w1 & offs1 & ks & rs1' & Hp' & _ & [_ Hks] & [_ Hadv] & _).
  rewrite Hp in Hp'. injection Hp' as -> <-. rewrite Hsame in Hks.
  destruct (IH _ _ _ Hok1) as (s2 & rs2 & Hp2 & Hok2 & Hpos).
  exists s2, (rs1 ++ rs2). cbn [poll_times]. unfold mbind, eff_bind. rewrite Hp, Hp2.
  rewrite app_assoc. split_and!; [done|done|]. intros t ps p Hl Hin.
  rewrite (Hpos t ps p Hl Hin). cbn [on_consumer cn_set_offsets pc_consumer cn_offsets].
  rewrite Hadv, decide_True, fetched_length by (apply Hks; by exists ps).
  rewrite <-Hsame in Hl. destruct (su_readable _ _ Hsub t ps p Hl Hin) as (_ & Ho & _).
  unfold is_u32, is_u64 in *. nia.
Qed.

Lemma poll_times_drain n max w pc b room :
  serves w b room → subscriptions_ok b (pc_consumer pc) → is_u32 max →
  (∀ t ps p, cn_subscriptions (pc_consumer pc) !! t = Some ps → p ∈ ps →
    position (cn_offsets (pc_consumer pc)) (t, p) ≤ Z.of_nat (length (default [] (log_of b (t, p)))) ≤
      position (cn_offsets (pc_consumer pc)) (t, p) + Z.of_nat n * max) →
  ∃ s' rs, poll_times n max (w, pc) = (s', Ok rs) ∧
    ∀ t ps p, cn_subscriptions (pc_consumer pc) !! t = Some ps → p ∈ ps →
      let from := position (cn_offsets (pc_consumer pc)) (t, p) in
      let log := default [] (log_of b (t, p)) in
      filter (λ r, record_key r = (t, p)) rs = records_at t p from (drop (Z.to_nat from) log) ∧
      position (cn_offsets (pc_consumer s'.2)) (t, p) = Z.of_nat (length log).
Proof.
  intros Hs Hsub Hmax Hn. pose proof (run_ok_start max w pc b room Hs Hsub) as Hok.
  destruct (poll_times_reach n max pc [] w pc b Hmax Hok) as (s' & rs & Hp & Hok' & Hpos).
  exists s', rs. split; [done|]. intros t ps p Hl Hin from log.
  pose proof (Hn t ps p Hl Hin) as Hb. fold from log in Hb.
  assert (position (cn_offsets (pc_consumer s'.2)) (t, p) = Z.of_nat (length log)) as Hto.
  { rewrite (Hpos t ps p Hl Hin). fold from log. lia. }
  split; [|done]. destruct (ro_delivered _ _ _ _ _ Hok' t ps p Hl Hin) as (_ & _ & Hd).
  rewrite app_nil_l in Hd. rewrite Hd, Hto. unfold delivered. fold from log. cbn [fst snd]. f_equal.
  apply take_ge. rewrite length_drop. lia.
Qed.


End progress.

(** ** Faults *)
(** Joining a group again leaves the heartbeat task of the first join running: its
    handle is overwritten, so that neither leaving the group nor dropping the consumer
    stops it. *)
Theorem rejoin_leaks_heartbeat pc group_id member_id handle task :
  cn_group_id (pc_consumer pc) = Some group_id → cn_member_id (pc_consumer pc) = Some member_id →
  cn_heartbeat_task (pc_consumer pc) = Some handle → pc_tasks pc !! handle = Some task →
  ∃ pc', start_heartbeat_task pc = (pc', Ok tt) ∧
    pc_tasks (Consumer_drop pc') !! handle = Some task ∧
    cn_heartbeat_task (pc_consumer (Consumer_drop pc')) = None.
Proof.
  intros Hg Hm Hh Ht. unfold start_heartbeat_task, spawn. rewrite Hg, Hm.
  eexists. split; [done|]. unfold Consumer_drop, abort_task, on_consumer.
  cbn [pc_consumer cn_set_task cn_heartbeat_task pc_tasks].
  rewrite delete_insert_id; [done|]. apply not_elem_of_dom_1, is_fresh.
Qed.

(** A poll that fails after it has fetched from a partition loses what it fetched: the
    records are dropped with the error, and the position has moved past them. *)
Theorem poll_error_skips_records `{Connection W} `{HashIter} w pc max t1 p1 t2 p2 w1 w2 rs r e :
  map_iter (cn_subscriptions (pc_consumer pc)) = [(t1, [p1]); (t2, [p2])] → t1 ≠ t2 →
  fetch t1 p1 (position (cn_offsets (pc_consumer pc)) (t1, p1)) max w = (w1, Ok rs) →
  last rs = Some r → is_u64 (rec_offset r + 1) →
  fetch t2 p2 (position (cn_offsets (pc_consumer pc)) (t2, p2)) max w1 = (w2, Err e) →
  ∃ pc', poll max (w, pc) = ((w2, pc'), Err e) ∧
    position (cn_offsets (pc_consumer pc')) (t1, p1) = rec_offset r + 1.
Proof.
  intros Hl Hne Hf1 Hr Hu Hf2.
  exists (on_consumer (cn_set_offsets (<[(t1, p1) := rec_offset r + 1]>)) pc).
  unfold poll, the_consumer, mbind, eff_bind. cbn [snd]. rewrite Hl.
  cbn [poll_topics poll_partitions]. unfold poll_partition, the_consumer, on_connection, mbind, eff_bind.
  cbn [snd]. unfold position in Hf1, Hf2. rewrite Hf1, Hr. rewrite w64_small by done.
  unfold update_consumer, update_client, mret, eff_ret.
  cbn [on_consumer cn_set_offsets pc_consumer cn_offsets snd].
  rewrite lookup_insert_ne by congruence. rewrite Hf2. split; [done|].
  unfold position. by rewrite lookup_insert_eq.
Qed.
