(* ===== verification/ClientRuns.v ===== *)
(** * ClientRuns: a producer, a broker and a consumer together

    The producer of [Producer] and the consumer of [Consumer] meet only in the broker: each
    is used through what its file proves against [BrokerConnection], so that the result
    holds for the server of [Server] and for every partitioner. *)
From S2P Require Import Prelude Bytes Text Common Messages Codec Compression DiskRecord.
From S2P Require Import FileSystem OffsetIndex Retention Segment Partition Topic.
From S2P Require Import OffsetManager Cluster Replication Coordinator Server.
From S2P Require Import Partitioner Client Producer Consumer.

(** A program that has just connected a consumer. *)
Definition new_process : Process := {| pc_consumer := Consumer_connect; pc_tasks := ∅ |}.

Lemma new_process_subscribed b : subscriptions_ok b (pc_consumer new_process).
Proof. split; intros t ps; cbn; by rewrite lookup_empty. Qed.

Section client_runs.
Context `{BrokerConnection W lag} `{HashIterLaws} `{PartitionerLaws Pt inv}.

Lemma sent_topic_readable logs logs' messages ps :
  0 ≤ lag → is_u32 (Z.of_nat (length logs)) → logs_have_room lag logs messages →
  (∀ i, logs' !! i = (λ log, log ++ assigned ps messages (Z.of_nat i)) <$> logs !! i) →
  length logs' = length logs ∧ Forall (λ log, Z.of_nat (length log) < 2 ^ 64) logs'.
Proof.
  intros Hlag Hn Hroom Hl. split.
  - apply Nat.le_antisymm; apply Nat.nlt_ge; intros Hlt%lookup_lt_is_Some_2;
      destruct Hlt as [log Hlog].
    + rewrite Hl in Hlog. apply fmap_Some in Hlog as (log' & Hlog' & _).
      apply lookup_lt_Some in Hlog'. lia.
    + pose proof (Hl (length logs')) as Hl'. rewrite Hlog, lookup_ge_None_2 in Hl' by lia. done.
  - apply Forall_lookup. intros i log' Hlog'. rewrite Hl in Hlog'.
    apply fmap_Some in Hlog' as (log & Hlog & ->).
    destruct (Hroom i log _ Hlog (assigned_sublist ps messages (Z.of_nat i))) as [Hb _]. lia.
Qed.

(** C5: end to end. Messages that a producer sends with automatic partitions reach a
    consumer that then subscribes to the topic and polls often enough: for each partition
    the consumer reads the messages it had and, after them and in their order, those the
    partitioner sent there; every message sent was sent to one partition. It is assumed
    that the broker answers by its contract ([serves]), that the messages can be written,
    that its logs and indexes have room for them and that what the producer remembers of
    the topic is true. *)
Theorem send_then_poll w (pr : Producer Pt) b room topic logs messages k max :
  let n := Z.of_nat (length logs) in
  0 ≤ lag → serves w b room → bs_topics b !! topic = Some logs → 0 < n < 2 ^ 32 →
  inv n (pr_partitioner pr) → cache_agrees topic n pr →
  Forall (message_fits SegmentConfig_default) messages → (length messages ≤ room)%nat →
  is_u32 (Z.of_nat (length messages)) → logs_have_room lag logs messages → is_u32 max →
  (∀ i log, logs !! i = Some log → Z.of_nat (length log + length messages) ≤ Z.of_nat k * max) →
  ∃ w1 pr' base_offset ps w2 pc s rs,
    send_batch_auto topic messages (w, pr) = ((w1, pr'), Ok base_offset) ∧
    subscribe [topic] (w1, new_process) = ((w2, pc), Ok tt) ∧
    poll_times k max (w2, pc) = (s, Ok rs) ∧
    mjoin (assigned ps messages <$> seqZ 0 n) ≡ₚ messages ∧
    ∀ i log, logs !! i = Some log →
      filter (λ r, record_key r = (topic, Z.of_nat i)) rs =
        records_at topic (Z.of_nat i) 0 (log ++ assigned ps messages (Z.of_nat i)).
Proof.
  intros n Hlag Hs Hl Hn Hinv Hc Hfit Hroom Hlen Hbig Hmax Hk.
  destruct (send_batch_auto_served w pr b room topic logs messages Hs Hl Hn Hinv Hc Hfit Hroom Hlen Hbig)
    as (w1 & pr' & o & ps & b' & logs' & Hsend & Hps & _ & _ & Hall & Hs1 & _ & _ & Hl' & Hlk).
  assert (is_u32 n) as Hn32 by (unfold is_u32; lia).
  destruct (sent_topic_readable logs logs' messages ps Hlag Hn32 Hbig Hlk) as [Hlen' Hfit'].
  assert (is_u32 (Z.of_nat (length logs'))) as Hn32' by (by rewrite Hlen').
  destruct (subscribe_served [topic] w1 new_process b' _ Hs1 (new_process_subscribed b'))
    as (w2 & c & Hsub & Hs2 & Hsubd & Hspec).
  { apply Forall_singleton. by exists logs'. }
  destruct (Hspec topic) as [Hsubs Hoffs]. rewrite decide_True, Hl' in Hsubs by (by left).
  cbn [fmap option_fmap option_map] in Hsubs.
  assert (∀ p log, 0 ≤ p → log_of b' (topic, p) = Some log → position (cn_offsets c) (topic, p) = 0) as Hpos.
  { intros p log Hp Hlog. unfold position. rewrite Hoffs, decide_True; [done|].
    split_and!; [by left|done|by rewrite Hlog]. }
  destruct (poll_times_drain k max w2 (on_consumer (λ _, c) new_process) b' _ Hs2 Hsubd Hmax)
    as (s & rs & Hpoll & Hrs).
  { intros t ps' p Ht Hp. cbn [on_consumer pc_consumer] in *.
    destruct (Hspec t) as [Hst _]. rewrite Ht in Hst.
    destruct (decide (t ∈ [topic])) as [->%list_elem_of_singleton|_].
    - rewrite Hl' in Hst. injection Hst as ->. apply elem_of_seqZ in Hp.
      destruct (lookup_lt_is_Some_2 logs' (Z.to_nat p)) as [log' Hlog']; [lia|].
      pose proof Hlog' as Hlog. rewrite Hlk in Hlog. apply fmap_Some in Hlog as (log & Hlog & ->).
      assert (log_of b' (topic, p) = Some (log ++ assigned ps messages (Z.of_nat (Z.to_nat p)))) as Hlo.
      { unfold log_of. cbn [fst snd]. by rewrite Hl'. }
      rewrite (Hpos p _ (proj1 Hp) Hlo), Hlo. cbn [default]. unfold id.
      pose proof (Hk _ _ Hlog).
      pose proof (sublist_length _ _ (assigned_sublist ps messages (Z.of_nat (Z.to_nat p)))).
      rewrite length_app. lia.
    - cbn [new_process pc_consumer Consumer_connect cn_subscriptions] in Hst. by rewrite lookup_empty in Hst. }
  exists w1, pr', o, ps, w2, (on_consumer (λ _, c) new_process), s, rs. split_and!; try done.
  intros i log Hlog.
  assert (log_of b' (topic, Z.of_nat i) = Some (log ++ assigned ps messages (Z.of_nat i))) as Hlo.
  { unfold log_of. cbn [fst snd]. rewrite Hl', Nat2Z.id. cbn. by rewrite Hlk, Hlog. }
  destruct (Hrs topic (seqZ 0 (Z.of_nat (length logs'))) (Z.of_nat i) Hsubs) as [Hf _].
  { apply elem_of_seqZ. apply lookup_lt_Some in Hlog. lia. }
  cbn [on_consumer pc_consumer] in Hf. rewrite (Hpos _ _ (Nat2Z.is_nonneg i) Hlo), Hlo in Hf. exact Hf.
Qed.

End client_runs.
