(* ===== verification/GroupRuns.v ===== *)
(** * GroupRuns: consumer groups from end to end

    A consumer of [Consumer] joins a group of a broker that keeps the contract of [Client],
    polls with automatic commits, and goes away; the next member of the group takes over.
    Each partition is then delivered to the group as a whole exactly once and in order. *)
From S2P Require Import Prelude Bytes Text Common Messages Codec Compression DiskRecord.
From S2P Require Import FileSystem OffsetIndex Retention Segment Partition Topic.
From S2P Require Import OffsetManager Cluster Replication Coordinator Server Client Consumer.

(** ** Members *)
(** What the group has committed of a partition; nothing is offset zero. *)
Definition committed_at (b : broker_spec) (g : string) (k : string * Z) : Z :=
  default 0 (bs_offsets b !! (g, k.1, k.2)).
Definition assignment_key (a : PartitionAssignment) : string * Z := (pa_topic a, pa_partition a).
Definition keys_of (pc : Process) : list (string * Z) := assignment_key <$> cn_assignments (pc_consumer pc).

(** A consumer of group [g] that commits automatically, before it joins. *)
Definition new_member (g : string) : Process :=
  {| pc_consumer := with_auto_commit None (with_group_id g Consumer_connect); pc_tasks := ∅ |}.

(** The topics and the offsets of the group can be read and committed. *)
Record broker_readable (g : string) (b : broker_spec) : Prop := {
  br_topics : ∀ t, is_Some (bs_topics b !! t) → clean_topic t ∧ topic_readable b t;
  br_offsets : ∀ t p o, bs_offsets b !! (g, t, p) = Some o → is_u64 o;
}.

(** A member that has joined, at positions of its own in its partitions; [member_ok]: at the
    offsets that the group has committed. *)
Record member_at (b : broker_spec) (g : string) (pc : Process) : Prop := {
  mo_group : cn_group_id (pc_consumer pc) = Some g;
  mo_auto : cn_auto_commit (pc_consumer pc) = true;
  mo_nodup : NoDup (keys_of pc);
  mo_assigned : Forall (counted (partition_count b)) (cn_assignments (pc_consumer pc));
  mo_offsets : ∀ k, k ∉ keys_of pc → cn_offsets (pc_consumer pc) !! k = None;
  mo_u64 : ∀ k, k ∈ keys_of pc → is_u64 (position (cn_offsets (pc_consumer pc)) k);
}.
Record member_ok (b : broker_spec) (g : string) (pc : Process) : Prop := {
  mo_at : member_at b g pc;
  mo_synced : ∀ k, k ∈ keys_of pc → position (cn_offsets (pc_consumer pc)) k = committed_at b g k;
}.

#[export] Instance assignment_key_inj : Inj (=) (=) assignment_key.
Proof. intros [t p] [t' p'] [= -> ->]. done. Qed.

Lemma elem_of_keys pc t p : (t, p) ∈ keys_of pc ↔ PartitionAssignment_new t p ∈ cn_assignments (pc_consumer pc).
Proof.
  unfold keys_of. split.
  - intros ([t' p'] & Heq & Hin)%list_elem_of_fmap. by injection Heq as -> ->.
  - intros Hin. apply list_elem_of_fmap. by exists (PartitionAssignment_new t p).
Qed.

Lemma committed_u64 g b k : broker_readable g b → is_u64 (committed_at b g k).
Proof.
  intros [_ Ho]. unfold committed_at. destruct (bs_offsets b !! _) as [o|] eqn:Hk; [by eapply Ho|done].
Qed.

(** The partitions of a member exist, and their names and offsets fit the protocol. *)
Lemma member_key g b pc k :
  broker_readable g b → member_at b g pc → k ∈ keys_of pc →
  clean_topic k.1 ∧ readable b (cn_offsets (pc_consumer pc)) k.
Proof.
  destruct k as [t p]. intros Hb Hm Hk. pose proof (mo_u64 _ _ _ Hm _ Hk) as Hpos.
  apply elem_of_keys in Hk. pose proof (proj1 (Forall_forall _ _) (mo_assigned _ _ _ Hm) _ Hk) as (n & (logs & Hl & ->) & Hp).
  cbn [pa_topic pa_partition PartitionAssignment_new] in Hl, Hp.
  destruct (br_topics _ _ Hb t) as [Hc (logs' & Hl' & Hu & Hall)]; [by eexists|].
  rewrite Hl in Hl'. injection Hl' as <-. split; [done|]. split; [cbn; unfold is_u32 in *; lia|].
  split; [done|].
  destruct (lookup_lt_is_Some_2 logs (Z.to_nat p)) as [log Hlog]; [lia|].
  exists log. split; [apply log_of_Some; by exists logs|]. exact (Forall_lookup_1 _ _ _ _ Hall Hlog).
Qed.

Section polling_group.
Context `{BrokerConnection W lag} `{HashIterLaws}.

Lemma committed_polled g offsets b k :
  committed_at (offsets_committed g offsets b) g k = from_option id (committed_at b g k) (offsets !! k).
Proof.
  destruct k as [t p]. destruct (offsets_committed_spec g offsets b) as (_ & Ho & _).
  unfold committed_at. cbn [fst snd]. rewrite Ho. by destruct (offsets !! (t, p)).
Qed.

(** The offsets that a poll of a member arrives at are within the logs. *)
Lemma advanced_within g b pc max offsets' k :
  broker_readable g b → member_at b g pc → k ∈ keys_of pc →
  advanced b (cn_offsets (pc_consumer pc)) offsets' max (keys_of pc) → is_u64 (position offsets' k).
Proof.
  intros Hb Hm Hk [_ Hadv]. destruct (member_key g b pc k Hb Hm Hk) as (_ & _ & Ho & log & Hlog & Hlen).
  rewrite Hadv, decide_True, fetched_length, Hlog by done. cbn [default]. unfold id, is_u64 in *. lia.
Qed.

(** What the group has committed after a poll that read [rs]: a poll that reads nothing
    commits nothing. *)
Definition polled (g : string) (offsets : gmap (string * Z) Z) (rs : list Record_) (b : broker_spec)
    : broker_spec :=
  if decide (rs = []) then b else offsets_committed g offsets b.

Lemma mjoin_nil_elem {A} (ls : list (list A)) l : mjoin ls = [] → l ∈ ls → l = [].
Proof.
  intros Hj Hl. destruct l as [|x l]; [done|]. assert (x ∈ mjoin ls) as Hx; [|by rewrite Hj in Hx; apply elem_of_nil in Hx].
  apply list_elem_of_join. exists (x :: l). split; [by left|done].
Qed.

Lemma poll_group_spec_aux g max w pc b room :
  serves w b room → clean_group g → broker_readable g b → member_at b g pc → is_u32 max →
  let rs := mjoin (fetched b (cn_offsets (pc_consumer pc)) max <$> keys_of pc) in
  ∃ w' offsets', advanced b (cn_offsets (pc_consumer pc)) offsets' max (keys_of pc) ∧
    poll_group max (w, pc) = ((w', on_consumer (cn_set_offsets (λ _, offsets')) pc), Ok rs) ∧
    serves w' (polled g offsets' rs b) room.
Proof.
  intros Hs Hcl Hb Hm Hmax rs.
  destruct (poll_pairs_served w pc b room max (keys_of pc) [] Hs) as (w1 & offs & Hp & Hs1 & Hadv);
    [|exact (mo_nodup _ _ _ Hm)|done|].
  { apply Forall_forall. intros k Hk. by apply (member_key g b pc k Hb Hm). }
  set (pc1 := on_consumer (cn_set_offsets (λ _, offs)) pc) in *.
  unfold poll_group, the_consumer, mbind, eff_bind. cbn [snd].
  destruct (cn_assignments (pc_consumer pc)) as [|a l] eqn:Ha.
  { exists w, (cn_offsets (pc_consumer pc)). assert (keys_of pc = []) as Hk by (unfold keys_of; by rewrite Ha).
    subst rs. rewrite Hk. split; [|split; [by destruct pc as [[] ?]|exact Hs]].
    split; [done|]. intros k. rewrite decide_False by apply not_elem_of_nil. lia. }
  rewrite poll_assignments_pairs, <-Ha. fold (keys_of pc).
  change ((λ a0, (pa_topic a0, pa_partition a0)) <$> cn_assignments (pc_consumer pc)) with (keys_of pc).
  rewrite Hp. cbn [app]. fold rs. rewrite (mo_auto _ _ _ Hm). cbn [andb]. unfold polled.
  destruct (decide (rs = [])) as [Hrs|Hrs].
  { rewrite bool_decide_true by done. exists w1, offs. by split_and!. }
  rewrite bool_decide_false by done. cbn [negb].
  destruct (commit_offsets_served w1 pc1 b room g Hs1 (mo_group _ _ _ Hm) Hcl) as (w2 & Hc & Hs2).
  { intros [t p] o Hl. change (cn_offsets (pc_consumer pc1)) with offs in Hl.
    destruct (decide ((t, p) ∈ keys_of pc)) as [Hk|Hk].
    - pose proof (advanced_within g b pc max offs (t, p) Hb Hm Hk Hadv) as Hu.
      destruct (member_key g b pc (t, p) Hb Hm Hk) as (Htc & Hpu & _).
      unfold position in Hu. rewrite Hl in Hu. by split_and!.
    - rewrite (adv_others _ _ _ _ _ Hadv _ Hk), (mo_offsets _ _ _ Hm _ Hk) in Hl. done. }
  exists w2, offs. unfold logged. rewrite Hc. by split_and!.
Qed.

Lemma keys_of_offsets offsets pc : keys_of (on_consumer (cn_set_offsets (λ _, offsets)) pc) = keys_of pc.
Proof. done. Qed.

Lemma polled_topics g offsets rs b : bs_topics (polled g offsets rs b) = bs_topics b.
Proof. unfold polled. destruct (decide _); [done|]. by destruct (offsets_committed_spec g offsets b). Qed.

Lemma log_of_polled g offsets rs b k : log_of (polled g offsets rs b) k = log_of b k.
Proof. unfold log_of. by rewrite polled_topics. Qed.

(** A poll of a member at the offsets of the group moves them past the records it returns, in
    the partitions of the member and in no other. *)
Lemma committed_advances g b pc max offsets' k :
  member_ok b g pc → broker_readable g b →
  advanced b (cn_offsets (pc_consumer pc)) offsets' max (keys_of pc) →
  let rs := mjoin (fetched b (cn_offsets (pc_consumer pc)) max <$> keys_of pc) in
  committed_at (polled g offsets' rs b) g k =
    committed_at b g k + Z.of_nat (length (filter (λ r, record_key r = k) rs)).
Proof.
  intros [Hm Hsync] Hb [Hkeep Hadv] rs. set (offs := cn_offsets (pc_consumer pc)) in *.
  unfold rs. rewrite filter_key_all by exact (mo_nodup _ _ _ Hm). fold rs. unfold polled.
  destruct (decide (k ∈ keys_of pc)) as [Hk|Hk].
  - pose proof (Hadv k) as Hpos. rewrite decide_True, (Hsync k Hk) in Hpos by done.
    destruct (decide (rs = [])) as [Hrs|Hrs].
    { rewrite (mjoin_nil_elem _ (fetched b offs max k) Hrs); [cbn; lia|]. apply list_elem_of_fmap. by exists k. }
    rewrite committed_polled, <-Hpos. unfold position. destruct (offsets' !! k) as [o|] eqn:Ho; [done|].
    cbn [from_option default] in *. unfold position in Hpos. rewrite Ho in Hpos. cbn in Hpos.
    pose proof (committed_u64 g b k Hb) as Hu. unfold is_u64 in Hu. cbn. lia.
  - cbn [length]. rewrite Z.add_0_r. destruct (decide (rs = [])); [done|].
    rewrite committed_polled, Hkeep by done. unfold offs. by rewrite (mo_offsets _ _ _ Hm _ Hk).
Qed.

Lemma polled_readable g b pc max offsets' rs :
  broker_readable g b → member_at b g pc →
  advanced b (cn_offsets (pc_consumer pc)) offsets' max (keys_of pc) →
  broker_readable g (polled g offsets' rs b).
Proof.
  intros Hb Hm Hadv. pose proof Hb as [Ht Ho]. split.
  - intros t. rewrite polled_topics. intros Hl. destruct (Ht t Hl) as [Hc Hr]. split; [done|].
    unfold topic_readable. by rewrite polled_topics.
  - intros t p o. unfold polled. destruct (decide (rs = [])); [apply Ho|].
    destruct (offsets_committed_spec g offsets' b) as (_ & Hoc & _). rewrite Hoc.
    destruct (offsets' !! (t, p)) as [o'|] eqn:Hl; [|apply Ho]. intros [= ->].
    destruct (decide ((t, p) ∈ keys_of pc)) as [Hk|Hk].
    + pose proof (advanced_within g b pc max offsets' (t, p) Hb Hm Hk Hadv) as Hu.
      unfold position in Hu. by rewrite Hl in Hu.
    + rewrite (adv_others _ _ _ _ _ Hadv _ Hk), (mo_offsets _ _ _ Hm _ Hk) in Hl. done.
Qed.

(** What a member relies on stays true while others use the broker. *)
Lemma counted_log b a :
  counted (partition_count b) a ↔ 0 ≤ pa_partition a ∧ is_Some (log_of b (assignment_key a)).
Proof.
  unfold counted, partition_count, log_of, assignment_key. cbn [fst snd]. split.
  - intros (n & (logs & Hl & ->) & Hp). rewrite Hl. split; [lia|]. apply lookup_lt_is_Some_2. lia.
  - intros [Hp Hl]. destruct (bs_topics b !! pa_topic a) as [logs|]; [|by destruct Hl].
    apply lookup_lt_is_Some_1 in Hl. exists (Z.of_nat (length logs)). split; [by exists logs|lia].
Qed.

Lemma member_at_stable g b b' pc :
  member_at b g pc → (∀ k, is_Some (log_of b k) → is_Some (log_of b' k)) → member_at b' g pc.
Proof.
  intros [Hg Ha Hnd Has Ho Hu] Hlog. split; try done.
  eapply Forall_impl; [exact Has|]. intros a [Hp Hl]%counted_log. apply counted_log. auto.
Qed.

Lemma member_ok_stable g b b' pc :
  member_ok b g pc → (∀ k, is_Some (log_of b k) → is_Some (log_of b' k)) →
  (∀ k, k ∈ keys_of pc → committed_at b' g k = committed_at b g k) → member_ok b' g pc.
Proof.
  intros [Hm Hs] Hlog Hc. split; [by eapply member_at_stable|]. intros k Hk. rewrite Hc by done. auto.
Qed.

Lemma member_polled g b pc max offsets' :
  member_ok b g pc → broker_readable g b →
  advanced b (cn_offsets (pc_consumer pc)) offsets' max (keys_of pc) →
  let rs := mjoin (fetched b (cn_offsets (pc_consumer pc)) max <$> keys_of pc) in
  member_ok (polled g offsets' rs b) g (on_consumer (cn_set_offsets (λ _, offsets')) pc).
Proof.
  intros Hm Hb Hadv rs. pose proof (committed_advances g b pc max offsets') as Hc. pose proof Hm as [Hat Hs].
  assert (member_at (polled g offsets' rs b) g pc) as [Hg Ha Hnd Has Ho Hu].
  { apply (member_at_stable g b); [done|]. intros k. by rewrite log_of_polled. }
  split; [split; rewrite ?keys_of_offsets; try done|rewrite keys_of_offsets];
    intros k Hk; cbn [on_consumer cn_set_offsets pc_consumer cn_offsets].
  - rewrite (adv_others _ _ _ _ _ Hadv) by done. auto.
  - by apply (advanced_within g b pc max).
  - unfold rs. rewrite Hc by done. rewrite filter_key_all, decide_True by done.
    rewrite (adv_position _ _ _ _ _ Hadv), decide_True, Hs by done. done.
Qed.

(** A consumer that joins holds partitions that exist, at the offsets of the group. *)
Lemma Consumer_join_served topics w b room g :
  serves w b room → broker_readable g b →
  ∃ w' pc, Consumer_join_group topics (w, new_member g) = ((w', pc), Ok tt) ∧
    serves w' b room ∧ member_ok b g pc.
Proof.
  intros Hs Hb. unfold Consumer_join_group, the_consumer, on_connection, update_consumer, update_client,
    eff_lift, mbind, eff_bind. cbn [snd].
  change (cn_group_id (pc_consumer (new_member g))) with (Some g).
  change (cn_member_id (pc_consumer (new_member g))) with (@None string). cbn [ok_or].
  match goal with |- context [exchange _ ?k] =>
    destruct (exchange_served w b room (JoinGroup g None topics) k Hs I) as (w1 & response & Hx & Hr & Hs1) end.
  cbn [response_ok spec_step produced] in Hr, Hs1. rewrite Nat.sub_0_r in Hs1.
  destruct Hr as (id & l & -> & _ & Hnd & Hc). rewrite Hx.
  set (pc1 := on_consumer _ (new_member g)).
  destruct (init_offsets_served l w1 pc1 b room g Hs1 eq_refl) as (w2 & offs & Hi & Hs2 & Ho). rewrite Hi.
  unfold in_process, start_heartbeat_task. cbn [pc1 new_member on_consumer pc_consumer cn_set_offsets
    cn_set_group with_auto_commit with_group_id cn_group_id cn_member_id].
  eexists w2, _. split; [unfold spawn; reflexivity|]. split; [done|].
  match goal with |- member_ok _ _ ?pc => set (pc2 := pc) end.
  assert (keys_of pc2 = assignment_key <$> l) as Hkeys by done.
  assert (∀ k, cn_offsets (pc_consumer pc2) !! k =
    if decide (k ∈ keys_of pc2) then Some (committed_at b g k) else None) as Hoffs.
  { intros [t p]. change (cn_offsets (pc_consumer pc2)) with offs. rewrite Ho.
    change (cn_offsets (pc_consumer pc1)) with (∅ : gmap (string * Z) Z). rewrite lookup_empty.
    pose proof (elem_of_keys pc2 t p) as Hiff. change (cn_assignments (pc_consumer pc2)) with l in Hiff.
    by rewrite (decide_ext _ _ _ _ Hiff). }
  assert (∀ k, k ∈ keys_of pc2 → position (cn_offsets (pc_consumer pc2)) k = committed_at b g k) as Hpos.
  { intros k Hk. unfold position. by rewrite Hoffs, decide_True. }
  split; [split; try done|done].
  - rewrite Hkeys. by apply (NoDup_fmap_2 assignment_key).
  - intros k Hk. by rewrite Hoffs, decide_False.
  - intros k Hk. rewrite Hpos by done. by apply committed_u64.
Qed.
End polling_group.

(** ** Runs of a group *)
(** The members of a group that poll, and what their polls have returned together.  A
    consumer joins when its partitions are held by no member that still polls; a member may
    go away at any time, with or without leaving the group; in between others append to the
    logs and use other groups, but commit nothing for this one. *)
Inductive group_run `{BrokerConnection W lag} `{HashIter} (g : string) (max : Z) (w0 : W) (b0 : broker_spec) :
    list Record_ → W → list Process → broker_spec → Prop :=
  | group_start : group_run g max w0 b0 [] w0 [] b0
  | group_join rs w ms b topics w' pc :
      group_run g max w0 b0 rs w ms b →
      Consumer_join_group topics (w, new_member g) = ((w', pc), Ok tt) →
      (∀ m, m ∈ ms → keys_of pc ## keys_of m) →
      group_run g max w0 b0 rs w' (pc :: ms) b
  | group_poll rs w ms1 pc ms2 b w' pc' rs' :
      group_run g max w0 b0 rs w (ms1 ++ pc :: ms2) b →
      poll_group max (w, pc) = ((w', pc'), Ok rs') →
      group_run g max w0 b0 (rs ++ rs') w' (ms1 ++ pc' :: ms2)
        (polled g (cn_offsets (pc_consumer pc')) rs' b)
  | group_gone rs w ms1 pc ms2 b :
      group_run g max w0 b0 rs w (ms1 ++ pc :: ms2) b →
      group_run g max w0 b0 rs w (ms1 ++ ms2) b
  | group_others rs w ms b w' b' room' :
      group_run g max w0 b0 rs w ms b → serves w' b' room' → logs_extend b b' →
      broker_readable g b' → (∀ k, committed_at b' g k = committed_at b g k) →
      group_run g max w0 b0 rs w' ms b'.

Section group_runs.
Context `{BrokerConnection W lag} `{HashIterLaws}.

Record group_delivers (g : string) (b0 : broker_spec) (rs : list Record_) (w : W) (ms : list Process)
    (b : broker_spec) : Prop := {
  go_serves : ∃ room, serves w b room;
  go_readable : broker_readable g b;
  go_members : Forall (member_ok b g) ms;
  go_disjoint : NoDup (mjoin (keys_of <$> ms));
  go_delivered : ∀ k, let from := committed_at b0 g k in let to := committed_at b g k in
    0 ≤ from ≤ to ∧ (to = from ∨ to ≤ log_end b k) ∧
    filter (λ r, record_key r = k) rs = delivered b k from to;
}.

(** A poll delivers what follows of a partition. *)
Lemma fetched_delivered b offsets max k o :
  position offsets k = o → fetched b offsets max k = delivered b k o (o + max).
Proof. intros <-. unfold fetched, delivered. do 2 f_equal. lia. Qed.

Lemma deliver_more b offsets max k from o :
  position offsets k = o → 0 ≤ from ≤ o → o = from ∨ o ≤ log_end b k →
  let n := Z.of_nat (length (fetched b offsets max k)) in
  0 ≤ from ≤ o + n ∧ (o + n = from ∨ o + n ≤ log_end b k) ∧
  delivered b k from o ++ fetched b offsets max k = delivered b k from (o + n).
Proof.
  intros <- Hft Hto n. split; [lia|]. split; [|by apply delivered_fetched].
  subst n. rewrite fetched_length. unfold log_end in *. lia.
Qed.

Lemma delivered_polled g offsets rs b k from to :
  delivered (polled g offsets rs b) k from to = delivered b k from to.
Proof. unfold delivered. by rewrite log_of_polled. Qed.
Lemma log_end_polled g offsets rs b k : log_end (polled g offsets rs b) k = log_end b k.
Proof. unfold log_end. by rewrite log_of_polled. Qed.

(** The members that did not poll hold other partitions, and stay where the group is. *)
Lemma members_polled g b ms1 pc ms2 max offsets' :
  Forall (member_ok b g) (ms1 ++ pc :: ms2) → NoDup (mjoin (keys_of <$> ms1 ++ pc :: ms2)) →
  broker_readable g b → advanced b (cn_offsets (pc_consumer pc)) offsets' max (keys_of pc) →
  let rs := mjoin (fetched b (cn_offsets (pc_consumer pc)) max <$> keys_of pc) in
  Forall (member_ok (polled g offsets' rs b) g)
    (ms1 ++ on_consumer (cn_set_offsets (λ _, offsets')) pc :: ms2).
Proof.
  intros [H1s [Hm H2s]%Forall_cons]%Forall_app Hnd Hb Hadv rs.
  rewrite fmap_app, fmap_cons, join_app, mjoin_cons, app_assoc in Hnd.
  apply NoDup_app in Hnd as (Hnd1 & Hd2 & _). apply NoDup_app in Hnd1 as (_ & Hd1 & _).
  assert (∀ m, member_ok b g m → (∀ k, k ∈ keys_of m → k ∉ keys_of pc) → member_ok (polled g offsets' rs b) g m) as Hst.
  { intros m Hmok Hdis. apply (member_ok_stable g b); [done|by intros k; rewrite log_of_polled|].
    intros k Hk. unfold rs. rewrite (committed_advances g b pc max offsets' k Hm Hb Hadv).
    rewrite filter_key_all, decide_False by (apply Hm || by apply Hdis). cbn. lia. }
  assert (∀ m ms k, m ∈ ms → k ∈ keys_of m → k ∈ mjoin (keys_of <$> ms)) as Hin.
  { intros m ms k Hms Hk. apply list_elem_of_join. exists (keys_of m). split; [done|].
    apply list_elem_of_fmap. by exists m. }
  apply Forall_app. split; [|apply Forall_cons; split; [by apply member_polled|]];
    apply Forall_forall; intros m Hmin; apply Hst.
  - by apply (proj1 (Forall_forall _ _) H1s).
  - intros k Hk. apply Hd1. by eapply Hin.
  - by apply (proj1 (Forall_forall _ _) H2s).
  - intros k Hk Hpc. apply (Hd2 k); [|by eapply Hin]. apply elem_of_app. by right.
Qed.

Lemma delivered_nil b k o : delivered b k o o = [].
Proof. unfold delivered. by rewrite Z.sub_diag. Qed.

Lemma logs_extend_delivered b b' k from to :
  logs_extend b b' → 0 ≤ from ≤ to → to = from ∨ to ≤ log_end b k →
  (to = from ∨ to ≤ log_end b' k) ∧ delivered b' k from to = delivered b k from to.
Proof.
  intros Hext Hft Hto. unfold log_end in *. destruct (log_of b k) as [log|] eqn:Hlog.
  - destruct (Hext _ _ Hlog) as (more & Hlog' & _). rewrite Hlog'. cbn [default] in *. unfold id in *.
    rewrite length_app. split; [lia|]. by eapply delivered_extend.
  - cbn in Hto. assert (to = from) as -> by lia. rewrite !delivered_nil. by split; [left|].
Qed.

Lemma group_ok_poll g max b0 rs w ms1 pc ms2 b :
  clean_group g → is_u32 max → group_delivers g b0 rs w (ms1 ++ pc :: ms2) b →
  ∃ w' pc' rs', poll_group max (w, pc) = ((w', pc'), Ok rs') ∧
    group_delivers g b0 (rs ++ rs') w' (ms1 ++ pc' :: ms2) (polled g (cn_offsets (pc_consumer pc')) rs' b) ∧
    ∀ k, filter (λ r, record_key r = k) rs' =
      if decide (k ∈ keys_of pc) then delivered b k (committed_at b g k) (committed_at b g k + max) else [].
Proof.
  intros Hcl Hmax [[room Hs] Hb Hms Hnd Hd].
  pose proof Hms as (_ & [Hm _]%Forall_cons)%Forall_app. pose proof (mo_at _ _ _ Hm) as Hat.
  destruct (poll_group_spec_aux g max w pc b room Hs Hcl Hb Hat Hmax) as (w' & offs & Hadv & Hp & Hs').
  set (rs' := mjoin (fetched b _ max <$> keys_of pc)) in *. set (pc' := on_consumer _ pc) in *.
  exists w', pc', rs'. change (cn_offsets (pc_consumer pc')) with offs.
  assert (∀ k, filter (λ r, record_key r = k) rs' =
    if decide (k ∈ keys_of pc) then fetched b (cn_offsets (pc_consumer pc)) max k else []) as Hrs'.
  { intros k. by apply filter_key_all, (mo_nodup _ _ _ Hat). }
  split; [done|split].
  - split.
    + by exists room.
    + by eapply polled_readable.
    + by eapply members_polled.
    + by rewrite fmap_app, fmap_cons in Hnd |- *.
    + intros k from to. destruct (Hd k) as (Hft & Hto & Hf). fold from in Hft, Hto, Hf.
      subst to. rewrite (committed_advances g b pc max offs k Hm Hb Hadv). fold rs'.
      rewrite delivered_polled, filter_app, Hf, Hrs', log_end_polled.
      destruct (decide (k ∈ keys_of pc)) as [Hk|Hk].
      * apply (deliver_more b _ max k from); [|done..]. by apply (mo_synced _ _ _ Hm).
      * cbn [length]. rewrite Z.add_0_r, app_nil_r. exact (conj Hft (conj Hto eq_refl)).
  - intros k. rewrite Hrs'. destruct (decide (k ∈ keys_of pc)) as [Hk|Hk]; [|done].
    by apply fetched_delivered, (mo_synced _ _ _ Hm).
Qed.

Lemma group_ok_join g b0 rs w ms b topics :
  group_delivers g b0 rs w ms b →
  ∃ w' pc, Consumer_join_group topics (w, new_member g) = ((w', pc), Ok tt) ∧
    ((∀ m, m ∈ ms → keys_of pc ## keys_of m) → group_delivers g b0 rs w' (pc :: ms) b).
Proof.
  intros [[room Hs] Hb Hms Hnd Hd].
  destruct (Consumer_join_served topics w b room g Hs Hb) as (w' & pc & Hj & Hs' & Hm).
  exists w', pc. split; [done|]. intros Hdis. split; [by exists room|done|by constructor| |done].
  rewrite fmap_cons, mjoin_cons. apply NoDup_app. split_and!; [by apply (mo_nodup _ _ _ (mo_at _ _ _ Hm))| |done].
  intros k Hk (x & Hkx & (m & -> & Hmin)%list_elem_of_fmap)%list_elem_of_join. by apply (Hdis m Hmin k).
Qed.

Lemma group_ok_gone g b0 rs w ms1 pc ms2 b :
  group_delivers g b0 rs w (ms1 ++ pc :: ms2) b → group_delivers g b0 rs w (ms1 ++ ms2) b.
Proof.
  intros [Hs Hb Hms Hnd Hd]. split; [done|done| | |done].
  - apply Forall_app in Hms as [? [_ ?]%Forall_cons]. by apply Forall_app.
  - rewrite fmap_app, ?fmap_cons, join_app, ?mjoin_cons in *. rewrite (Permutation_app_swap_app _ (keys_of pc)) in Hnd.
    by apply NoDup_app in Hnd as (_ & _ & ?).
Qed.

Lemma group_ok_others g b0 rs w ms b w' b' room' :
  group_delivers g b0 rs w ms b → serves w' b' room' → logs_extend b b' →
  broker_readable g b' → (∀ k, committed_at b' g k = committed_at b g k) → group_delivers g b0 rs w' ms b'.
Proof.
  intros [_ _ Hms Hnd Hd] Hs Hext Hb Hc. split; [by exists room'|done| |done|].
  - eapply Forall_impl; [exact Hms|]. intros m Hm. apply (member_ok_stable g b); [done| |done].
    intros k [log Hlog]. destruct (Hext k log Hlog) as (more & Hl & _). by rewrite Hl.
  - intros k from to. destruct (Hd k) as (Hft & Hto & Hf). subst to. rewrite Hc.
    destruct (logs_extend_delivered b b' k _ _ Hext Hft Hto) as [Hto' Hdel].
    split; [done|]. split; [done|]. by etrans; [exact Hf|].
Qed.

Lemma group_run_ok g max w0 b0 room rs w ms b :
  serves w0 b0 room → clean_group g → broker_readable g b0 → is_u32 max →
  group_run g max w0 b0 rs w ms b → group_delivers g b0 rs w ms b.
Proof.
  intros Hs Hcl Hb Hmax Hrun.
  induction Hrun as [|rs w ms b topics w' pc _ IH Hj Hdis|rs w ms1 pc ms2 b w' pc' rs' _ IH Hp|rs w ms1 pc ms2 b _ IH|].
  - split; [by exists room|done|constructor|constructor|].
    intros k from to. subst from to. rewrite delivered_nil. pose proof (committed_u64 g b0 k Hb) as Hu.
    unfold is_u64 in Hu. split; [lia|]. by split; [left|].
  - destruct (group_ok_join g b0 rs w ms b topics IH) as (w1 & pc1 & Hj' & Hok).
    rewrite Hj in Hj'. injection Hj' as -> ->. auto.
  - destruct (group_ok_poll g max b0 rs w ms1 pc ms2 b Hcl Hmax IH) as (w1 & pc1 & rs1 & Hp' & Hok & _).
    rewrite Hp in Hp'. by injection Hp' as -> -> ->.
  - by eapply group_ok_gone.
  - by eapply group_ok_others.
Qed.

End group_runs.

(** ** Partitions that two members hold *)
Section stale_members.
Context `{BrokerConnection W lag} `{HashIterLaws}.

Lemma poll_group_at g max w pc b room :
  serves w b room → clean_group g → broker_readable g b → member_at b g pc → is_u32 max →
  ∃ w' pc' rs' b', poll_group max (w, pc) = ((w', pc'), Ok rs') ∧ serves w' b' room ∧
    broker_readable g b' ∧ bs_topics b' = bs_topics b ∧
    ∀ k, k ∈ keys_of pc → let o := position (cn_offsets (pc_consumer pc)) k in
      let n := Z.of_nat (length (fetched b (cn_offsets (pc_consumer pc)) max k)) in
      filter (λ r, record_key r = k) rs' = delivered b k o (o + max) ∧
      (0 < n → committed_at b' g k = o + n).
Proof.
  intros Hs Hcl Hb Hm Hmax.
  destruct (poll_group_spec_aux g max w pc b room Hs Hcl Hb Hm Hmax) as (w' & offs & Hadv & Hp & Hs').
  eexists w', _, _, _. split; [exact Hp|]. split; [exact Hs'|]. split; [by eapply polled_readable|].
  split; [apply polled_topics|]. intros k Hk o n.
  rewrite filter_key_all, decide_True by (done || apply Hm). split; [by apply fetched_delivered|].
  intros Hn. unfold polled. rewrite decide_False.
  2: { intros Hnil. pose proof (mjoin_nil_elem _ (fetched b (cn_offsets (pc_consumer pc)) max k) Hnil) as Hf.
    unfold n in Hn. rewrite Hf in Hn; [done|]. apply list_elem_of_fmap. by exists k. }
  pose proof (adv_position _ _ _ _ _ Hadv k) as Hpos. rewrite decide_True in Hpos by done. fold o n in Hpos.
  pose proof (mo_u64 _ _ _ Hm k Hk) as Hu. fold o in Hu. unfold is_u64 in Hu.
  rewrite committed_polled. unfold position in Hpos. destruct (offs !! k); [done|]. cbn in Hpos. lia.
Qed.

(** Two members that hold one partition are given the same messages of it. *)
Theorem shared_partition_read_twice g max w pc1 pc2 b room k :
  serves w b room → clean_group g → broker_readable g b → member_ok b g pc1 → member_ok b g pc2 →
  is_u32 max → 0 < max → k ∈ keys_of pc1 → k ∈ keys_of pc2 → committed_at b g k < log_end b k →
  ∃ w1 pc1' rs1 w2 pc2' rs2, poll_group max (w, pc1) = ((w1, pc1'), Ok rs1) ∧
    poll_group max (w1, pc2) = ((w2, pc2'), Ok rs2) ∧
    filter (λ r, record_key r = k) rs1 = filter (λ r, record_key r = k) rs2 ∧
    filter (λ r, record_key r = k) rs1 ≠ [].
Proof.
  intros Hs Hcl Hb [Hm1 Hk1] [Hm2 Hk2] Hmax Hpos Hin1 Hin2 Hlt.
  destruct (poll_group_at g max w pc1 b room Hs Hcl Hb Hm1 Hmax)
    as (w1 & pc1' & rs1 & b1 & Hp1 & Hs1 & Hb1 & Ht1 & Hf1).
  assert (∀ k', log_of b1 k' = log_of b k') as Hlog by (intros k'; unfold log_of; by rewrite Ht1).
  destruct (poll_group_at g max w1 pc2 b1 room Hs1 Hcl Hb1) as (w2 & pc2' & rs2 & b2 & Hp2 & _ & _ & _ & Hf2); [|done|].
  { apply (member_at_stable g b); [done|]. intros k'. by rewrite Hlog. }
  exists w1, pc1', rs1, w2, pc2', rs2. split; [done|]. split; [done|].
  destruct (Hf1 k Hin1) as [-> _]. destruct (Hf2 k Hin2) as [-> _]. rewrite Hk1, Hk2 by done.
  unfold delivered. rewrite Hlog. split; [done|]. intros Hnil%(f_equal length).
  rewrite length_records_at, length_take, length_drop in Hnil. cbn in Hnil.
  pose proof (committed_u64 g b k Hb) as Hu. unfold log_end, is_u64 in *. lia.
Qed.

(** The broker takes any offset a member commits: the poll of a member that has fallen behind
    the offset the group has committed moves that offset back, so that the messages in
    between are delivered to the group again. *)
Theorem stale_commit_rewinds g max w pc b room k :
  serves w b room → clean_group g → broker_readable g b → member_at b g pc →
  is_u32 max → 0 < max → k ∈ keys_of pc →
  position (cn_offsets (pc_consumer pc)) k + max < committed_at b g k ≤ log_end b k →
  ∃ w' pc' rs b', poll_group max (w, pc) = ((w', pc'), Ok rs) ∧ serves w' b' room ∧
    committed_at b' g k = position (cn_offsets (pc_consumer pc)) k + max ∧
    committed_at b' g k < committed_at b g k.
Proof.
  intros Hs Hcl Hb Hm Hmax Hpos Hin Hlt.
  destruct (poll_group_at g max w pc b room Hs Hcl Hb Hm Hmax)
    as (w' & pc' & rs & b' & Hp & Hs' & _ & _ & Hf). destruct (Hf k Hin) as [_ Hc].
  pose proof (mo_u64 _ _ _ Hm k Hin) as Hu. unfold log_end, is_u64 in *.
  rewrite fetched_length in Hc.
  exists w', pc', rs, b'. rewrite Hc by lia. split_and!; [done|done|lia|lia].
Qed.
End stale_members.
