(* ===== verification/StorageWitnesses.v ===== *)
(** * StorageWitnesses: the theorems of the storage at concrete inputs

    Each lemma applies one theorem to concrete data on which its hypotheses hold, with
    the checksum and the compression library of [Instances]. *)
From Stdlib Require Import Strings.Byte.
From S2P Require Import Prelude Bytes Text Common Messages Compression DiskRecord Instances.
From S2P Require Import FileSystem OffsetIndex Retention Segment Partition Recovery Topic.

#[local] Existing Instance crc32_ieee.
#[local] Existing Instance crc32_ieee_laws.
#[local] Existing Instance store_lib.
#[local] Existing Instance store_lib_laws.

(** ** Records *)
Definition wrec : DiskRecord :=
  {| dr_offset := 7; dr_timestamp := 1000; dr_key := Some [x61]; dr_value := [x62; x63];
     dr_compression := Gzip |}.
Definition wrec_bytes : bytes :=
  Eval vm_compute in match DiskRecord_encode wrec with Ok b => b | _ => [] end.

Lemma wrec_encoded : DiskRecord_encode wrec = Ok wrec_bytes.
Proof. vm_compute. reflexivity. Qed.
Lemma wrec_wf : DiskRecord_wf wrec.
Proof. unfold DiskRecord_wf, is_u64. simpl. lia. Qed.
Lemma wrec_fits : encoding_fits wrec_bytes.
Proof. unfold encoding_fits. simpl. lia. Qed.

Lemma DiskRecord_decode_encode_witness :
  DiskRecord_encode wrec = Ok wrec_bytes ∧ DiskRecord_decode (wrec_bytes ++ [x00]) = Ok (wrec, [x00]).
Proof.
  split; [apply wrec_encoded|].
  apply (DiskRecord_decode_encode wrec wrec_bytes [x00]); [apply wrec_wf|apply wrec_encoded|apply wrec_fits].
Defined.

Lemma DiskRecord_decode_truncated_witness :
  ∃ e, DiskRecord_decode (take 20 wrec_bytes) = Err (Storage e).
Proof.
  apply (DiskRecord_decode_truncated wrec wrec_bytes 20);
    [apply wrec_encoded|apply wrec_fits|simpl; lia].
Defined.

Lemma DiskRecord_decode_corrupted_witness :
  ∃ e, DiskRecord_decode
    (to_be 8 7 ++ to_be 4 (Z.of_nat (length [x01]) + 4) ++ to_be 4 0 ++ [x01] ++ [x02])
    = Err (Corruption e).
Proof.
  apply (DiskRecord_decode_corrupted 7 0 [x01] [x02]);
    [done|done|done|by vm_compute].
Defined.

Lemma DiskRecord_serialized_size_spec_witness :
  Z.of_nat (length wrec_bytes) = DiskRecord_serialized_size wrec ↔
  ∃ v, compress (dr_value wrec) (dr_compression wrec) = Ok v ∧ length v = length (dr_value wrec).
Proof. apply (DiskRecord_serialized_size_spec wrec wrec_bytes), wrec_encoded. Defined.

(** ** The index *)
Definition wpath : path := ["i"%string].
Definition windex_disk : disk :=
  set_content {| files := ∅; dirs := {[ [] ]} |} wpath (encode_entries [(3, 30); (5, 50)]).
Definition windex : OffsetIndex :=
  {| ix_file := {| f_path := wpath; f_pos := 32 |};
     ix_mmap := Some (encode_entries [(3, 30); (5, 50)]); ix_size := 2 |}.

Lemma windex_inv : OffsetIndex_inv windex_disk windex [(3, 30); (5, 50)].
Proof.
  split; [apply files_set|done|done| |].
  - repeat (constructor; [split; done|]). constructor.
  - repeat constructor.
Qed.

Lemma OffsetIndex_lookup_floor_witness :
  OffsetIndex_lookup windex 4 = Ok (index_floor [(3, 30); (5, 50)] 4).
Proof. apply (OffsetIndex_lookup_floor windex_disk), windex_inv. Defined.

Lemma OffsetIndex_append_spec_witness :
  let '(d', ix') := OffsetIndex_append windex_disk windex 8 80 in
  OffsetIndex_inv d' ix' ([(3, 30); (5, 50)] ++ [(8, 80)]) ∧
  cursor_at_end ix' ([(3, 30); (5, 50)] ++ [(8, 80)]) ∧
  OffsetIndex_lookup ix' 9 =
    Ok (if decide (8 ≤ 9) then Some 80 else index_floor [(3, 30); (5, 50)] 9).
Proof.
  apply OffsetIndex_append_spec; [apply windex_inv|done|split; done|].
  intros e [= <-]. done.
Defined.

Lemma OffsetIndex_reopen_append_panics_witness :
  ∃ ix, OffsetIndex_open wpath windex_disk = (windex_disk, Ok ix) ∧
    let '(d', ix') := OffsetIndex_append windex_disk ix 8 80 in
    files d' !! wpath = Some (encode_entries ((8, 80) :: [(5, 50)])) ∧
    OffsetIndex_lookup ix' 9 = Panic.
Proof.
  destruct windex_inv as [_ _ _ Hwf Hs].
  apply (OffsetIndex_reopen_append_panics windex_disk wpath (3, 30) [(5, 50)] 8 80 9);
    [apply files_set|done|done|split; done| |done].
  intros e [->|[->|[]%elem_of_nil]%elem_of_cons]%elem_of_cons; done.
Defined.

(** ** Segments *)
Definition wconfig : SegmentConfig :=
  {| sc_max_size := 60; sc_index_interval := 1; sc_compression := CNone;
     sc_retention := RetentionConfig_default |}.
Definition wmsg (b : Byte.byte) : Message :=
  {| msg_key := None; msg_value := [b]; msg_timestamp := 5 |}.

Lemma wmsg_fits config b : sc_compression config = CNone → message_fits config (wmsg b).
Proof. intros Hc. by apply message_fits_plain. Qed.

Definition wdisk : disk := {| files := ∅; dirs := {[ [] ]} |}.
Lemma wdisk_root : [] ∈ dirs wdisk.
Proof. unfold wdisk. cbn [dirs]. by apply elem_of_singleton. Qed.
Lemma wdisk_no_dir p : p ≠ [] → p ∉ dirs wdisk.
Proof. unfold wdisk. cbn [dirs]. by rewrite elem_of_singleton. Qed.

(** A new segment at offset 100, and its first three records. *)
Lemma wsegment_new :
  ∃ d seg, LogSegment_inv d seg [] [] ∧ segment_at [] wconfig 100 seg ∧
    cursor_at_end (seg_index seg) [].
Proof.
  destruct (LogSegment_create_fresh wdisk [] 100 wconfig) as (d & seg & _ & Hat & Hinv & Hcur & _);
    [done|done|apply wdisk_root|done|done|].
  by exists d, seg.
Qed.

Definition wmsgs : list Message := [wmsg x61; wmsg x62; wmsg x63].
Definition wrecords : list DiskRecord := new_records wconfig 100 wmsgs.

Lemma wrecords_ok : Forall record_ok wrecords.
Proof.
  apply Forall_message_fits; [|done|done].
  repeat (constructor; [by apply wmsg_fits|]). constructor.
Qed.

Lemma LogSegment_append_spec_witness :
  ∃ d seg d' seg' es', LogSegment_append wmsgs (d, seg) = ((d', seg'), Ok 100) ∧
    LogSegment_inv d' seg' ([] ++ wrecords) es' ∧ cursor_at_end (seg_index seg') es' ∧
    same_segment seg seg' ∧ disk_frame (segment_files seg) d d'.
Proof.
  destruct wsegment_new as (d & seg & Hinv & (Hb & Hcfg & _) & Hcur).
  pose proof (sm_next _ _ _ _ (si_mid _ _ _ _ Hinv)) as Hn. rewrite Hb in Hn.
  destruct (LogSegment_append_spec d seg [] [] wmsgs) as (d' & seg' & es' & Ha & Hi & _ & Hc & Hs & Hf);
    rewrite ?Hcfg, ?Hn, ?Hb; [done|done|exact wrecords_ok|done|by left|].
  exists d, seg, d', seg', es'. rewrite Ha, Hn. rewrite Hcfg, Hn in Hi.
  split; [done|]. split; [exact Hi|]. split; [by apply Hc|done].
Defined.

(** A segment that holds the three records. *)
Lemma wsegment : ∃ d seg es, LogSegment_inv d seg wrecords es ∧ seg_base_offset seg = 100 ∧
  seg_config seg = wconfig ∧ cursor_at_end (seg_index seg) es.
Proof.
  destruct wsegment_new as (d & seg & Hinv & (Hb & Hcfg & _) & Hcur).
  pose proof (sm_next _ _ _ _ (si_mid _ _ _ _ Hinv)) as Hn. rewrite Hb in Hn.
  destruct (LogSegment_append_aux d seg [] [] wmsgs) as (d' & seg' & es' & Ha & Hi & Hs & Hf & Hr);
    rewrite ?Hcfg, ?Hn, ?Hb; [done|done|exact wrecords_ok|done|by left|].
  rewrite Hcfg, Hn in Hi. destruct Hs as (Hb' & _ & _ & Hcfg').
  exists d', seg', es'. split; [exact Hi|]. split; [congruence|]. split; [congruence|].
  destruct (Hr 2%nat) as [Hc|Hc]; [by left|done|]. rewrite Hcfg', Hcfg in Hc.
  pose proof (sm_since _ _ _ _ (si_mid _ _ _ _ Hi)). simpl in Hc. lia.
Qed.

Lemma LogSegment_read_spec_witness :
  ∃ seg, LogSegment_read seg 101 = Ok (make_record wconfig 101 (wmsg x62)) ∧
    LogSegment_read seg 99 = Err (InvalidOffset 99) ∧ LogSegment_read seg 103 = Err (InvalidOffset 103).
Proof.
  destruct wsegment as (d & seg & es & Hinv & Hb & _). exists seg.
  rewrite !(LogSegment_read_spec d seg wrecords es) by exact Hinv. rewrite Hb. done.
Defined.

Lemma LogSegment_read_batch_spec_witness :
  ∃ seg, LogSegment_read_batch seg 101 5 = Ok (drop 1 wrecords) ∧
    LogSegment_read_batch seg 103 5 = Ok [].
Proof.
  destruct wsegment as (d & seg & es & Hinv & Hb & _). exists seg.
  rewrite !(LogSegment_read_batch_spec d seg wrecords es) by exact Hinv. rewrite Hb. done.
Defined.

(** A torn record after the three. *)
Definition wtorn_disk : disk :=
  set_content (set_content wdisk (LogSegment_index_path [] 100) (encode_entries []))
    (LogSegment_log_path [] 100) (encode_log wrecords ++ take 20 wrec_bytes).

Lemma LogSegment_open_recovers_witness :
  ∃ seg, LogSegment_open 100 [] wconfig wtorn_disk = (wtorn_disk, Ok seg) ∧
    seg_next_offset seg = 100 + Z.of_nat (Nat.max 1 (length wrecords)) ∧
    (∀ k r, wrecords !! k = Some r → LogSegment_read seg (100 + Z.of_nat k) = Ok r) ∧
    (∀ k max,
      LogSegment_read_batch seg (100 + Z.of_nat k) max = Ok (take (Z.to_nat max) (drop k wrecords))).
Proof.
  destruct (decode_truncated_aux wrec wrec_bytes 20) as [e He];
    [apply wrec_encoded|apply wrec_fits|simpl; lia|].
  apply (LogSegment_open_recovers wtorn_disk [] 100 wconfig wrecords (take 20 wrec_bytes) [] (Storage e));
    [done|done|apply files_set| | |done|exact He|done|constructor|constructor|constructor].
  - unfold wtorn_disk. rewrite files_set_ne by by apply segment_paths_ne. apply files_set.
  - split; [apply wrecords_ok|]. intros [|[|[|i]]] r Hr; simplify_eq/=; done.
Defined.

(** A library whose compressor refuses one input. *)
Definition picky_lib : CompressionLib := {|
  gz_encode d := if decide (d = [x00]) then inl "write error"%string else inr (store_encode 1 d);
  gz_decode := store_decode 1;
  snap_encoder := bytes;
  snap_write d := inr d;
  snap_into_inner d := inr (store_encode 2 d);
  snap_decode := store_decode 2;
  lz4_compress_prepend_size := store_encode 3;
  lz4_decompress_size_prepended := store_decode 3;
|}.
Lemma picky_lib_laws : @CompressionLaws picky_lib.
Proof.
  split; [|apply (@snap_round_trip store_lib store_lib_laws)|apply (@lz4_round_trip store_lib store_lib_laws)].
  intros d e. simpl. case_decide; [done|]. intros [= <-]. done.
Qed.
Definition wconfig_gzip : SegmentConfig := SegmentConfig_with_compression wconfig Gzip.

Section picky.
#[local] Existing Instance picky_lib.
#[local] Existing Instance picky_lib_laws.
Lemma LogSegment_append_error_witness :
  ∃ d seg d' seg' es',
    LogSegment_append [wmsg x61; wmsg x00; wmsg x62] (d, seg) =
      ((d', seg'), Err (Compression "Gzip compression failed: write error")) ∧
    segment_mid d' seg'
      ([] ++ new_records wconfig_gzip 100 [wmsg x61]) es' ∧
    seg_size seg' = seg_size seg ∧ seg_mmap seg' = seg_mmap seg.
Proof.
  destruct (LogSegment_create_fresh wdisk [] 100 wconfig_gzip) as (d & seg & _ & (Hb & Hcfg & _) & Hinv & Hcur & _);
    [done|done|apply wdisk_root|done|done|].
  pose proof (sm_next _ _ _ _ (si_mid _ _ _ _ Hinv)) as Hn. rewrite Hb in Hn.
  destruct (LogSegment_append_error d seg [] [] [wmsg x61] (wmsg x00) [wmsg x62]
    (Compression "Gzip compression failed: write error")) as (d' & seg' & es' & Ha & Hi & Hs & Hm);
    rewrite ?Hcfg, ?Hn, ?Hb; [done| |done|by left|done|].
  - constructor; [|constructor]. split; [done|]. eexists. split; [vm_compute; reflexivity|done].
  - exists d, seg, d', seg', es'. rewrite Hcfg, Hn in Hi. done.
Defined.
End picky.

(** ** Partitions *)
Definition wtopic : string := "t".

Lemma wpartition_new config :
  0 < sc_max_size config → is_u32 (sc_index_interval config) →
  ∃ d p, (∀ room, Partition_holds d p 0 [] room) ∧ pt_config p = config ∧
    pt_data_dir p = partition_dir [] (pt_topic_name p) (pt_partition_id p) ∧
    Partition_with_config wtopic 0 [] config wdisk = (d, Ok p).
Proof.
  intros Hm Hi. destruct (Partition_with_config_aux wdisk wtopic 0 [] config) as
    (d & p & Hnew & Hid & Htn & Hdir & Hcfg & Hinv & _); [done|done| |].
  - intros name. split; [done|]. by apply wdisk_no_dir.
  - exists d, p. split; [|split; [done|split; [congruence|exact Hnew]]]. intros room. unfold Partition_holds. rewrite Hcfg. apply Hinv.
Qed.

Lemma Partition_append_refines_witness :
  ∃ d p d' p', Partition_append wmsgs (d, p) = ((d', p'), Ok 0) ∧
    Partition_holds d' p' 0 wmsgs 4 ∧ same_partition p p' ∧ dir_frame (pt_data_dir p) d d'.
Proof.
  destruct (wpartition_new wconfig) as (d & p & Hh & Hcfg & _); [done|done|].
  destruct (Partition_append_refines d p 0 [] 7 wmsgs) as (d' & p' & H); rewrite ?Hcfg;
    [apply Hh|done| |done|done|simpl; lia|by exists d, p, d', p'].
  repeat (constructor; [by apply wmsg_fits|]). constructor.
Defined.

(** A partition that holds the three messages, in two segments. *)
Lemma wpartition :
  ∃ d p, Partition_holds d p 0 wmsgs 4 ∧ pt_config p = wconfig ∧
    pt_data_dir p = partition_dir [] (pt_topic_name p) (pt_partition_id p).
Proof.
  destruct (wpartition_new wconfig) as (d & p & Hh & Hcfg & Hdir & _); [done|done|].
  destruct (append_holds d p 0 [] 7 wmsgs) as (d' & p' & _ & Hh' & (Hid & Htn & Hd & Hc) & _); rewrite ?Hcfg;
    [apply Hh|done| |done|done|simpl; lia|exists d', p'; split; [done|split; congruence]].
  repeat (constructor; [by apply wmsg_fits|]). constructor.
Qed.

Lemma Partition_fetch_refines_witness :
  ∃ p, Partition_fetch p 1 5 = Ok (records_from p 1 [wmsg x62; wmsg x63]).
Proof.
  destruct wpartition as (d & p & Hh & _). exists p.
  rewrite (Partition_fetch_refines d p 0 wmsgs 4 1 5) by done. done.
Defined.

Lemma Partition_open_refines_witness :
  ∃ d p p', Partition_open_with_config (pt_topic_name p) (pt_partition_id p) [] (pt_config p) d =
      (d, Ok p') ∧ same_partition p p' ∧ Partition_holds d p' 0 wmsgs 1.
Proof.
  destruct wpartition as (d & p & Hh & Hcfg & Hdir). exists d, p.
  destruct (Partition_open_refines d p 0 wmsgs 4 [] Hh Hdir) as (p' & Ho & Hs & Hh').
  rewrite Hcfg in Hh' at 1. by exists p'.
Defined.

Lemma Partition_run_witness :
  ∃ d' p d'' p', Partition_with_config wtopic 0 [] wconfig wdisk = (d', Ok p) ∧
    append_all [[wmsg x61; wmsg x62]; [wmsg x63]] (d', p) =
      ((d'', p'), Ok (batch_offsets 0 [[wmsg x61; wmsg x62]; [wmsg x63]])) ∧
    Partition_fetch p' 1 5 = Ok (records_from p' 1 (take (Z.to_nat 5) (drop (Z.to_nat 1)
      (concat [[wmsg x61; wmsg x62]; [wmsg x63]])))).
Proof.
  apply Partition_run; [done|done| | |done|done|done|done].
  - intros name. split; [done|]. by apply wdisk_no_dir.
  - repeat (constructor; [split; [done|repeat (constructor; [by apply wmsg_fits|]); constructor]|]).
    constructor.
Defined.

(** ** Recovery *)
Lemma Partition_crash_recovers_witness :
  ∃ d p p', let d' := Partition_crash [wmsg x64] (wmsg x65) 20 (d, p) in
    Partition_open_with_config (pt_topic_name p) (pt_partition_id p) [] (pt_config p) d' = (d', Ok p') ∧
    Partition_fetch p' 1 5 = Ok (records_from p' 1 [wmsg x62; wmsg x63; wmsg x64]).
Proof.
  destruct wpartition as (d & p & Hh & Hcfg & Hdir). exists d, p.
  destruct (Partition_crash_recovers d p 0 wmsgs 4 [wmsg x64] (wmsg x65) 20 [] Hdir Hh)
    as (_ & p' & Ho & _ & Hf).
  - rewrite Hcfg. repeat (constructor; [by apply wmsg_fits|]). constructor.
  - simpl. lia.
  - rewrite Hcfg. vm_compute. reflexivity.
  - simpl. lia.
  - exists p'. split; [exact Ho|]. rewrite (Hf 1 5) by done. rewrite Hcfg. vm_compute. reflexivity.
Defined.

(** The partition of [wpartition] is full. *)
Definition wfull : bool :=
  match Partition_with_config wtopic 0 [] wconfig wdisk with
  | (d, Ok p) =>
      match Partition_append wmsgs (d, p) with
      | ((_, p), _) =>
          match last (pt_segments p) with Some seg => LogSegment_should_rotate seg | None => false end
      end
  | _ => false
  end.
Lemma wfull_ok : wfull = true.
Proof. vm_compute. reflexivity. Qed.
Lemma wpartition_full :
  ∃ d p seg, Partition_holds d p 0 wmsgs 4 ∧ last (pt_segments p) = Some seg ∧
    LogSegment_should_rotate seg = true ∧
    pt_data_dir p = partition_dir [] (pt_topic_name p) (pt_partition_id p).
Proof.
  destruct (wpartition_new wconfig) as (d & p & Hh & Hcfg & Hdir & Hnew); [done|done|].
  destruct (append_holds d p 0 [] 7 wmsgs) as (d' & p' & Happ & Hh' & (Hid' & Htn' & Hd' & _) & _);
    rewrite ?Hcfg; [apply Hh|done| |done|done|simpl; lia|].
  { repeat (constructor; [by apply wmsg_fits|]). constructor. }
  pose proof wfull_ok as Hfull. unfold wfull in Hfull. rewrite Hnew, Happ in Hfull.
  destruct (last (pt_segments p')) as [seg|] eqn:Hl; [|discriminate Hfull].
  exists d', p', seg. split; [exact Hh'|]. split; [exact Hl|]. split; [exact Hfull|]. congruence.
Qed.

Lemma rotation_crash_locks_out_witness :
  ∃ d p, let d' := rotation_crash p d in
    Partition_open_with_config (pt_topic_name p) (pt_partition_id p) [] (pt_config p) d' =
      (d', Err io_not_found).
Proof.
  destruct wpartition_full as (d & p & seg & Hh & Hl & Hr & Hdir). exists d, p.
  exact (rotation_crash_locks_out d p 0 wmsgs 4 seg [] Hdir Hh Hl Hr).
Defined.

Lemma wtorn_decode :
  ∃ e, DiskRecord_decode (take 20 wrec_bytes ++ encoded (make_record wconfig 103 (wmsg x64))) = Err e.
Proof.
  destruct (DiskRecord_decode _) as [?|e|] eqn:He; [|by exists e|]; exfalso; revert He; vm_compute; discriminate.
Qed.
Lemma torn_tail_swallows_appends_witness :
  ∃ e seg d' seg', LogSegment_open 100 [] wconfig wtorn_disk = (wtorn_disk, Ok seg) ∧
    LogSegment_append [wmsg x64] (wtorn_disk, seg) = ((d', seg'), Ok 103) ∧
    LogSegment_read seg' 103 = Err e ∧ LogSegment_read_batch seg' 103 5 = Ok [].
Proof.
  assert (segment_torn wtorn_disk [] 100 wrecords (take 20 wrec_bytes) []) as Htorn.
  { destruct (decode_truncated_aux wrec wrec_bytes 20) as [e0 He0];
      [apply wrec_encoded|apply wrec_fits|simpl; lia|].
    split; [apply files_set| |by eexists|done| |done|constructor|constructor|constructor].
    - exists []. split; [unfold INDEX_ENTRY_SIZE; simpl; lia|]. rewrite app_nil_r. unfold wtorn_disk.
      rewrite files_set_ne by by apply segment_paths_ne. apply files_set.
    - split; [apply wrecords_ok|]. intros [|[|[|i]]] r' Hr; simplify_eq/=; done. }
  assert (record_ok (make_record wconfig 103 (wmsg x64))) as Hr by (by apply wmsg_fits).
  destruct wtorn_decode as [e He].
  destruct (torn_tail_swallows_appends wtorn_disk [] 100 wconfig wrecords (take 20 wrec_bytes) [] (wmsg x64) e
    Htorn) as (seg & d' & seg' & Ho & Ha & Hread & Hb).
  - discriminate.
  - reflexivity.
  - exact Hr.
  - exact He.
  - reflexivity.
  - exists e, seg, d', seg'. split; [exact Ho|]. split; [exact Ha|]. split; [exact Hread|exact (Hb 5)].
Defined.

(** ** Topics *)
Lemma wmanager_new : ∃ d tm, ∀ room, Manager_holds d tm ∅ room.
Proof.
  destruct (TopicManager_new_aux {| files := ∅; dirs := ∅ |} []) as (d & tm & _ & _ & Hm).
  - intros name entry id Hin. cbn [dirs] in Hin. by apply elem_of_empty in Hin.
  - intros name id entry. split; [done|]. cbn [dirs]. apply not_elem_of_empty.
  - by exists d, tm.
Qed.

Lemma TopicManager_create_refines_witness :
  ∃ d tm d' tm', TopicManager_create_topic wtopic 2 (d, tm) = ((d', tm'), Ok tt) ∧
    tm_data_dir tm' = tm_data_dir tm ∧
    Manager_holds d' tm' (<[wtopic := replicate (Z.to_nat 2) []]> ∅) 9.
Proof.
  destruct wmanager_new as (d & tm & Hm). exists d, tm.
  pose proof (TopicManager_create_refines d tm ∅ 9 wtopic 2 (Hm 9%nat)) as Hc.
  rewrite lookup_empty in Hc. apply Hc. done.
Defined.

(** A topic with two partitions, one of which holds the messages. *)
Definition wspec : gmap string topic_logs := {[wtopic := [wmsgs; []]]}.
Lemma wmanager_empty : ∃ d tm, Manager_holds d tm {[wtopic := [[]; []]]} 9.
Proof.
  destruct wmanager_new as (d & tm & Hm).
  destruct (Manager_create d tm ∅ 9 wtopic 2 (Hm 9%nat)) as (d' & tm' & _ & _ & H & _); [done|done|].
  by exists d', tm'.
Qed.
Lemma wmsgs_fit : Forall (message_fits SegmentConfig_default) wmsgs.
Proof. repeat (constructor; [by apply wmsg_fits|]). constructor. Qed.

Lemma TopicManager_append_refines_witness :
  ∃ d tm d' tm', on_topic wtopic (Topic_append 0 wmsgs) (d, tm) = ((d', tm'), Ok 0) ∧
    Manager_holds d' tm' wspec 6.
Proof.
  destruct wmanager_empty as (d & tm & Hm). exists d, tm.
  pose proof (TopicManager_append_refines d tm _ 9 wtopic 0 wmsgs Hm) as Ha.
  rewrite lookup_singleton_eq in Ha. cbn [lookup list_lookup Z.to_nat] in Ha.
  destruct Ha as (d' & tm' & Ha & Hm'); [done|done|exact wmsgs_fit|simpl; lia|done|done|].
  exists d', tm'. split; [exact Ha|]. rewrite insert_singleton_eq in Hm'. exact Hm'.
Defined.

Lemma wmanager : ∃ d tm, Manager_holds d tm wspec 6.
Proof.
  destruct wmanager_empty as (d & tm & Hm).
  destruct (Manager_append d tm _ 9 wtopic [[]; []] 0 [] wmsgs Hm) as (d' & tm' & _ & _ & Hm' & _);
    [by rewrite lookup_singleton_eq|done|done|done|exact wmsgs_fit|done|done|simpl; lia|].
  exists d', tm'. rewrite insert_singleton_eq in Hm'. exact Hm'.
Qed.

Lemma TopicManager_fetch_refines_witness :
  ∃ tm, (t ← TopicManager_get_topic tm wtopic; Topic_fetch t 0 2 10) =
    Ok (records_at wtopic 0 2 [wmsg x63]).
Proof.
  destruct wmanager as (d & tm & Hm). exists tm.
  rewrite (TopicManager_fetch_refines d tm wspec 6 wtopic 0 2 10) by done.
  unfold wspec. by rewrite lookup_singleton_eq.
Defined.

Lemma TopicManager_restart_witness :
  ∃ d tm tm', TopicManager_open (tm_data_dir tm) d = (d, Ok tm') ∧
    Manager_holds d tm' (filter (λ '(_, logs), logs ≠ []) wspec) reopen_room.
Proof.
  destruct wmanager as (d & tm & Hm). exists d, tm. by apply (TopicManager_restart d tm wspec 6).
Defined.

(** ** Retention *)
Definition wsegs : list SegmentMetadata :=
  [ {| sm_base_offset := 0; sm_size := 100; sm_created_at := 0 |};
    {| sm_base_offset := 10; sm_size := 100; sm_created_at := 50 |};
    {| sm_base_offset := 20; sm_size := 100; sm_created_at := 90 |} ].
Definition wretention : RetentionConfig := RetentionConfig_size 150.
Lemma wsegs_wf : sizes_wf wsegs.
Proof. split; [|done]. repeat (constructor; [done|]). constructor. Qed.

Lemma segments_to_delete_spec_witness :
  let m := RetentionManager_new wretention in
  let clock := λ _ : nat, 100 in
  segments_to_delete m clock wsegs = [0; 10] ∧
  ∃ n, (n ≤ length wsegs)%nat ∧
    segments_to_delete m clock wsegs = sm_base_offset <$> take n wsegs ∧
    (length wsegs `min` 1 ≤ length wsegs - n)%nat ∧
    (∀ i s, (i < n)%nat → wsegs !! i = Some s →
      too_old (Size_ 150) (clock i) s ∨ too_big (Size_ 150) (drop i wsegs)) ∧
    (∀ s, wsegs !! n = Some s →
      (length wsegs - n ≤ 1)%nat ∨
      ¬ too_old (Size_ 150) (clock n) s ∧ ¬ too_big (Size_ 150) (drop n wsegs)).
Proof.
  split; [done|].
  apply (segments_to_delete_spec (RetentionManager_new wretention)), wsegs_wf.
Defined.

Lemma segments_to_delete_min_witness :
  (length wsegs `min` 1 ≤
    length wsegs - length (segments_to_delete (RetentionManager_new wretention) (λ _, 100%Z) wsegs))%nat.
Proof. apply (segments_to_delete_min (RetentionManager_new wretention)), wsegs_wf. Defined.

Lemma segments_to_delete_size_witness :
  let kept := drop (length (segments_to_delete (RetentionManager_new wretention) (λ _, 100%Z) wsegs)) wsegs in
  (total_size kept ≤ 150 ∨ (length kept ≤ rc_min_segments wretention)%nat) ∧
  (segments_to_delete (RetentionManager_new wretention) (λ _, 100%Z) wsegs ≠ [] →
    150 < total_size (drop (length (segments_to_delete (RetentionManager_new wretention)
      (λ _, 100%Z) wsegs) - 1) wsegs)).
Proof. apply segments_to_delete_size; [done|apply wsegs_wf]. Defined.
