(* ===== verification/ProtocolWitnesses.v ===== *)
(** * ProtocolWitnesses: the theorems of the codec at concrete inputs

    The serializer of the witnesses knows two requests and two responses, one of which is
    larger than a frame may be, and refuses the others. *)
From Stdlib Require Import Strings.Byte.
From S2P Require Import Prelude Bytes Text Common Messages Codec.

#[local] Instance toy_request_codec : Bincode Request := {|
  bincode_serialize r :=
    match r with
    | ListTopics => inr [x05]
    | GetClusterMetadata => inr [x0c; x00]
    | _ => inl "unsupported"%string
    end;
  bincode_deserialize bs :=
    match bs with
    | [_] => inr ListTopics
    | [_; _] => inr GetClusterMetadata
    | _ => inl "unexpected"%string
    end;
|}.
#[local] Instance toy_request_laws : BincodeLaws Request.
Proof. by intros [] bs [= <-]. Qed.

Definition huge : bytes := replicate (Z.to_nat (MAX_MESSAGE_SIZE + 1)) x00.
Lemma length_huge : Z.of_nat (length huge) = MAX_MESSAGE_SIZE + 1.
Proof. unfold huge. rewrite length_replicate. apply Z2Nat.id. unfold MAX_MESSAGE_SIZE. lia. Qed.
#[local] Opaque huge.

#[local] Instance toy_response_codec : Bincode Response := {|
  bincode_serialize r :=
    match r with
    | HeartbeatSuccess => inr [x09]
    | Topics [] => inr huge
    | _ => inl "unsupported"%string
    end;
  bincode_deserialize bs :=
    if Z.of_nat (length bs) =? 1 then inr HeartbeatSuccess else inr (Topics []);
|}.
#[local] Instance toy_response_laws : BincodeLaws Response.
Proof.
  intros r bs Hs. destruct r;
    try discriminate Hs.
  - destruct topics; [|discriminate Hs]. injection Hs as <-.
    cbn [bincode_deserialize toy_response_codec]. by rewrite length_huge.
  - by injection Hs as <-.
Qed.

Definition wreq_frame : bytes := to_be 4 1 ++ [x05].
Definition wresp_frame : bytes := to_be 4 1 ++ [x09].
Lemma wreq_encoded dst : ClientCodec_encode ListTopics dst = (dst ++ wreq_frame, Ok tt).
Proof. done. Qed.
Lemma wresp_encoded dst : GaffaCodec_encode HeartbeatSuccess dst = (dst ++ wresp_frame, Ok tt).
Proof. done. Qed.

Lemma codec_round_trip_witness :
  GaffaCodec_decode (drop (length [x00]) ([x00] ++ wreq_frame) ++ [x01]) = ([x01], Ok (Some ListTopics)) ∧
  ClientCodec_decode (drop (length (@nil Byte.byte)) ([] ++ wresp_frame) ++ [x01]) =
    ([x01], Ok (Some HeartbeatSuccess)).
Proof.
  apply (codec_round_trip ListTopics HeartbeatSuccess [x00] _ [] _ [x01]);
    [apply wreq_encoded|apply wresp_encoded].
Defined.

Lemma codec_partial_witness :
  GaffaCodec_decode (take 4 wreq_frame) = (take 4 wreq_frame, Ok None).
Proof.
  apply (codec_partial ListTopics wreq_frame 4); [apply (wreq_encoded [])|].
  unfold wreq_frame. rewrite length_app, length_to_be. simpl. lia.
Defined.

Definition wchunks : list bytes :=
  [take 2 wreq_frame; drop 2 wreq_frame ++ to_be 4 2; [x0c]; [x00]].
Lemma codec_stream_witness :
  decode_stream wchunks [] = ([], Ok [ListTopics; GetClusterMetadata]).
Proof.
  apply (codec_stream [ListTopics; GetClusterMetadata] (concat wchunks)); [|done].
  unfold wchunks. cbn [concat]. rewrite app_nil_r, !app_assoc, take_drop, <-!app_assoc. done.
Defined.

Lemma codec_oversize_witness :
  GaffaCodec_decode (to_be 4 20000000) = (to_be 4 20000000, Err (message_too_large 20000000)) ∧
  GaffaCodec_encode (Topics []) [x00] = ([x00], Err (message_too_large (MAX_MESSAGE_SIZE + 1))).
Proof.
  destruct (codec_oversize (Topics []) huge [x00] (to_be 4 20000000)) as [Hd He].
  rewrite take_ge in Hd by (by rewrite length_to_be). rewrite (from_be_to_be_u32 20000000) in Hd by (unfold is_u32; lia).
  rewrite length_huge in He. split.
  - apply Hd; [unfold MAX_MESSAGE_SIZE; lia|rewrite length_to_be; lia].
  - apply He; [reflexivity|lia].
Defined.
