(* ===== verification/BrokerWitnesses.v ===== *)
(** * BrokerWitnesses: the theorems of the broker's metadata at concrete inputs *)
From S2P Require Import Prelude Bytes Text Common Messages Compression DiskRecord Instances.
From S2P Require Import FileSystem OffsetManager Cluster Replication Coordinator.

#[local] Existing Instances plain_iter plain_iter_laws.

(** ** Cluster *)
(** Three brokers replicate a partition that broker 1 leads. *)
Definition wstate : PartitionReplicaState := PartitionReplicaState_new "t" 0 1 [1; 2; 3].
(** The leader is alone in sync, at offset 900. *)
Definition wlone : PartitionReplicaState := {|
  prs_topic := "t"; prs_partition := 0; prs_leader := 1; prs_replicas := [1; 2];
  prs_isr := {[1]}; prs_replica_offsets := {[1 := 900; 2 := 100]};
  prs_high_watermark := 900; prs_leader_epoch := 0;
|}.
Definition wcluster : ClusterMetadata := {|
  cm_brokers := ∅; cm_partition_states := {[("t", 0) := wstate]}; cm_broker_id := 1;
  cm_broker_timeout := 30000000000; cm_isr_lag_threshold := 1000;
|}.

Lemma update_replica_offset_spec_witness :
  is_u64 5000 ∧ 0 ≤ 1000 ∧ 5000 + 1000 < 2 ^ 64 ∧
  (let s' := PartitionReplicaState_update_replica_offset 1 5000 1000 wstate in
   1 ∈ prs_isr s' ∧ prs_high_watermark s' = 0) ∧
  1 ∈ prs_isr (PartitionReplicaState_update_replica_offset 1 5000 1000 wstate).
Proof.
  assert (is_u64 5000) as H1 by (unfold is_u64; lia).
  split_and!; [done|done|done|vm_compute; split; [tauto|done]|].
  pose proof (update_replica_offset_spec 1 5000 1000 wstate H1 ltac:(lia) ltac:(lia))
    as (_ & _ & _ & Hin & _).
  apply Hin. vm_compute. discriminate.
Defined.

Lemma high_watermark_regresses_witness :
  prs_high_watermark wlone = 900 ∧
  prs_high_watermark (PartitionReplicaState_update_replica_offset 2 200 1000 wlone) = 200.
Proof.
  split; [done|]. apply (high_watermark_regresses 2 200 1000 wlone 900); vm_compute; done.
Defined.

Lemma isr_admits_strangers_witness :
  (7 ∉ prs_replicas wlone) ∧ 7 ∈ prs_isr (PartitionReplicaState_update_replica_offset 7 10 1000 wlone).
Proof.
  assert (7 ∉ prs_replicas wlone) as Hn.
  { cbn [wlone prs_replicas]. intros Hin. apply elem_of_cons in Hin as [|[|?%elem_of_nil]%elem_of_cons]; done. }
  split; [done|].
  apply (isr_admits_strangers 7 10 1000 wlone); [done|done|vm_compute; discriminate|vm_compute; done].
Defined.

Lemma handle_broker_failure_spec_witness :
  cm_partition_states wcluster !! ("t", 0) = Some wstate ∧
  ∃ s', cm_partition_states (handle_broker_failure 1 wcluster).1 !! ("t", 0) = Some s' ∧
    prs_leader s' ≠ 1.
Proof.
  assert (cm_partition_states wcluster !! ("t", 0) = Some wstate) as Hs by done.
  split; [done|].
  destruct (handle_broker_failure_spec 1 wcluster ("t", 0) wstate Hs) as (s' & Hs' & _ & Hl).
  exists s'. split; [done|]. apply Hl; [done|]. exists 2. split; [|done].
  vm_compute. tauto.
Defined.

Lemma failed_broker_reelects_itself_witness :
  prs_leader wlone = 1 ∧ prs_isr wlone ⊆ {[1]} ∧ prs_replicas wlone = [1; 2] ∧
  (fail_broker 1 wlone).2 = Some 1.
Proof.
  assert (prs_isr wlone ⊆ {[1]}) as Hi by done.
  split_and!; [done|done|done|].
  apply (failed_broker_reelects_itself 1 [2] wlone); [done|exact Hi|done].
Defined.

(** The partition after its leader reported an offset and failed: broker 1, still a
    replica, was replaced. *)
Definition wreached : ClusterMetadata :=
  (handle_broker_failure 1 (ClusterMetadata_update_replica_offset "t" 0 1 5000
    (set_partition_replicas "t" 0 1 [1; 2; 3] (ClusterMetadata_new 1 30000000000 1000)))).1.
Lemma wreached_steps : rtc cluster_step (ClusterMetadata_new 1 30000000000 1000) wreached.
Proof.
  eapply rtc_l; [by apply (step_set_replicas "t" 0 1 [1; 2; 3]); left|].
  eapply rtc_l; [by apply (step_update_offset "t" 0 1 5000)|].
  apply rtc_once, step_failure.
Qed.
Lemma leader_in_sync_invariant_witness :
  ∃ s, cm_partition_states wreached !! ("t", 0) = Some s ∧ prs_leader s ≠ 1 ∧
    PartitionReplicaState_is_leader_in_sync s = true.
Proof.
  destruct (cm_partition_states wreached !! ("t", 0)) as [s|] eqn:Hs.
  2: { exfalso. vm_compute in Hs. discriminate Hs. }
  exists s. split; [done|]. split.
  - assert (prs_leader <$> cm_partition_states wreached !! ("t", 0) ≠ Some 1) as Hne
      by (vm_compute; discriminate).
    rewrite Hs in Hne. intros Heq. apply Hne. cbn [fmap option_fmap option_map]. by rewrite Heq.
  - exact (proj1 (leader_in_sync_invariant 1 30000000000 1000 wreached "t" 0 s wreached_steps Hs)).
Defined.

(** ** Coordinator *)
Definition wmember (id : string) : GroupMember := {|
  gm_member_id := id; gm_topics := ["t"]; gm_last_heartbeat := 0; gm_assignments := [];
|}.
Definition wgroup : ConsumerGroup := {|
  cg_group_id := "g"; cg_members := {["a" := (wmember "a"); "b" := (wmember "b")]}; cg_generation := 0;
|}.
Definition wcoordinator : GroupCoordinator := {|
  gc_groups := {["g" := wgroup]}; gc_heartbeat_timeout := 30; gc_topic_partitions := {["t" := 3]};
|}.

Lemma rebalance_covers_witness :
  cg_members wgroup ≠ ∅ ∧
  PartitionAssignment_new "t" 2 ∈ group_assignments (rebalance {["t" := 3]} wgroup).
Proof.
  assert (cg_members wgroup ≠ ∅) as Hne by done.
  split; [done|]. destruct (rebalance_covers {["t" := 3]} wgroup Hne) as [_ Hall].
  apply Hall. split; [exists "a", (wmember "a"); split; [done|by left]|].
  exists 3. split; [done|]. vm_compute. split; [discriminate|done].
Defined.

Lemma rebalance_balanced_witness :
  is_Some (cg_members (rebalance {["t" := 3]} wgroup) !! "a") ∧
  is_Some (cg_members (rebalance {["t" := 3]} wgroup) !! "b") ∧
  ∀ m m', cg_members (rebalance {["t" := 3]} wgroup) !! "a" = Some m →
    cg_members (rebalance {["t" := 3]} wgroup) !! "b" = Some m' →
    (length (gm_assignments m) ≤ S (length (gm_assignments m')))%nat.
Proof.
  split_and!; [vm_compute; by eexists|vm_compute; by eexists|].
  intros m m' Hm Hm'. exact (rebalance_balanced {["t" := 3]} wgroup "a" "b" m m' Hm Hm').
Defined.

Lemma coordinator_invariant_witness :
  coordinator_inv wcoordinator ∧
  coordinator_inv (join_group 0 "0a1b2c3d" "g" None ["t"] wcoordinator).1.
Proof.
  assert (coordinator_inv wcoordinator) as Hw.
  { intros gid g. cbn [wcoordinator gc_groups]. intros [_ <-]%lookup_singleton_Some.
    split; [done| |vm_compute; constructor].
    intros id m. cbn [wgroup cg_members].
    intros [[<- <-]|[_ [<- <-]%lookup_singleton_Some]]%lookup_insert_Some; done. }
  split; [done|]. apply (coordinator_invariant wcoordinator), Hw.
Defined.

Lemma join_group_spec_witness :
  ∃ c' l, join_group 5 "0a1b2c3d" "g" (Some "c") ["t"] wcoordinator = (c', Ok ("c", l)) ∧
    gc_groups c' !! "h" = None.
Proof.
  destruct (join_group_spec 5 "0a1b2c3d" "g" (Some "c") ["t"] wcoordinator)
    as (c' & l & Hj & _ & Hother & _).
  exists c', l. split; [done|]. by rewrite Hother.
Defined.

(** At time 100 both members are dead, and the group goes away. *)
Lemma check_heartbeats_spec_witness :
  gc_groups (check_heartbeats (λ _, 100) wcoordinator) !! "g" = None.
Proof. rewrite (check_heartbeats_spec (λ _, 100) wcoordinator "g"). vm_compute. reflexivity. Defined.

(** ** Offsets *)
Definition woffsets_dir : path := ["data"; "offsets"].
Definition woffsets : OffsetManager := {| om_offsets := ∅; om_data_dir := woffsets_dir |}.
Definition woffsets_disk : disk := create_dir_all empty_disk woffsets_dir.

Lemma woffsets_fresh name :
  files empty_disk !! path_join woffsets_dir name = None ∧ path_join woffsets_dir name ∉ dirs empty_disk.
Proof. split; [done|]. apply not_elem_of_empty. Qed.
Lemma woffsets_ok : Offsets_ok woffsets_disk woffsets.
Proof.
  destruct (OffsetManager_new_aux empty_disk ["data"] woffsets_fresh) as (d & om & Hn & _ & _ & Hok).
  injection Hn as <- <-. exact Hok.
Qed.
Lemma wgroup_clean : clean_group "g".
Proof. done. Qed.
Lemma wentry_clean o : is_u64 o → clean_entry ("t", 0, o).
Proof. intros Ho. by split_and!. Qed.

(** Two commits, a restart and a third commit. *)
Definition wops : list offset_op :=
  [OpCommit "g" "t" 0 5; OpCommit "g" "t" 0 7; OpRestart; OpCommit "h" "t" 0 9].
Lemma OffsetManager_run_witness :
  ∃ d0 om0 d1 om1, OffsetManager_new ["data"] empty_disk = (d0, Ok om0) ∧
    run_ops ["data"] wops (d0, om0) = ((d1, om1), Ok tt) ∧ fetch_offset "g" "t" 0 om1 = Ok (Some 7).
Proof.
  destruct (OffsetManager_run empty_disk ["data"] wops) as (d0 & om0 & d1 & om1 & Hn & Hr & Hf).
  - apply woffsets_fresh.
  - repeat (constructor; [first [done|split; [done|by apply wentry_clean]]|]). constructor.
  - exists d0, om0, d1, om1. split; [exact Hn|]. split; [exact Hr|]. rewrite Hf. reflexivity.
Defined.

Lemma commit_offset_spec_witness :
  ∃ d' om', commit_offset "g" "t" 0 5 (woffsets_disk, woffsets) = ((d', om'), Ok tt) ∧
    om_offsets om' = {[("g", "t", 0) := 5]}.
Proof.
  destruct (commit_offset_spec woffsets_disk woffsets "g" "t" 0 5 woffsets_ok wgroup_clean)
    as (d' & om' & Hc & Hm & _); [by apply wentry_clean|].
  exists d', om'. split; [exact Hc|]. rewrite Hm. apply insert_empty.
Defined.

Lemma delete_group_spec_witness :
  ∃ d' om', delete_group "g" (woffsets_disk, woffsets) = ((d', om'), Ok tt) ∧
    fetch_offset "g" "t" 0 om' = Ok None.
Proof.
  destruct (delete_group_spec woffsets_disk woffsets "g" woffsets_ok) as (d' & om' & Hd & Hf & _).
  exists d', om'. split; [exact Hd|]. rewrite Hf. reflexivity.
Defined.

(** The commit stops when the file is empty: the offset is lost. *)
Lemma commit_stop_loses_offsets_witness :
  ∃ d1 d2 om1 om2, commit_stopped 0 "g" "t" 0 5 (woffsets_disk, woffsets) = ((d1, om1), Ok tt) ∧
    OffsetManager_restart ["data"] (d1, om1) = ((d2, om2), Ok tt) ∧
    fetch_offset "g" "t" 0 om2 ≠ Ok (Some 5).
Proof.
  destruct (commit_stop_loses_offsets 0 woffsets_disk woffsets ["data"] "g" "t" 0 5 woffsets_ok eq_refl
    wgroup_clean) as (d1 & d2 & om1 & om2 & Hc & Hr & Hf); [by apply wentry_clean|].
  exists d1, d2, om1, om2. split; [exact Hc|]. split; [exact Hr|]. rewrite Hf. intros [_ Hin].
  by apply elem_of_nil in Hin; [|done].
Defined.

Lemma colon_topic_lost_witness :
  ∃ d1 om1 d2 om2, commit_offset "g" "a:b" 0 5 (woffsets_disk, woffsets) = ((d1, om1), Ok tt) ∧
    fetch_offset "g" "a:b" 0 om1 = Ok (Some 5) ∧
    OffsetManager_restart ["data"] (d1, om1) = ((d2, om2), Ok tt) ∧
    fetch_offset "g" "a:b" 0 om2 = Ok None.
Proof.
  apply (colon_topic_lost woffsets_disk woffsets ["data"] "g" "a:b" 0 5 woffsets_ok eq_refl eq_refl); done.
Defined.

(** Two commits write the file of a group with one offset at the same time: the second
    empties what the first has written. *)
Definition wcommitted : OffsetManager :=
  {| om_offsets := {[ ("g"%string, "t"%string, 0) := 7 ]}; om_data_dir := woffsets_dir |}.
Definition wline : string := "t:0=7" +:+ String newline EmptyString.
Lemma concurrent_persists_agree_witness :
  group_lines "g" wcommitted = [wline] ∧
  files (persist_group "g" wcommitted woffsets_disk).1 !! group_file wcommitted "g" =
    Some (bytes_of_string wline).
Proof.
  assert (group_lines "g" wcommitted = [wline]) as Hl by (vm_compute; reflexivity).
  split; [exact Hl|].
  apply (concurrent_persists_agree woffsets_disk wcommitted "g" [Byte.x61] [Waiting; Waiting]
    {| ps_content := bytes_of_string wline; ps_writers := [Finished; Finished] |}).
  - apply woffsets_ok.
  - repeat constructor.
  - done.
  - rewrite Hl.
    eapply rtc_l; [apply (step_create _ _ _ 0); done|]. simpl.
    eapply rtc_l; [apply (step_write _ _ _ 0 0 wline []); done|]. simpl.
    eapply rtc_l; [apply (step_create _ _ _ 1); done|]. simpl.
    eapply rtc_l; [apply (step_sync _ _ _ 0 6); done|]. simpl.
    eapply rtc_l; [apply (step_write _ _ _ 1 0 wline []); done|]. simpl.
    eapply rtc_l; [apply (step_sync _ _ _ 1 6); done|]. simpl. reflexivity.
  - repeat constructor.
Defined.

(** ** Replication *)
Definition wbroker (id : Z) : BrokerInfo := BrokerInfo_new 0 id "localhost" 9092.
Definition wcluster3 : ClusterMetadata := {|
  cm_brokers := {[1 := wbroker 1; 2 := wbroker 2; 3 := wbroker 3]};
  cm_partition_states := {[("t", 0) := wstate]}; cm_broker_id := 1;
  cm_broker_timeout := 30; cm_isr_lag_threshold := 1000;
|}.
Lemma wcluster3_filed : brokers_filed wcluster3.
Proof.
  intros id b. cbn [wcluster3 cm_brokers].
  intros [[<- <-]|[_ [[<- <-]|[_ [<- <-]%lookup_singleton_Some]]%lookup_insert_Some]]%lookup_insert_Some;
    done.
Qed.

Lemma assign_partition_replicas_spec_witness :
  ∃ leader rs, assign_partition_replicas 10 4 wcluster3 (ReplicationManager_new 2 1000) =
    Ok (leader, leader :: rs) ∧ NoDup (leader :: rs) ∧ length rs = 1%nat.
Proof.
  destruct (assign_partition_replicas_spec 10 4 wcluster3 (ReplicationManager_new 2 1000) wcluster3_filed)
    as (l & rs & Ha & _ & Hs); [done|done|].
  exists l, rs. destruct Hs as (Hnd & _ & Hl & _); [vm_compute; discriminate|].
  split; [done|]. split; [done|]. vm_compute in Hl. by injection Hl.
Defined.

Lemma assign_zero_factor_panics_witness :
  assign_partition_replicas 10 4 wcluster3 (ReplicationManager_new 0 1000) = Panic.
Proof. apply assign_zero_factor_panics; [vm_compute; discriminate|done]. Defined.

(** At time 100 every broker is dead, and broker 1, the leader, is not elected again. *)
Lemma check_broker_health_spec_witness :
  ∃ s', cm_partition_states (check_broker_health 100 wcluster3) !! ("t", 0) = Some s' ∧
    prs_leader s' ≠ 1.
Proof.
  destruct (check_broker_health_spec 100 wcluster3 ("t", 0) wstate) as (s' & Hs' & _ & Hd); [done|].
  exists s'. split; [done|]. apply (Hd 2).
  - vm_compute. tauto.
  - intros [_ (k & s & Hk & Hl)]. cbn [wcluster3 cm_partition_states] in Hk.
    apply lookup_singleton_Some in Hk as [_ <-]. done.
  - split; [vm_compute; intros Hin; by apply elem_of_nil in Hin|].
    exists ("t", 0), wstate. done.
Defined.

Lemma stale_broker_bumps_epochs_witness :
  ∃ s', cm_partition_states (check_broker_health 100
      (cm_set_states {[("t", 0) := wlone]} wcluster3)) !! ("t", 0) = Some s' ∧
    prs_leader s' = 1 ∧ w32 (prs_leader_epoch s') = 1.
Proof.
  destruct (stale_broker_bumps_epochs 100 (cm_set_states {[("t", 0) := wlone]} wcluster3) 1 ("t", 0) wlone)
    as (s' & Hs & Hl & He).
  - vm_compute. intros Hin. by apply elem_of_nil in Hin.
  - intros k s. cbn [cm_set_states cm_partition_states]. intros [_ <-]%lookup_singleton_Some. done.
  - done.
  - exists s'. split; [exact Hs|]. split; [exact Hl|]. rewrite He. vm_compute. reflexivity.
Defined.
