(* ===== verification/ServerWitnesses.v ===== *)
(** * ServerWitnesses: the theorems of the server at concrete inputs

    One broker with the default configuration on an empty disk, and a few requests. *)
From Stdlib Require Import Strings.Byte.
From S2P Require Import Prelude Bytes Text Common Messages Codec Compression DiskRecord Instances.
From S2P Require Import FileSystem OffsetIndex Retention Segment Partition Topic.
From S2P Require Import OffsetManager Cluster Replication Coordinator Server ServerRuns.

#[local] Existing Instances crc32_ieee crc32_ieee_laws store_lib store_lib_laws plain_iter plain_iter_laws.

Definition wconf : BrokerConfig := BrokerConfig_default.
Definition wenv : env := {| env_now := 10; env_uuid := "0a1b2c3d" |}.
Definition wm (b : Byte.byte) : Message := {| msg_key := None; msg_value := [b]; msg_timestamp := 5 |}.

Lemma wconf_ok : config_ok wconf.
Proof. split; [vm_compute; discriminate|]. unfold is_u64. vm_compute. split; [discriminate|done]. Qed.
Lemma wdisk_unused : unused_dir empty_disk (path_of_string (cfg_data_dir wconf)).
Proof. split; [done|]. intros q _ _. split; [done|]. apply not_elem_of_empty. Qed.
Lemma wm_fits b : message_fits SegmentConfig_default (wm b).
Proof. by apply message_fits_plain. Qed.

(** A topic is created, two messages are produced, the groups and the brokers are checked,
    and a message and an offset are read back. *)
Definition wevents : list broker_event :=
  [Serve wenv (CreateTopic "t" 2); Serve wenv (Produce "t" 1 [wm x61; wm x62]);
   HeartbeatTick (λ _, 20); HealthTick 20; Serve wenv (CommitOffset "g" "t" 1 2);
   Serve wenv (Fetch "t" 1 1 10); Serve wenv (FetchOffset "g" "t" 1)].

Lemma wevents_ok room : (2 ≤ room)%nat → events_ok (cfg_max_isr_lag wconf) empty_broker room wevents.
Proof.
  intros Hroom. unfold wevents. cbn [events_ok event_ok request_ok]. split_and!; try done.
  - repeat (constructor; [apply wm_fits|]). constructor.
  - simpl. lia.
  - intros logs ms Hl Hms. cbn [spec_event spec_step empty_broker bs_topics] in Hl.
    rewrite lookup_empty in Hl. cbn [bs_topics] in Hl. rewrite lookup_insert_eq in Hl. injection Hl as <-. injection Hms as <-.
    done.
Qed.
Lemma wevents_9 : events_ok (cfg_max_isr_lag wconf) empty_broker 9 wevents.
Proof. apply wevents_ok. lia. Qed.

Lemma wevents_answers rs :
  responses_ok empty_broker wevents rs →
  ∃ r1 r3, rs = [r1; Some (ProduceSuccess "t" 1 0 2); None; None; r3;
    Some (FetchSuccess "t" 1 (records_at "t" 1 1 [wm x62])); Some (FetchOffsetSuccess "g" "t" 1 2)].
Proof.
  intros Hrs. unfold wevents in Hrs.
  apply responses_ok_cons in Hrs as (? & ? & -> & (x1 & -> & _) & Hrs).
  apply responses_ok_cons in Hrs as (? & ? & -> & (x2 & -> & H2) & Hrs).
  apply responses_ok_cons in Hrs as (? & ? & -> & -> & Hrs).
  apply responses_ok_cons in Hrs as (? & ? & -> & -> & Hrs).
  apply responses_ok_cons in Hrs as (? & ? & -> & (x3 & -> & _) & Hrs).
  apply responses_ok_cons in Hrs as (? & ? & -> & (x4 & -> & H4) & Hrs).
  apply responses_ok_cons in Hrs as (? & ? & -> & (x5 & -> & H5) & ->%responses_ok_nil).
  assert (x2 = ProduceSuccess "t" 1 0 2) as -> by (rewrite H2; vm_compute; reflexivity).
  assert (x4 = FetchSuccess "t" 1 (records_at "t" 1 1 [wm x62])) as -> by (rewrite H4; vm_compute; reflexivity).
  assert (x5 = FetchOffsetSuccess "g" "t" 1 2) as -> by (rewrite H5; vm_compute; reflexivity).
  exists (Some x1), (Some x3). reflexivity.
Qed.


(** A broker that holds a topic with messages. *)
Definition wbroker_spec : broker_spec := foldl spec_event empty_broker wevents.
Lemma wserver : ∃ s, Server_holds s wbroker_spec 7 ∧ sv_config s = wconf.
Proof.
  destruct (first_start_aux 0 wconf empty_disk 9 wconf_ok wdisk_unused) as (s0 & _ & Hc & Hh).
  destruct (run_events_served wevents s0 empty_broker 9 Hh) as (s1 & rs & _ & _ & Hc1 & Hh1).
  { unfold server_lag. rewrite Hc. apply wevents_9. }
  exists s1. split; [exact Hh1|congruence].
Qed.


Lemma broker_restart_witness :
  ∃ s s0 s1 r1 r2, start_broker 100 wconf (sv_disk s) = Ok s0 ∧
    run_events [Serve wenv (Fetch "t" 1 0 10); Serve wenv (FetchOffset "g" "t" 1)] s0 =
      (s1, Ok [r1; r2]) ∧
    r1 = Some (FetchSuccess "t" 1 (records_at "t" 1 0 [wm x61; wm x62])) ∧
    r2 = Some (FetchOffsetSuccess "g" "t" 1 2).
Proof.
  destruct wserver as (s & Hs & Hc).
  destruct (broker_restart 100 wconf s wbroker_spec 7
    [Serve wenv (Fetch "t" 1 0 10); Serve wenv (FetchOffset "g" "t" 1)] Hs wconf_ok)
    as (s0 & s1 & rs & Hs0 & Hrun & Hrs & _); [by rewrite Hc|done|].
  apply responses_ok_cons in Hrs as (? & ? & -> & (x1 & -> & H1) & Hrs).
  apply responses_ok_cons in Hrs as (? & ? & -> & (x2 & -> & H2) & ->%responses_ok_nil).
  eexists s, s0, s1, _, _. split; [exact Hs0|]. split; [exact Hrun|].
  split; [rewrite H1; reflexivity|rewrite H2; reflexivity].
Defined.

Lemma restart_forgets_leaders_witness :
  ∃ s s', start_broker 100 wconf (sv_disk s) = Ok s' ∧
    get_partition_leader "t" 1 (sv_cluster s') = None.
Proof.
  destruct wserver as (s & Hs & Hc).
  destruct (restart_forgets_leaders 100 wconf s wbroker_spec 7 wenv 1 "t" 1 0 Hs wconf_ok)
    as (s' & Hs' & Hl & _); [by rewrite Hc|].
  by exists s, s'.
Defined.

(** A broker configured without replicas. *)
Definition wconf0 : BrokerConfig := {|
  cfg_host := "h"; cfg_port := 1; cfg_data_dir := "/tmp/gaffa"; cfg_broker_id := 0;
  cfg_replication_factor := 0; cfg_max_isr_lag := 1000;
|}.
Lemma zero_factor_create_panics_witness :
  ∃ s s', process_request wenv (CreateTopic "t" 1) s = (s', Panic) ∧
    is_Some (tm_topics (sv_topic_manager s') !! "t").
Proof.
  destruct (first_start_aux 0 wconf empty_disk 9 wconf_ok wdisk_unused) as (s0 & _ & _ & Hh).
  set (s := {| sv_config := wconf0; sv_disk := sv_disk s0; sv_topic_manager := sv_topic_manager s0;
    sv_coordinator := sv_coordinator s0; sv_offset_manager := sv_offset_manager s0;
    sv_cluster := register_broker (BrokerInfo_new 0 0 "h" 1) (ClusterMetadata_new 0 30 1000);
    sv_replication_manager := ReplicationManager_new 0 1000 |}).
  destruct (zero_factor_create_panics wenv "t" 1 s ∅ 9) as (s' & Hp & Hm).
  - apply (sh_topics _ _ _ Hh).
  - done.
  - done.
  - lia.
  - vm_compute. discriminate.
  - done.
  - exists s, s'. split; [exact Hp|].
    destruct (Manager_lookup _ _ _ _ "t" [[]] Hm) as (t & Ht & _); [by rewrite lookup_insert_eq|].
    by exists t.
Defined.

(** A serializer for one response. *)
#[local] Instance wresponse_codec : Bincode Response := {|
  bincode_serialize r := match r with HeartbeatSuccess => inr [x09] | _ => inl "unsupported"%string end;
  bincode_deserialize bs := inr HeartbeatSuccess;
|}.
#[local] Instance wresponse_laws : BincodeLaws Response.
Proof. intros [] bs Hs; by inversion Hs. Qed.

(** A broker with one member of one group. *)
Lemma handle_connection_spec_witness :
  ∃ s s' out, handle_connection [(wenv, Ok (Heartbeat "g" "a"))] (s, []) = ((s', out), Ok tt) ∧
    decode_stream [out] [] = ([], Ok [HeartbeatSuccess]).
Proof.
  destruct (first_start_aux 0 wconf empty_disk 9 wconf_ok wdisk_unused) as (s0 & _ & _ & _).
  set (s := (sv_set_coordinator (join_group 0 "0a1b2c3d" "g" (Some "a") ["t"%string]
    (GroupCoordinator_new 30)).1 s0)).
  assert (∃ s', process_all [(wenv, Heartbeat "g" "a")] s = (s', Ok [HeartbeatSuccess])) as [s' Hp].
  { eexists. vm_compute. reflexivity. }
  exists s, s', (to_be 4 1 ++ [x09]).
  apply (handle_connection_spec [(wenv, Heartbeat "g" "a")] s s' [HeartbeatSuccess]
    (to_be 4 1 ++ [x09]) [to_be 4 1 ++ [x09]] Hp); [vm_compute; reflexivity|by rewrite <-(app_nil_r (to_be 4 1 ++ [x09]))].
Defined.
