(* ===== verification/ClientWitnesses.v ===== *)
(** * ClientWitnesses: the theorems of the clients and of the tasks at concrete inputs

    The broker of [ServerWitnesses], as the connection of a producer and of a consumer and
    as what the tasks share. *)
From Stdlib Require Import Strings.Byte.
From S2P Require Import Prelude Bytes Text Common Messages Codec Compression DiskRecord Instances.
From S2P Require Import FileSystem OffsetIndex Retention Segment Partition Topic.
From S2P Require Import OffsetManager Cluster Replication Coordinator Server ServerRuns Tasks Linear.
From S2P Require Import Partitioner Client Producer Consumer ClientRuns ServerWitnesses.

#[local] Existing Instances crc32_ieee crc32_ieee_laws store_lib store_lib_laws plain_iter plain_iter_laws.
#[local] Instance wconn : Connection BrokerServer := server_connection wenv.
#[local] Instance wbroker_connection : BrokerConnection BrokerServer 1000 := server_broker_connection wenv 1000.

Definition wlogs : topic_logs := [[]; [wm x61; wm x62]].
Lemma wbroker_logs : bs_topics wbroker_spec !! "t" = Some wlogs.
Proof. vm_compute. reflexivity. Qed.
Lemma wserved : ∃ s, serves s wbroker_spec 7.
Proof. destruct wserver as (s & Hs & Hc). exists s. split; [exact Hs|]. unfold server_lag. by rewrite Hc. Qed.

(** ** The producer *)
Definition wmessages : list Message := [wm x63; wm x64; wm x65].
Lemma wmessages_fit : Forall (message_fits SegmentConfig_default) wmessages.
Proof. repeat (constructor; [apply wm_fits|]). constructor. Qed.
Lemma wlogs_room : logs_have_room 1000 wlogs wmessages.
Proof.
  intros i log sub Hl Hsub. unfold wmessages in Hsub.
  repeat match goal with
  | H : _ `sublist_of` _ :: _ |- _ => apply sublist_cons_r in H as [H|(? & -> & H)]
  | H : _ `sublist_of` [] |- _ => apply sublist_nil_r in H as ->
  end; destruct i as [|[|i]]; try discriminate Hl; injection Hl as <-; split; vm_compute; reflexivity.
Qed.

Lemma send_batch_auto_spec_witness :
  ∃ w w' pr' base b' logs', send_batch_auto "t" wmessages (w, Producer_connect) = ((w', pr'), Ok base) ∧
    serves w' b' 4 ∧ bs_topics b' !! "t" = Some logs' ∧
    logs' !! 0%nat = Some [wm x63; wm x65] ∧ logs' !! 1%nat = Some [wm x61; wm x62; wm x64].
Proof.
  destruct wserved as [w Hs].
  destruct (send_batch_auto_spec w Producer_connect wbroker_spec 7 "t" wlogs wmessages Hs wbroker_logs)
    as (w' & pr' & base & ps & b' & logs' & Hsend & Hps & _ & _ & _ & Hs' & _ & _ & Hl & Hlogs).
  - simpl. lia.
  - split; vm_compute; [discriminate|reflexivity].
  - intros c Hc. vm_compute in Hc. discriminate Hc.
  - exact wmessages_fit.
  - simpl. lia.
  - split; vm_compute; [discriminate|reflexivity].
  - exact wlogs_room.
  - exists w, w', pr', base, b', logs'. vm_compute in Hps. injection Hps as _ <-.
    split_and!; [exact Hsend|exact Hs'|exact Hl|rewrite Hlogs; reflexivity..].
Defined.

Lemma send_then_poll_witness :
  ∃ w w1 pr' base w2 pc s rs,
    send_batch_auto "t" wmessages (w, Producer_connect) = ((w1, pr'), Ok base) ∧
    subscribe ["t"%string] (w1, new_process) = ((w2, pc), Ok tt) ∧ poll_times 3 2 (w2, pc) = (s, Ok rs) ∧
    ∃ more, filter (λ r, record_key r = ("t"%string, 1)) rs =
      records_at "t" 1 0 ([wm x61; wm x62] ++ more).
Proof.
  destruct wserved as [w Hs].
  destruct (send_then_poll w Producer_connect wbroker_spec 7 "t" wlogs wmessages 3 2)
    as (w1 & pr' & base & ps & w2 & pc & s & rs & Hsend & Hsub & Hpoll & _ & Hrs).
  - lia.
  - exact Hs.
  - exact wbroker_logs.
  - simpl. lia.
  - split; vm_compute; [discriminate|reflexivity].
  - intros c Hc. vm_compute in Hc. discriminate Hc.
  - exact wmessages_fit.
  - simpl. lia.
  - split; vm_compute; [discriminate|reflexivity].
  - exact wlogs_room.
  - split; vm_compute; [discriminate|reflexivity].
  - intros [|[|i]] log Hl; try discriminate Hl; injection Hl as <-; vm_compute; discriminate.
  - exists w, w1, pr', base, w2, pc, s, rs. split_and!; [exact Hsend|exact Hsub|exact Hpoll|].
    eexists. exact (Hrs 1%nat _ eq_refl).
Defined.

(** ** The consumer *)
Definition wsubscribed : Process :=
  {| pc_consumer := cn_set_subscriptions (λ _, {[ "t" := [1] ]}) Consumer_connect; pc_tasks := ∅ |}.
Lemma wsubscribed_inv t ps :
  cn_subscriptions (pc_consumer wsubscribed) !! t = Some ps → t = "t"%string ∧ ps = [1].
Proof. by intros [<- <-]%(proj1 (lookup_singleton_Some (M := gmap string) "t"%string t [1] ps)). Qed.
Lemma wsubscribed_ok : subscriptions_ok wbroker_spec (pc_consumer wsubscribed).
Proof.
  split; intros t ps; [|intros p]; intros [-> ->]%wsubscribed_inv; [repeat constructor; set_solver|].
  intros ->%list_elem_of_singleton. split; [split; vm_compute; [discriminate|reflexivity]|]. split; [split; vm_compute; [discriminate|reflexivity]|].
  exists [wm x61; wm x62]. split; vm_compute; reflexivity.
Qed.
Lemma wsubscription : cn_subscriptions (pc_consumer wsubscribed) !! "t" = Some [1] ∧ 1 ∈ [1].
Proof. split; [reflexivity|by left]. Qed.



Definition wgroup_member (offsets : gmap (string * Z) Z) : Process :=
  on_consumer (cn_set_offsets (λ _, offsets)) (on_consumer (with_group_id "g") new_process).
Definition wassignment (p : Z) : PartitionAssignment := {| pa_topic := "t"; pa_partition := p |}.
Lemma group_resumes_witness :
  ∃ s w1 w2 offsets, commit_offsets (s, wgroup_member {[ ("t"%string, 0) := 5 ]}) =
      ((w1, wgroup_member {[ ("t"%string, 0) := 5 ]}), Ok tt) ∧
    init_offsets [wassignment 0; wassignment 1] (w1, wgroup_member ∅) = ((w2, wgroup_member offsets), Ok tt) ∧
    offsets !! ("t"%string, 0) = Some 5 ∧ offsets !! ("t"%string, 1) = Some 2.
Proof.
  destruct wserved as [s Hs].
  destruct (group_resumes s (wgroup_member {[ ("t"%string, 0) := 5 ]}) (wgroup_member ∅) wbroker_spec 7 "g"
    [wassignment 0; wassignment 1] Hs) as (w1 & w2 & b' & offsets & Hc & Hi & _ & _ & _ & Ho).
  - done.
  - reflexivity.
  - reflexivity.
  - apply (map_Forall_singleton (M := gmap (string * Z)) _ ("t"%string, 0) 5). split_and!; try done; vm_compute; (discriminate || reflexivity).
  - exists s, w1, w2, offsets. split_and!; [exact Hc|exact Hi| |].
    + etrans; [exact (Ho (wassignment 0) ltac:(by left))|]. vm_compute. reflexivity.
    + etrans; [exact (Ho (wassignment 1) ltac:(by right; left))|]. vm_compute. reflexivity.
Defined.

Lemma subscribe_spec_witness :
  ∃ s w' c', subscribe ["t"%string] (s, new_process) = ((w', on_consumer (λ _, c') new_process), Ok tt) ∧
    cn_subscriptions c' !! "t" = Some [0; 1].
Proof.
  destruct wserved as [s Hs].
  destruct (subscribe_spec ["t"%string] s new_process wbroker_spec 7 Hs (new_process_subscribed _))
    as (w' & c' & Hsub & _ & _ & Ht).
  - repeat constructor. exists wlogs. split; [exact wbroker_logs|]. repeat constructor; vm_compute; discriminate.
  - exists s, w', c'. split; [exact Hsub|]. rewrite (proj1 (Ht "t"%string)). vm_compute. reflexivity.
Defined.

(** ** Interleaved requests *)
Definition wworld (s : BrokerServer) : World := {| wd_server := s; wd_generation := ∅; wd_replaced := ∅ |}.

(** Three connections: a produce, a fetch of the same partition and a commit. *)
Definition wconnections : connections :=
  {[ 0%nat := inl (Produce "t" 1 [wm x63]); 1%nat := inl (Fetch "t" 1 0 10);
     2%nat := inl (CommitOffset "g" "t" 1 1) ]}.
Definition wtasks : gmap nat task :=
  {[ 0%nat := ProduceLookup "t" 1 [wm x63]; 1%nat := FetchLookup "t" 1 0 10;
     2%nat := CommitMemory "g" "t" 1 1 ]}.

Lemma wconnections_inv i c :
  wconnections !! i = Some c →
  (i = 0%nat ∧ c = inl (Produce "t" 1 [wm x63])) ∨ (i = 1%nat ∧ c = inl (Fetch "t" 1 0 10)) ∨
  (i = 2%nat ∧ c = inl (CommitOffset "g" "t" 1 1)).
Proof.
  unfold wconnections. intros Hc. apply lookup_insert_Some in Hc as [[<- <-]|[_ Hc]]; [by left|].
  apply lookup_insert_Some in Hc as [[<- <-]|[_ Hc]]; [by right; left|].
  apply lookup_singleton_Some in Hc as [<- <-]. by right; right.
Qed.

(** The produce is still in range while it is pending, since nothing else changes the topics. *)
Lemma wconnections_reach a :
  rtc atomic_step (wbroker_spec, 7%nat, wconnections) a →
  (∀ i request, a.2 !! i = Some (inl request) → wconnections !! i = Some (inl request)) ∧
  (is_Some (a.2 !! 0%nat ≫= λ c, match c with inl _ => Some () | _ => None end) →
     bs_topics a.1.1 = bs_topics wbroker_spec ∧ a.1.2 = 7%nat).
Proof.
  intros Hr. pattern a. eapply rtc_ind_r; [|clear; intros x y _ Hxy [Hp Ht]|exact Hr]; [done|].
  destruct Hxy as [b room cs i request response Hi _]. cbn [fst snd] in *. split.
  - intros j r Hj. destruct (decide (i = j)) as [->|Hne]; [by rewrite lookup_insert_eq in Hj|].
    rewrite lookup_insert_ne in Hj by done. by apply Hp.
  - pose proof (wconnections_inv _ _ (Hp _ _ Hi)) as Hc.
    destruct Hc as [[-> [= ->]]|[[-> [= ->]]|[-> [= ->]]]].
    + rewrite lookup_insert_eq. cbn. by intros [? ?].
    + rewrite lookup_insert_ne by done. cbn [spec_step produced]. by rewrite Nat.sub_0_r.
    + rewrite lookup_insert_ne by done. cbn [spec_step produced bs_topics]. by rewrite Nat.sub_0_r.
Qed.

Lemma wconnections_ok : requests_ok 1000 (wbroker_spec, 7%nat, wconnections).
Proof.
  intros b room cs i request Hr Hi. apply wconnections_reach in Hr as [Hp Ht]. cbn [fst snd] in *.
  pose proof (wconnections_inv _ _ (Hp _ _ Hi)) as Hc. destruct Hc as [[-> [= ->]]|[[-> [= ->]]|[-> [= ->]]]].
  - destruct Ht as [Hb ->]; [by rewrite Hi|]. cbn [request_ok]. rewrite Hb.
    split; [split; vm_compute; [discriminate|reflexivity]|]. split; [apply Forall_singleton, wm_fits|].
    split; [simpl; lia|]. split; [split; vm_compute; [discriminate|reflexivity]|].
    intros logs ms Hl Hms. rewrite wbroker_logs in Hl. injection Hl as <-. injection Hms as <-.
    split; vm_compute; reflexivity.
  - repeat split; vm_compute; (discriminate || reflexivity).
  - split; [done|]. split_and!; try done; vm_compute; (discriminate || reflexivity).
Qed.

Lemma wstarted : started wconnections wtasks.
Proof.
  intros i. destruct i as [|[|[|i]]]; try (cbn; eexists; split_and!; [reflexivity|exact I|reflexivity]).
  unfold wconnections, wtasks. by rewrite !lookup_insert_ne, !lookup_singleton_ne by done.
Qed.

Lemma tasks_linearizable_witness :
  ∃ w1 ts1 b1 room1 cs1, let a := (wbroker_spec, 7%nat, wconnections) in
    rtc atomic_step a (b1, room1, cs1) ∧ (∀ i, ts1 !! i ≠ Some Panicked) ∧
    ∃ s, (w1, ts1) = run_schedule wenv [0; 1; 0; 2; 1; 0; 2]%nat (wworld s, wtasks).
Proof.
  destruct wserver as (s & Hs & Hc).
  destruct (run_schedule wenv [0; 1; 0; 2; 1; 0; 2]%nat (wworld s, wtasks)) as [w1 ts1] eqn:Hrun.
  pose proof (run_schedule_steps wenv [0; 1; 0; 2; 1; 0; 2]%nat (wworld s, wtasks)) as Hr. rewrite Hrun in Hr.
  destruct (tasks_linearizable (wworld s) wbroker_spec 7 wconnections wtasks (wworld s) wtasks w1 ts1)
    as (b0 & room0 & cs0 & b1 & room1 & cs1 & H0 & H1 & _ & _ & _ & Hpanic & _).
  - exact Hs.
  - exact wstarted.
  - intros i j name n n' Hi%wconnections_inv _. by destruct Hi as [[_ ?]|[[_ ?]|[_ ?]]].
  - replace (server_lag (wd_server (wworld s))) with 1000; [exact wconnections_ok|].
    unfold server_lag. cbn [wworld wd_server]. by rewrite Hc.
  - done.
  - exact Hr.
  - exists w1, ts1, b1, room1, cs1. split; [by etrans|]. split; [exact Hpanic|]. by exists s.
Defined.

Lemma concurrent_creates_lose_messages_witness :
  ∃ w w1 ts1 w2 ts2, rtc tasks_step (w, race_tasks "u" 1 1 wmessages 10) (w1, ts1) ∧
    ts1 !! 2%nat = Some (Answered (ProduceSuccess "u" 0 0 3)) ∧
    rtc tasks_step (w1, ts1) (w2, ts2) ∧ ts2 !! 3%nat = Some (Answered (FetchSuccess "u" 0 [])).
Proof.
  destruct wserver as (s & Hs & Hc).
  destruct (concurrent_creates_lose_messages (wworld s) wbroker_spec 7 "u" 1 1 wmessages 10)
    as (w1 & ts1 & w2 & ts2 & Hr1 & Hp & _ & Hr2 & Hf & _).
  - exact Hs.
  - vm_compute. reflexivity.
  - split; vm_compute; [discriminate|reflexivity].
  - lia.
  - lia.
  - done.
  - cbn [request_ok]. split; [split; vm_compute; [discriminate|reflexivity]|]. split; [exact wmessages_fit|].
    split; [simpl; lia|]. split; [split; vm_compute; [discriminate|reflexivity]|].
    intros logs ms Hl Hms. replace (server_lag (wd_server (wworld s))) with 1000
        by (unfold server_lag; cbn [wworld wd_server]; by rewrite Hc).
      assert (bs_topics (spec_step wbroker_spec (CreateTopic "u" 1)) !! "u" = Some [[]]) as Hu
        by (vm_compute; reflexivity).
      rewrite Hu in Hl. injection Hl as <-. injection Hms as <-. split; vm_compute; reflexivity.
  - exists (wworld s), w1, ts1, w2, ts2. split_and!; [exact Hr1|exact Hp|exact Hr2|exact Hf].
Defined.
