(* ===== verification/GroupWitnesses.v ===== *)
(** * GroupWitnesses: groups, races and metrics at concrete inputs

    A broker is started and served a few requests by evaluation; the theorems on groups of
    consumers, on what a broker tells their members and on concurrent requests are then
    applied to it. *)
From Stdlib Require Import Strings.Byte.
From S2P Require Import Prelude Bytes Text Common Metrics Messages Codec Compression DiskRecord Instances.
From S2P Require Import FileSystem OffsetIndex Retention Segment Partition Topic.
From S2P Require Import OffsetManager Cluster Replication Coordinator Server ServerRuns ServerGroups.
From S2P Require Import Tasks Linear Races Client Consumer GroupRuns ServerWitnesses ClientWitnesses.

#[local] Existing Instances crc32_ieee crc32_ieee_laws store_lib store_lib_laws plain_iter plain_iter_laws.
#[local] Existing Instances wconn wbroker_connection.

(** ** A broker by evaluation *)
Definition wstarted_broker (config : BrokerConfig) (events : list broker_event) : option BrokerServer :=
  match start_broker 0 config empty_disk with
  | Ok s0 => match run_events events s0 with (s1, Ok _) => Some s1 | _ => None end
  | _ => None
  end.
Lemma wstate_holds config events room :
  config_ok config → unused_dir empty_disk (path_of_string (cfg_data_dir config)) →
  events_ok (cfg_max_isr_lag config) empty_broker room events →
  ∃ s, wstarted_broker config events = Some s ∧ sv_config s = config ∧
    Server_holds s (foldl spec_event empty_broker events) (room - all_produced events).
Proof.
  intros Hc Hu Hok. destruct (first_start_aux 0 config empty_disk room Hc Hu) as (s0 & Hs & Hc0 & Hh).
  destruct (run_events_served events s0 empty_broker room Hh) as (s1 & rs & Hr & _ & Hc1 & Hh1).
  { unfold server_lag. by rewrite Hc0. }
  exists s1. unfold wstarted_broker. rewrite Hs, Hr. split; [reflexivity|]. split; [congruence|exact Hh1].
Qed.
Lemma wbroker_state : ∃ s, wstarted_broker wconf wevents = Some s ∧ Server_holds s wbroker_spec 7 ∧ sv_config s = wconf.
Proof.
  destruct (wstate_holds wconf wevents 9 wconf_ok wdisk_unused wevents_9) as (s & Hs & Hc & Hh).
  exists s. split; [exact Hs|]. split; [exact Hh|exact Hc].
Qed.

(** What can be checked of the state by evaluation. *)
Definition wchecked (config : BrokerConfig) (events : list broker_event) (f : BrokerServer → bool) : bool :=
  match wstarted_broker config events with Some s => f s | None => false end.
Lemma wchecked_Some config events f s : wstarted_broker config events = Some s → wchecked config events f = true → f s = true.
Proof. unfold wchecked. intros ->. exact id. Qed.

(** ** A group *)
Definition wkey : string * Z := ("t"%string, 1).
Definition wpolled (s : BrokerServer) : bool :=
  match Consumer_join_group ["t"%string] (s, new_member "h") with
  | ((s1, pc), Ok tt) =>
      match poll_group 10 (s1, pc) with
      | ((s2, pc2), Ok rs) => bool_decide (cn_offsets (pc_consumer pc2) !! wkey = Some 2 ∧ length rs = 2%nat)
      | _ => false
      end
  | _ => false
  end.
Lemma wpolled_ok : wchecked wconf wevents wpolled = true.
Proof. vm_compute. reflexivity. Qed.

Lemma wbroker_topics : bs_topics wbroker_spec = {["t"%string := wlogs]}.
Proof. vm_compute. reflexivity. Qed.
Lemma wbroker_offsets : bs_offsets wbroker_spec = {[("g"%string, "t"%string, 1) := 2]}.
Proof. vm_compute. reflexivity. Qed.
Lemma wbroker_readable : broker_readable "h" wbroker_spec.
Proof.
  split.
  - intros t [logs Hl]. rewrite wbroker_topics in Hl.
    apply (proj1 (lookup_singleton_Some (M := gmap string) _ _ _ _)) in Hl as [<- <-].
    split; [done|]. exists wlogs. rewrite wbroker_topics. split; [done|].
    split; [split; vm_compute; [discriminate|reflexivity]|]. repeat constructor; vm_compute; reflexivity.
  - intros t p o Ho. rewrite wbroker_offsets in Ho.
    apply (proj1 (lookup_singleton_Some (M := gmap (string * string * Z)) _ _ _ _)) in Ho as [? _]. congruence.
Qed.


(** ** What the broker tells the members *)
Definition wno_group (s : BrokerServer) : bool := bool_decide (gc_groups (sv_coordinator s) !! "h"%string = None).
Lemma wno_group_ok : wchecked wconf wevents wno_group = true.
Proof. vm_compute. reflexivity. Qed.

Lemma join_covers_witness :
  ∃ s s' l g, process_request wenv (JoinGroup "h" None ["t"%string]) s = (s', Ok (JoinGroupSuccess "h" "h-0a1b2c3d" l)) ∧
    gc_groups (sv_coordinator s') !! "h"%string = Some g ∧ NoDup (group_assignments g) ∧
    PartitionAssignment_new "t" 1 ∈ group_assignments g.
Proof.
  destruct wbroker_state as (s & Hs & Hh & Hc).
  destruct (join_covers wenv "h" None ["t"%string] s wbroker_spec 7 Hh)
    as (s' & l & g & m & Hp & _ & Hg & _ & _ & _ & Hnd & _ & Hall & _).
  exists s, s', l, g. split; [exact Hp|]. split; [exact Hg|]. split; [exact Hnd|].
  apply (Hall "t"%string wlogs 1); [left|exact wbroker_logs|vm_compute; split; [discriminate|reflexivity]].
Defined.

Lemma rebalance_not_announced_witness :
  ∃ s s1 l1 s2 l2 s3 a,
    process_request wenv (JoinGroup "h" (Some "a"%string) ["t"%string]) s = (s1, Ok (JoinGroupSuccess "h" "a" l1)) ∧
    process_request wenv (JoinGroup "h" (Some "b"%string) ["t"%string]) s1 = (s2, Ok (JoinGroupSuccess "h" "b" l2)) ∧
    process_request wenv (Heartbeat "h" "a") s2 = (s3, Ok HeartbeatSuccess) ∧ a ∈ l1 ∧ a ∈ l2.
Proof.
  destruct wbroker_state as (s & Hs & Hh & Hc).
  pose proof (wchecked_Some _ _ _ _ Hs wno_group_ok) as Hn. apply bool_decide_eq_true in Hn.
  destruct (rebalance_not_announced wenv wenv wenv "h" (Some "a"%string) (Some "b"%string) "t" s wbroker_spec 7 wlogs
    Hh Hn wbroker_logs) as (s1 & l1 & s2 & l2 & s3 & a & H1 & H2 & H3 & Hl1 & Hl2).
  - simpl. lia.
  - discriminate.
  - exists s, s1, l1, s2, l2, s3, a. split; [exact H1|]. split; [exact H2|]. split; [exact H3|]. split; [exact Hl1|exact Hl2].
Defined.

(** ** Races *)
Definition wsole_leader (s : BrokerServer) : bool :=
  match cm_partition_states (sv_cluster s) !! wkey with
  | Some st => bool_decide (prs_leader st = cm_broker_id (sv_cluster s) ∧ prs_isr st = {[cm_broker_id (sv_cluster s)]})
  | None => false
  end.
Lemma wsole_leader_ok : wchecked wconf wevents wsole_leader = true.
Proof. vm_compute. reflexivity. Qed.

Lemma wproduce_ok b room v :
  (∀ logs ms, bs_topics b !! "t"%string = Some logs → logs !! 1%nat = Some ms →
    Z.of_nat (length (ms ++ [wm v])) + 1000 < 2 ^ 64 ∧ encoded_size SegmentConfig_default 0 (ms ++ [wm v]) < 2 ^ 64) →
  (1 ≤ room)%nat → request_ok 1000 b room (Produce "t" 1 [wm v]).
Proof.
  intros Hl Hr. split; [split; vm_compute; [discriminate|reflexivity]|].
  split; [apply Forall_singleton, wm_fits|]. split; [exact Hr|].
  split; [split; vm_compute; [discriminate|reflexivity]|exact Hl].
Qed.

Lemma produce_reports_race_witness :
  ∃ w w1 ts1 w2 ts2,
    rtc tasks_step (w, {[ 0%nat := ProduceLookup "t" 1 [wm x63]; 1%nat := ProduceLookup "t" 1 [wm x64] ]}) (w1, ts1) ∧
    get_high_watermark "t" 1 (sv_cluster (wd_server w1)) = 4 ∧
    rtc tasks_step (w1, ts1) (w2, ts2) ∧
    ts2 !! 1%nat = Some (Answered (ProduceSuccess "t" 1 3 1)) ∧
    get_high_watermark "t" 1 (sv_cluster (wd_server w2)) = 3.
Proof.
  destruct wbroker_state as (s & Hs & Hh & Hc).
  pose proof (wchecked_Some _ _ _ _ Hs wsole_leader_ok) as Hl. unfold wsole_leader in Hl.
  destruct (cm_partition_states (sv_cluster s) !! wkey) as [st|] eqn:Hst; [|discriminate Hl].
  apply bool_decide_eq_true in Hl.
  assert (server_lag s = 1000) as Hlag by (unfold server_lag; rewrite Hc; reflexivity).
  destruct (produce_reports_race (wworld s) wbroker_spec 7 "t" 1 [wm x61; wm x62] [wm x63] [wm x64] st)
    as (w1 & ts1 & w2 & ts2 & Hr1 & Ha & Hw1 & Hr2 & _ & H1 & _ & _ & Hw2).
  - exact Hh.
  - cbn [wworld wd_server]. rewrite Hlag. apply wproduce_ok; [|simpl; lia].
    intros logs ms Hlogs Hms. rewrite wbroker_logs in Hlogs. injection Hlogs as <-. injection Hms as <-.
    split; vm_compute; reflexivity.
  - cbn [wworld wd_server]. rewrite Hlag. apply wproduce_ok; [|simpl; lia].
    intros logs ms Hlogs Hms. vm_compute in Hlogs. injection Hlogs as <-. injection Hms as <-.
    split; vm_compute; reflexivity.
  - vm_compute. reflexivity.
  - discriminate.
  - discriminate.
  - exact Hst.
  - exact Hl.
  - exists (wworld s), w1, ts1, w2, ts2. split; [exact Hr1|]. split; [exact Hw1|]. split; [exact Hr2|].
    split; [etrans; [exact H1|exact Ha]|exact Hw2].
Defined.

Lemma metadata_not_atomic_witness :
  ∃ w w2 ts1 w1 ts2 response,
    rtc tasks_step (w, {[ 0%nat := start_task (GetMetadata ["u"%string; "v"%string]);
      1%nat := CreateCheck "u" 1; 2%nat := CreateCheck "v" 1 ]}) (w1, ts1) ∧
    rtc tasks_step (w1, ts1) (w2, ts2) ∧ ts2 !! 0%nat = Some (Answered response) ∧
    ¬ response_ok wbroker_spec (GetMetadata ["u"%string; "v"%string]) response.
Proof.
  destruct wbroker_state as (s & Hs & Hh & Hc).
  destruct (metadata_not_atomic (wworld s) wbroker_spec 7 "u" "v" 1 1)
    as (w1 & ts1 & w2 & ts2 & response & Hr1 & _ & _ & Hr2 & Ha & Hn & _).
  - exact Hh.
  - discriminate.
  - vm_compute. reflexivity.
  - vm_compute. reflexivity.
  - split; vm_compute; [discriminate|reflexivity].
  - split; vm_compute; [discriminate|reflexivity].
  - exists (wworld s), w2, ts1, w1, ts2, response. split; [exact Hr1|]. split; [exact Hr2|]. split; [exact Ha|exact Hn].
Defined.

(** ** Replication *)
Definition wconf2 : BrokerConfig := {|
  cfg_host := "h"; cfg_port := 1; cfg_data_dir := "/tmp/gaffa"; cfg_broker_id := 0;
  cfg_replication_factor := 2; cfg_max_isr_lag := 1000;
|}.
Definition wevents2 : list broker_event :=
  [Serve wenv (RegisterBroker 1 "h2" 2); Serve wenv (CreateTopic "t" 1)].
Definition wkey0 : string * Z := ("t"%string, 0).
Definition wfollower (s : BrokerServer) : bool :=
  match cm_partition_states (sv_cluster s) !! wkey0 with
  | Some st => bool_decide (1 ∈ prs_isr st ∧ 1 ≠ cm_broker_id (sv_cluster s) ∧ is_Some (prs_replica_offsets st !! 1))
  | None => false
  end.
Lemma wfollower_ok : wchecked wconf2 wevents2 wfollower = true.
Proof. vm_compute. reflexivity. Qed.

Lemma replication_never_confirms_witness :
  ∃ s s' st', process_request wenv (Produce "t" 0 [wm x61]) s = (s', Ok (ProduceSuccess "t" 0 0 1)) ∧
    cm_partition_states (sv_cluster s') !! wkey0 = Some st' ∧ 1 ∈ prs_isr st' ∧ prs_high_watermark st' = 0.
Proof.
  destruct (wstate_holds wconf2 wevents2 9) as (s & Hs & Hc & Hh).
  { split; [vm_compute; discriminate|]. split; vm_compute; [discriminate|reflexivity]. }
  { exact wdisk_unused. }
  { split; [exact I|]. split; [split; vm_compute; [discriminate|reflexivity]|exact I]. }
  pose proof (wchecked_Some _ _ _ _ Hs wfollower_ok) as Hf. unfold wfollower in Hf.
  destruct (cm_partition_states (sv_cluster s) !! wkey0) as [st|] eqn:Hst; [|discriminate Hf].
  apply bool_decide_eq_true in Hf as (Hin & Hme & Ho).
  destruct (replication_never_confirms wenv "t" 0 [wm x61] s (foldl spec_event empty_broker wevents2) 9 [[]] [] st 1)
    as (s' & st' & Hp & Hst' & Hin' & _ & Hhw).
  - exact Hh.
  - split; [split; vm_compute; [discriminate|reflexivity]|]. split; [apply Forall_singleton, wm_fits|].
    split; [simpl; lia|]. split; [split; vm_compute; [discriminate|reflexivity]|].
    intros logs ms Hlogs Hms. vm_compute in Hlogs. injection Hlogs as <-. injection Hms as <-.
    unfold server_lag. rewrite Hc. split; vm_compute; reflexivity.
  - vm_compute. reflexivity.
  - reflexivity.
  - discriminate.
  - exact Hst.
  - exact Hin.
  - exact Hme.
  - exact Ho.
  - exists s, s', st'. split; [exact Hp|]. split; [exact Hst'|]. split; [exact Hin'|exact Hhw].
Defined.

(** ** Metrics *)
(** A registry that keeps what it accepts and encodes the names. *)
Definition wregister (m : Metric) (r : list Metric) : list Metric * outcome string unit :=
  if valid_metric m && negb (bool_decide (mt_name m ∈ (mt_name <$> r))) then (m :: r, Ok tt)
  else (r, Err "duplicate or invalid metric"%string).
#[local] Instance wprometheus : Prometheus (list Metric) string := {|
  register := wregister;
  gather r := mt_name <$> r;
  encode_families names := Ok (names ≫= bytes_of_string);
|}.
#[local] Instance wprometheus_laws : PrometheusLaws (list Metric) string.
Proof.
  refine {| registered := λ r : list Metric, r |}.
  - intros r m Hv Hn. exists (m :: r). split; [|reflexivity]. cbn. unfold wregister.
    rewrite Hv, bool_decide_eq_false_2; [reflexivity|]. intros (m' & Heq & Hm')%list_elem_of_fmap.
    by apply (Hn m' Hm').
  - by intros r ->.
  - reflexivity.
Defined.

Lemma metrics_register_witness :
  ∃ g', deref_all [MESSAGES_PRODUCED; REQUEST_RATE; MESSAGES_PRODUCED] {| gl_registry := []; gl_ready := [] |} =
      (g', Ok tt) ∧ globals_ok g' ∧ REQUEST_RATE ∈ registered (gl_registry g').
Proof.
  destruct (metrics_register [MESSAGES_PRODUCED; REQUEST_RATE; MESSAGES_PRODUCED]
    {| gl_registry := []; gl_ready := [] |}) as (g' & Hd & Hg & Hin).
  - split; [reflexivity|]. intros m Hm. exfalso. exact (not_elem_of_nil m Hm).
  - assert (Forall (λ m, m ∈ METRICS) [MESSAGES_PRODUCED; REQUEST_RATE; MESSAGES_PRODUCED]) as Hall
      by (apply (bool_decide_unpack _); vm_compute; exact I).
    intros m. exact (proj1 (Forall_forall _ _) Hall m).
  - exists g'. split; [exact Hd|]. split; [exact Hg|]. apply Hin. left. right. left.
Defined.
