(* ===== verification/CrashWitnesses.v ===== *)
(** * CrashWitnesses: the theorems of crashes at concrete inputs

    The broker of [ServerWitnesses] stops in a produce; another one has filled a segment
    with a message as large as a segment, and stops in the rotation that follows. *)
From Stdlib Require Import Strings.Byte.
From S2P Require Import Prelude Bytes Text Common Messages Codec Compression DiskRecord Instances.
From S2P Require Import FileSystem OffsetIndex Retention Segment Partition Recovery Topic.
From S2P Require Import OffsetManager Cluster Replication Coordinator Server ServerRuns Process Crashes.
From S2P Require Import ServerWitnesses.

#[local] Existing Instances crc32_ieee crc32_ieee_laws store_lib store_lib_laws plain_iter plain_iter_laws.

(** The produce of three messages stops 20 bytes into the second one: the first is kept. *)
Lemma wcrash_request s :
  sv_config s = wconf →
  request_ok (server_lag s) wbroker_spec 7 (Produce "t" 1 [wm x63; wm x64; wm x65]).
Proof.
  intros Hc. split; [done|]. split; [repeat (constructor; [apply wm_fits|]); constructor|].
  split; [simpl; lia|]. split; [done|]. intros logs ms Hl Hms.
  assert (bs_topics wbroker_spec !! "t"%string = Some [[]; [wm x61; wm x62]]) as Hb by reflexivity.
  rewrite Hb in Hl. injection Hl as <-. injection Hms as <-. unfold server_lag. rewrite Hc.
  split; vm_compute; reflexivity.
Qed.

Lemma produce_crash_recovers_witness :
  ∃ s s', start_broker 100 wconf (produce_crash "t" 1 [wm x63] (wm x64) 20 s) = Ok s' ∧
    process_request wenv (Fetch "t" 1 1 10) s' =
      (s', Ok (FetchSuccess "t" 1 (records_at "t" 1 1 [wm x62; wm x63]))) ∧
    process_request wenv (FetchOffset "g" "t" 1) s' = (s', Ok (FetchOffsetSuccess "g" "t" 1 2)).
Proof.
  destruct wserver as (s & Hs & Hc). exists s.
  destruct (produce_crash_recovers 100 wconf s wbroker_spec 7 "t" 1 [wm x63] (wm x64) [wm x65] 20
    [[]; [wm x61; wm x62]] [wm x61; wm x62] Hs) as (s' & Hs' & Hread).
  - by rewrite Hc.
  - exact (wcrash_request s Hc).
  - reflexivity.
  - reflexivity.
  - exists s'. split; [exact Hs'|].
    destruct (Hread wenv (Fetch "t" 1 1 10)) as (r1 & -> & ->); [exact I|split_and!; done|].
    destruct (Hread wenv (FetchOffset "g" "t" 1)) as (r2 & -> & ->); [exact I|exact I|].
    split; vm_compute; reflexivity.
Defined.

(** The produce stops before its second message, and the next broker is given another one. *)
Lemma produce_crash_resumes_witness :
  ∃ s s0 s1, start_broker 100 wconf (produce_crash "t" 1 [wm x63] (wm x64) 0 s) = Ok s0 ∧
    run_events [Serve wenv (Produce "t" 1 [wm x66]); Serve wenv (Fetch "t" 1 0 10)] s0 =
      (s1, Ok [Some (ProduceSuccess "t" 1 3 1);
               Some (FetchSuccess "t" 1 (records_at "t" 1 0 [wm x61; wm x62; wm x63; wm x66]))]).
Proof.
  destruct wserver as (s & Hs & Hc). exists s.
  destruct (produce_crash_resumes 100 wconf s wbroker_spec 7 "t" 1 [wm x63] (wm x64) [wm x65]
    [[]; [wm x61; wm x62]] [wm x61; wm x62]
    [Serve wenv (Produce "t" 1 [wm x66]); Serve wenv (Fetch "t" 1 0 10)] Hs wconf_ok)
    as (s0 & s1 & rs & Hs0 & Hrun & Hrs & _).
  - by rewrite Hc.
  - exact (wcrash_request s Hc).
  - reflexivity.
  - reflexivity.
  - discriminate.
  - split; [|split; [|exact I]]; [|split_and!; done].
    split; [done|]. split; [constructor; [apply wm_fits|constructor]|].
    split; [vm_compute; lia|]. split; [done|]. intros logs ms Hl Hms.
    assert (bs_topics (restarted (spec_step wbroker_spec (Produce "t" 1 [wm x63]))) !! "t"%string =
      Some [[]; [wm x61; wm x62; wm x63]]) as Hb by (vm_compute; reflexivity).
    rewrite Hb in Hl. injection Hl as <-. injection Hms as <-. split; vm_compute; reflexivity.
  - apply responses_ok_cons in Hrs as (? & ? & -> & (x1 & -> & H1) & Hrs).
    apply responses_ok_cons in Hrs as (? & ? & -> & (x2 & -> & H2) & ->%responses_ok_nil).
    exists s0, s1. split; [exact Hs0|]. rewrite Hrun, H1, H2. vm_compute. reflexivity.
Defined.

(** A message as large as a segment; its value is never computed. *)
Section big.
Context (v : bytes) (Hv : Z.of_nat (length v) = 2 ^ 30).
Let m : Message := {| msg_key := None; msg_value := v; msg_timestamp := 5 |}.

Lemma wbig_fits : message_fits SegmentConfig_default m.
Proof.
  apply message_fits_plain; [reflexivity|split; [discriminate|reflexivity]|reflexivity|].
  unfold m. cbn [msg_key msg_value key_len]. lia.
Qed.

Lemma wbig_record o : is_u64 o →
  2 ^ 30 ≤ Z.of_nat (length (encoded (make_record SegmentConfig_default o m))) < 2 ^ 32.
Proof.
  intros Ho. destruct (wbig_fits o Ho) as (_ & b & Hb & _). unfold encoded. rewrite Hb.
  apply encode_length in Hb as (w & Hw & Hb).
  rewrite Hb. unfold make_record in *. rewrite decide_True in * by reflexivity. unfold m in *.
  cbn [dr_value dr_compression DiskRecord_new compress dr_key msg_key msg_value key_len] in *.
  injection Hw as <-. lia.
Qed.

(** An empty partition that is appended the message is full. *)
Lemma wbig_full d dir name id p room :
  partition_ok d dir name id p [] room → (1 ≤ room)%nat →
  ∃ d' p' o seg, Partition_append [m] (d, p) = ((d', p'), Ok o) ∧
    last (pt_segments p') = Some seg ∧ LogSegment_should_rotate seg = true.
Proof.
  intros [_ _ _ Hcfg (pre & seg & log1 & log2 & es & Hlog & Hsp)] Hroom.
  change (new_records (pt_config p) 0 []) with (@nil DiskRecord) in Hlog.
  symmetry in Hlog. apply app_nil in Hlog as [-> ->].
  pose proof (ps_segments _ _ _ _ _ _ _ _ _ Hsp) as Hsegs.
  pose proof (ps_active _ _ _ _ _ _ _ _ _ Hsp) as Hact.
  pose proof (ps_at _ _ _ _ _ _ _ _ _ Hsp) as (_ & Hscfg & _).
  destruct (append_active d p 0 [] [] room pre seg es [m] Hsp)
    as (d' & seg' & es' & Happ & Hsp' & _); rewrite ?Hcfg; cbn [length app] in *.
  - discriminate.
  - constructor; [|constructor]. apply wbig_fits. split; [discriminate|reflexivity].
  - assert (is_u64 (0 + Z.of_nat 0)) as Ho by (split; [discriminate|reflexivity]).
    pose proof (wbig_record _ Ho) as Hr. split; [lia|]. split; [simpl; lia|].
    cbn [new_records]. rewrite encode_log_cons, app_nil_r. lia.
  - exact Hroom.
  - exists d', (pt_set_segments (pre ++ [seg']) p), (0 + Z.of_nat 0), seg'. split; [|split].
    + unfold Partition_append. rewrite decide_False by discriminate.
      unfold eff_get, eff_lift, eff_modify, mbind, eff_bind, mret, eff_ret.
      rewrite Hsegs, last_snoc. cbn [ok_or].
      assert (LogSegment_should_rotate seg = false) as ->; [|exact Happ].
      unfold LogSegment_should_rotate. rewrite (si_size _ _ _ _ Hact), Hscfg, Hcfg. reflexivity.
    + cbn [pt_segments pt_set_segments]. apply last_snoc.
    + unfold LogSegment_should_rotate.
      pose proof (ps_at _ _ _ _ _ _ _ _ _ Hsp') as (_ & Hscfg' & _). rewrite Hscfg'.
      rewrite (si_size _ _ _ _ (ps_active _ _ _ _ _ _ _ _ _ Hsp')).
      cbn [pt_config pt_set_segments]. rewrite Hcfg. apply Z.leb_le.
      pose proof (wbig_record (0 + Z.of_nat 0)) as Hr.
      cbn [new_records app]. rewrite encode_log_cons, app_nil_r.
      transitivity (2 ^ 30); [discriminate|]. apply Hr. split; [discriminate|reflexivity].
Qed.

(** The broker of [wserver], after it was produced the message: partition 0 is full. *)
Definition wbig_spec : broker_spec := spec_step wbroker_spec (Produce "t" 0 [m]).
Lemma wbig_server : ∃ s, Server_holds s wbig_spec 6 ∧ sv_config s = wconf ∧ rotates "t" 0 s.
Proof.
  destruct wserver as (s & Hs & Hc).
  assert (bs_topics wbroker_spec !! "t"%string = Some [[]; [wm x61; wm x62]]) as Hl by reflexivity.
  assert (is_u64 (0 + Z.of_nat 0)) as Ho by (split; [discriminate|reflexivity]).
  pose proof (wbig_record _ Ho) as Hr.
  assert (request_ok (server_lag s) wbroker_spec 7 (Produce "t" 0 [m])) as Hreq.
  { split; [split; [discriminate|reflexivity]|]. split; [constructor; [apply wbig_fits|constructor]|].
    split; [simpl; lia|]. split; [split; [discriminate|reflexivity]|]. intros logs ms Hl' Hms.
    rewrite Hl in Hl'. injection Hl' as <-. injection Hms as <-. unfold server_lag. rewrite Hc.
    split; [reflexivity|]. unfold encoded_size. cbn [new_records app].
    rewrite encode_log_cons, app_nil_r. change (make_record SegmentConfig_default 0 m)
      with (make_record SegmentConfig_default (0 + Z.of_nat 0) m). lia. }
  destruct (append_served _ _ _ _ _ _ _ Hs Hreq Hl) as (d & tm & r & Happ & _ & _ & Hs' & _).
  exists (sv_set_topics d tm s). split; [exact Hs'|]. split; [exact Hc|].
  pose proof (Manager_get_topic _ _ _ _ "t" (sh_topics _ _ _ Hs)) as Hget. rewrite Hl in Hget.
  destruct Hget as (t & Ht & Hh).
  pose proof (Topic_get _ _ _ _ _ _ 0 Hh (Z.le_refl 0)) as Hg. cbn [Z.to_nat lookup list_lookup] in Hg.
  destruct Hg as (p & Hp & Hpi & Hok).
  destruct (wbig_full _ _ _ _ _ _ Hok) as (d' & p' & o & seg & Hpa & Hlast & Hfull); [lia|].
  revert Happ. unfold on_topics, on_topic, Topic_append, on_partition. rewrite Ht, Hp, Hpa.
  intros Heq. injection Heq as _ Htm _. unfold rotates. cbn [sv_set_topics sv_topic_manager].
  rewrite <-Htm. unfold TopicManager_get_topic. cbn [tm_topics]. rewrite lookup_insert_eq.
  cbn [ok_or]. rewrite outcome_bind_Ok. unfold Topic_get_partition, get_index. cbn [tp_partitions].
  rewrite list_lookup_insert_eq by (eapply lookup_lt_Some; exact Hpi).
  exists seg. split; [exact Hlast|exact Hfull].
Qed.
End big.

(** The messages of partition 1 were acknowledged, and are lost with the topic. *)
Lemma rotation_crash_loses_topic_witness :
  ∃ s s', start_broker 100 wconf (produce_rotation_crash "t" 0 s) = Ok s' ∧
    process_request wenv (Fetch "t" 1 0 10) s' =
      (s', Ok (FetchError (GaffaError_to_string (TopicNotFound "t")))) ∧
    process_request wenv (FetchOffset "g" "t" 1) s' = (s', Ok (FetchOffsetSuccess "g" "t" 1 2)).
Proof.
  assert (∃ v : bytes, Z.of_nat (length v) = 2 ^ 30) as [v Hv].
  { exists (replicate (Z.to_nat (2 ^ 30)) x61). rewrite length_replicate. apply Z2Nat.id. discriminate. }
  destruct (wbig_server v Hv) as (s & Hs & Hc & Hrot). exists s.
  destruct (rotation_crash_loses_topic 100 wconf s (wbig_spec v) 6 "t" 0
    [[{| msg_key := None; msg_value := v; msg_timestamp := 5 |}]; [wm x61; wm x62]]
    [{| msg_key := None; msg_value := v; msg_timestamp := 5 |}] Hs)
    as (s' & Hs' & Hread & Hgone).
  - by rewrite Hc.
  - reflexivity.
  - reflexivity.
  - discriminate.
  - exact Hrot.
  - exists s'. split; [exact Hs'|]. split.
    + apply (Hgone wenv 1 0 10); split; discriminate || reflexivity.
    + destruct (Hread wenv (FetchOffset "g" "t" 1)) as (r & -> & ->); [exact I|exact I|reflexivity].
Defined.

(** ** Processes *)
Definition wbind (addr : string) : Result unit :=
  if decide (addr = "127.0.0.1:9092"%string) then Ok tt else Err (Io "Address already in use").


Lemma main_address_taken_witness :
  ∃ d1 d2 rs,
    main (λ _, Err (Io "Address already in use")) 0 [] empty_disk = (d1, Err (Io "Address already in use")) ∧
    main wbind 100 wevents d1 = (d2, Ok rs) ∧ length rs = 7%nat.
Proof.
  assert (events_ok (cfg_max_isr_lag BrokerConfig_default) empty_broker reopen_room wevents) as Hok
    by (apply wevents_ok; vm_compute; lia).
  destruct (main_address_taken (λ _, Err (Io "Address already in use")) wbind 0 100 [] wevents empty_disk
    (Io "Address already in use") wdisk_unused eq_refl eq_refl Hok) as (d1 & d2 & rs & H1 & _ & H2 & Hrs).
  destruct (wevents_answers rs Hrs) as (r1 & r3 & ->).
  eexists d1, d2, _. split; [exact H1|]. split; [exact H2|reflexivity].
Defined.
